(* ===== verification/_CoqProject ===== *)
-Q . S2P
Prelude.v
RustStd.v
Extern.v
Instances.v
Target.v
Net.v
NetText.v
ClientAddr.v
Args.v
Token.v
TokenAccess.v
TokenStore.v
TokenTyped.v
TokenSafety.v
TokenSpec.v
Auth.v
AuthSpec.v
HttpProbe.v
TokenApi.v
Proxy.v
AuditLog.v
Tls.v
Listener.v
Logging.v
Main.v
Router.v
RouterTime.v
Testing.v
TestTarget.v
TestToken.v
TestClientAddr.v
TestArgs.v
TestAuth.v
TestHttpProbe.v
TestProxy.v
