(* ===== verification/Prelude.v ===== *)
(** Verification of ws2tcp-router: a proxy that accepts WebSocket connections (WS and WSS) and
    forwards each to the TCP or UDP upstream its request path names ([/tcp:host:port],
    [/udp:host:port]), with Basic credentials, bearer access tokens and an allowlist of open
    targets. The development is a shallow embedding: every function of [src/src/] is an
    executable definition of the same name, the theorems are about those definitions, and the unit
    tests of the source are run on them.

    * The program and the files that model it

    [main] (main.rs) parses the command line and the configuration file (args.rs), sets up logging (logging.rs), builds the
    authentication configuration (auth.rs, with the token service of token.rs), spawns the tasks that
    poll the credentials and target files, builds the TLS configuration (tls.rs), binds the
    listeners (listener.rs) and spawns an accept loop for each. A connection reads its request head
    (http_probe.rs), works out the address it is reported under (client_addr.rs), and is either
    answered as plain HTTP (the health check; the token endpoints of token_api.rs) or handed to the
    WebSocket handshake, whose callback authorizes it and captures its target (proxy.rs,
    target.rs); then the upstream is connected and bytes are forwarded. All tasks share one
    [AuthConfig], whose token service is behind a mutex.

    - [Prelude]: byte strings and their notation, outcomes ([Ok], [Err], [Panicked]), the
      state-error monad [M], collecting results, the hint database and the tactics.
    - [RustStd]: what is used of [str], integers, UTF-8, files, time and [Mutex]; [Net]: [std::net];
      [NetText]: addresses read back what they print.
    - [Extern]: the third-party crates as type classes, operations apart from the laws the theorems
      assume ([Base64Laws], [RingLaws], [SubtleLaws], [HttpLaws]); [Instances]: instances of all of
      them, on which examples and witnesses run.
    - [Target] (target.rs), [ClientAddr] (client_addr.rs), [Args] (args.rs), [Auth] (auth.rs),
      [HttpProbe] (http_probe.rs), [TokenApi] (token_api.rs), [Proxy] (proxy.rs), [Tls] (tls.rs),
      [Listener] (listener.rs), [Logging] (logging.rs), [Main] (main.rs): the data and the
      operations of the source file, then its theorems.
    - [Token] (token.rs): the operations of [TokenService] on [State]; [TokenAccess]: access tokens;
      [TokenStore]: the refresh token store, call by call; [TokenTyped]: what it keeps is of the types of the
      source; [TokenSafety]: the service over every history of calls; [TokenSpec]: an abstract service without housekeeping, which it implements.
    - [AuditLog]: the log lines of connections and sessions, a companion for every function that logs;
      the lines of the start are [start_log] and those of a connection's task [task_log], in [Main].
    - [AuthSpec]: what [Auth] promises to the handshake and the endpoints.
    - [Router]: the running router, connections and file polls interleaved; [RouterTime]: the same
      on a clock, with the pollers' intervals.
    - [Testing] and [TestTarget], [TestToken], [TestClientAddr], [TestArgs], [TestAuth],
      [TestHttpProbe], [TestProxy]: the unit tests of the source, function by function under their
      names, as computations on the model; every one passes. Parsers of third-party crates are
      stand-ins for the inputs of the tests ([TestArgs] shows that its own keep the declarations).

    * How code is modelled

    A Rust [Result] is an [outcome]; [bail!] and [?] sites are constructors of an error type per
    source file, with the data of the message; [expect], overflowing [Instant] additions and a
    poisoned [lock()] are [Panicked]. A method that changes its receiver is a computation of [M],
    which keeps the changes made before a failure or a panic. Strings and byte vectors are byte
    lists; [HashMap] is [gmap]; [u64] addition wraps ([u64_add], a release build). What a call reads
    from its surroundings is an argument: clocks and random bytes ([Env]), files ([Files]), reads
    of a stream (the list of their results), name resolution and socket calls ([Machine], [Network],
    [Syscall]). An asynchronous function is its sequence of awaited results; a [select!] loop is a
    step function over the events it picks ([tcp_step], [udp_step]), which [run_loop] iterates.

    * What the theorems show

    - Tokens. The service implements the abstract one: its sweeps cannot be told from outside
      ([service_refines_spec]). An access token verifies exactly until it expires or its login is ended, over every
      history, sweeps included, and any wall clock that is not set back while a token of an ended
      login is about ([access_token_lifecycle]); the store keeps to its types, panics included
      ([store_stays_typed]); exactly the service's own signatures
      verify ([verify_access_iff]); refreshing rotates ([refresh_rotates]), reuse, while there is room, and logout kill
      the family ([reuse_kills_family], [revoke_kills_family]), no login outlives 30 days
      ([login_lifetime_capped]); the store is bounded and a full store costs nobody a token
      ([store_bounded]; [TokenStore.full_store_keeps_tokens]).
    - Authorization. [authorize_request] grants exactly what it should ([authorize_request_iff]) and
      refuses with the right challenges ([refused_with_challenges]); nothing is done to an upstream
      without a grant for that upstream ([upstream_needs_grant]), and what becomes of a handshake is decided by
      the grant and the path alone ([handshake_decides]); over the
      life of the router only users of the options and of the last usable file get through
      ([only_current_users]), and a change of the credentials file is in force within a second
      ([file_change_in_force_in_time]); a reload is all or nothing ([reload_is_atomic]); what a login hands out
      opens connections ([login_opens_connections]).
    - Robustness. No connection and no start panics, while the clock has room for the lifetimes and a buffer
      of the configured size can exist ([connection_never_panics], [services_of_mode]); the endpoints reject early and are no oracle ([answers_are_no_oracle];
      [TokenApi.auth_request_gate]); heads are read to a bound, in a bounded number of reads, and
      replayed unchanged ([read_request_head_spec], [read_request_head_terminates],
      [replay_stream_spec]); responses are framed ([response_framing]).
    - Forwarding. Bytes, datagram boundaries and pings ([proxy_tcp_transparent],
      [proxy_udp_boundaries]), idle sessions ([proxy_udp_idle]).
    - Logs. Nothing reaches an upstream unlogged ([upstream_is_logged]); a wrong password or token
      leaves no trace ([log_hides_refused_secrets]), the name beside it does
      ([AuditLog.refused_name_is_logged]); a session logs its end only ([AuditLog.session_log_ends]); the
      start announces what it starts ([Main.start_is_announced]).
    - Parsing and options. Targets ([parse_host_port_iff], [parse_target_roundtrip]), address ranges
      and forwarded clients ([range_contains_iff], [select_client_iff], [prepending_cannot_forge]),
      accepted options ([accepted_options_valid], [Args.parsed_options_typed]), among which the command line has precedence
      ([command_line_wins]), printed ranges ([range_reads_back]), credentials files
      ([AuthSpec.load_auth_file_spec]).
    - Flaws. A failing random generator costs a client its login
      ([refresh_random_failure_loses_login]); a lifetime beyond the clock's range poisons the token
      store ([oversized_refresh_ttl_poisons]); the revocation list is not bounded
      ([revoked_grows_without_bound]); a full store lets reuse go unnoticed ([reuse_kills_family]); a system
      clock that is set back readmits the tokens of an ended login ([clock_set_back_readmits]); a
      header line that is not UTF-8 and more than 64 header lines hide the client
      ([non_utf8_line_hides_client], [too_many_headers_hide_client]); a buffer size that no allocation can have
      makes TCP connections panic ([oversized_buffer_panics]); an error of [accept] ends a service
      ([accept_error_ends_service]).

    * Bounds and fuel

    Fuel is always a bound on the work: trimming and lossy decoding take the length of the string
    ([strip_all_spec] shows it is enough), decimal printing 20 digits (every [u64],
    [show_digits_spec]), hexadecimal groups 4 digits. The loops of the program recurse on the
    results they await, so they need none. Theorems about the token store assume that no clock
    reading plus a configured lifetime leaves the range of [Instant] ([fits]: about 2^63 seconds);
    [oversized_refresh_ttl_poisons] shows what happens otherwise. The two clocks of a call are independent
    readings: [Instant], which does not go back, and [SystemTime], which may; the one theorem that relates
    them says so ([kept_up]). Memory does not run out; an allocation beyond [ISIZE_MAX] bytes panics.

    * What is not modelled

    The asynchronous runtime and real concurrency below the granularity of an operation (each
    critical section is a step); the WebSocket, TLS, HTTP, base64 and HMAC implementations
    (interfaces); the parsers that [clap] and [toml] derive from the declarations of the options
    (arguments, with what the declarations ask of them as [cli_declared] and [config_declared]); the
    registry of log subscribers; packaging.

    * Plan

    Next: access tokens in the abstract service; the bytes of the handshake's refusals; the sizes of the pieces the TCP
    loop reads, which its buffer bounds. *)

From Stdlib Require Export Strings.Byte ZArith Lia.
From stdpp Require Export base tactics option numbers countable gmap.
From stdpp Require Export list.
Export stdpp.list_basics.list stdpp.list_relations.list stdpp.list_monad.list.

#[global] Set Default Goal Selector "!".

(** ** Byte strings

    A Rust [String]/[&str] is its UTF-8 byte sequence, a [Vec<u8>]/[&[u8]] a byte sequence: both
    are [list byte] here, so that [as_bytes] is the identity. *)

Abbreviation str := (list byte).
Abbreviation bytes := (list byte).

Inductive raw_literal := RawLiteral (l : list byte).

(** Escapes of string literals: [\r], [\n], [\t], [\q] for a double quote. *)
Fixpoint unescape (bs : list byte) : list byte :=
  match bs with
  | x5c :: x72 :: r => x0d :: unescape r
  | x5c :: x6e :: r => x0a :: unescape r
  | x5c :: x74 :: r => x09 :: unescape r
  | x5c :: x71 :: r => x22 :: unescape r
  | c :: r => c :: unescape r
  | [] => []
  end.

Definition parse_literal (l : list byte) : raw_literal := RawLiteral (unescape l).
Definition print_literal (r : raw_literal) : list byte := match r with RawLiteral l => l end.
Definition literal_type : Type := list byte.
Definition lit (l : list byte) : list byte := l.
Arguments lit _ /.

Declare Scope str_scope.
Delimit Scope str_scope with str.
#[warnings="-via-type-remapping,-via-type-mismatch"]
String Notation literal_type parse_literal print_literal
  (via raw_literal mapping [lit => RawLiteral]) : str_scope.
#[global] Open Scope str_scope.

(** ** Bytes as integers *)

#[global] Instance byte_eq_decision : EqDecision byte := Byte.byte_eq_dec.
#[global] Instance byte_countable : Countable byte.
Proof. apply (inj_countable Byte.to_N Byte.of_N). apply Byte.of_to_N. Defined.

(** The value of a byte, and the byte of a value taken modulo 256. *)
Definition bz (b : byte) : Z := Z.of_N (Byte.to_N b).
Definition zb (z : Z) : byte := default x00 (Byte.of_N (Z.to_N (z mod 256))).

Lemma bz_range b : (0 <= bz b < 256)%Z.
Proof. unfold bz. pose proof (Byte.to_N_bounded b). lia. Qed.

Lemma bz_zb z : bz (zb z) = (z mod 256)%Z.
Proof.
  unfold bz, zb. pose proof (Z.mod_pos_bound z 256 ltac:(lia)) as Hz.
  destruct (Byte.of_N (Z.to_N (z mod 256))) as [b|] eqn:E; cbn.
  - apply Byte.to_of_N in E. lia.
  - apply Byte.of_N_None_iff in E. lia.
Qed.

Lemma zb_bz b : zb (bz b) = b.
Proof.
  unfold zb. pose proof (bz_range b). rewrite Z.mod_small by lia.
  unfold bz. rewrite N2Z.id, Byte.of_to_N. done.
Qed.

#[global] Instance bz_inj : Inj (=) (=) bz.
Proof. intros a b E. rewrite <- (zb_bz a), <- (zb_bz b), E. done. Qed.

(** ** Outcomes and the state-error monad

    A Rust call returns [Ok], returns [Err], or panics. *)

Inductive outcome (E A : Type) : Type :=
  | Ok (a : A)
  | Err (e : E)
  | Panicked.
Arguments Ok {E A} a.
Arguments Err {E A} e.
Arguments Panicked {E A}.

#[global] Instance outcome_eq_dec `{EqDecision E, EqDecision A} : EqDecision (outcome E A).
Proof. solve_decision. Defined.

Definition obind {E A B} (m : outcome E A) (k : A -> outcome E B) : outcome E B :=
  match m with
  | Ok a => k a
  | Err e => Err e
  | Panicked => Panicked
  end.

Definition omap_err {E F A} (f : E -> F) (m : outcome E A) : outcome F A :=
  match m with
  | Ok a => Ok a
  | Err e => Err (f e)
  | Panicked => Panicked
  end.

Definition ok_or {E A} (e : E) (o : option A) : outcome E A :=
  match o with Some a => Ok a | None => Err e end.

Definition is_ok {E A} (m : outcome E A) : bool :=
  match m with Ok _ => true | _ => false end.

Definition is_panic {E A} (m : outcome E A) : bool :=
  match m with Panicked => true | _ => false end.

(** Computations that update a state [S] and may fail with [E] or panic. A failing computation
    keeps the updates made so far, as Rust code does. *)
Definition M (S E A : Type) : Type := S -> outcome E A * S.

Definition ret {S E A} (a : A) : M S E A := fun s => (Ok a, s).
Definition fail {S E A} (e : E) : M S E A := fun s => (Err e, s).
Definition lift {S E A} (o : outcome E A) : M S E A := fun s => (o, s).
Definition get {S E} : M S E S := fun s => (Ok s, s).
Definition modify {S E} (f : S -> S) : M S E unit := fun s => (Ok tt, f s).
Definition bind {S E A B} (m : M S E A) (k : A -> M S E B) : M S E B :=
  fun s =>
    match m s with
    | (Ok a, s') => k a s'
    | (Err e, s') => (Err e, s')
    | (Panicked, s') => (Panicked, s')
    end.

Declare Scope router_scope.
Delimit Scope router_scope with router.
Notation "'let?' x ':=' o 'in' k" := (obind o (fun x => k))
  (at level 10, x name, o at level 100, k at level 200) : router_scope.
Notation "'let?' ' p ':=' o 'in' k" := (obind o (fun p => k))
  (at level 10, p strict pattern, o at level 100, k at level 200) : router_scope.
Notation "'do!' x ':=' m 'in' k" := (bind m (fun x => k))
  (at level 10, x name, m at level 100, k at level 200) : router_scope.
Notation "'do!' ' p ':=' m 'in' k" := (bind m (fun p => k))
  (at level 10, p strict pattern, m at level 100, k at level 200) : router_scope.
Notation "'run!' m 'in' k" := (bind m (fun _ => k))
  (at level 10, m at level 100, k at level 200) : router_scope.
#[global] Open Scope router_scope.

(** ** Generic lemmas *)

(** [Iterator::collect::<Result<Vec<_>, _>>]: the first error stops the collection. *)
Fixpoint collect {E A} (l : list (outcome E A)) : outcome E (list A) :=
  match l with
  | [] => Ok []
  | r :: rest => let? a := r in let? l' := collect rest in Ok (a :: l')
  end.

Lemma collect_Ok {E A} (l : list (outcome E A)) l' :
  collect l = Ok l' <-> l = Ok <$> l'.
Proof.
  revert l'. induction l as [|r l IH]; intros [|a' l']; cbn; try done.
  - destruct r; cbn; [|done..]. destruct (collect l); done.
  - destruct r as [a| |]; cbn; [|done..]. destruct (collect l) as [l0| |]; cbn.
    + split; [intros [= <- <-]; f_equal; by apply IH | intros [= <- Hl]].
      by apply IH in Hl as [= <-].
    + split; [done | intros [= <- Hl]; by apply IH in Hl].
    + split; [done | intros [= <- Hl]; by apply IH in Hl].
Qed.

(** Checking every element and collecting what they stand for: all or the first failure. *)
Lemma collect_check_Ok {X E A} (check : X -> outcome E unit) (f : X -> A) xs l :
  collect ((fun x => let? _ := check x in Ok (f x)) <$> xs) = Ok l <->
  l = f <$> xs /\ Forall (fun x => check x = Ok tt) xs.
Proof.
  revert l. induction xs as [|x xs IH]; intros l; cbn.
  { split; [by intros [= <-] | by intros [-> _]]. }
  rewrite Forall_cons. destruct (check x) as [[]| |]; cbn.
  - split.
    + destruct (collect _) as [l'| |]; cbn; [intros [= <-] | done..].
      by destruct (proj1 (IH l') eq_refl) as [-> Hall].
    + intros (-> & _ & Hall). by rewrite (proj2 (IH (f <$> xs)) (conj eq_refl Hall)).
  - split; [done | by intros (_ & ? & _)].
  - split; [done | by intros (_ & ? & _)].
Qed.

Lemma collect_check_Err {X E A} (check : X -> outcome E unit) (f : X -> A) xs e :
  collect ((fun x => let? _ := check x in Ok (f x)) <$> xs) = Err e <->
  exists xs1 x xs2, xs = xs1 ++ x :: xs2 /\ Forall (fun x => check x = Ok tt) xs1 /\ check x = Err e.
Proof.
  induction xs as [|x xs IH]; cbn.
  { split; [done|]. by intros ([|] & y & xs2 & Hnil & _). }
  destruct (check x) as [[]|e'|] eqn:Hx; cbn.
  - transitivity (collect ((fun x => let? _ := check x in Ok (f x)) <$> xs) = Err e).
    { by destruct (collect _). }
    rewrite IH. split.
    + intros (xs1 & y & xs2 & -> & Hall & Hy). exists (x :: xs1), y, xs2.
      split; [done|]. split; [by constructor | done].
    + intros ([|z xs1] & y & xs2 & [= <- ->] & Hall & Hy); [congruence|].
      exists xs1, y, xs2. apply Forall_cons in Hall as [_ Hall]. done.
  - split; [intros [= ->]; by exists [], x, xs|].
    intros ([|z xs1] & y & xs2 & [= <- ->] & Hall & Hy); [congruence|].
    apply Forall_cons in Hall as [Hz _]. congruence.
  - split; [done|].
    intros ([|z xs1] & y & xs2 & [= <- ->] & Hall & Hy); [congruence|].
    apply Forall_cons in Hall as [Hz _]. congruence.
Qed.

Lemma collect_not_panicked {E A} (l : list (outcome E A)) :
  Forall (fun r => is_panic r = false) l -> is_panic (collect l) = false.
Proof.
  induction 1 as [|r l Hr _ IH]; cbn; [done|]. destruct r; cbn; try done.
  by destruct (collect l).
Qed.

(** The hint database of the development: automation for the common cases. *)
Create HintDb router.
Create Rewrite HintDb router.
#[export] Hint Resolve bz_range : router.
#[export] Hint Rewrite bz_zb zb_bz : router.

(** Splits the matches of the goal and closes the contradictory cases. *)
Ltac split_match :=
  repeat (case_match; simplify_eq/=; try done); try done.

(** Unfolds the state-error monad. *)
Ltac munfold := unfold bind, ret, fail, lift, get, modify in *; cbv beta iota zeta in *.

(** Closes an equation between closed terms by evaluating both sides. *)
Ltac by_eval := lazymatch goal with |- ?x = _ => vm_cast_no_check (eq_refl x) end.

(** The ranges of the bytes whose values the goal mentions. *)
Ltac byte_ranges :=
  repeat match goal with
  | |- context [bz ?a] =>
      lazymatch goal with
      | H : (0 <= bz a < 256)%Z |- _ => fail
      | _ => pose proof (bz_range a)
      end
  end.
