(* ===== verification/RustStd.v ===== *)
(** The parts of Rust's standard library that the sources use: [str] methods, integer parsing and
    printing, UTF-8 validation, big-endian bytes, [Duration] and [Instant] arithmetic. Strings are
    their UTF-8 bytes; a [char] pattern that is ASCII is one byte. *)

From S2P Require Import Prelude.

(** ** Splitting and stripping *)

(** [str::strip_prefix] with a string pattern. *)
Fixpoint strip_prefix (p s : str) : option str :=
  match p, s with
  | [], _ => Some s
  | a :: p', b :: s' => if decide (a = b) then strip_prefix p' s' else None
  | _ :: _, [] => None
  end.

(** [str::strip_suffix]. *)
Definition strip_suffix (p s : str) : option str :=
  @rev byte <$> strip_prefix (rev p) (rev s).

(** [str::starts_with]. *)
Definition starts_with (p s : str) : bool := bool_decide (is_Some (strip_prefix p s)).

(** [str::contains] with a [char]. *)
Definition contains_char (c : byte) (s : str) : bool := bool_decide (c ∈ s).

(** [str::split_once]: at the leftmost occurrence of the pattern. *)
Fixpoint split_once (p s : str) : option (str * str) :=
  match strip_prefix p s with
  | Some rest => Some ([], rest)
  | None =>
      match s with
      | [] => None
      | c :: s' => prod_map (cons c) id <$> split_once p s'
      end
  end.

(** [str::rsplit_once] with a [char]: at the rightmost occurrence. *)
Fixpoint rsplit_once (c : byte) (s : str) : option (str * str) :=
  match s with
  | [] => None
  | x :: s' =>
      match rsplit_once c s' with
      | Some (a, b) => Some (x :: a, b)
      | None => if decide (x = c) then Some ([], s') else None
      end
  end.

(** [str::split] with a predicate on (ASCII) characters: always at least one piece. *)
Fixpoint split_on (sep : byte -> bool) (s : str) : list str :=
  match s with
  | [] => [[]]
  | c :: s' =>
      if sep c then [] :: split_on sep s'
      else
        match split_on sep s' with
        | piece :: rest => (c :: piece) :: rest
        | [] => [[c]]
        end
  end.

Lemma strip_prefix_Some p s r : strip_prefix p s = Some r <-> s = p ++ r.
Proof.
  revert s. induction p as [|a p IH]; intros [|b s]; cbn; try (split; congruence).
  case_decide as E; [subst; rewrite IH|]; split; congruence.
Qed.

Lemma strip_prefix_app p r : strip_prefix p (p ++ r) = Some r.
Proof. by apply strip_prefix_Some. Qed.

Lemma strip_suffix_Some p s r : strip_suffix p s = Some r <-> s = r ++ p.
Proof.
  unfold strip_suffix. rewrite fmap_Some. split.
  - intros (r' & E & ->). apply strip_prefix_Some in E.
    apply (f_equal (@rev byte)) in E. rewrite rev_app_distr, !rev_involutive in E. done.
  - intros ->. exists (rev r). rewrite rev_app_distr, strip_prefix_app, rev_involutive. done.
Qed.

Lemma strip_suffix_app p r : strip_suffix p (r ++ p) = Some r.
Proof. by apply strip_suffix_Some. Qed.

Lemma starts_with_spec p s : starts_with p s = true <-> exists r, s = p ++ r.
Proof.
  unfold starts_with. rewrite bool_decide_eq_true. unfold is_Some.
  split; intros [r Hr]; exists r; by apply strip_prefix_Some.
Qed.

(** The leftmost occurrence is characterised by its position: no earlier suffix of the string
    starts with the pattern. *)
Lemma split_once_Some p s a b :
  split_once p s = Some (a, b) ->
  s = a ++ p ++ b /\ forall a1 a2 r, a = a1 ++ a2 -> a2 <> [] -> s <> a1 ++ p ++ r.
Proof.
  revert a b. induction s as [|c s IH]; intros a b H; cbn in H.
  - destruct (strip_prefix p []) as [r|] eqn:E; [|done]. injection H as <- <-.
    apply strip_prefix_Some in E. split; [done|].
    intros a1 a2 r' Ha Hne. by destruct a1, a2.
  - destruct (strip_prefix p (c :: s)) as [r|] eqn:E.
    + injection H as <- <-. apply strip_prefix_Some in E. split; [done|].
      intros a1 a2 r' Ha Hne. by destruct a1, a2.
    + destruct (split_once p s) as [[a' b']|] eqn:E'; [|done]. injection H as <- <-.
      destruct (IH a' b' eq_refl) as [-> Hmin]. split; [done|].
      intros [|x a1] a2 r Ha Hne Heq; cbn in *.
      * by rewrite Heq, strip_prefix_app in E.
      * injection Ha as <- Ha. injection Heq as Heq. by eapply Hmin.
Qed.

Lemma split_once_char_Some c s a b :
  split_once [c] s = Some (a, b) <-> s = a ++ c :: b /\ c ∉ a.
Proof.
  split.
  - intros H. apply split_once_Some in H as [-> Hmin]. split; [done|].
    intros (a1 & a2 & ->)%list_elem_of_split.
    apply (Hmin a1 (c :: a2) (a2 ++ c :: b) eq_refl); [done|].
    rewrite <- app_assoc. done.
  - intros [-> Hc]. induction a as [|x a IH]; cbn.
    + by rewrite decide_True.
    + apply not_elem_of_cons in Hc as [Hx Hc]. rewrite decide_False by done.
      by rewrite IH.
Qed.

Lemma split_once_char_None c s : split_once [c] s = None <-> c ∉ s.
Proof.
  split.
  - intros H (a & b & -> & Ha)%list_elem_of_split_l.
    by rewrite (proj2 (split_once_char_Some c _ a b) (conj eq_refl Ha)) in H.
  - intros Hc. destruct (split_once [c] s) as [[a b]|] eqn:E; [|done].
    apply split_once_char_Some in E as [-> _]. set_solver.
Qed.

(** Nothing before the first byte of the pattern can start a match. *)
Lemma split_once_skip c p l s :
  c ∉ l -> split_once (c :: p) (l ++ s) = prod_map (app l) id <$> split_once (c :: p) s.
Proof.
  intros Hc. induction l as [|x l IH]; cbn [app].
  - by destruct (split_once (c :: p) s) as [[? ?]|].
  - apply not_elem_of_cons in Hc as [Hx Hc]. cbn [split_once strip_prefix].
    rewrite decide_False by done. rewrite IH by done.
    by destruct (split_once (c :: p) s) as [[? ?]|].
Qed.

Lemma rsplit_once_None c s : rsplit_once c s = None <-> c ∉ s.
Proof.
  induction s as [|x s IH]; cbn; [split; [intros _; apply not_elem_of_nil | done]|].
  rewrite not_elem_of_cons, <- IH.
  destruct (rsplit_once c s) as [[a b]|]; [split; [done | by intros [_ ?]]|].
  case_decide; split; naive_solver.
Qed.

Lemma rsplit_once_Some c s a b :
  rsplit_once c s = Some (a, b) <-> s = a ++ c :: b /\ c ∉ b.
Proof.
  split.
  - revert a b. induction s as [|x s IH]; intros a b H; cbn in H; [done|].
    destruct (rsplit_once c s) as [[a' b']|] eqn:E.
    + injection H as <- <-. by destruct (IH _ _ eq_refl) as [-> Hb].
    + case_decide; [|done]. injection H as <- <-. subst. by apply rsplit_once_None in E.
  - intros [-> Hb]. induction a as [|x a IH]; cbn; [|by rewrite IH].
    by rewrite (proj2 (rsplit_once_None c b)), decide_True.
Qed.

Lemma split_on_nonempty sep s : split_on sep s <> [].
Proof. induction s as [|c s IH]; cbn; split_match. Qed.

(** The pieces hold no separator, and the string is the pieces with separators between them. *)
Lemma split_on_pieces sep s : Forall (fun piece => Forall (fun c => sep c = false) piece) (split_on sep s).
Proof.
  induction s as [|c s IH]; cbn; [repeat constructor|].
  destruct (sep c) eqn:E; [by constructor|].
  destruct (split_on sep s); decompose_Forall_hyps; repeat constructor; auto.
Qed.

Lemma split_on_app sep a c b :
  sep c = true -> split_on sep (a ++ c :: b) = split_on sep a ++ split_on sep b.
Proof.
  intros Hc. induction a as [|x a IH]; cbn [app split_on]; [by rewrite Hc|].
  destruct (sep x); [by rewrite IH|]. rewrite IH.
  destruct (split_on sep a) as [|p ps] eqn:E; [|done].
  by apply split_on_nonempty in E.
Qed.

Lemma split_on_single sep a : Forall (fun c => sep c = false) a -> split_on sep a = [a].
Proof. induction 1 as [|x a Hx _ IH]; cbn; [done|]. by rewrite Hx, IH. Qed.

(** ** Trimming *)

(** The UTF-8 encodings of the characters [char::is_whitespace] accepts (Unicode White_Space). *)
Definition whitespace_chars : list str :=
  [[x09]; [x0a]; [x0b]; [x0c]; [x0d]; [x20]; [xc2; x85]; [xc2; xa0]; [xe1; x9a; x80];
   [xe2; x80; x80]; [xe2; x80; x81]; [xe2; x80; x82]; [xe2; x80; x83]; [xe2; x80; x84];
   [xe2; x80; x85]; [xe2; x80; x86]; [xe2; x80; x87]; [xe2; x80; x88]; [xe2; x80; x89];
   [xe2; x80; x8a]; [xe2; x80; xa8]; [xe2; x80; xa9]; [xe2; x80; xaf]; [xe2; x81; x9f];
   [xe3; x80; x80]].

(** The remainder after the first of the given encodings that starts the string. *)
Fixpoint strip_any (ps : list str) (s : str) : option str :=
  match ps with
  | [] => None
  | p :: ps' => match strip_prefix p s with Some r => Some r | None => strip_any ps' s end
  end.

Fixpoint strip_all (fuel : nat) (ps : list str) (s : str) : str :=
  match fuel with
  | O => s
  | S fuel' => match strip_any ps s with Some r => strip_all fuel' ps r | None => s end
  end.

(** [str::trim_start], [str::trim_end] and [str::trim]. A string is no longer than its bytes, so
    its length is fuel enough. In valid UTF-8 an encoding that ends the bytes ends the string. *)
Definition trim_start (s : str) : str := strip_all (length s) whitespace_chars s.
Definition trim_end (s : str) : str :=
  rev (strip_all (length s) (@rev byte <$> whitespace_chars) (rev s)).
Definition trim (s : str) : str := trim_end (trim_start s).

Lemma strip_any_Some ps s r : strip_any ps s = Some r -> exists p, p ∈ ps /\ s = p ++ r.
Proof.
  induction ps as [|p ps IH]; cbn; [done|].
  destruct (strip_prefix p s) as [r'|] eqn:E.
  - intros [= <-]. exists p. split; [set_solver | by apply strip_prefix_Some].
  - intros (q & Hq & ->)%IH. exists q. split; [set_solver | done].
Qed.

Lemma strip_all_spec fuel ps s :
  Forall (fun p => p <> []) ps -> length s <= fuel ->
  exists l, s = l ++ strip_all fuel ps s /\ strip_any ps (strip_all fuel ps s) = None /\
    (strip_any ps s = None -> l = []).
Proof.
  intros Hps. revert s. induction fuel as [|fuel IH]; intros s Hlen; cbn.
  - exists []. destruct s as [|c s]; [|cbn in Hlen; lia]. split; [done|]. split; [|done].
    destruct (strip_any ps []) as [r|] eqn:E; [|done].
    apply strip_any_Some in E as (p & Hp & E). rewrite Forall_forall in Hps.
    apply Hps in Hp. by destruct p.
  - destruct (strip_any ps s) as [r|] eqn:E; [|by exists []].
    apply strip_any_Some in E as (p & Hp & ->). rewrite Forall_forall in Hps.
    pose proof (Hps p Hp). destruct (IH r) as (l & Hl & Hnone & _).
    + rewrite length_app in Hlen. destruct p; [done|cbn in Hlen; lia].
    + exists (p ++ l). rewrite <- app_assoc, <- Hl. done.
Qed.

(** A string that neither starts nor ends with white space. *)
Definition trimmed (s : str) : Prop :=
  strip_any whitespace_chars s = None /\ strip_any (@rev byte <$> whitespace_chars) (rev s) = None.

Lemma strip_any_app ps s t : strip_any ps (s ++ t) = None -> strip_any ps s = None.
Proof.
  induction ps as [|p ps IH]; cbn; [done|].
  destruct (strip_prefix p s) as [r|] eqn:E.
  - apply strip_prefix_Some in E as ->. by rewrite <- app_assoc, strip_prefix_app.
  - destruct (strip_prefix p (s ++ t)); [done|auto].
Qed.

Lemma whitespace_chars_nonempty : Forall (fun p => p <> []) whitespace_chars.
Proof. repeat constructor; done. Qed.

Lemma whitespace_chars_rev_nonempty : Forall (fun p => p <> []) (@rev byte <$> whitespace_chars).
Proof. cbn. repeat constructor; done. Qed.

(** [trim] removes a prefix and a suffix, and the rest has no white space at either end. *)
Lemma trim_spec s : exists l r, s = l ++ trim s ++ r /\ trimmed (trim s).
Proof.
  unfold trim, trim_end, trim_start.
  destruct (strip_all_spec (length s) _ s whitespace_chars_nonempty ltac:(lia))
    as (l & Hl & Hs & _).
  set (t := strip_all (length s) whitespace_chars s) in *.
  destruct (strip_all_spec (length t) _ (rev t) whitespace_chars_rev_nonempty) as (r & Hr & He & _).
  { rewrite length_rev. lia. }
  set (u := strip_all (length t) _ (rev t)) in *.
  exists l, (rev r).
  assert (Ht : t = rev u ++ rev r).
  { rewrite <- rev_app_distr, <- Hr, rev_involutive. done. }
  split; [by rewrite <- Ht|]. split.
  - eapply strip_any_app. rewrite <- Ht. done.
  - by rewrite rev_involutive.
Qed.

Lemma trim_trimmed s : trimmed s -> trim s = s.
Proof.
  intros [Hs He]. unfold trim, trim_end, trim_start.
  destruct (strip_all_spec (length s) _ s whitespace_chars_nonempty ltac:(lia))
    as (l & Hl & _ & Hnil).
  rewrite (Hnil Hs), app_nil_l in Hl. rewrite <- Hl.
  destruct (strip_all_spec (length s) _ (rev s) whitespace_chars_rev_nonempty) as (r & Hr & _ & Hn).
  { rewrite length_rev. lia. }
  rewrite (Hn He), app_nil_l in Hr. rewrite <- Hr. apply rev_involutive.
Qed.

Lemma trim_idemp s : trim (trim s) = trim s.
Proof. destruct (trim_spec s) as (l & r & _ & Ht). by apply trim_trimmed. Qed.

Lemma trimmed_trim s : trimmed (trim s).
Proof. by destruct (trim_spec s) as (l & r & _ & Ht). Qed.

(** Visible ASCII text has nothing to trim. *)
Lemma strip_any_visible (ps : list str) s :
  Forall (fun p => match p with c :: _ => ~ (33 <= bz c <= 126)%Z | [] => False end) ps ->
  (forall c, head s = Some c -> (33 <= bz c <= 126)%Z) -> strip_any ps s = None.
Proof.
  intros Hps Hs. destruct (strip_any ps s) as [r|] eqn:E; [|done].
  apply strip_any_Some in E as (p & Hp & ->). rewrite Forall_forall in Hps. apply Hps in Hp.
  destruct p as [|c p]; [done|]. exfalso. apply Hp, Hs. done.
Qed.

Lemma trim_visible s : Forall (fun c => 33 <= bz c <= 126)%Z s -> trim s = s.
Proof.
  intros Hs. apply trim_trimmed. split; apply strip_any_visible.
  1,3: repeat constructor; cbn; lia.
  - intros c Hc. destruct s; [done|]. injection Hc as ->. by apply Forall_cons in Hs as [? _].
  - intros c Hc. apply List.Forall_rev in Hs.
    destruct (rev s); [done|]. injection Hc as ->. by apply Forall_cons in Hs as [? _].
Qed.

(** [<[u8]>::trim_ascii]: white space is space, tab, line feed, form feed, carriage return. *)
Definition is_ascii_whitespace (c : byte) : bool :=
  bool_decide (c ∈ [x20; x09; x0a; x0c; x0d]).

Fixpoint drop_while (f : byte -> bool) (s : bytes) : bytes :=
  match s with
  | c :: s' => if f c then drop_while f s' else s
  | [] => []
  end.

Definition trim_ascii (s : bytes) : bytes :=
  rev (drop_while is_ascii_whitespace (rev (drop_while is_ascii_whitespace s))).

(** ** Lines *)

(** [str::lines]: split after every line feed; the line feed, and a carriage return before it, are
    dropped; a final line needs no line feed, and an empty one is not a line. *)
Fixpoint split_inclusive (s : str) : list str :=
  match s with
  | [] => []
  | c :: s' =>
      if decide (c = x0a) then [c] :: split_inclusive s'
      else
        match split_inclusive s' with
        | line :: rest => (c :: line) :: rest
        | [] => [[c]]
        end
  end.

Definition strip_line_end (line : str) : str :=
  match strip_suffix [x0a] line with
  | None => line
  | Some line => default line (strip_suffix [x0d] line)
  end.

Definition lines (s : str) : list str := strip_line_end <$> split_inclusive s.

(** ** ASCII case *)

Definition to_ascii_lowercase (c : byte) : byte :=
  if bool_decide (65 <= bz c <= 90)%Z then zb (bz c + 32) else c.

(** [str::eq_ignore_ascii_case]. *)
Definition eq_ignore_ascii_case (a b : str) : bool :=
  bool_decide (to_ascii_lowercase <$> a = to_ascii_lowercase <$> b).

(** ** Integers *)

Definition U16_MAX : Z := 2 ^ 16 - 1.
Definition U64_MODULUS : Z := 2 ^ 64.
Definition U64_MAX : Z := U64_MODULUS - 1.

(** [char::to_digit(10)] on a byte. *)
Definition to_digit (c : byte) : option Z :=
  if bool_decide (48 <= bz c <= 57)%Z then Some (bz c - 48)%Z else None.

(** The digit loop of [u8::from_str]/[u16::from_str]: checked multiplication, then the digit, then
    checked addition. *)
Fixpoint parse_digits (max acc : Z) (s : str) : option Z :=
  match s with
  | [] => Some acc
  | c :: s' =>
      let acc10 := (acc * 10)%Z in
      if (max <? acc10)%Z then None
      else
        match to_digit c with
        | None => None
        | Some d => if (max <? acc10 + d)%Z then None else parse_digits max (acc10 + d) s'
        end
  end.

(** [from_str] of an unsigned type with maximum [max]: empty input is an error, one leading [+] is
    accepted unless nothing follows it. *)
Definition parse_uint (max : Z) (s : str) : option Z :=
  match s with
  | [] => None
  | c :: digits =>
      if decide (c = x2b) then
        match digits with [] => None | _ => parse_digits max 0 digits end
      else parse_digits max 0 s
  end.

(** [Display] of an unsigned integer: decimal digits without leading zeros. 20 digits are enough
    for every [u64]. *)
Definition digit_char (d : Z) : byte := zb (48 + d).

Fixpoint show_digits (fuel : nat) (n : Z) (acc : str) : str :=
  match fuel with
  | O => acc
  | S fuel' =>
      let acc := digit_char (n mod 10) :: acc in
      if (n / 10 =? 0)%Z then acc else show_digits fuel' (n / 10) acc
  end.

Definition show_uint (n : Z) : str := show_digits 20 n [].

Definition is_digit (c : byte) : bool := bool_decide (48 <= bz c <= 57)%Z.
Definition digits_value (acc : Z) (s : str) : Z :=
  foldl (fun a c => a * 10 + (bz c - 48))%Z acc s.

Lemma digits_value_ge acc s :
  (0 <= acc)%Z -> forallb is_digit s = true -> (acc <= digits_value acc s)%Z.
Proof.
  revert acc. induction s as [|c s IH]; intros acc Hacc; [done|].
  cbn [forallb]. intros [Hc Hs]%andb_true_iff. unfold is_digit in Hc.
  apply bool_decide_eq_true in Hc. unfold digits_value in *. cbn [foldl].
  specialize (IH (acc * 10 + (bz c - 48))%Z ltac:(lia) Hs). lia.
Qed.

(** The checked digit loop computes the value of an all-digit string when it fits. *)
Lemma parse_digits_spec max acc s :
  (0 <= acc <= max)%Z ->
  parse_digits max acc s =
    if forallb is_digit s && (digits_value acc s <=? max)%Z
    then Some (digits_value acc s) else None.
Proof.
  revert acc. induction s as [|c s IH]; intros acc Hacc.
  { cbn. destruct (Z.leb_spec acc max); [done|lia]. }
  cbn [parse_digits forallb]. unfold to_digit, is_digit at 1.
  change (digits_value acc (c :: s)) with (digits_value (acc * 10 + (bz c - 48)) s).
  case_bool_decide as Hd; cbn [andb].
  - destruct (forallb is_digit s) eqn:Hs; cbn [andb].
    + pose proof (digits_value_ge (acc * 10 + (bz c - 48)) s ltac:(lia) Hs) as Hge.
      destruct (Z.ltb_spec max (acc * 10)), (Z.ltb_spec max (acc * 10 + (bz c - 48)));
        try (rewrite IH by lia; done);
        destruct (Z.leb_spec (digits_value (acc * 10 + (bz c - 48)) s) max); done || lia.
    + destruct (Z.ltb_spec max (acc * 10)), (Z.ltb_spec max (acc * 10 + (bz c - 48)));
        try done; by rewrite IH by lia.
  - by destruct (max <? acc * 10)%Z.
Qed.

Lemma parse_digits_bounds max s n : (0 <= max)%Z -> parse_digits max 0 s = Some n -> (0 <= n <= max)%Z.
Proof.
  intros Hmax. rewrite parse_digits_spec by lia.
  destruct (forallb is_digit s) eqn:Hs; [|done]. cbn [andb].
  pose proof (digits_value_ge 0 s ltac:(lia) Hs).
  destruct (Z.leb_spec (digits_value 0 s) max); [|done]. intros [= <-]. lia.
Qed.

Lemma parse_uint_bounds max s n : (0 <= max)%Z -> parse_uint max s = Some n -> (0 <= n <= max)%Z.
Proof.
  intros Hmax. unfold parse_uint. destruct s as [|c s]; [done|].
  case_decide; [destruct s; [done|]|]; by apply parse_digits_bounds.
Qed.

Lemma bz_digit_char d : (0 <= d <= 9)%Z -> bz (digit_char d) = (48 + d)%Z.
Proof. intros. unfold digit_char. rewrite bz_zb, Z.mod_small; lia. Qed.

Lemma digits_value_app acc s t : digits_value acc (s ++ t) = digits_value (digits_value acc s) t.
Proof. apply foldl_app. Qed.

Lemma show_digits_spec fuel n acc :
  (0 <= n < 10 ^ Z.of_nat (S fuel))%Z ->
  exists ds, show_digits (S fuel) n acc = ds ++ acc /\ ds <> [] /\
    forallb is_digit ds = true /\ digits_value 0 ds = n.
Proof.
  revert n acc. induction fuel as [|fuel IH]; intros n acc Hn;
    pose proof (Z.mod_pos_bound n 10 ltac:(lia)) as Hmod;
    pose proof (Z.div_mod n 10 ltac:(lia)) as Hdiv.
  - cbn [show_digits]. rewrite (Z.div_small n 10) by (cbn in Hn; lia). cbn [Z.eqb].
    exists [digit_char (n mod 10)]. cbn. unfold is_digit. rewrite bz_digit_char by lia.
    rewrite bool_decide_eq_true_2 by lia. rewrite Z.mod_small by (cbn in Hn; lia).
    repeat split; lia || done.
  - remember (S fuel) as f. cbn [show_digits]. destruct (Z.eqb_spec (n / 10) 0) as [E|E].
    + exists [digit_char (n mod 10)]. cbn. unfold is_digit. rewrite bz_digit_char by lia.
      rewrite bool_decide_eq_true_2 by lia. repeat split; lia || done.
    + subst f. destruct (IH (n / 10)%Z (digit_char (n mod 10) :: acc)) as (ds & -> & Hne & Hd & Hv).
      { split; [apply Z.div_pos; lia|]. apply Z.div_lt_upper_bound; [lia|].
        rewrite Nat2Z.inj_succ, Z.pow_succ_r in Hn by lia. lia. }
      exists (ds ++ [digit_char (n mod 10)]). rewrite <- app_assoc. split; [done|].
      split; [by destruct ds|]. rewrite forallb_app, Hd, digits_value_app, Hv. cbn.
      unfold is_digit. rewrite bz_digit_char by lia. rewrite bool_decide_eq_true_2 by lia.
      split; [done | lia].
Qed.

Lemma show_uint_spec n :
  (0 <= n < U64_MODULUS)%Z ->
  show_uint n <> [] /\ forallb is_digit (show_uint n) = true /\ digits_value 0 (show_uint n) = n.
Proof.
  intros Hn. destruct (show_digits_spec 19 n []) as (ds & E & Hds).
  { unfold U64_MODULUS in Hn. split; [lia|]. eapply Z.lt_trans; [apply Hn|]. done. }
  unfold show_uint. rewrite E, app_nil_r. done.
Qed.

Lemma is_digit_not c d : is_digit c = true -> is_digit d = false -> c <> d.
Proof. congruence. Qed.

(** Parsing what was printed gives the number back. *)
Lemma parse_show_uint max n :
  (0 <= n <= max)%Z -> (max < U64_MODULUS)%Z -> parse_uint max (show_uint n) = Some n.
Proof.
  intros Hn Hmax. destruct (show_uint_spec n ltac:(lia)) as (Hne & Hd & Hv).
  unfold parse_uint. destruct (show_uint n) as [|c s]; [done|].
  assert (c <> x2b).
  { cbn in Hd. apply andb_true_iff in Hd as [Hc _]. by apply (is_digit_not _ _ Hc). }
  rewrite decide_False by done. rewrite parse_digits_spec by lia. rewrite Hd, Hv. cbn.
  by rewrite (proj2 (Z.leb_le n max)) by lia.
Qed.

Lemma show_uint_chars n c :
  (0 <= n < U64_MODULUS)%Z -> c ∈ show_uint n -> is_digit c = true.
Proof.
  intros Hn Hc. destruct (show_uint_spec n Hn) as (_ & Hd & _).
  rewrite forallb_forall in Hd. apply Hd. by apply list_elem_of_In.
Qed.

(** ** Big-endian bytes *)

(** [u64::to_be_bytes] for [n = 8]. *)
Fixpoint to_be_bytes (n : nat) (z : Z) : bytes :=
  match n with
  | O => []
  | S n' => to_be_bytes n' (z / 256) ++ [zb z]
  end.

(** [u64::from_be_bytes]. *)
Definition from_be_bytes (b : bytes) : Z := foldl (fun a c => a * 256 + bz c)%Z 0%Z b.

Lemma from_be_bytes_snoc b c : from_be_bytes (b ++ [c]) = (from_be_bytes b * 256 + bz c)%Z.
Proof. unfold from_be_bytes. by rewrite foldl_app. Qed.

Lemma length_to_be_bytes n z : length (to_be_bytes n z) = n.
Proof. revert z. induction n as [|n IH]; intros z; cbn; [done|]. rewrite length_app, IH. cbn. lia. Qed.

Lemma from_to_be_bytes n z : from_be_bytes (to_be_bytes n z) = (z mod 256 ^ Z.of_nat n)%Z.
Proof.
  revert z. induction n as [|n IH]; intros z; [by rewrite Z.mod_1_r|].
  cbn [to_be_bytes]. rewrite from_be_bytes_snoc, IH, bz_zb, Nat2Z.inj_succ, Z.pow_succ_r by lia.
  rewrite Z.rem_mul_r; lia.
Qed.

Lemma to_from_be_bytes b : to_be_bytes (length b) (from_be_bytes b) = b.
Proof.
  induction b as [|c b IH] using rev_ind; [done|].
  rewrite length_app, Nat.add_comm. cbn [length Nat.add to_be_bytes].
  rewrite from_be_bytes_snoc. pose proof (bz_range c).
  rewrite Z.div_add_l, (Z.div_small (bz c)), Z.add_0_r, IH by lia. f_equal. f_equal.
  apply (inj bz). rewrite bz_zb, Z.add_comm, Z.mod_add by lia. apply Z.mod_small. lia.
Qed.

Lemma from_be_bytes_range b : (0 <= from_be_bytes b < 256 ^ Z.of_nat (length b))%Z.
Proof.
  rewrite <- (to_from_be_bytes b) at 1 2. rewrite !from_to_be_bytes.
  apply Z.mod_pos_bound. lia.
Qed.

(** ** UTF-8 *)

Definition in_range (lo hi : Z) (c : byte) : bool := ((lo <=? bz c) && (bz c <=? hi))%Z.

(** [str::from_utf8]: well-formed byte sequences (Unicode table 3-7). *)
Fixpoint is_utf8 (s : bytes) : bool :=
  match s with
  | [] => true
  | a :: s1 =>
      if in_range 0 127 a then is_utf8 s1
      else
        match s1 with
        | [] => false
        | b :: s2 =>
            if in_range 194 223 a then in_range 128 191 b && is_utf8 s2
            else
              match s2 with
              | [] => false
              | c :: s3 =>
                  if in_range 224 239 a then
                    (if (bz a =? 224)%Z then in_range 160 191 b
                     else if (bz a =? 237)%Z then in_range 128 159 b
                     else in_range 128 191 b)
                    && in_range 128 191 c && is_utf8 s3
                  else
                    match s3 with
                    | [] => false
                    | d :: s4 =>
                        in_range 240 244 a
                        && (if (bz a =? 240)%Z then in_range 144 191 b
                            else if (bz a =? 244)%Z then in_range 128 143 b
                            else in_range 128 191 b)
                        && in_range 128 191 c && in_range 128 191 d && is_utf8 s4
                    end
              end
        end
  end.

(** [String::from_utf8] and [str::from_utf8]. *)
Definition from_utf8 (s : bytes) : option str := if is_utf8 s then Some s else None.

Lemma from_utf8_Some b s : from_utf8 b = Some s <-> b = s /\ is_utf8 s = true.
Proof. unfold from_utf8. destruct (is_utf8 b) eqn:E; split; intuition congruence. Qed.

(** The first character of a byte sequence: whether it is well formed, and how many bytes it or the
    maximal invalid prefix takes. *)
Definition utf8_step (s : bytes) : bool * nat :=
  let cont c := in_range 128 191 c in
  match s with
  | [] => (true, 1)
  | a :: r =>
      let second b :=
        if (bz a =? 224)%Z then in_range 160 191 b
        else if (bz a =? 237)%Z then in_range 128 159 b
        else if (bz a =? 240)%Z then in_range 144 191 b
        else if (bz a =? 244)%Z then in_range 128 143 b
        else cont b in
      if in_range 0 127 a then (true, 1)
      else if in_range 194 223 a then
        match r with b :: _ => if cont b then (true, 2) else (false, 1) | _ => (false, 1) end
      else if in_range 224 244 a then
        match r with
        | b :: r' =>
            if second b then
              match r' with
              | c :: r'' =>
                  if cont c then
                    if in_range 224 239 a then (true, 3)
                    else
                      match r'' with
                      | d :: _ => if cont d then (true, 4) else (false, 3)
                      | [] => (false, 3)
                      end
                  else (false, 2)
              | [] => (false, 2)
              end
            else (false, 1)
        | [] => (false, 1)
        end
      else (false, 1)
  end.

(** [String::from_utf8_lossy]: every maximal invalid prefix becomes U+FFFD. *)
Fixpoint utf8_lossy (fuel : nat) (s : bytes) : str :=
  match fuel, s with
  | O, _ | _, [] => []
  | S fuel', _ =>
      let '(valid, n) := utf8_step s in
      (if valid : bool then take n s else [xef; xbf; xbd]) ++ utf8_lossy fuel' (drop n s)
  end.
Definition from_utf8_lossy (s : bytes) : str := utf8_lossy (length s) s.

Lemma from_utf8_lossy_ascii s : forallb (in_range 0 127) s = true -> from_utf8_lossy s = s.
Proof.
  unfold from_utf8_lossy. induction s as [|a s IH]; [done|]. cbn [forallb length].
  intros [Ha Hs]%andb_true_iff. cbn [utf8_lossy]. unfold utf8_step. rewrite Ha.
  cbn [take drop app]. rewrite take_0, drop_0. cbn [app]. by rewrite IH.
Qed.

Example lossy_replacement :
  from_utf8_lossy [x61; xff; x62; xe2; x82; x63; xc3; xa9] = [x61; xef; xbf; xbd; x62; xef; xbf; xbd; x63; xc3; xa9].
Proof. reflexivity. Qed.

(** ** Files

    What [fs::read] returns for a path at the time of a call; [fs::read_to_string] also checks that
    it is UTF-8. A path is its text. *)

Abbreviation Files := (str -> option bytes).

Definition read_to_string (fs : Files) (path : str) : option str := fs path ≫= from_utf8.

(** ** Time

    An [Instant] is a number of nanoseconds on the monotonic clock, a [Duration] a number of
    nanoseconds. Where [Instant] is built on a signed 64-bit second counter (Linux), an addition
    that leaves its range panics. *)

Abbreviation Instant := Z.
Abbreviation Duration := Z.
Definition NANOS : Z := 1000000000.
Definition INSTANT_MAX : Z := 2 ^ 63 * NANOS.

Definition from_secs (n : Z) : Duration := (n * NANOS)%Z.
Definition as_secs (d : Duration) : Z := (d / NANOS)%Z.

(** [Instant + Duration]. *)
Definition instant_add {E} (t : Instant) (d : Duration) : outcome E Instant :=
  if (t + d <? INSTANT_MAX)%Z then Ok (t + d)%Z else Panicked.

(** [Instant::saturating_duration_since]. *)
Definition saturating_duration_since (later earlier : Instant) : Duration :=
  Z.max 0 (later - earlier).

Lemma as_from_secs n : as_secs (from_secs n) = n.
Proof. unfold as_secs, from_secs. apply Z.div_mul. done. Qed.

(** [u64] addition in a release build (overflow wraps). *)
Definition u64_add (a b : Z) : Z := ((a + b) mod U64_MODULUS)%Z.

(** ** Mutex

    A panic while the lock is held poisons it; [lock().expect(..)] panics on a poisoned lock. *)

Record Mutex (A : Type) : Type := mkMutex {
  poisoned : bool;
  inner : A;
}.
Arguments mkMutex {A} _ _.
Arguments poisoned {A} _.
Arguments inner {A} _.

Definition mutex_new {A} (a : A) : Mutex A := mkMutex false a.

(** Runs a computation on the protected data with the lock held. *)
Definition with_lock {S E A} (m : M S E A) : M (Mutex S) E A :=
  fun mx =>
    if poisoned mx then (Panicked, mx)
    else let '(r, s) := m (inner mx) in (r, mkMutex (is_panic r) s).
