(* ===== verification/Extern.v ===== *)
(** Interfaces of the third-party crates the sources call, as type classes: the operations, and in
    a class of their own the documented laws the theorems use. Nothing here is a model of their
    code; [Instances] has concrete instances to run the definitions on.

    - [Base64]: crate [base64], the engines [STANDARD] and [URL_SAFE_NO_PAD];
    - [Ring]: crate [ring], HMAC-SHA256 and SHA-256 (random bytes are an input of each call);
    - [Subtle]: crate [subtle], comparison in constant time;
    - [Http]: crate [http] as re-exported by tungstenite, header maps, methods, URIs;
    - [HttParse]: crate [httparse], parsing of a request head.

    The crates [clap] and [toml] only produce values of the types of [Args]; what they return is an
    argument there. *)

From S2P Require Import Prelude RustStd.

(** ** base64 *)

Class Base64 := {
  std_encode : bytes -> str;
  std_decode : str -> option bytes;
  url_encode : bytes -> str;
  url_decode : str -> option bytes;
}.

(** The URL-safe alphabet. *)
Definition url_char (c : byte) : bool :=
  in_range 48 57 c || in_range 65 90 c || in_range 97 122 c || bool_decide (c = x2d)
  || bool_decide (c = x5f).

(** Decoding inverts encoding; both engines refuse every non-canonical spelling (padding and
    trailing bits), so decoding is injective; a URL-safe encoding is in its alphabet. *)
Class Base64Laws `{Base64} := {
  std_decode_encode b : std_decode (std_encode b) = Some b;
  std_encode_decode s b : std_decode s = Some b -> std_encode b = s;
  url_decode_encode b : url_decode (url_encode b) = Some b;
  url_encode_decode s b : url_decode s = Some b -> url_encode b = s;
  url_encode_alphabet b : forallb url_char (url_encode b) = true;
}.

Lemma url_char_facts `{Base64Laws} (P : byte -> bool) b :
  (forall c, url_char c = true -> P c = true) -> forallb P (url_encode b) = true.
Proof.
  intros HP. apply forallb_forall. intros c Hc. apply HP.
  pose proof (url_encode_alphabet b) as Ha. rewrite forallb_forall in Ha. auto.
Qed.

(** A byte outside the alphabet is in no encoding. *)
Lemma url_encode_without `{Base64Laws} c b : url_char c = false -> c ∉ url_encode b.
Proof.
  intros Hc Hin%list_elem_of_In. pose proof (url_encode_alphabet b) as Ha.
  rewrite forallb_forall in Ha. apply Ha in Hin. congruence.
Qed.

(** ** ring *)

Class Ring := {
  Key : Type;
  hmac_key : bytes -> Key;                       (* hmac::Key::new(HMAC_SHA256, _) *)
  hmac_sign : Key -> bytes -> bytes;             (* hmac::sign *)
  hmac_verify : Key -> bytes -> bytes -> bool;   (* hmac::verify, Ok or Err *)
  sha256 : bytes -> bytes;                       (* digest::digest(&SHA256, _) *)
}.

(** Verification recomputes the tag and compares. *)
Class RingLaws `{Ring} := {
  hmac_verify_spec k m t : hmac_verify k m t = true <-> t = hmac_sign k m;
}.

(** ** subtle *)

(** [ConstantTimeEq::ct_eq] on byte slices; what it takes no time about, it still decides. *)
Class Subtle := { ct_eq : bytes -> bytes -> bool }.
Class SubtleLaws `{Subtle} := { ct_eq_spec a b : ct_eq a b = true <-> a = b }.

(** ** http *)

Class Http := {
  HeaderMap : Type;
  headers_new : HeaderMap;
  headers_insert : str -> bytes -> HeaderMap -> HeaderMap;
  headers_append : str -> bytes -> HeaderMap -> HeaderMap;
  headers_get_all : HeaderMap -> str -> list bytes;
  headers_iter : HeaderMap -> list (str * bytes);
  header_name : str -> option str;               (* HeaderName::try_from: lower-cased *)
  header_value : bytes -> option bytes;          (* HeaderValue::from_bytes *)
  header_to_str : bytes -> option str;           (* HeaderValue::to_str *)
  method_from_bytes : bytes -> option str;       (* Method::from_bytes *)
  Uri : Type;
  uri_from_str : str -> option Uri;              (* Uri::try_from *)
  uri_path : Uri -> str;                         (* Uri::path *)
  canonical_reason : Z -> option str;            (* StatusCode::canonical_reason *)
}.

(** A header map keeps the values of a name in order; [insert] replaces, [append] adds. Visible
    ASCII text is a header value and is read back as text; reason phrases are visible ASCII text. *)
Class HttpLaws `{Http} := {
  get_all_new n : headers_get_all headers_new n = [];
  get_all_insert n v m n' :
    headers_get_all (headers_insert n v m) n' =
      if decide (n = n') then [v] else headers_get_all m n';
  get_all_append n v m n' :
    headers_get_all (headers_append n v m) n' =
      if decide (n = n') then headers_get_all m n' ++ [v] else headers_get_all m n';
  iter_get_all m n :
    snd <$> filter (fun nv => nv.1 = n) (headers_iter m) = headers_get_all m n;
  header_to_str_visible v : forallb (in_range 32 126) v = true -> header_to_str v = Some v;
  header_value_visible v : forallb (in_range 32 126) v = true -> header_value v = Some v;
  canonical_reason_visible code r :
    canonical_reason code = Some r -> forallb (in_range 32 126) r = true;
}.

Section http.
Context `{Http}.

(** [HeaderMap::get] and [HeaderMap::contains_key]. *)
Definition headers_get (m : HeaderMap) (n : str) : option bytes := head (headers_get_all m n).
Definition headers_contains (m : HeaderMap) (n : str) : bool :=
  bool_decide (headers_get_all m n <> []).

(** [http::Request<()>] and [http::Response<Option<String>>], the parts the sources read. *)
Record Request : Type := mkRequest {
  req_method : str;
  req_uri : Uri;
  req_headers : HeaderMap;
}.

Record Response : Type := mkResponse {
  status : Z;
  headers : HeaderMap;
  body : option str;
}.

(** [ErrorResponse::new]: status 200 and no headers. *)
Definition response_new (b : option str) : Response := mkResponse 200 headers_new b.
Definition with_status (code : Z) (r : Response) : Response :=
  mkResponse code (headers r) (body r).
Definition with_headers (f : HeaderMap -> HeaderMap) (r : Response) : Response :=
  mkResponse (status r) (f (headers r)) (body r).

(** A header value known to be valid: [value.parse().expect(..)], [HeaderValue::from_static]. *)
Definition expect_header {E} (value : bytes) : outcome E bytes :=
  match header_value value with Some v => Ok v | None => Panicked end.
End http.
Arguments mkRequest {_} _ _ _.
Arguments mkResponse {_} _ _ _.

(** ** httparse *)

Record ParsedRequest : Type := mkParsed {
  parsed_method : option str;
  parsed_path : option str;
  parsed_headers : list (str * bytes);
}.

(** [httparse_request max_headers head] is the request when parsing returns
    [Ok(Status::Complete(_))] with a header table of [max_headers] entries. *)
Class HttParse := {
  httparse_request : nat -> bytes -> option ParsedRequest;
}.
