(* ===== verification/Instances.v ===== *)
(** Concrete instances of the interfaces of [Extern], on which the definitions are evaluated and
    the hypotheses of the theorems are discharged: base64 (RFC 4648, both alphabets), a keyed
    checksum in the place of HMAC and a padding function in the place of SHA-256 (executable
    stand-ins without cryptographic strength), header maps as association lists. *)

From S2P Require Import Prelude RustStd Extern.

(** ** base64 *)

Section alphabet.
(** The two characters that differ between the alphabets: for 62 and 63. *)
Context (c62 c63 : byte).

Definition enc_char (i : Z) : byte :=
  if (i <? 26)%Z then zb (65 + i)
  else if (i <? 52)%Z then zb (71 + i)
  else if (i <? 62)%Z then zb (i - 4)
  else if (i =? 62)%Z then c62 else c63.

Definition dec_char (c : byte) : option Z :=
  if in_range 65 90 c then Some (bz c - 65)%Z
  else if in_range 97 122 c then Some (bz c - 71)%Z
  else if in_range 48 57 c then Some (bz c + 4)%Z
  else if decide (c = c62) then Some 62%Z
  else if decide (c = c63) then Some 63%Z
  else None.

(** Sextets of one, two and three bytes. *)
Definition enc1 (a : byte) : str :=
  [enc_char (bz a / 4); enc_char (bz a mod 4 * 16)].
Definition enc2 (a b : byte) : str :=
  [enc_char (bz a / 4); enc_char (bz a mod 4 * 16 + bz b / 16); enc_char (bz b mod 16 * 4)].
Definition enc3 (a b c : byte) : str :=
  [enc_char (bz a / 4); enc_char (bz a mod 4 * 16 + bz b / 16);
   enc_char (bz b mod 16 * 4 + bz c / 64); enc_char (bz c mod 64)].

Definition dec1 (w x : byte) : option bytes :=
  i ← dec_char w; j ← dec_char x;
  if (j mod 16 =? 0)%Z then Some [zb (i * 4 + j / 16)] else None.
Definition dec2 (w x y : byte) : option bytes :=
  i ← dec_char w; j ← dec_char x; k ← dec_char y;
  if (k mod 4 =? 0)%Z then Some [zb (i * 4 + j / 16); zb (j mod 16 * 16 + k / 4)] else None.
Definition dec3 (w x y z : byte) : option bytes :=
  i ← dec_char w; j ← dec_char x; k ← dec_char y; l ← dec_char z;
  Some [zb (i * 4 + j / 16); zb (j mod 16 * 16 + k / 4); zb (k mod 4 * 64 + l)].

(** With [pad = true] the last group is filled up with [=] and must be so. *)
Fixpoint b64_encode (pad : bool) (s : bytes) : str :=
  match s with
  | a :: b :: c :: rest => enc3 a b c ++ b64_encode pad rest
  | [a; b] => enc2 a b ++ (if pad then "=" else [])
  | [a] => enc1 a ++ (if pad then "==" else [])
  | [] => []
  end.

Fixpoint b64_decode (pad : bool) (s : str) : option bytes :=
  match s with
  | [] => Some []
  | [w; x] => if pad then None else dec1 w x
  | [w; x; y] => if pad then None else dec2 w x y
  | w :: x :: y :: z :: rest =>
      if pad && bool_decide (rest = [] /\ z = x3d)
      then (if decide (y = x3d) then dec1 w x else dec2 w x y)
      else g ← dec3 w x y z; r ← b64_decode pad rest; Some (g ++ r)
  | _ => None
  end.

Context (Hc62 : dec_char c62 = Some 62%Z) (Hc63 : dec_char c63 = Some 63%Z).
Context (Hpad : dec_char x3d = None).

Lemma dec_enc_char i : (0 <= i < 64)%Z -> dec_char (enc_char i) = Some i.
Proof.
  intros Hi. unfold enc_char.
  destruct (Z.ltb_spec i 26), (Z.ltb_spec i 52), (Z.ltb_spec i 62), (Z.eqb_spec i 62);
    try lia; try (by rewrite ?Hc62, ?Hc63; f_equal; lia);
    unfold dec_char, in_range; rewrite bz_zb, Z.mod_small by lia;
    repeat match goal with
    | |- context [(?a <=? ?b)%Z] => destruct (Z.leb_spec a b); try lia
    end; cbn [andb]; f_equal; lia.
Qed.

Lemma enc_dec_char c i : dec_char c = Some i -> (0 <= i < 64)%Z /\ enc_char i = c.
Proof.
  intros H. unfold dec_char, in_range in H.
  destruct ((65 <=? bz c) && (bz c <=? 90))%Z eqn:E1.
  { injection H as <-. split; [lia|]. unfold enc_char.
    destruct (Z.ltb_spec (bz c - 65) 26); [|lia]. apply (inj bz). rewrite bz_zb, Z.mod_small; lia. }
  destruct ((97 <=? bz c) && (bz c <=? 122))%Z eqn:E2.
  { injection H as <-. split; [lia|]. unfold enc_char.
    destruct (Z.ltb_spec (bz c - 71) 26); [lia|]. destruct (Z.ltb_spec (bz c - 71) 52); [|lia].
    apply (inj bz). rewrite bz_zb, Z.mod_small; lia. }
  destruct ((48 <=? bz c) && (bz c <=? 57))%Z eqn:E3.
  { injection H as <-. split; [lia|]. unfold enc_char.
    destruct (Z.ltb_spec (bz c + 4) 26); [lia|]. destruct (Z.ltb_spec (bz c + 4) 52); [lia|].
    destruct (Z.ltb_spec (bz c + 4) 62); [|lia]. apply (inj bz). rewrite bz_zb, Z.mod_small; lia. }
  repeat case_decide; simplify_eq; split; try lia; done.
Qed.

(** A group decodes to the bytes it encodes, and only the encoding decodes. *)
Ltac bits := Z.div_mod_to_equations; lia.

Lemma dec1_enc1 a : exists w x, enc1 a = [w; x] /\ dec1 w x = Some [a].
Proof.
  unfold enc1, dec1. do 2 eexists. split; [done|]. byte_ranges.
  rewrite !dec_enc_char by bits. cbn [mbind option_bind].
  rewrite (proj2 (Z.eqb_eq _ 0)) by bits. do 2 f_equal. apply (inj bz). rewrite bz_zb. bits.
Qed.

Lemma dec2_enc2 a b : exists w x y, enc2 a b = [w; x; y] /\ dec2 w x y = Some [a; b].
Proof.
  unfold enc2, dec2. do 3 eexists. split; [done|]. byte_ranges.
  rewrite !dec_enc_char by bits. cbn [mbind option_bind].
  rewrite (proj2 (Z.eqb_eq _ 0)) by bits.
  do 2 f_equal; [|f_equal]; apply (inj bz); rewrite bz_zb; bits.
Qed.

Lemma dec3_enc3 a b c : exists w x y z, enc3 a b c = [w; x; y; z] /\ dec3 w x y z = Some [a; b; c].
Proof.
  unfold enc3, dec3. do 4 eexists. split; [done|]. byte_ranges.
  rewrite !dec_enc_char by bits. cbn [mbind option_bind].
  do 2 f_equal; [|f_equal; [|f_equal]]; apply (inj bz); rewrite bz_zb; bits.
Qed.

(** Inverts a chain of option binds. *)
Ltac invert_binds H :=
  repeat lazymatch type of H with
  | (?o ≫= _) = Some _ => let E := fresh "E" in let v := fresh "v" in
      destruct o as [v|] eqn:E; [cbn [mbind option_bind] in H | discriminate H];
      apply enc_dec_char in E as [? ?]
  end.

Lemma enc1_dec1 w x g : dec1 w x = Some g -> exists a, g = [a] /\ enc1 a = [w; x].
Proof.
  unfold dec1. intros H. invert_binds H. destruct (Z.eqb_spec (v0 mod 16) 0); [|done].
  injection H as <-. eexists. split; [done|]. unfold enc1. subst w x.
  rewrite bz_zb. repeat f_equal; bits.
Qed.

Lemma enc2_dec2 w x y g : dec2 w x y = Some g -> exists a b, g = [a; b] /\ enc2 a b = [w; x; y].
Proof.
  unfold dec2. intros H. invert_binds H. destruct (Z.eqb_spec (v1 mod 4) 0); [|done].
  injection H as <-. do 2 eexists. split; [done|]. unfold enc2. subst w x y.
  rewrite !bz_zb. repeat f_equal; bits.
Qed.

Lemma enc3_dec3 w x y z g :
  dec3 w x y z = Some g -> exists a b c, g = [a; b; c] /\ enc3 a b c = [w; x; y; z].
Proof.
  unfold dec3. intros H. invert_binds H.
  injection H as <-. do 3 eexists. split; [done|]. unfold enc3. subst w x y z.
  rewrite !bz_zb. repeat f_equal; bits.
Qed.

Lemma dec3_pad w x y : dec3 w x y x3d = None.
Proof.
  unfold dec3. destruct (dec_char w), (dec_char x), (dec_char y); try done.
  cbn [mbind option_bind]. by rewrite Hpad.
Qed.

Lemma dec2_pad w x : dec2 w x x3d = None.
Proof.
  unfold dec2. destruct (dec_char w), (dec_char x); try done.
  cbn [mbind option_bind]. by rewrite Hpad.
Qed.

(** Induction on a list three elements at a time. *)
Lemma list_ind3 (P : bytes -> Prop) :
  P [] -> (forall a, P [a]) -> (forall a b, P [a; b]) ->
  (forall a b c r, P r -> P (a :: b :: c :: r)) -> forall s, P s.
Proof.
  intros P0 P1 P2 P3 s.
  enough (P s /\ (forall a, P (a :: s)) /\ (forall a b, P (a :: b :: s))) by tauto.
  induction s as [|x s (H0 & H1 & H2)]; auto.
Qed.

Lemma b64_decode_encode pad s : b64_decode pad (b64_encode pad s) = Some s.
Proof.
  induction s as [|a|a b|a b c r IH] using list_ind3; [done|..].
  - cbn [b64_encode]. destruct (dec1_enc1 a) as (w & x & -> & E).
    destruct pad; cbn; done.
  - cbn [b64_encode]. destruct (dec2_enc2 a b) as (w & x & y & Eq & E). rewrite Eq.
    destruct pad; cbn; [|done]. case_decide; [|done]. subst y. by rewrite dec2_pad in E.
  - cbn [b64_encode]. destruct (dec3_enc3 a b c) as (w & x & y & z & -> & E).
    cbn [app b64_decode]. rewrite bool_decide_eq_false_2, andb_false_r.
    + by rewrite E, IH.
    + intros [_ ->]. by rewrite dec3_pad in E.
Qed.

Lemma b64_encode_decode pad s b : b64_decode pad s = Some b -> b64_encode pad b = s.
Proof.
  remember (length s) as n eqn:Hn. revert s b Hn.
  induction n as [n IH] using lt_wf_ind. intros s b -> H.
  destruct s as [|w [|x [|y [|z r]]]]; cbn [b64_decode] in H; try done.
  - by injection H as <-.
  - destruct pad; [done|]. apply enc1_dec1 in H as (a & -> & E). cbn [b64_encode].
    by rewrite E.
  - destruct pad; [done|]. apply enc2_dec2 in H as (a & c & -> & E). cbn [b64_encode].
    by rewrite E.
  - destruct (pad && bool_decide (r = [] /\ z = x3d)) eqn:Ep.
    + apply andb_true_iff in Ep as [-> Ep]. apply bool_decide_eq_true in Ep as [-> ->].
      case_decide as Ey.
      * apply enc1_dec1 in H as (a & -> & E). cbn [b64_encode]. by rewrite E, Ey.
      * apply enc2_dec2 in H as (a & c & -> & E). cbn [b64_encode]. by rewrite E.
    + destruct (dec3 w x y z) as [g|] eqn:E; [|done]. cbn [mbind option_bind] in H.
      destruct (b64_decode pad r) as [b'|] eqn:Er; [|done]. injection H as <-.
      apply enc3_dec3 in E as (a & b & c & -> & E). cbn [app b64_encode]. rewrite E.
      rewrite (IH (length r) ltac:(cbn; lia) r b' eq_refl Er). done.
Qed.

(** Without padding every character of an encoding is in the alphabet. *)
Lemma b64_encode_alphabet s : Forall (fun c => is_Some (dec_char c)) (b64_encode false s).
Proof.
  induction s as [|a|a b|a b c r IH] using list_ind3; cbn [b64_encode];
    unfold enc1, enc2, enc3; cbn [app];
    repeat first [exact IH | match goal with |- Forall _ _ => constructor end];
    byte_ranges; rewrite dec_enc_char by bits; eauto.
Qed.
End alphabet.

#[export] Instance base64 : Base64 := {|
  std_encode := b64_encode x2b x2f true;
  std_decode := b64_decode x2b x2f true;
  url_encode := b64_encode x2d x5f false;
  url_decode := b64_decode x2d x5f false;
|}.

#[export] Instance base64_laws : Base64Laws.
Proof.
  split; cbn [std_encode std_decode url_encode url_decode base64].
  - intros b. by apply b64_decode_encode.
  - intros s b. by apply b64_encode_decode.
  - intros b. by apply b64_decode_encode.
  - intros s b. by apply b64_encode_decode.
  - intros b. apply forallb_forall. intros c Hc%list_elem_of_In.
    pose proof (b64_encode_alphabet x2d x5f eq_refl eq_refl b) as Ha.
    rewrite Forall_forall in Ha. destruct (Ha c Hc) as [i Hi]. clear Ha Hc.
    by destruct c; vm_compute in Hi |- *.
Qed.

Example std_encode_alice : std_encode "alice:secret" = "YWxpY2U6c2VjcmV0".
Proof. reflexivity. Qed.
Example std_encode_bob : std_encode "bob:secret2" = "Ym9iOnNlY3JldDI=".
Proof. reflexivity. Qed.

(** ** ring *)

(** A keyed checksum of 8 bytes, and the first 32 bytes of the padded input. *)
Definition checksum (key m : bytes) : bytes :=
  to_be_bytes 8 (foldl (fun a c => (a * 31 + bz c + 7) mod U64_MODULUS)%Z 17%Z (key ++ m)).

#[export] Instance ring : Ring := {|
  Key := bytes;
  hmac_key k := k;
  hmac_sign := checksum;
  hmac_verify k m t := bool_decide (t = checksum k m);
  sha256 m := take 32 (m ++ replicate 32 x00);
|}.

#[export] Instance ring_laws : RingLaws.
Proof. split. intros k m t. cbn. apply bool_decide_eq_true. Qed.

(** ** subtle *)

#[export] Instance subtle : Subtle := {| ct_eq a b := bool_decide (a = b) |}.
#[export] Instance subtle_laws : SubtleLaws.
Proof. split. intros a b. apply bool_decide_eq_true. Qed.

(** ** http *)

(** A header map is the list of its entries in insertion order. *)
Definition assoc_get_all (m : list (str * bytes)) (n : str) : list bytes :=
  snd <$> filter (fun nv => nv.1 = n) m.

Lemma assoc_get_all_append n v m n' :
  assoc_get_all (m ++ [(n, v)]) n' =
    if decide (n = n') then assoc_get_all m n' ++ [v] else assoc_get_all m n'.
Proof.
  unfold assoc_get_all. rewrite filter_app, fmap_app. case_decide.
  - by rewrite filter_cons_True.
  - rewrite filter_cons_False by done. cbn. by rewrite app_nil_r.
Qed.

Lemma assoc_get_all_insert n v m n' :
  assoc_get_all (filter (fun nv => nv.1 <> n) m ++ [(n, v)]) n' =
    if decide (n = n') then [v] else assoc_get_all m n'.
Proof.
  rewrite assoc_get_all_append. unfold assoc_get_all. rewrite list_filter_filter. case_decide.
  - subst. replace (filter _ m) with (@nil (str * bytes)); [done|]. symmetry.
    induction m as [|? m IH]; [done|]. by rewrite filter_cons_False by tauto.
  - f_equal. apply list_filter_iff. intros [x y]. cbn. split; [tauto|]. by intros ->.
Qed.

Definition visible_ascii (c : byte) : bool := in_range 32 126 c || bool_decide (c = x09).

Definition reason (code : Z) : option str :=
  (if code =? 200 then Some "OK" else if code =? 204 then Some "No Content"
   else if code =? 400 then Some "Bad Request" else if code =? 401 then Some "Unauthorized"
   else if code =? 404 then Some "Not Found" else if code =? 405 then Some "Method Not Allowed"
   else if code =? 500 then Some "Internal Server Error"
   else if code =? 503 then Some "Service Unavailable" else None)%Z.

#[export] Instance http : Http := {|
  HeaderMap := list (str * bytes);
  headers_new := [];
  headers_insert n v m := filter (fun nv => nv.1 <> n) m ++ [(n, v)];
  headers_append n v m := m ++ [(n, v)];
  headers_get_all := assoc_get_all;
  headers_iter m := m;
  header_name n := Some (to_ascii_lowercase <$> n);
  header_value v := Some v;
  header_to_str v := if forallb visible_ascii v then Some v else None;
  method_from_bytes m := if decide (m = []) then None else Some m;
  Uri := str;
  uri_from_str u := Some u;
  uri_path u := default u (head (split_on (fun c => bool_decide (c = x3f \/ c = x23)) u));
  canonical_reason := reason;
|}.

#[export] Instance http_laws : HttpLaws.
Proof.
  split; cbn [headers_get_all headers_new headers_insert headers_append headers_iter http];
    intros; [done|apply assoc_get_all_insert|apply assoc_get_all_append|done| |done|].
  { cbn in *. rewrite (proj2 (forallb_forall visible_ascii v)); [done|].
    intros c Hc. unfold visible_ascii. rewrite forallb_forall in H. by rewrite H. }
  cbn in *. unfold reason in *. by repeat case_match; simplify_eq.
Qed.

(** ** httparse *)

(** A parser for well-formed heads: a request line, then header lines, then an empty line. *)
Fixpoint parse_header_lines (fuel : nat) (s : bytes) : option (list (str * bytes)) :=
  match fuel with
  | O => None
  | S fuel' =>
      '(line, rest) ← split_once "\r\n" s;
      if decide (line = []) then Some []
      else
        '(n, v) ← split_once ":" line;
        hs ← parse_header_lines fuel' rest;
        Some ((n, trim v) :: hs)
  end.

#[export] Instance httparse : HttParse := {|
  httparse_request max head :=
    '(line, rest) ← split_once "\r\n" head;
    '(m, line) ← split_once " " line;
    '(p, v) ← split_once " " line;
    hs ← parse_header_lines (S max) rest;
    if decide (v = "HTTP/1.1") then Some (mkParsed (Some m) (Some p) hs) else None;
|}.
