(* ===== verification/Target.v ===== *)
(** [src/target.rs]: the upstream target named by a request path ([/tcp:<host>:<port>],
    [/udp:<host>:<port>]) or by an allowlist entry ([<host>:<port>]).

    [parse_target], [parse_target_addr] and [parse_host_port] are the functions of the source, the
    error type lists its [bail!]/[ok_or_else] sites. The theorems characterise the accepted
    inputs exactly, and show that [Target::addr] is a normal form: it parses back to the same
    target, and two targets have the same address only if they have the same host and port. *)

From S2P Require Import Prelude RustStd.

Inductive Protocol : Type := Tcp | Udp.
#[export] Instance Protocol_eq_dec : EqDecision Protocol.
Proof. solve_decision. Defined.

Record Target : Type := mkTarget {
  protocol : Protocol;
  host : str;
  port : Z;
}.
#[export] Instance Target_eq_dec : EqDecision Target.
Proof. solve_decision. Defined.

(** The reasons a target is refused, in the order of the source. *)
Inductive TargetError : Type :=
  | PathPrefix            (* path must start with /tcp: or /udp: *)
  | Ipv6Format            (* IPv6 target must be formatted as [host]:port *)
  | HostPortFormat        (* target must be formatted as host:port *)
  | Ipv6Unbracketed       (* IPv6 target must be enclosed in brackets *)
  | HostEmpty             (* target host is empty *)
  | InvalidPort (p : str) (* invalid target port *).
#[export] Instance TargetError_eq_dec : EqDecision TargetError.
Proof. solve_decision. Defined.

(** [Target::addr]. *)
Definition addr (t : Target) : str := host t ++ ":" ++ show_uint (port t).

(** The host and the text of the port, before the port is parsed. *)
Definition split_host_port (target : str) : outcome TargetError (str * str) :=
  match strip_prefix "[" target with
  | Some rest =>
      let? '(host, port) := ok_or Ipv6Format (split_once "]:" rest) in
      if decide (host = []) then Err HostEmpty else Ok ("[" ++ host ++ "]", port)
  | None =>
      let? '(host, port) := ok_or HostPortFormat (rsplit_once x3a target) in
      if contains_char x3a host then Err Ipv6Unbracketed else Ok (host, port)
  end.

Definition parse_host_port (target : str) : outcome TargetError (str * Z) :=
  let? '(host, port) := split_host_port target in
  if decide (host = []) then Err HostEmpty
  else
    let? port := ok_or (InvalidPort port) (parse_uint U16_MAX port) in
    Ok (host, port).

Definition parse_target (path : str) : outcome TargetError Target :=
  let? '(protocol, target) :=
    match strip_prefix "/tcp:" path with
    | Some rest => Ok (Tcp, rest)
    | None =>
        match strip_prefix "/udp:" path with
        | Some rest => Ok (Udp, rest)
        | None => Err PathPrefix
        end
    end in
  let? '(host, port) := parse_host_port target in
  Ok (mkTarget protocol host port).

Definition parse_target_addr (target : str) : outcome TargetError Target :=
  let? '(host, port) := parse_host_port target in
  Ok (mkTarget Tcp host port).

(** Why paths are refused. *)
Example rejects_invalid_paths :
  parse_target <$>
    ["/http:116.63.8.64:12345"; "/tcp:116.63.8.64"; "/tcp::12345"; "/tcp:2001:db8::1:443";
     "/tcp:[]:443"; "/tcp:[2001:db8::1]443"; "/tcp:116.63.8.64:not-a-port"]
  = [Err PathPrefix; Err HostPortFormat; Err HostEmpty; Err Ipv6Unbracketed; Err HostEmpty;
     Err Ipv6Format; Err (InvalidPort "not-a-port")].
Proof. vm_compute. reflexivity. Qed.

Lemma parse_target_addr_no_panic s : is_panic (parse_target_addr s) = false.
Proof.
  unfold parse_target_addr, parse_host_port, split_host_port.
  destruct (strip_prefix "[" s) as [rest|].
  - destruct (split_once "]:" rest) as [[h p]|]; [|done]. cbn [ok_or obind].
    repeat case_decide; try done. cbn [obind]. repeat case_decide; try done.
    by destruct (parse_uint U16_MAX p).
  - destruct (rsplit_once x3a s) as [[h p]|]; [|done]. cbn [ok_or obind].
    destruct (contains_char x3a h); [done|]. cbn [obind]. case_decide; [done|].
    by destruct (parse_uint U16_MAX p).
Qed.

(** ** Well-formed targets *)

(** A host in brackets, or one without a colon that does not start with a bracket. *)
Definition bracketed_host (h : str) : Prop :=
  exists h0, h = "[" ++ h0 ++ "]" /\ h0 <> [] /\ split_once "]:" h0 = None.
Definition plain_host (h : str) : Prop :=
  h <> [] /\ x3a ∉ h /\ head h <> Some x5b.

Definition wf_target (t : Target) : Prop :=
  (bracketed_host (host t) \/ plain_host (host t)) /\ (0 <= port t <= U16_MAX)%Z.

Lemma strip_bracket (s : str) : strip_prefix "[" s = None <-> head s <> Some x5b.
Proof. destruct s as [|c s]; cbn; [done|]. case_decide; split; congruence. Qed.

Lemma split_once_None_tail p x s : split_once p (x :: s) = None -> split_once p s = None.
Proof.
  cbn [split_once]. destruct (strip_prefix p (x :: s)); [done|]. by destruct (split_once p s).
Qed.

(** An occurrence of the two bytes [c d] (c <> d) in [a ++ c :: d :: b] lies in [a] or is the one
    shown. *)
Lemma split_once_pair c d a b :
  c <> d -> split_once [c; d] a = None -> split_once [c; d] (a ++ c :: d :: b) = Some (a, b).
Proof.
  intros Hne. induction a as [|x a IH]; intros Ha.
  - cbn [app split_once strip_prefix]. by rewrite !decide_True by done.
  - pose proof (split_once_None_tail _ _ _ Ha) as Ha'.
    cbn [app split_once].
    destruct (strip_prefix [c; d] (x :: a ++ c :: d :: b)) as [r|] eqn:E.
    + exfalso. apply strip_prefix_Some in E. destruct a as [|y a]; cbn in E; [congruence|].
      assert (x = c /\ y = d) as [-> ->] by (split; congruence).
      cbn in Ha. by rewrite !decide_True in Ha by done.
    + by rewrite IH.
Qed.

Lemma split_once_None_prefix p a b : split_once p (a ++ b) = None -> split_once p a = None.
Proof.
  revert b. induction a as [|x a IH]; intros b H.
  - cbn in *. destruct (strip_prefix p []) as [r|] eqn:E; [|done].
    apply strip_prefix_Some in E. symmetry in E. apply app_nil in E as [-> ->].
    by destruct b.
  - cbn [app split_once] in *.
    destruct (strip_prefix p (x :: a)) as [r|] eqn:E.
    + apply strip_prefix_Some in E.
      by rewrite (proj2 (strip_prefix_Some p (x :: a ++ b) (r ++ b))) in H
        by (by rewrite app_assoc, <- E).
    + destruct (strip_prefix p (x :: a ++ b)); [done|].
      rewrite (IH b); [done|]. by destruct (split_once p (a ++ b)).
Qed.

Lemma split_once_minimal p s a b :
  p <> [] -> split_once p s = Some (a, b) -> split_once p a = None.
Proof.
  intros Hp H. destruct (split_once p a) as [[a1 a2]|] eqn:E; [|done].
  apply split_once_Some in H as [-> Hmin]. apply split_once_Some in E as [-> _].
  exfalso. apply (Hmin a1 (p ++ a2) (a2 ++ p ++ b)); [done| |by rewrite <- !app_assoc].
  by destruct p.
Qed.

Lemma head_app (a b : str) x : head a = Some x -> head (a ++ b) = Some x.
Proof. by destruct a. Qed.

(** The two accepted shapes of a target, and nothing else. *)
Definition target_shape (target h p : str) : Prop :=
  (exists h0, target = "[" ++ h0 ++ "]:" ++ p /\ h = "[" ++ h0 ++ "]" /\ h0 <> [] /\
     split_once "]:" h0 = None)
  \/ (target = h ++ ":" ++ p /\ plain_host h /\ x3a ∉ p).

Lemma split_host_port_Ok target h p :
  (exists h', split_host_port target = Ok (h', p) /\ h' = h /\ h' <> []) <-> target_shape target h p.
Proof.
  unfold target_shape, plain_host. split.
  - intros (h' & H & -> & Hne). unfold split_host_port in H.
    destruct (strip_prefix "[" target) as [rest|] eqn:Hb.
    + apply strip_prefix_Some in Hb as ->. left.
      destruct (split_once "]:" rest) as [[h0 p0]|] eqn:E; [|done]. cbn [ok_or obind] in H.
      case_decide; [done|]. injection H as <- <-. exists h0.
      pose proof (split_once_minimal "]:" _ _ _ ltac:(done) E).
      apply split_once_Some in E as [-> _]. done.
    + right. apply strip_bracket in Hb.
      destruct (rsplit_once x3a target) as [[h0 p0]|] eqn:E; [|done]. cbn [ok_or obind] in H.
      unfold contains_char in H. case_bool_decide; [done|]. injection H as -> ->.
      apply rsplit_once_Some in E as [-> Hp]. repeat split; try done.
      intros Hh. apply Hb. by apply head_app.
  - intros [(h0 & -> & -> & Hne & Hocc) | (-> & (Hne & Hc & Hb) & Hp)];
      unfold split_host_port; eexists; (split; [|done]).
    + rewrite strip_prefix_app. unfold lit in *. cbn [app].
      rewrite split_once_pair by done. cbn [ok_or obind]. by rewrite decide_False.
    + rewrite (proj2 (strip_bracket _)).
      * rewrite (proj2 (rsplit_once_Some x3a _ h p)) by done. cbn [ok_or obind].
        unfold contains_char. by rewrite bool_decide_eq_false_2.
      * by destruct h.
Qed.

Lemma parse_host_port_Ok target h n :
  parse_host_port target = Ok (h, n) <->
  exists p, target_shape target h p /\ parse_uint U16_MAX p = Some n.
Proof.
  unfold parse_host_port. split.
  - destruct (split_host_port target) as [[h' p]| |] eqn:E; [|done..]. cbn [obind].
    case_decide as Hne; [done|]. destruct (parse_uint U16_MAX p) as [n'|] eqn:Ep; [|done].
    cbn [ok_or obind]. intros [= <- <-]. exists p. split; [|done].
    apply split_host_port_Ok. eauto.
  - intros (p & (h' & E & -> & Hne)%split_host_port_Ok & Ep). rewrite E. cbn [obind].
    rewrite decide_False by done. by rewrite Ep.
Qed.

(** C31: parsing [host:port] accepts exactly the two documented shapes with a port that fits 16
    bits, and returns the host (brackets kept) and the port. *)
Theorem parse_host_port_iff target h n :
  parse_host_port target = Ok (h, n) <->
  exists p, target_shape target h p /\ parse_uint U16_MAX p = Some n.
Proof. apply parse_host_port_Ok. Qed.

Lemma target_shape_wf target h p n pr :
  target_shape target h p -> parse_uint U16_MAX p = Some n -> wf_target (mkTarget pr h n).
Proof.
  intros Hs Hp. apply parse_uint_bounds in Hp; [|done]. split; [|done].
  destruct Hs as [(h0 & _ & -> & Hh) | (_ & Hh & _)]; [left; by exists h0 | by right].
Qed.

Lemma wf_target_shape t :
  wf_target t -> target_shape (addr t) (host t) (show_uint (port t)).
Proof.
  intros [[(h0 & Hh & Hne) | Hplain] Hport]; unfold addr.
  - left. exists h0. rewrite Hh. by rewrite <- !app_assoc.
  - right. split; [done|]. split; [done|].
    intros Hc%show_uint_chars; [done|]. unfold U16_MAX, U64_MODULUS in *. lia.
Qed.

Lemma parse_show_port n : (0 <= n <= U16_MAX)%Z -> parse_uint U16_MAX (show_uint n) = Some n.
Proof. intros. by apply parse_show_uint. Qed.

Lemma parse_host_port_addr t : wf_target t -> parse_host_port (addr t) = Ok (host t, port t).
Proof.
  intros Hwf. apply parse_host_port_Ok. exists (show_uint (port t)).
  split; [by apply wf_target_shape | apply parse_show_port, Hwf].
Qed.

(** The path prefix of a protocol. *)
Definition path_prefix (pr : Protocol) : str :=
  match pr with Tcp => "/tcp:" | Udp => "/udp:" end.

Lemma parse_target_prefix pr rest :
  parse_target (path_prefix pr ++ rest) =
    let? '(host, port) := parse_host_port rest in Ok (mkTarget pr host port).
Proof. unfold parse_target. destruct pr; done. Qed.

Lemma parse_target_Ok path t :
  parse_target path = Ok t <->
  exists rest, path = path_prefix (protocol t) ++ rest /\ parse_host_port rest = Ok (host t, port t).
Proof.
  split.
  - unfold parse_target. intros H.
    assert (exists pr rest, path = path_prefix pr ++ rest) as (pr & rest & ->).
    { destruct (strip_prefix "/tcp:" path) as [r|] eqn:E1.
      - exists Tcp, r. by apply strip_prefix_Some.
      - destruct (strip_prefix "/udp:" path) as [r|] eqn:E2; [|done].
        exists Udp, r. by apply strip_prefix_Some. }
    change (parse_target (path_prefix pr ++ rest) = Ok t) in H. rewrite parse_target_prefix in H.
    exists rest. destruct (parse_host_port rest) as [[h n]| |]; [|done..].
    by injection H as <-.
  - intros (rest & -> & E). rewrite parse_target_prefix, E. by destruct t.
Qed.

(** Every target a path parses to is well formed: the host is not empty, an IPv6 host keeps its
    brackets, a plain host holds no colon, and the port is a 16-bit number. *)
Theorem parse_target_wf path t : parse_target path = Ok t -> wf_target t.
Proof.
  intros (rest & _ & (p & Hs & Hp)%parse_host_port_Ok)%parse_target_Ok.
  destruct t. by eapply target_shape_wf.
Qed.

Example parse_target_wf_witness :
  parse_target "/tcp:[2001:db8::1]:443" = Ok (mkTarget Tcp "[2001:db8::1]" 443) /\
  wf_target (mkTarget Tcp "[2001:db8::1]" 443).
Proof. split; [reflexivity | apply (parse_target_wf "/tcp:[2001:db8::1]:443"); reflexivity]. Defined.

(** C32: round trip. The address of a well-formed target, behind its protocol's prefix, parses back
    to the target, and as an allowlist entry it parses to the same host and port. *)
Theorem parse_target_roundtrip t :
  wf_target t ->
  parse_target (path_prefix (protocol t) ++ addr t) = Ok t /\
  parse_target_addr (addr t) = Ok (mkTarget Tcp (host t) (port t)).
Proof.
  intros Hwf. split.
  - apply parse_target_Ok. exists (addr t). by rewrite parse_host_port_addr.
  - unfold parse_target_addr. by rewrite parse_host_port_addr.
Qed.

Lemma wf_plain_example pr : wf_target (mkTarget pr "example.com" 53).
Proof.
  split; [right; repeat split; [done| |done] | cbn; unfold U16_MAX; lia].
  by apply (bool_decide_unpack _).
Qed.

Example parse_target_roundtrip_witness :
  parse_target "/udp:example.com:53" = Ok (mkTarget Udp "example.com" 53) /\
  parse_target_addr "example.com:53" = Ok (mkTarget Tcp "example.com" 53).
Proof. apply (parse_target_roundtrip (mkTarget Udp "example.com" 53)), wf_plain_example. Defined.

(** The address is a normal form: two well-formed targets with the same address have the same
    host and the same port, so matching the allowlist by address is matching host and port. *)
Theorem addr_inj t1 t2 :
  wf_target t1 -> wf_target t2 -> addr t1 = addr t2 -> host t1 = host t2 /\ port t1 = port t2.
Proof.
  intros H1 H2 E. apply parse_host_port_addr in H1, H2. rewrite E, H2 in H1.
  by injection H1 as -> ->.
Qed.

Example addr_inj_witness :
  host (mkTarget Tcp "example.com" 53) = host (mkTarget Udp "example.com" 53) /\ (53 = 53)%Z.
Proof.
  apply (addr_inj (mkTarget Tcp "example.com" 53) (mkTarget Udp "example.com" 53));
    [apply wf_plain_example | apply wf_plain_example | reflexivity].
Defined.
