(* ===== verification/Net.v ===== *)
(** [std::net]: IP and socket addresses, their [FromStr] parsers and their [Display].

    An address is its number: 32 bits for IPv4, 128 bits for IPv6. The parsers follow the
    recursive-descent parser of the standard library; a parser returns [None] where the
    library's restores its input and reports no value. *)

From S2P Require Import Prelude RustStd.

Inductive IpAddr : Type :=
  | V4 (a : Z)
  | V6 (a : Z).
#[export] Instance IpAddr_eq_dec : EqDecision IpAddr.
Proof. solve_decision. Defined.

Record SocketAddr : Type := mkSocketAddr {
  sock_ip : IpAddr;
  sock_port : Z;
  sock_scope : Z;      (* the scope id of an IPv6 socket address, else 0 *)
}.
#[export] Instance SocketAddr_eq_dec : EqDecision SocketAddr.
Proof. solve_decision. Defined.

Definition wf_ip (ip : IpAddr) : Prop :=
  match ip with
  | V4 a => (0 <= a < 2 ^ 32)%Z
  | V6 a => (0 <= a < 2 ^ 128)%Z
  end.

Definition is_ipv4 (ip : IpAddr) : bool := match ip with V4 _ => true | V6 _ => false end.

(** [IpAddr::to_canonical]: an IPv4-mapped IPv6 address ([::ffff:a.b.c.d]) is the IPv4 address. *)
Definition to_canonical (ip : IpAddr) : IpAddr :=
  match ip with
  | V4 a => V4 a
  | V6 a => if (a / 2 ^ 32 =? 65535)%Z then V4 (a mod 2 ^ 32) else V6 a
  end.

Lemma wf_to_canonical ip : wf_ip ip -> wf_ip (to_canonical ip).
Proof.
  destruct ip as [a|a]; cbn [to_canonical]; [done|]. intros Ha.
  destruct (_ =? _)%Z; [|done]. by apply Z.mod_pos_bound.
Qed.

Lemma to_canonical_idemp ip : to_canonical (to_canonical ip) = to_canonical ip.
Proof.
  destruct ip as [a|a]; cbn [to_canonical]; [done|].
  destruct (a / 2 ^ 32 =? 65535)%Z eqn:E; cbn [to_canonical]; [done|]. by rewrite E.
Qed.

(** ** Parsing *)

(** A parser returns a value and the rest of the input. *)
Abbreviation parser A := (str -> option (A * str)).

(** [char::to_digit(16)]. *)
Definition to_hex_digit (c : byte) : option Z :=
  let z := bz c in
  if bool_decide (48 <= z <= 57)%Z then Some (z - 48)%Z
  else if bool_decide (97 <= z <= 102)%Z then Some (z - 87)%Z
  else if bool_decide (65 <= z <= 70)%Z then Some (z - 55)%Z
  else None.

Definition to_digit_radix (radix : Z) (c : byte) : option Z :=
  if (radix =? 16)%Z then to_hex_digit c else to_digit c.

Definition read_given_char (c : byte) : parser unit := fun s =>
  match s with
  | x :: r => if decide (x = c) then Some (tt, r) else None
  | [] => None
  end.

(** The digit loop of [read_number]: the value, the number of digits and the rest. With
    [max_digits] the loop fails on one digit too many; without, on a value above [max]. *)
Fixpoint read_digits (radix max : Z) (max_digits : option nat) (acc : Z) (count : nat) (s : str) :
    option (Z * nat * str) :=
  match s with
  | [] => Some (acc, count, s)
  | c :: r =>
      match to_digit_radix radix c with
      | None => Some (acc, count, s)
      | Some d =>
          let acc := (acc * radix + d)%Z in
          let too_much :=
            match max_digits with
            | Some m => bool_decide (m < S count)
            | None => (max <? acc)%Z
            end in
          if too_much then None else read_digits radix max max_digits acc (S count) r
      end
  end.

Definition read_number (radix max : Z) (max_digits : option nat) (allow_zero_prefix : bool) :
    parser Z := fun s =>
  '(z, count, r) ← read_digits radix max max_digits 0 0 s;
  let leading_zero := bool_decide (head s = Some x30) in
  if bool_decide (count = 0) then None
  else if negb allow_zero_prefix && leading_zero && bool_decide (1 < count) then None
  else if (max <? z)%Z then None else Some (z, r).

(** [read_separator]. *)
Definition read_separator {A} (sep : byte) (index : nat) (inner : parser A) : parser A := fun s =>
  if bool_decide (0 < index) then '(_, r) ← read_given_char sep s; inner r else inner s.

Definition read_octet (index : nat) : parser Z :=
  read_separator x2e index (read_number 10 255 (Some 3) false).

Definition read_ipv4_addr : parser Z := fun s =>
  '(a, s) ← read_octet 0 s;
  '(b, s) ← read_octet 1 s;
  '(c, s) ← read_octet 2 s;
  '(d, s) ← read_octet 3 s;
  Some ((((a * 256 + b) * 256 + c) * 256 + d)%Z, s).

(** [read_groups] from group [i] on, [left] groups before the limit: the groups read, whether an
    embedded IPv4 address ended them, and the rest. *)
Fixpoint read_groups (left i : nat) (s : str) : list Z * bool * str :=
  match left with
  | O => ([], false, s)
  | S left' =>
      let ipv4 := if bool_decide (0 < left') then read_separator x3a i read_ipv4_addr s else None in
      match ipv4 with
      | Some (a, r) => ([a / 2 ^ 16; a mod 2 ^ 16]%Z, true, r)
      | None =>
          match read_separator x3a i (read_number 16 65535 (Some 4) true) s with
          | Some (g, r) =>
              let '(gs, v4, r) := read_groups left' (S i) r in (g :: gs, v4, r)
          | None => ([], false, s)
          end
      end
  end.

Definition segments_value (gs : list Z) : Z := foldl (fun a g => a * 65536 + g)%Z 0%Z gs.

Definition read_ipv6_addr : parser Z := fun s =>
  let '(hd, hd_v4, s) := read_groups 8 0 s in
  if bool_decide (length hd = 8) then Some (segments_value hd, s)
  else if hd_v4 then None
  else
    '(_, s) ← read_given_char x3a s;
    '(_, s) ← read_given_char x3a s;
    let '(tl, _, s) := read_groups (8 - (length hd + 1)) 0 s in
    Some (segments_value (hd ++ replicate (8 - length hd - length tl) 0%Z ++ tl), s).

Definition or_else {A} (p q : parser A) : parser A := fun s =>
  match p s with Some r => Some r | None => q s end.
Definition map_parser {A B} (f : A -> B) (p : parser A) : parser B := fun s =>
  prod_map f id <$> p s.

Definition read_ip_addr : parser IpAddr :=
  or_else (map_parser V4 read_ipv4_addr) (map_parser V6 read_ipv6_addr).

Definition read_port : parser Z := fun s =>
  '(_, s) ← read_given_char x3a s; read_number 10 65535 None true s.
Definition read_scope_id : parser Z := fun s =>
  '(_, s) ← read_given_char x25 s; read_number 10 (2 ^ 32 - 1) None true s.

Definition read_socket_addr_v4 : parser SocketAddr := fun s =>
  '(a, s) ← read_ipv4_addr s;
  '(p, s) ← read_port s;
  Some (mkSocketAddr (V4 a) p 0, s).

Definition read_socket_addr_v6 : parser SocketAddr := fun s =>
  '(_, s) ← read_given_char x5b s;
  '(a, s) ← read_ipv6_addr s;
  let '(scope, s) := default (0%Z, s) (read_scope_id s) in
  '(_, s) ← read_given_char x5d s;
  '(p, s) ← read_port s;
  Some (mkSocketAddr (V6 a) p scope, s).

(** [parse_with]: the whole input must be consumed. *)
Definition parse_with {A} (p : parser A) (s : str) : option A :=
  match p s with Some (a, []) => Some a | _ => None end.

(** [IpAddr::from_str] and [SocketAddr::from_str]. *)
Definition parse_ip : str -> option IpAddr := parse_with read_ip_addr.
Definition parse_socket_addr : str -> option SocketAddr :=
  parse_with (or_else read_socket_addr_v4 read_socket_addr_v6).

(** ** Display *)

Definition show_ipv4 (a : Z) : str :=
  show_uint (a / 2 ^ 24) ++ "." ++ show_uint (a / 2 ^ 16 mod 256) ++ "." ++
  show_uint (a / 2 ^ 8 mod 256) ++ "." ++ show_uint (a mod 256).

Definition hex_char (d : Z) : byte := if (d <? 10)%Z then zb (48 + d) else zb (87 + d).
Fixpoint show_hex_digits (fuel : nat) (n : Z) (acc : str) : str :=
  match fuel with
  | O => acc
  | S fuel' =>
      let acc := hex_char (n mod 16) :: acc in
      if (n / 16 =? 0)%Z then acc else show_hex_digits fuel' (n / 16) acc
  end.
(** A segment has at most four hexadecimal digits. *)
Definition show_hex (n : Z) : str := show_hex_digits 4 n [].

Definition segments (a : Z) : list Z :=
  (fun i => a / 2 ^ (16 * i) mod 65536)%Z <$> [7; 6; 5; 4; 3; 2; 1; 0]%Z.

(** The first longest run of zero segments: its start and its length. *)
Fixpoint longest_zero_run (i : nat) (cur best : nat * nat) (gs : list Z) : nat * nat :=
  match gs with
  | [] => best
  | g :: gs' =>
      if (g =? 0)%Z then
        let cur := (if bool_decide (cur.2 = 0) then i else cur.1, S cur.2) in
        longest_zero_run (S i) cur (if bool_decide (best.2 < cur.2) then cur else best) gs'
      else longest_zero_run (S i) (0, 0) best gs'
  end.

Fixpoint join (sep : str) (l : list str) : str :=
  match l with
  | [] => []
  | [x] => x
  | x :: l' => x ++ sep ++ join sep l'
  end.

Definition fmt_subslice (gs : list Z) : str := join ":" (show_hex <$> gs).

Definition show_ipv6 (a : Z) : str :=
  if (a / 2 ^ 32 =? 65535)%Z then "::ffff:" ++ show_ipv4 (a mod 2 ^ 32)
  else
    let gs := segments a in
    let '(start, len) := longest_zero_run 0 (0, 0) (0, 0) gs in
    if bool_decide (1 < len)
    then fmt_subslice (take start gs) ++ "::" ++ fmt_subslice (drop (start + len) gs)
    else fmt_subslice gs.

Definition show_ip (ip : IpAddr) : str :=
  match ip with V4 a => show_ipv4 a | V6 a => show_ipv6 a end.

Definition show_socket_addr (s : SocketAddr) : str :=
  match sock_ip s with
  | V4 a => show_ipv4 a ++ ":" ++ show_uint (sock_port s)
  | V6 a =>
      "[" ++ show_ipv6 a ++
      (if (sock_scope s =? 0)%Z then [] else "%" ++ show_uint (sock_scope s)) ++
      "]:" ++ show_uint (sock_port s)
  end.

(** [Ipv4Addr::LOCALHOST], [Ipv6Addr::LOCALHOST]. *)
Definition localhost_v4 : IpAddr := V4 (127 * 2 ^ 24 + 1).
Definition localhost_v6 : IpAddr := V6 1.

Example parses_addresses :
  parse_ip <$> ["127.0.0.1"; "::1"; "2001:db8::1"; "::ffff:127.0.0.1"; "1:2:3:4:5:6:7:8";
                "1:2:3:4:5:6:1.2.3.4"; "::"]
  = [Some localhost_v4; Some localhost_v6; Some (V6 0x20010db8000000000000000000000001);
     Some (V6 0xffff7f000001); Some (V6 0x00010002000300040005000600070008);
     Some (V6 0x00010002000300040005000601020304); Some (V6 0)].
Proof. vm_compute. done. Qed.

Example rejects_addresses :
  parse_ip <$> [[]; "1.2.3"; "01.2.3.4"; "256.1.1.1"; "1.2.3.4 "; "1::2::3"; "1:2:3:4:5:6:7:8:9";
                "12345::"; "1.2.3.4::"; "[::1]"; ":1"; "1:2:3:4:5:6:7:"] = replicate 12 None.
Proof. vm_compute. done. Qed.

Example shows_addresses :
  (fun s => show_ip <$> parse_ip s) <$>
    ["127.0.0.1"; "0:0:1:0:0:0:2:3"; "::ffff:1.2.3.4"; "2001:DB8:0:0:1:0:0:1"; "1:0:2:3:4:5:6:7"; "::"]
  = Some <$> ["127.0.0.1"; "0:0:1::2:3"; "::ffff:1.2.3.4"; "2001:db8::1:0:0:1"; "1:0:2:3:4:5:6:7"; "::"].
Proof. vm_compute. done. Qed.

Example socket_addresses :
  (fun s => show_socket_addr <$> parse_socket_addr s) <$>
    ["1.2.3.4:80"; "[::1]:443"; "[fe80::1%3]:53"; "1.2.3.4"; "::1:80"; "1.2.3.4:65536"]
  = [Some "1.2.3.4:80"; Some "[::1]:443"; Some "[fe80::1%3]:53"; None; None; None].
Proof. vm_compute. done. Qed.

(** ** What the parsers return is well formed *)

Lemma read_number_bounds radix max md az s z r :
  (0 <= radix)%Z -> read_number radix max md az s = Some (z, r) -> (0 <= z <= max)%Z.
Proof.
  intros Hrad. unfold read_number.
  assert (Hpos : forall s acc c z c' r, (0 <= acc)%Z ->
    read_digits radix max md acc c s = Some (z, c', r) -> (0 <= z)%Z).
  { clear s z r. induction s as [|x s IH]; intros acc c z c' r Hacc; cbn [read_digits].
    - by intros [= <- _ _].
    - destruct (to_digit_radix radix x) as [d|] eqn:Hd; [|by intros [= <- _ _]].
      destruct (match md with Some m => _ | None => _ end); [done|]. apply IH.
      assert (0 <= d)%Z; [|nia]. unfold to_digit_radix, to_hex_digit, to_digit in Hd.
      repeat case_match; repeat case_bool_decide; simplify_eq; lia. }
  destruct (read_digits radix max md 0 0 s) as [[[z0 c0] r0]|] eqn:E; [|done].
  apply Hpos in E; [|lia]. cbn [mbind option_bind].
  case_bool_decide; [done|]. destruct (_ && _); [done|].
  destruct (Z.ltb_spec max z0); [done|]. intros [= <- <-]. lia.
Qed.

Lemma read_separator_Some {A} sep i (inner : parser A) s x :
  read_separator sep i inner s = Some x -> exists s', inner s' = Some x.
Proof.
  unfold read_separator. case_bool_decide; [|by eauto].
  destruct (read_given_char sep s) as [[[] s']|]; [by eauto | done].
Qed.

Lemma read_octet_bounds i s z r : read_octet i s = Some (z, r) -> (0 <= z <= 255)%Z.
Proof. intros [s' E]%read_separator_Some. eapply read_number_bounds in E; [exact E | lia]. Qed.

Lemma read_ipv4_bounds s a r : read_ipv4_addr s = Some (a, r) -> (0 <= a < 2 ^ 32)%Z.
Proof.
  unfold read_ipv4_addr. destruct (read_octet 0 s) as [[a0 s0]|] eqn:E0; [|done].
  cbn [mbind option_bind]. destruct (read_octet 1 s0) as [[a1 s1]|] eqn:E1; [|done].
  cbn [mbind option_bind]. destruct (read_octet 2 s1) as [[a2 s2]|] eqn:E2; [|done].
  cbn [mbind option_bind]. destruct (read_octet 3 s2) as [[a3 s3]|] eqn:E3; [|done].
  cbn [mbind option_bind]. apply read_octet_bounds in E0, E1, E2, E3. intros [= <- <-]. lia.
Qed.

Lemma read_groups_bounds left i s gs v4 r :
  read_groups left i s = (gs, v4, r) ->
  length gs <= left /\ Forall (fun g => 0 <= g < 65536)%Z gs.
Proof.
  revert i s gs v4 r. induction left as [|left IH]; intros i s gs v4 r; cbn [read_groups].
  { by intros [= <- _ _]. }
  assert (Hv4 : forall a r0, (if bool_decide (0 < left) then read_separator x3a i read_ipv4_addr s
                              else None) = Some (a, r0) -> 0 < left /\ (0 <= a < 2 ^ 32)%Z).
  { intros a r0. case_bool_decide; [|done]. intros [s' E]%read_separator_Some.
    split; [done | by eapply read_ipv4_bounds]. }
  assert (Hg : forall g r0, read_separator x3a i (read_number 16 65535 (Some 4) true) s = Some (g, r0)
               -> (0 <= g <= 65535)%Z).
  { intros g r0 [s' E]%read_separator_Some. eapply read_number_bounds in E; [exact E | lia]. }
  destruct (if bool_decide (0 < left) then _ else _) as [[a r0]|].
  - intros [= <- _ _]. destruct (Hv4 a r0 eq_refl) as [Hl Ha]. cbn. split; [lia|].
    repeat constructor; try (apply Z.mod_pos_bound; lia); try (apply Z.div_pos; lia).
    apply Z.div_lt_upper_bound; lia.
  - destruct (read_separator _ _ _ _) as [[g r0]|].
    + specialize (Hg g r0 eq_refl). destruct (read_groups left (S i) r0) as [[gs' v4'] r'] eqn:E.
      intros [= <- _ _]. apply IH in E as [Hlen Hall]. cbn. split; [lia|]. constructor; [lia|done].
    + intros [= <- _ _]. cbn. split; [lia | constructor].
Qed.

Lemma segments_value_bounds gs :
  Forall (fun g => 0 <= g < 65536)%Z gs ->
  (0 <= segments_value gs < 65536 ^ Z.of_nat (length gs))%Z.
Proof.
  unfold segments_value. induction gs as [|g gs IH] using rev_ind; [done|].
  intros [Hgs [Hg _]%Forall_cons]%Forall_app. rewrite foldl_app, length_app, Nat2Z.inj_add.
  cbn [foldl length]. rewrite Z.pow_add_r by lia. specialize (IH Hgs). nia.
Qed.

Lemma segments_value_8 gs :
  length gs = 8 -> Forall (fun g => 0 <= g < 65536)%Z gs -> (0 <= segments_value gs < 2 ^ 128)%Z.
Proof. intros Hlen Hgs. apply segments_value_bounds in Hgs. by rewrite Hlen in Hgs. Qed.

Lemma read_ipv6_bounds s a r : read_ipv6_addr s = Some (a, r) -> (0 <= a < 2 ^ 128)%Z.
Proof.
  unfold read_ipv6_addr. destruct (read_groups 8 0 s) as [[hd v4] s1] eqn:E1.
  apply read_groups_bounds in E1 as [Hlen Hhd]. case_bool_decide.
  { intros [= <- _]. by apply segments_value_8. }
  destruct v4; [done|]. destruct (read_given_char x3a s1) as [[[] s2]|]; [|done].
  cbn [mbind option_bind]. destruct (read_given_char x3a s2) as [[[] s3]|]; [|done].
  cbn [mbind option_bind].
  destruct (read_groups (8 - (length hd + 1)) 0 s3) as [[tl v4'] s4] eqn:E2.
  apply read_groups_bounds in E2 as [Hlen2 Htl]. intros [= <- _].
  apply segments_value_8.
  - rewrite !length_app, length_replicate. lia.
  - apply Forall_app. split; [done|]. apply Forall_app. split; [|done].
    apply Forall_replicate. lia.
Qed.

Lemma parse_ip_wf s ip : parse_ip s = Some ip -> wf_ip ip.
Proof.
  unfold parse_ip, parse_with, read_ip_addr, or_else, map_parser.
  destruct (read_ipv4_addr s) as [[a r]|] eqn:E4; cbn.
  - intros H. destruct r; [|done]. injection H as <-. by apply read_ipv4_bounds in E4.
  - destruct (read_ipv6_addr s) as [[a r]|] eqn:E6; cbn; [|done].
    intros H. destruct r; [|done]. injection H as <-. by apply read_ipv6_bounds in E6.
Qed.
