(* ===== verification/NetText.v ===== *)
(** [std::net] addresses read back what they print: [parse_ip] after [show_ip] is the identity on
    well-formed addresses, for IPv4, for IPv4-mapped addresses and for IPv6 with or without a
    compressed run of zero segments. The lemmas carry the round trips of [ClientAddr]. *)

From S2P Require Import Prelude RustStd Net.

(** ** Numbers *)

(** The value of a run of digits. *)
Definition radix_value (radix acc : Z) (ds : str) : Z :=
  foldl (fun a c => a * radix + default 0 (to_digit_radix radix c))%Z acc ds.

Definition is_radix_digit (radix : Z) (c : byte) : Prop := is_Some (to_digit_radix radix c).

(** The input does not go on with a digit. *)
Definition no_digit (radix : Z) (r : str) : Prop :=
  match r with [] => True | c :: _ => to_digit_radix radix c = None end.

Lemma read_digits_run radix max m ds : forall acc count r,
  Forall (is_radix_digit radix) ds -> count + length ds <= m -> no_digit radix r ->
  read_digits radix max (Some m) acc count (ds ++ r)
  = Some (radix_value radix acc ds, count + length ds, r).
Proof.
  induction ds as [|c ds IH]; intros acc count r Hds Hm Hr.
  - cbn [app length] in *. rewrite Nat.add_0_r. destruct r as [|x r]; [done|].
    cbn [read_digits]. cbn in Hr. by rewrite Hr.
  - apply Forall_cons in Hds as [[d Hd] Hds]. cbn [app length read_digits] in *. rewrite Hd.
    rewrite bool_decide_eq_false_2 by lia. rewrite IH by (done || lia).
    unfold radix_value. cbn [foldl]. rewrite Hd. by rewrite Nat.add_succ_r.
Qed.

(** A run of digits is read as its value. *)
Lemma read_number_run radix max m az ds r :
  ds <> [] -> Forall (is_radix_digit radix) ds -> length ds <= m -> no_digit radix r ->
  (az = true \/ length ds = 1 \/ head ds <> Some x30) -> (radix_value radix 0 ds <= max)%Z ->
  read_number radix max (Some m) az (ds ++ r) = Some (radix_value radix 0 ds, r).
Proof.
  intros Hne Hds Hm Hr Hz Hmax. unfold read_number. rewrite read_digits_run by done.
  cbn [mbind option_bind]. destruct ds as [|c ds]; [done|].
  rewrite bool_decide_eq_false_2 by done.
  assert (negb az && bool_decide (head ((c :: ds) ++ r) = Some x30) &&
          bool_decide (1 < 0 + length (c :: ds)) = false) as ->.
  { destruct Hz as [->|[Hl|Hh]]; [done| |].
    - rewrite (bool_decide_eq_false_2 (1 < _)) by lia. by rewrite andb_false_r.
    - rewrite (bool_decide_eq_false_2 (head _ = _)) by done. by rewrite andb_false_r. }
  destruct (Z.ltb_spec max (radix_value radix 0 (c :: ds))); [lia|done].
Qed.

(** No digit, no number. *)
Lemma read_number_none radix max md az r :
  no_digit radix r -> read_number radix max md az r = None.
Proof.
  unfold read_number, no_digit. destruct r as [|c r]; [done|]. cbn [read_digits]. by intros ->.
Qed.

Lemma read_number_suffix radix max md az s z r :
  read_number radix max md az s = Some (z, r) -> r `suffix_of` s.
Proof.
  unfold read_number.
  assert (Hsuf : forall s acc c z c' r,
    read_digits radix max md acc c s = Some (z, c', r) -> r `suffix_of` s).
  { clear. induction s as [|x s IH]; intros acc c z c' r; cbn [read_digits].
    { by intros [= _ _ <-]. }
    destruct (to_digit_radix radix x); [|by intros [= _ _ <-]].
    destruct (match md with Some m => _ | None => _ end); [done|].
    intros H%IH. by apply suffix_cons_r. }
  destruct (read_digits radix max md 0 0 s) as [[[z0 c0] r0]|] eqn:E; [|done].
  apply Hsuf in E. cbn [mbind option_bind].
  case_bool_decide; [done|]. destruct (_ && _); [done|]. destruct (_ <? _)%Z; [done|].
  by intros [= _ <-].
Qed.

(** ** IPv4 *)

Lemma is_digit_radix c : is_digit c = true -> to_digit_radix 10 c = Some (bz c - 48)%Z.
Proof.
  intros Hc%bool_decide_eq_true. unfold to_digit_radix, to_digit. cbn [Z.eqb Pos.eqb].
  by rewrite bool_decide_eq_true_2.
Qed.

Lemma radix_value_10 acc ds :
  forallb is_digit ds = true -> radix_value 10 acc ds = digits_value acc ds.
Proof.
  unfold radix_value, digits_value. revert acc. induction ds as [|c ds IH]; intros acc; [done|].
  cbn [forallb foldl]. intros [Hc Hds]%andb_true_iff. rewrite (is_digit_radix c Hc). by apply IH.
Qed.

Lemma digits_radix ds : forallb is_digit ds = true -> Forall (is_radix_digit 10) ds.
Proof.
  intros Hds. apply Forall_forall. intros c Hc. rewrite forallb_forall in Hds.
  exists (bz c - 48)%Z. apply is_digit_radix, Hds. by apply list_elem_of_In.
Qed.

(** An octet has at most three digits, and no leading zero. *)
Definition octet_shape (n : Z) : bool :=
  let ds := show_uint n in
  bool_decide (length ds <= 3) && (bool_decide (length ds = 1) || bool_decide (head ds <> Some x30)).

Lemma octet_shapes n : (0 <= n <= 255)%Z -> octet_shape n = true.
Proof.
  intros Hn. assert (Hall : forallb octet_shape (seqZ 0 256) = true) by (vm_compute; done).
  rewrite forallb_forall in Hall. apply Hall, list_elem_of_In, elem_of_seqZ. lia.
Qed.

Lemma read_octet_number n r :
  (0 <= n <= 255)%Z -> no_digit 10 r ->
  read_number 10 255 (Some 3) false (show_uint n ++ r) = Some (n, r).
Proof.
  intros Hn Hr. destruct (show_uint_spec n) as (Hne & Hd & Hv); [unfold U64_MODULUS; lia|].
  pose proof (octet_shapes n Hn) as Hs. unfold octet_shape in Hs.
  apply andb_true_iff in Hs as [Hlen%bool_decide_eq_true Hz].
  rewrite <- (radix_value_10 0 _ Hd) in Hv.
  rewrite read_number_run; [by rewrite Hv | done | by apply digits_radix | done | done | | lia].
  right. apply orb_true_iff in Hz as [?%bool_decide_eq_true|?%bool_decide_eq_true]; auto.
Qed.

Lemma read_octet_first n r :
  (0 <= n <= 255)%Z -> no_digit 10 r -> read_octet 0 (show_uint n ++ r) = Some (n, r).
Proof. apply read_octet_number. Qed.

Lemma read_separator_next {A} sep i (inner : parser A) s :
  read_separator sep (S i) inner (sep :: s) = inner s.
Proof.
  unfold read_separator, read_given_char. rewrite bool_decide_eq_true_2 by lia.
  by rewrite decide_True.
Qed.

Lemma read_octet_next i n r :
  (0 <= n <= 255)%Z -> no_digit 10 r -> read_octet (S i) ("." ++ show_uint n ++ r) = Some (n, r).
Proof.
  intros Hn Hr. unfold read_octet. change ("." ++ ?s) with (x2e :: s).
  rewrite read_separator_next. by apply read_octet_number.
Qed.

(** The octets of a 32-bit address. *)
Lemma octets_bounds a :
  (0 <= a < 2 ^ 32)%Z ->
  (0 <= a / 2 ^ 24 <= 255 /\ 0 <= a / 2 ^ 16 mod 256 <= 255 /\
   0 <= a / 2 ^ 8 mod 256 <= 255 /\ 0 <= a mod 256 <= 255)%Z.
Proof. intros Ha. repeat split; Z.to_euclidean_division_equations; lia. Qed.

Lemma octets_value a :
  (0 <= a < 2 ^ 32)%Z ->
  (((a / 2 ^ 24 * 256 + a / 2 ^ 16 mod 256) * 256 + a / 2 ^ 8 mod 256) * 256 + a mod 256 = a)%Z.
Proof. intros Ha. Z.to_euclidean_division_equations; lia. Qed.

Lemma read_show_ipv4 a r :
  (0 <= a < 2 ^ 32)%Z -> no_digit 10 r -> read_ipv4_addr (show_ipv4 a ++ r) = Some (a, r).
Proof.
  intros Ha Hr. destruct (octets_bounds a Ha) as (? & ? & ? & ?).
  unfold read_ipv4_addr, show_ipv4. rewrite <- !app_assoc.
  rewrite read_octet_first by done. cbn [mbind option_bind].
  rewrite read_octet_next by done. cbn [mbind option_bind].
  rewrite read_octet_next by done. cbn [mbind option_bind].
  rewrite read_octet_next by done. cbn [mbind option_bind].
  by rewrite octets_value.
Qed.

(** Without a dot there is no IPv4 address. *)
Lemma read_ipv4_no_dot s : x2e ∉ s -> read_ipv4_addr s = None.
Proof.
  intros Hs. unfold read_ipv4_addr.
  destruct (read_octet 0 s) as [[a r]|] eqn:E; [|done]. cbn [mbind option_bind].
  apply read_number_suffix in E as [k ->].
  assert (Hsep : read_given_char x2e r = None).
  { unfold read_given_char. destruct r as [|c r]; [done|]. rewrite decide_False; [done|].
    set_solver. }
  assert (Hoct : read_octet 1 r = None).
  { unfold read_octet, read_separator. rewrite bool_decide_eq_true_2 by lia. by rewrite Hsep. }
  by rewrite Hoct.
Qed.

(** ** Groups of IPv6 *)

Lemma hex_char_digit d :
  (0 <= d < 16)%Z -> to_digit_radix 16 (hex_char d) = Some d.
Proof.
  intros Hd.
  assert (Hall : forallb (fun d => bool_decide (to_digit_radix 16 (hex_char d) = Some d)) (seqZ 0 16) = true)
    by (vm_compute; done).
  rewrite forallb_forall in Hall. eapply bool_decide_eq_true, Hall, list_elem_of_In, elem_of_seqZ. lia.
Qed.

Lemma show_hex_digits_spec fuel n acc :
  (0 <= n < 16 ^ Z.of_nat (S fuel))%Z ->
  exists ds, show_hex_digits (S fuel) n acc = ds ++ acc /\ ds <> [] /\ length ds <= S fuel /\
    Forall (is_radix_digit 16) ds /\ radix_value 16 0 ds = n.
Proof.
  revert n acc. induction fuel as [|fuel IH]; intros n acc Hn;
    pose proof (Z.mod_pos_bound n 16 ltac:(lia)) as Hmod;
    pose proof (Z.div_mod n 16 ltac:(lia)) as Hdiv;
    pose proof (hex_char_digit (n mod 16) Hmod) as Hc;
    (assert (Hone : Forall (is_radix_digit 16) [hex_char (n mod 16)]) by (constructor; [by eexists | done]));
    (assert (Hval : forall acc, radix_value 16 acc [hex_char (n mod 16)] = (acc * 16 + n mod 16)%Z)
      by (intros acc'; unfold radix_value; cbn [foldl]; by rewrite Hc)).
  - cbn [show_hex_digits]. rewrite (Z.div_small n 16) by (cbn in Hn; lia). cbn [Z.eqb].
    exists [hex_char (n mod 16)]. rewrite Hval. cbn [length].
    repeat split; try done. rewrite Z.mod_small; [lia | cbn in Hn; lia].
  - remember (S fuel) as f. cbn [show_hex_digits]. destruct (Z.eqb_spec (n / 16) 0) as [E|E].
    + exists [hex_char (n mod 16)]. rewrite Hval. cbn [length].
      split; [done|]. split; [done|]. split; [lia|]. split; [done | lia].
    + subst f. destruct (IH (n / 16)%Z (hex_char (n mod 16) :: acc)) as (ds & -> & Hne & Hl & Hd & Hv).
      { split; [apply Z.div_pos; lia|]. apply Z.div_lt_upper_bound; [lia|].
        rewrite Nat2Z.inj_succ, Z.pow_succ_r in Hn by lia. lia. }
      exists (ds ++ [hex_char (n mod 16)]). rewrite <- app_assoc, length_app. cbn [length].
      split; [done|]. split; [by destruct ds|]. split; [lia|].
      split; [by apply Forall_app|].
      unfold radix_value in *. rewrite foldl_app, Hv, Hval. lia.
Qed.

(** The segments of an address, and one of them in hexadecimal. *)
Abbreviation group_range g := (0 <= g < 65536)%Z.

Lemma show_hex_spec g :
  group_range g ->
  show_hex g <> [] /\ length (show_hex g) <= 4 /\ Forall (is_radix_digit 16) (show_hex g) /\
  radix_value 16 0 (show_hex g) = g.
Proof.
  intros Hg. destruct (show_hex_digits_spec 3 g []) as (ds & E & Hds); [cbn; lia|].
  unfold show_hex. rewrite E, app_nil_r. done.
Qed.

Lemma read_group_number g r :
  group_range g -> no_digit 16 r ->
  read_number 16 65535 (Some 4) true (show_hex g ++ r) = Some (g, r).
Proof.
  intros Hg Hr. destruct (show_hex_spec g Hg) as (Hne & Hl & Hd & Hv).
  rewrite read_number_run; [by rewrite Hv | done | done | done | done | by left | lia].
Qed.

Lemma show_hex_no_dot g : group_range g -> x2e ∉ show_hex g.
Proof.
  intros Hg Hc. destruct (show_hex_spec g Hg) as (_ & _ & Hd & _).
  rewrite Forall_forall in Hd. apply Hd in Hc as [d Hc]. done.
Qed.

(** What follows the groups: the end, or the two colons of the compressed run. *)
Definition groups_end (r : str) : Prop := r = [] \/ exists r', r = x3a :: x3a :: r'.

Lemma groups_end_no_digit r : groups_end r -> no_digit 16 r.
Proof. by intros [->|[r' ->]]. Qed.

(** The groups after the first, each behind its colon. *)
Definition more_groups (gs : list Z) : str := concat ((fun g => x3a :: show_hex g) <$> gs).

Lemma fmt_subslice_cons g gs : fmt_subslice (g :: gs) = show_hex g ++ more_groups gs.
Proof.
  unfold fmt_subslice. revert g. induction gs as [|h gs IH]; intros g.
  - cbn. by rewrite app_nil_r.
  - change (join ":" (show_hex <$> g :: h :: gs))
      with (show_hex g ++ ":" ++ join ":" (show_hex <$> h :: gs)).
    by rewrite IH.
Qed.

Lemma more_groups_no_digit gs r : groups_end r -> no_digit 16 (more_groups gs ++ r).
Proof. intros Hr. destruct gs; [by apply groups_end_no_digit | done]. Qed.

Lemma more_groups_no_dot gs : Forall (fun g => group_range g) gs -> x2e ∉ more_groups gs.
Proof.
  induction gs as [|g gs IH]; [by intros _ ?%not_elem_of_nil|].
  intros [Hg Hgs]%Forall_cons. cbn. intros [?|[?|?]%elem_of_app]%elem_of_cons; [done| |].
  - by apply (show_hex_no_dot g).
  - by apply IH.
Qed.

(** Nothing more is read at the end of the groups. *)
Lemma read_groups_end left i r : groups_end r -> read_groups left i r = ([], false, r).
Proof.
  intros Hr. destruct left as [|left]; [done|]. cbn [read_groups].
  assert (Hv4 : read_separator x3a i read_ipv4_addr r = None).
  { unfold read_separator. case_bool_decide; destruct Hr as [->|[r' ->]]; try done; reflexivity. }
  assert (Hn : read_separator x3a i (read_number 16 65535 (Some 4) true) r = None).
  { unfold read_separator. case_bool_decide; destruct Hr as [->|[r' ->]]; try done; reflexivity. }
  rewrite Hv4, Hn. by case_bool_decide.
Qed.

Lemma read_groups_step left i g r s :
  group_range g -> no_digit 16 r -> x2e ∉ r ->
  (match i with O => s = show_hex g ++ r | S _ => s = x3a :: show_hex g ++ r end) ->
  read_groups (S left) i s =
  (let '(gs, v4, r) := read_groups left (S i) r in (g :: gs, v4, r)).
Proof.
  intros Hg Hr Hdot Hs. cbn [read_groups].
  assert (Hsep : forall A (p : parser A), read_separator x3a i p s = p (show_hex g ++ r)).
  { intros A p. destruct i as [|i]; subst s; [done | apply read_separator_next]. }
  assert (Hv4 : read_separator x3a i read_ipv4_addr s = None).
  { rewrite Hsep. apply read_ipv4_no_dot. intros [?|?]%elem_of_app; [|done].
    by apply (show_hex_no_dot g). }
  rewrite Hv4, Hsep, read_group_number by done. by case_bool_decide.
Qed.

Lemma read_more_groups left i gs r :
  Forall (fun g => group_range g) gs -> length gs <= left -> groups_end r -> x2e ∉ r ->
  read_groups left (S i) (more_groups gs ++ r) = (gs, false, r).
Proof.
  revert left i. induction gs as [|g gs IH]; intros left i Hgs Hl Hr Hdot;
    [by apply read_groups_end|].
  apply Forall_cons in Hgs as [Hg Hgs]. destruct left as [|left]; cbn [length] in Hl; [lia|].
  rewrite (read_groups_step left (S i) g (more_groups gs ++ r)); [| done | | |].
  - by rewrite IH by (done || lia).
  - by apply more_groups_no_digit.
  - intros [?|?]%elem_of_app; [by apply (more_groups_no_dot gs) | done].
  - cbn. by rewrite <- app_assoc.
Qed.

(** The groups a sub-slice prints are the groups read. *)
Lemma read_fmt_subslice left gs r :
  Forall (fun g => group_range g) gs -> length gs <= left -> groups_end r -> x2e ∉ r ->
  read_groups left 0 (fmt_subslice gs ++ r) = (gs, false, r).
Proof.
  destruct gs as [|g gs]; intros Hgs Hl Hr Hdot; [by apply read_groups_end|].
  apply Forall_cons in Hgs as [Hg Hgs]. destruct left as [|left]; cbn [length] in Hl; [lia|].
  rewrite (read_groups_step left 0 g (more_groups gs ++ r)); [| done | | |].
  - by rewrite read_more_groups by (done || lia).
  - by apply more_groups_no_digit.
  - intros [?|?]%elem_of_app; [by apply (more_groups_no_dot gs) | done].
  - by rewrite fmt_subslice_cons, <- app_assoc.
Qed.

Lemma fmt_subslice_no_dot gs : Forall (fun g => group_range g) gs -> x2e ∉ fmt_subslice gs.
Proof.
  destruct gs as [|g gs]; [by intros _ ?%not_elem_of_nil|].
  intros [Hg Hgs]%Forall_cons. rewrite fmt_subslice_cons. intros [?|?]%elem_of_app.
  - by apply (show_hex_no_dot g).
  - by apply (more_groups_no_dot gs).
Qed.

(** ** Segments *)

Lemma segments_range a : Forall (fun g => group_range g) (segments a).
Proof. unfold segments. cbn. repeat constructor; by apply Z.mod_pos_bound. Qed.

Lemma segments_value_segments a : (0 <= a < 2 ^ 128)%Z -> segments_value (segments a) = a.
Proof.
  intros Ha.
  assert (Hstep : forall k k', (0 <= k)%Z -> k' = (k + 1)%Z ->
    (a / 2 ^ (16 * k') * 65536 + a / 2 ^ (16 * k) mod 65536 = a / 2 ^ (16 * k))%Z).
  { intros k k' Hk ->. rewrite Z.mul_add_distr_l, Z.pow_add_r, <- Z.div_div by lia.
    change (2 ^ (16 * 1))%Z with 65536%Z. pose proof (Z.div_mod (a / 2 ^ (16 * k)) 65536). lia. }
  unfold segments_value, segments. cbn [foldl fmap list_fmap].
  rewrite (Z.mod_small (a / 2 ^ (16 * 7))), Z.mul_0_l, Z.add_0_l.
  2: { split; [apply Z.div_pos; lia | apply Z.div_lt_upper_bound; lia]. }
  rewrite (Hstep 6 7)%Z, (Hstep 5 6)%Z, (Hstep 4 5)%Z, (Hstep 3 4)%Z, (Hstep 2 3)%Z, (Hstep 1 2)%Z,
    (Hstep 0 1)%Z by lia.
  by rewrite Z.mul_0_r, Z.pow_0_r, Z.div_1_r.
Qed.

(** ** The compressed run *)

(** The segments [s .. s + l] exist and are zero. *)
Definition zero_run (gs : list Z) (run : nat * nat) : Prop :=
  exists post, drop run.1 gs = replicate run.2 0%Z ++ post /\ run.1 + run.2 <= length gs.

Lemma longest_zero_run_spec gs : forall pre cur best,
  zero_run pre best -> (cur.2 = 0 \/ exists pre', pre = pre' ++ replicate cur.2 0%Z /\ cur.1 = length pre') ->
  zero_run (pre ++ gs) (longest_zero_run (length pre) cur best gs).
Proof.
  induction gs as [|g gs IH]; intros pre cur best Hbest Hcur; [by rewrite app_nil_r|].
  assert (Hgrow : forall run, zero_run pre run -> zero_run (pre ++ [g]) run).
  { intros run (post & E & Hl). exists (post ++ [g]). rewrite length_app. cbn. split; [|lia].
    rewrite drop_app_le by lia. rewrite E. by rewrite <- app_assoc. }
  rewrite (cons_middle g pre gs), app_assoc. cbn [longest_zero_run].
  replace (S (length pre)) with (length (pre ++ [g])) by (rewrite length_app; cbn; lia).
  destruct (Z.eqb_spec g 0) as [->|Hg]; [|apply IH; [auto | by left]].
  set (cur' := (if bool_decide (cur.2 = 0) then length pre else cur.1, S cur.2)).
  assert (Hcur' : exists pre', pre ++ [0%Z] = pre' ++ replicate cur'.2 0%Z /\ cur'.1 = length pre').
  { unfold cur'. cbn [fst snd]. case_bool_decide as Hc.
    - exists pre. by rewrite Hc.
    - destruct Hcur as [?|(pre' & -> & Hc1)]; [done|]. exists pre'.
      by rewrite replicate_S_end, app_assoc. }
  apply IH; [|by right]. case_bool_decide; [|by auto].
  destruct Hcur' as (pre' & E & El). exists []. rewrite E, El, app_nil_r, drop_app_length.
  split; [done|]. rewrite length_app, length_replicate. lia.
Qed.

(** The segments around the compressed run and the run make up the segments. *)
Lemma longest_zero_run_split gs s l :
  longest_zero_run 0 (0, 0) (0, 0) gs = (s, l) ->
  take s gs ++ replicate l 0%Z ++ drop (s + l) gs = gs /\ s + l <= length gs.
Proof.
  intros E. destruct (longest_zero_run_spec gs [] (0, 0) (0, 0)) as (post & Hd & Hl).
  - exists []. by cbn.
  - by left.
  - cbn [app length] in Hd, Hl. rewrite E in Hd, Hl. cbn [fst snd] in Hd, Hl. split; [|done].
    rewrite <- drop_drop, Hd. rewrite drop_app_length' by (by rewrite length_replicate).
    by rewrite <- Hd, take_drop.
Qed.

(** ** Addresses *)

Lemma read_show_mapped a :
  (0 <= a < 2 ^ 32)%Z -> read_ipv6_addr ("::ffff:" ++ show_ipv4 a) = Some ((65535 * 2 ^ 32 + a)%Z, []).
Proof.
  intros Ha.
  assert (Hg : read_groups 7 0 ("ffff:" ++ show_ipv4 a) = ([65535; a / 2 ^ 16; a mod 2 ^ 16]%Z, true, [])).
  { change ("ffff:" ++ show_ipv4 a) with (show_hex 65535 ++ x3a :: show_ipv4 a).
    assert (Hr : read_separator x3a 1 read_ipv4_addr (x3a :: show_ipv4 a) = Some (a, [])).
    { rewrite read_separator_next. rewrite <- (app_nil_r (show_ipv4 a)). by apply read_show_ipv4. }
    assert (Hf : read_separator x3a 0 (read_number 16 65535 (Some 4) true)
                   (show_hex 65535 ++ x3a :: show_ipv4 a) = Some (65535%Z, x3a :: show_ipv4 a)).
    { by apply (read_group_number 65535 (x3a :: show_ipv4 a)). }
    cbn [read_groups]. rewrite Hf, Hr. done. }
  unfold read_ipv6_addr. change ("::ffff:" ++ show_ipv4 a) with (x3a :: x3a :: "ffff:" ++ show_ipv4 a).
  rewrite read_groups_end by (right; by eexists). rewrite bool_decide_eq_false_2 by done.
  change (read_given_char x3a (x3a :: ?s)) with (Some (tt, s)). cbn [mbind option_bind].
  change (read_given_char x3a (x3a :: ?s)) with (Some (tt, s)). cbn [mbind option_bind].
  change (8 - (length (@nil Z) + 1)) with 7. rewrite Hg. do 2 f_equal.
  unfold segments_value. cbn [app foldl length replicate Nat.sub].
  pose proof (Z.div_mod a (2 ^ 16)). lia.
Qed.

Lemma read_show_ipv6 a : (0 <= a < 2 ^ 128)%Z -> read_ipv6_addr (show_ipv6 a) = Some (a, []).
Proof.
  intros Ha. unfold show_ipv6. destruct (Z.eqb_spec (a / 2 ^ 32) 65535) as [E|_].
  { rewrite read_show_mapped by (apply Z.mod_pos_bound; lia). do 2 f_equal.
    pose proof (Z.div_mod a (2 ^ 32)). lia. }
  pose proof (segments_value_segments a Ha) as Hv. pose proof (segments_range a) as Hgs.
  assert (Hlen : length (segments a) = 8) by done. remember (segments a) as gs eqn:Egs. clear Egs.
  destruct (longest_zero_run 0 (0, 0) (0, 0) gs) as [s l] eqn:E.
  apply longest_zero_run_split in E as [Hsplit Hl]. unfold read_ipv6_addr. case_bool_decide as Hrun.
  - rewrite read_fmt_subslice; [| by apply Forall_take | rewrite length_take; lia | right; by eexists |].
    2: { cbn. rewrite !not_elem_of_cons. split; [done|]. split; [done|].
         apply fmt_subslice_no_dot. by apply Forall_drop. }
    assert (Htake : length (take s gs) = s) by (rewrite length_take; lia). rewrite Htake.
    rewrite bool_decide_eq_false_2 by lia. change ("::" ++ ?t) with (x3a :: x3a :: t).
    change (read_given_char x3a (x3a :: ?s)) with (Some (tt, s)). cbn [mbind option_bind].
    change (read_given_char x3a (x3a :: ?s)) with (Some (tt, s)). cbn [mbind option_bind].
    rewrite <- (app_nil_r (fmt_subslice _)).
    rewrite read_fmt_subslice; [| by apply Forall_drop | rewrite length_drop; lia | by left | set_solver].
    rewrite length_drop, Hlen. replace (8 - s - (8 - (s + l))) with l by lia. by rewrite Hsplit, Hv.
  - rewrite <- (app_nil_r (fmt_subslice _)).
    rewrite read_fmt_subslice; [| done | lia | by left | set_solver].
    rewrite bool_decide_eq_true_2 by done. by rewrite Hv.
Qed.

(** No IPv6 address starts as an IPv4 address does: there is a colon before any dot. *)
Lemma show_ipv6_not_v4 a : (0 <= a < 2 ^ 128)%Z -> read_ipv4_addr (show_ipv6 a) = None.
Proof.
  intros Ha. unfold show_ipv6. destruct (_ =? _)%Z; [done|].
  apply read_ipv4_no_dot. pose proof (segments_range a) as Hgs.
  destruct (longest_zero_run _ _ _ _) as [s l]. case_bool_decide; [|by apply fmt_subslice_no_dot].
  cbn. intros [Hc|Hc]%elem_of_app.
  - apply (fmt_subslice_no_dot (take s (segments a))); [by apply Forall_take | done].
  - rewrite !elem_of_cons in Hc. destruct Hc as [?|[?|Hc]]; [done|done|].
    apply (fmt_subslice_no_dot (drop (s + l) (segments a))); [by apply Forall_drop | done].
Qed.

(** An address is read back from what it prints. *)
Lemma parse_show_ip ip : wf_ip ip -> parse_ip (show_ip ip) = Some ip.
Proof.
  intros Hip. unfold parse_ip, parse_with, read_ip_addr, or_else, map_parser. destruct ip as [a|a]; cbn in Hip.
  - cbn [show_ip]. rewrite <- (app_nil_r (show_ipv4 a)). by rewrite read_show_ipv4.
  - cbn [show_ip]. rewrite show_ipv6_not_v4 by lia. cbn [fmap option_fmap option_map].
    by rewrite read_show_ipv6.
Qed.

(** ** The characters of an address *)

Definition address_char (c : byte) : Prop :=
  is_radix_digit 16 c \/ c = x2e \/ c = x3a.

Lemma address_char_visible c : address_char c -> (33 <= bz c <= 126)%Z /\ c <> x2f.
Proof.
  intros [[d Hd]|[->| ->]]; [|split; done..]. unfold to_digit_radix, to_hex_digit in Hd. cbn [Z.eqb Pos.eqb] in Hd.
  split; [repeat case_bool_decide; (done || lia) | by intros ->].
Qed.

Lemma show_uint_address n :
  (0 <= n < U64_MODULUS)%Z -> Forall address_char (show_uint n).
Proof.
  intros Hn. apply Forall_forall. intros c Hc. left.
  pose proof (show_uint_chars n c Hn Hc) as Hd%bool_decide_eq_true. exists (bz c - 48)%Z.
  unfold to_digit_radix, to_hex_digit. cbn [Z.eqb Pos.eqb]. by rewrite bool_decide_eq_true_2.
Qed.

Lemma show_ipv4_address a : (0 <= a < 2 ^ 32)%Z -> Forall address_char (show_ipv4 a).
Proof.
  intros Ha. destruct (octets_bounds a Ha) as (? & ? & ? & ?). unfold show_ipv4, U64_MODULUS in *.
  assert (Forall address_char ".") by (constructor; [by right; left | done]).
  repeat (apply Forall_app; split); try done; apply show_uint_address; unfold U64_MODULUS; lia.
Qed.

Lemma fmt_subslice_address gs : Forall (fun g => group_range g) gs -> Forall address_char (fmt_subslice gs).
Proof.
  assert (Hhex : forall g, group_range g -> Forall address_char (show_hex g)).
  { intros g Hg. destruct (show_hex_spec g Hg) as (_ & _ & Hd & _).
    eapply Forall_impl; [exact Hd|]. intros c Hc. by left. }
  destruct gs as [|g gs]; [by constructor|]. rewrite fmt_subslice_cons.
  intros [Hg Hgs]%Forall_cons. apply Forall_app. split; [by apply Hhex|].
  induction gs as [|h gs IH]; [by constructor|]. apply Forall_cons in Hgs as [Hh Hgs].
  cbn. constructor; [by right; right|]. apply Forall_app. split; [by apply Hhex | by apply IH].
Qed.

Lemma show_ip_address ip : wf_ip ip -> Forall address_char (show_ip ip).
Proof.
  destruct ip as [a|a]; cbn [show_ip wf_ip]; intros Ha; [by apply show_ipv4_address|].
  assert (Hc : Forall address_char "::") by (by repeat (apply Forall_cons_2; [by right; right|])).
  unfold show_ipv6. destruct (_ =? _)%Z.
  - apply Forall_app. split; [|apply show_ipv4_address; by apply Z.mod_pos_bound].
    repeat apply Forall_cons_2; try apply Forall_nil_2; (by right; right) || (left; by eexists).
  - pose proof (segments_range a) as Hgs. destruct (longest_zero_run _ _ _ _) as [s l].
    case_bool_decide; [|by apply fmt_subslice_address].
    apply Forall_app. split; [by apply fmt_subslice_address, Forall_take|].
    apply Forall_app. split; [done|]. by apply fmt_subslice_address, Forall_drop.
Qed.

Lemma show_ip_visible ip : wf_ip ip -> Forall (fun c => 33 <= bz c <= 126)%Z (show_ip ip).
Proof.
  intros Hip. eapply Forall_impl; [by apply show_ip_address|]. by intros c [? _]%address_char_visible.
Qed.

Lemma show_uint_visible n :
  (0 <= n < U64_MODULUS)%Z -> Forall (fun c => 33 <= bz c <= 126)%Z (show_uint n).
Proof.
  intros Hn. eapply Forall_impl; [by apply show_uint_address|]. by intros c [? _]%address_char_visible.
Qed.

Lemma show_ip_no_slash ip : wf_ip ip -> x2f ∉ show_ip ip.
Proof.
  intros Hip Hc. pose proof (show_ip_address ip Hip) as Ha. rewrite Forall_forall in Ha.
  by apply Ha, address_char_visible in Hc as [_ ?].
Qed.
