(* ===== verification/ClientAddr.v ===== *)
(** [src/client_addr.rs]: the address a connection is reported under.

    [IpRange] and [TrustedProxies] decide which peers are believed; [client_addr] reads
    [X-Forwarded-For] from a believed peer. The theorems: a range contains exactly the addresses
    that share its prefix bits; an accepted range is well formed; the selected client is the
    rightmost address that is not a trusted proxy, whatever stands to its left. *)

From S2P Require Import Prelude RustStd Extern Instances Net NetText.

Definition MAX_HEADERS : nat := 64.
Definition FORWARDED_FOR : str := "x-forwarded-for".

Record IpRange : Type := mkIpRange {
  range_addr : IpAddr;
  prefix : Z;
}.
#[export] Instance IpRange_eq_dec : EqDecision IpRange.
Proof. solve_decision. Defined.

(** [checked_shl(n)] of the all-ones word of [w] bits, 0 when it overflows; [n] is computed by a
    [u32] subtraction. *)
Definition range_mask (w prefix : Z) : Z :=
  let n := ((w - prefix) mod 2 ^ 32)%Z in
  default 0%Z (if (n <? w)%Z then Some (Z.land (Z.shiftl (2 ^ w - 1) n) (2 ^ w - 1)) else None).

(** [IpRange::contains]. *)
Definition range_contains (r : IpRange) (ip : IpAddr) : bool :=
  match range_addr r, to_canonical ip with
  | V4 network, V4 ip =>
      let mask := range_mask 32 (prefix r) in (Z.land network mask =? Z.land ip mask)%Z
  | V6 network, V6 ip =>
      let mask := range_mask 128 (prefix r) in (Z.land network mask =? Z.land ip mask)%Z
  | _, _ => false
  end.

(** The reasons [IpRange::from_str] refuses an input. *)
Inductive RangeError : Type :=
  | NotARange
  | MappedAddress
  | InvalidPrefix (max : Z).
#[export] Instance RangeError_eq_dec : EqDecision RangeError.
Proof. solve_decision. Defined.

Definition max_prefix (ip : IpAddr) : Z := if is_ipv4 ip then 32%Z else 128%Z.

(** [IpRange::from_str]. *)
Definition range_from_str (input : str) : outcome RangeError IpRange :=
  let '(addr, prefix) :=
    match split_once "/" input with
    | Some (addr, prefix) => (addr, Some prefix)
    | None => (input, None)
    end in
  let? addr := ok_or NotARange (parse_ip (trim addr)) in
  if decide (to_canonical addr <> addr) then Err MappedAddress
  else
    let max := max_prefix addr in
    let? prefix :=
      match prefix with
      | None => Ok max
      | Some prefix =>
          ok_or (InvalidPrefix max)
            (p ← parse_uint 255 (trim prefix); if (p <=? max)%Z then Some p else None)
      end in
    Ok (mkIpRange addr prefix).

(** [TryFrom<String> for IpRange], through which a range of the configuration file is read. *)
Definition range_try_from (input : str) : outcome RangeError IpRange := range_from_str input.

(** [IpRange::loopback]: the built-in ranges must parse. *)
Definition loopback {E} : outcome E (list IpRange) :=
  match collect (range_from_str <$> ["127.0.0.0/8"; "::1/128"]) with
  | Ok ranges => Ok ranges
  | _ => Panicked
  end.

Definition show_range (r : IpRange) : str := show_ip (range_addr r) ++ "/" ++ show_uint (prefix r).

(** [TrustedProxies] is its list of ranges. *)
Abbreviation TrustedProxies := (list IpRange).

(** [TrustedProxies::new]. *)
Definition proxies_new (ranges : list IpRange) : TrustedProxies := ranges.

(** [TrustedProxies::contains]. *)
Definition proxies_contain (ranges : TrustedProxies) (ip : IpAddr) : bool :=
  existsb (fun range => range_contains range ip) ranges.

(** [Display for TrustedProxies]. *)
Definition show_proxies (ranges : TrustedProxies) : str :=
  match ranges with
  | [] => "none"
  | _ => concat (imap (fun index range => (if bool_decide (0 < index) then ", " else []) ++ show_range range) ranges)
  end.

(** [parse_forwarded_address]. *)
Definition parse_forwarded_address (entry : str) : option IpAddr :=
  let ip :=
    match parse_ip entry with
    | Some ip => Some ip
    | None =>
        match parse_socket_addr entry with
        | Some addr => Some (sock_ip addr)
        | None =>
            entry ← strip_prefix "[" entry;
            entry ← strip_suffix "]" entry;
            parse_ip entry
        end
    end in
  to_canonical <$> ip.

(** The loop of [select_client] over the entries from the right: [Some (Some ip)] when it returns
    an address, [Some None] when it gives up on a malformed entry, [None] when it runs to the end. *)
Fixpoint select_loop (ranges : TrustedProxies) (rev_entries : list str) : option (option IpAddr) :=
  match rev_entries with
  | [] => None
  | entry :: rest =>
      match parse_forwarded_address entry with
      | None => Some None
      | Some ip => if proxies_contain ranges ip then select_loop ranges rest else Some (Some ip)
      end
  end.

(** [TrustedProxies::select_client]. *)
Definition select_client (ranges : TrustedProxies) (entries : list str) : option IpAddr :=
  match select_loop ranges (rev entries) with
  | Some result => result
  | None => head entries ≫= parse_forwarded_address
  end.

(** The comma-separated entries of all [X-Forwarded-For] lines, in order. *)
Definition forwarded_entries (hs : list (str * bytes)) : list str :=
  let lines := filter (fun h => eq_ignore_ascii_case h.1 FORWARDED_FOR = true) hs in
  let values := omap (fun h => from_utf8 h.2) lines in
  filter (fun e => e <> []) (trim <$> (values ≫= split_on (fun c => bool_decide (c = x2c)))).

Record ClientAddr : Type := mkClientAddr {
  peer : SocketAddr;
  forwarded : option IpAddr;
}.

(** [From<SocketAddr> for ClientAddr]. *)
Definition client_from (peer : SocketAddr) : ClientAddr := mkClientAddr peer None.

(** [FromStr for ClientAddr]. *)
Definition client_from_str (input : str) : option ClientAddr :=
  client_from <$> parse_socket_addr input.

(** [Display for ClientAddr]. *)
Definition show_client (c : ClientAddr) : str :=
  match forwarded c with
  | Some ip => show_ip ip
  | None => show_socket_addr (peer c)
  end.

Section head.
Context `{HttParse}.

(** [TrustedProxies::forwarded_client]. *)
Definition forwarded_client (ranges : TrustedProxies) (head : bytes) : option IpAddr :=
  request ← httparse_request MAX_HEADERS head;
  select_client ranges (forwarded_entries (parsed_headers request)).

(** [TrustedProxies::client_addr]. *)
Definition client_addr (ranges : TrustedProxies) (peer : SocketAddr) (head : bytes) : ClientAddr :=
  mkClientAddr peer
    (if proxies_contain ranges (sock_ip peer) then forwarded_client ranges head else None).
End head.

(** ** Examples, and fixtures of the witnesses *)

Module ClientAddrTests.
Definition range (s : str) : IpRange :=
  match range_from_str s with Ok r => r | _ => mkIpRange localhost_v4 0 end.
Definition ip (s : str) : IpAddr := default localhost_v4 (parse_ip s).

Example range_errors :
  range_from_str <$>
    [[]; "nope"; "10.0.0.0/33"; "::1/129"; "10.0.0.0/"; "10.0.0.0/x"; "::ffff:10.0.0.1"]
  = [Err NotARange; Err NotARange; Err (InvalidPrefix 32); Err (InvalidPrefix 128);
     Err (InvalidPrefix 32); Err (InvalidPrefix 32); Err MappedAddress].
Proof. vm_compute. done. Qed.

Example displays_lists :
  show_proxies <$> [[]; match @loopback unit with Ok l => l | _ => [] end] =
    ["none"; "127.0.0.0/8, ::1/128"].
Proof. vm_compute. done. Qed.

Definition trusted : TrustedProxies := [range "127.0.0.0/8"; range "10.0.0.0/8"].

Example selects_the_client :
  select_client trusted <$>
    [["10.0.0.9"; "10.0.0.5"; "127.0.0.2"]; ["203.0.113.7"; "unknown"]; ["unknown"];
     ["garbage"; "203.0.113.7"]; []; ["203.0.113.7"; "10.0.0.5"]]
  = [Some (ip "10.0.0.9"); None; None; Some (ip "203.0.113.7"); None; Some (ip "203.0.113.7")].
Proof. vm_compute. done. Qed.
End ClientAddrTests.

(** ** Ranges *)

(** An accepted range: the address in its range and not IPv4-mapped, the prefix within it. *)
Definition wf_range (r : IpRange) : Prop :=
  wf_ip (range_addr r) /\ to_canonical (range_addr r) = range_addr r /\
  (0 <= prefix r <= max_prefix (range_addr r))%Z.
#[export] Instance wf_range_dec r : Decision (wf_range r).
Proof. unfold wf_range. destruct (range_addr r); apply _. Defined.

(** The mask keeps the bits of the prefix. *)
Lemma range_mask_bits w p i :
  (0 < w < 2 ^ 32)%Z -> (0 <= p <= w)%Z -> (0 <= i)%Z ->
  Z.testbit (range_mask w p) i = ((w - p <=? i) && (i <? w))%Z.
Proof.
  intros Hw Hp Hi. unfold range_mask. rewrite Z.mod_small by lia.
  replace (2 ^ w - 1)%Z with (Z.ones w) by (rewrite Z.ones_equiv; lia).
  destruct (Z.ltb_spec (w - p) w); unfold from_option, id.
  - rewrite Z.land_spec, Z.shiftl_spec by done.
    destruct (Z.ltb_spec i w); [|rewrite (Z.ones_spec_high w i) by lia; by rewrite !andb_false_r].
    rewrite (Z.ones_spec_low w i), !andb_true_r by lia.
    destruct (Z.leb_spec (w - p) i); [by apply Z.ones_spec_low; lia | by apply Z.testbit_neg_r; lia].
  - rewrite Z.bits_0. destruct (Z.leb_spec (w - p) i), (Z.ltb_spec i w); done || lia.
Qed.

Lemma testbit_above a w i : (0 <= a < 2 ^ w)%Z -> (0 <= w <= i)%Z -> Z.testbit a i = false.
Proof.
  intros Ha Hi. destruct (decide (a = 0%Z)) as [->|Hne]; [apply Z.bits_0|].
  apply Z.bits_above_log2; [lia|]. apply Z.log2_lt_pow2; [lia|].
  eapply Z.lt_le_trans; [apply Ha|]. apply Z.pow_le_mono_r; lia.
Qed.

(** Equality under the mask is equality of the prefixes. *)
Lemma masked_eq_iff w p a b :
  (0 < w < 2 ^ 32)%Z -> (0 <= p <= w)%Z -> (0 <= a < 2 ^ w)%Z -> (0 <= b < 2 ^ w)%Z ->
  Z.land a (range_mask w p) = Z.land b (range_mask w p) <->
  (a / 2 ^ (w - p) = b / 2 ^ (w - p))%Z.
Proof.
  intros Hw Hp Ha Hb. rewrite <- !Z.shiftr_div_pow2 by lia. split; intros E; apply Z.bits_inj'; intros i Hi.
  - rewrite !Z.shiftr_spec by done. apply (f_equal (fun z => Z.testbit z (i + (w - p)))) in E.
    rewrite !Z.land_spec, range_mask_bits in E by lia.
    destruct (Z.ltb_spec (i + (w - p)) w); [|by rewrite !(testbit_above _ w) by lia].
    rewrite (proj2 (Z.leb_le _ _)) in E by lia. by rewrite !andb_true_r in E.
  - rewrite !Z.land_spec, range_mask_bits by lia.
    destruct (Z.leb_spec (w - p) i); [|by rewrite !andb_false_r].
    apply (f_equal (fun z => Z.testbit z (i - (w - p)))) in E.
    rewrite !Z.shiftr_spec in E by lia. by rewrite Z.sub_add in E; rewrite E.
Qed.

(** The addresses of a range, described without masks. *)
Definition in_prefix (r : IpRange) (ip : IpAddr) : Prop :=
  match range_addr r, to_canonical ip with
  | V4 a, V4 b => (a / 2 ^ (32 - prefix r) = b / 2 ^ (32 - prefix r))%Z
  | V6 a, V6 b => (a / 2 ^ (128 - prefix r) = b / 2 ^ (128 - prefix r))%Z
  | _, _ => False
  end.

(** C18: a well-formed range contains exactly the addresses of its family (an IPv4-mapped address is
    IPv4) whose first [prefix] bits are those of the range: the masks do what they are for, the
    prefix lengths 0 and 32 (128) included. *)
Theorem range_contains_iff r ip :
  wf_range r -> wf_ip ip -> range_contains r ip = true <-> in_prefix r ip.
Proof.
  intros (Ha & _ & Hp) Hip. apply wf_to_canonical in Hip. unfold range_contains, in_prefix.
  destruct (range_addr r) as [a|a], (to_canonical ip) as [b|b]; cbn in Hip, Ha, Hp; try done;
    rewrite Z.eqb_eq; by apply masked_eq_iff.
Qed.

Example range_contains_iff_witness :
  in_prefix (ClientAddrTests.range "10.1.2.3/8") (ClientAddrTests.ip "::ffff:10.9.9.9").
Proof.
  apply range_contains_iff; [|split; [by apply Z.leb_le | by apply Z.ltb_lt]|reflexivity].
  split; [split; [by apply Z.leb_le | by apply Z.ltb_lt]|].
  split; [reflexivity | split; by apply Z.leb_le].
Defined.

Lemma range_from_str_wf s r : range_from_str s = Ok r -> wf_range r.
Proof.
  unfold range_from_str.
  destruct (match split_once "/" s with Some _ => _ | None => _ end) as [a op].
  destruct (parse_ip (trim a)) as [ip|] eqn:Ea; [|done]. cbn [ok_or obind].
  apply parse_ip_wf in Ea. case_decide as Hc; [done|].
  assert (Hmax : (0 <= max_prefix ip)%Z) by by destruct ip.
  destruct op as [p|]; cbn [obind].
  - destruct (parse_uint 255 (trim p)) as [n|] eqn:En; [|done]. cbn [mbind option_bind].
    apply parse_uint_bounds in En; [|done].
    destruct (Z.leb_spec n (max_prefix ip)); [|done]. intros [= <-]. split; [done|]. split; [done | cbn; lia].
  - intros [= <-]. split; [done|]. split; [done | cbn; lia].
Qed.

(** C19: a well-formed range reads back from what it prints, whatever its family and prefix: the list
    of trusted ranges the router logs when it starts can be given to it again. *)
Theorem range_reads_back r : wf_range r -> range_from_str (show_range r) = Ok r.
Proof.
  intros (Hip & Hcan & Hp).
  assert (Hmax : (max_prefix (range_addr r) <= 128)%Z) by (by destruct (range_addr r)).
  unfold range_from_str, show_range.
  change ("/" ++ show_uint (prefix r)) with (x2f :: show_uint (prefix r)).
  rewrite (proj2 (split_once_char_Some x2f _ _ _) (conj eq_refl (show_ip_no_slash _ Hip))).
  rewrite trim_visible by (by apply show_ip_visible). rewrite parse_show_ip by done. cbn [ok_or obind].
  rewrite decide_False by (by intros []). rewrite trim_visible.
  2: { apply show_uint_visible. unfold U64_MODULUS. lia. }
  rewrite parse_show_uint by (unfold U64_MODULUS; lia). cbn [mbind option_bind].
  rewrite (proj2 (Z.leb_le _ _)) by lia. by destruct r.
Qed.

Example range_reads_back_witness :
  range_from_str (show_range (ClientAddrTests.range "2001:db8::/32")) = Ok (ClientAddrTests.range "2001:db8::/32").
Proof. apply range_reads_back. by apply (bool_decide_unpack _). Defined.

(** The address a client is known by reads back from the log line as a forwarded entry does. *)
Theorem forwarded_reads_back p ip :
  wf_ip ip -> to_canonical ip = ip ->
  parse_forwarded_address (show_client (mkClientAddr p (Some ip))) = Some ip.
Proof.
  intros Hip Hcan. unfold parse_forwarded_address, show_client. cbn [forwarded].
  rewrite parse_show_ip by done. cbn. by rewrite Hcan.
Qed.

(** Every range the command line or the configuration file yields is well formed: so no shift
    amount ever leaves the width of the address. *)
Theorem ranges_are_wf s r : range_from_str s = Ok r -> wf_range r.
Proof. apply range_from_str_wf. Qed.

Example ranges_are_wf_witness : wf_range (ClientAddrTests.range "2001:db8::/32").
Proof. apply (ranges_are_wf " 2001:db8:: / 32"). by_eval. Defined.

(** The built-in ranges parse: [IpRange::loopback] cannot panic. *)
Lemma loopback_Ok {E} :
  @loopback E = Ok [ClientAddrTests.range "127.0.0.0/8"; ClientAddrTests.range "::1/128"].
Proof. vm_compute. done. Qed.

(** ** Selecting the client *)

Section select.
Variable ranges : TrustedProxies.

(** An entry that names a trusted proxy, and one that names another address. *)
Definition trusted_entry (e : str) : Prop :=
  exists ip, parse_forwarded_address e = Some ip /\ proxies_contain ranges ip = true.
Definition client_entry (e : str) (ip : IpAddr) : Prop :=
  parse_forwarded_address e = Some ip /\ proxies_contain ranges ip = false.

Lemma select_loop_trusted r l :
  Forall trusted_entry r -> select_loop ranges (r ++ l) = select_loop ranges l.
Proof.
  induction 1 as [|e r (ip & He & Ht) _ IH]; [done|]. cbn. by rewrite He, Ht.
Qed.

Lemma select_loop_Some r ip :
  select_loop ranges r = Some (Some ip) <->
  exists r1 e r2, r = r1 ++ e :: r2 /\ Forall trusted_entry r1 /\ client_entry e ip.
Proof.
  split.
  - induction r as [|e r IH]; cbn; [done|].
    destruct (parse_forwarded_address e) as [ip'|] eqn:He; [|done].
    destruct (proxies_contain ranges ip') eqn:Ht.
    + intros (r1 & e' & r2 & -> & Hr1 & Hc)%IH. exists (e :: r1), e', r2.
      split; [done|]. split; [constructor; [by exists ip' | done] | done].
    + intros [= <-]. by exists [], e, r.
  - intros (r1 & e & r2 & -> & Hr1 & He & Ht). rewrite select_loop_trusted by done.
    cbn. by rewrite He, Ht.
Qed.

Lemma select_loop_None r : select_loop ranges r = None <-> Forall trusted_entry r.
Proof.
  split.
  - induction r as [|e r IH]; cbn; [done|].
    destruct (parse_forwarded_address e) as [ip|] eqn:He; [|done].
    destruct (proxies_contain ranges ip) eqn:Ht; [|done].
    intros H. constructor; [by exists ip | auto].
  - intros Hr. rewrite <- (app_nil_r r). by rewrite select_loop_trusted.
Qed.

Lemma Forall_rev_iff {A} (P : A -> Prop) l : Forall P (rev l) <-> Forall P l.
Proof. rewrite rev_alt. apply (Forall_reverse P l). Qed.

Lemma select_client_spec entries ip :
  select_client ranges entries = Some ip <->
  (exists l e r, entries = l ++ e :: r /\ client_entry e ip /\ Forall trusted_entry r) \/
  (Forall trusted_entry entries /\ head entries ≫= parse_forwarded_address = Some ip).
Proof.
  unfold select_client.
  destruct (select_loop ranges (rev entries)) as [[ip'|]|] eqn:E.
  - pose proof E as (r1 & e & r2 & Hrev & Hr1 & Hc)%select_loop_Some. split.
    + intros [= <-]. left. exists (rev r2), e, (rev r1). split; [|split; [done | by apply Forall_rev_iff]].
      apply (f_equal (@rev str)) in Hrev. rewrite rev_involutive in Hrev.
      rewrite Hrev, rev_app_distr. cbn. by rewrite <- app_assoc.
    + intros [(l & e' & r & -> & Hc' & Hr) | [Hall _]].
      * assert (select_loop ranges (rev (l ++ e' :: r)) = Some (Some ip)) as E'; [|congruence].
        apply select_loop_Some. exists (rev r), e', (rev l).
        split; [by rewrite rev_app_distr; cbn; rewrite <- app_assoc|].
        split; [by apply Forall_rev_iff | done].
      * apply Forall_rev_iff, select_loop_None in Hall. rewrite Hall in E. done.
  - split; [done|]. intros [(l & e' & r & -> & Hc' & Hr) | [Hall _]].
    + assert (select_loop ranges (rev (l ++ e' :: r)) = Some (Some ip)) as E'; [|congruence].
      apply select_loop_Some. exists (rev r), e', (rev l).
      split; [by rewrite rev_app_distr; cbn; rewrite <- app_assoc|].
      split; [by apply Forall_rev_iff | done].
    + apply Forall_rev_iff, select_loop_None in Hall. rewrite Hall in E. done.
  - apply select_loop_None, (proj1 (Forall_rev_iff _ _)) in E. split; [intros Hh; right; split; [exact E | exact Hh]|].
    intros [(l & e & r & -> & [He Hc] & Hr) | [_ H]]; [|done].
    apply Forall_app in E as [_ [(ip' & He' & Ht) _]%Forall_cons]. congruence.
Qed.

(** C16: the client is the rightmost address that is not a trusted proxy, everything to its right
    being trusted proxies; only when every entry is a trusted proxy is it the leftmost entry. In
    every other case there is no client: a malformed entry is never skipped. *)
Theorem select_client_iff entries ip :
  select_client ranges entries = Some ip <->
  (exists l e r, entries = l ++ e :: r /\ client_entry e ip /\ Forall trusted_entry r) \/
  (Forall trusted_entry entries /\ head entries ≫= parse_forwarded_address = Some ip).
Proof. apply select_client_spec. Qed.
End select.

(** ** From the bytes of the request *)

Section forwarded.
Context `{HttParse}.

(** A header that is an [X-Forwarded-For] line. *)
Definition forwarded_line (h : str * bytes) : Prop := eq_ignore_ascii_case h.1 FORWARDED_FOR = true.

(** The value of a line ends with the entry [e]: it is appended to what was there, or stands alone. *)
Definition ends_with_entry (value e : bytes) : Prop :=
  value = e \/ exists pre, value = pre ++ "," ++ e.

Lemma split_last_entry value e :
  ends_with_entry value e -> x2c ∉ e ->
  exists l, split_on (fun c => bool_decide (c = x2c)) value = l ++ [e].
Proof.
  intros Hv Hcomma.
  assert (He : split_on (fun c => bool_decide (c = x2c)) e = [e]).
  { apply split_on_single, Forall_forall. intros c Hc. apply bool_decide_eq_false. by intros ->. }
  destruct Hv as [->|[pre ->]]; [by exists []|]. eexists. unfold lit. cbn [app].
  by rewrite (split_on_app _ pre x2c e), He by done.
Qed.

(** What the last line's last entry contributes: the entries end with it. *)
Lemma forwarded_entries_last hs1 name value e hs2 :
  forwarded_line (name, value) -> Forall (fun h => ~ forwarded_line h) hs2 ->
  is_utf8 value = true -> ends_with_entry value e -> x2c ∉ e -> trim e <> [] ->
  exists l, forwarded_entries (hs1 ++ (name, value) :: hs2) = l ++ [trim e].
Proof.
  intros Hname Hhs2 Hutf Hends Hcomma Htrim. unfold forwarded_entries.
  destruct (split_last_entry value e Hends Hcomma) as [l Hl].
  rewrite filter_app, filter_cons_True by done.
  replace (filter _ hs2) with (@nil (str * bytes)).
  2:{ symmetry. induction Hhs2 as [|h hs2 Hh _ IH]; [done|]. by rewrite filter_cons_False. }
  rewrite omap_app. cbn [omap list_omap fst snd]. unfold from_utf8 at 2. rewrite Hutf.
  rewrite bind_app, bind_singleton, Hl, !fmap_app, !filter_app. cbn [fmap list_fmap].
  rewrite (filter_cons_True _ (trim e) []) by done. cbn [filter list_filter].
  eexists. by rewrite app_assoc.
Qed.

(** C17: prepending cannot forge the address. When the last [X-Forwarded-For] line ends with the address
    a trusted proxy saw (not itself a proxy of ours), appended to what the client had sent or on a
    line of its own, that address is reported, whatever the client had put to its left on that
    line (as long as it is UTF-8) and on others. This takes a head that parses within the 64 header
    lines the router looks at: a client that sends more hides itself
    ([too_many_headers_hide_client]). *)
Theorem prepending_cannot_forge ranges peer head m p hs1 name value e hs2 ip :
  proxies_contain ranges (sock_ip peer) = true ->
  httparse_request MAX_HEADERS head = Some (mkParsed m p (hs1 ++ (name, value) :: hs2)) ->
  forwarded_line (name, value) -> Forall (fun h => ~ forwarded_line h) hs2 ->
  is_utf8 value = true -> ends_with_entry value e -> x2c ∉ e ->
  parse_forwarded_address (trim e) = Some ip -> proxies_contain ranges ip = false ->
  client_addr ranges peer head = mkClientAddr peer (Some ip).
Proof.
  intros Hpeer Hhead Hname Hhs2 Hutf Hends Hcomma Hip Hc. unfold client_addr, forwarded_client.
  rewrite Hpeer, Hhead. cbn [mbind option_bind parsed_headers]. f_equal.
  destruct (forwarded_entries_last hs1 name value e hs2) as [l ->]; try done.
  { intros E. rewrite E in Hip. by vm_compute in Hip. }
  apply select_client_spec. left. by exists l, (trim e), [].
Qed.

(** A head that does not parse within the header lines looked at hides the client altogether, what a
    trusted proxy wrote included. *)
Theorem too_many_headers_hide_client ranges peer head :
  httparse_request MAX_HEADERS head = None -> client_addr ranges peer head = client_from peer.
Proof.
  intros Hhead. unfold client_addr, forwarded_client, client_from. rewrite Hhead.
  by destruct (proxies_contain _ _).
Qed.

(** C39: a line that is not UTF-8 is skipped as a whole, the part the trusted proxy appended
    included: a client that puts such bytes to the left of it is reported as the proxy, so what
    stands to the left of the proxy's entry can change the outcome. *)
Theorem non_utf8_line_hides_client ranges peer head m p hs1 name pre e hs2 :
  httparse_request MAX_HEADERS head =
    Some (mkParsed m p (hs1 ++ (name, pre ++ "," ++ e) :: hs2)) ->
  is_utf8 (pre ++ "," ++ e) = false ->
  Forall (fun h => ~ forwarded_line h) hs1 -> Forall (fun h => ~ forwarded_line h) hs2 ->
  client_addr ranges peer head = client_from peer.
Proof.
  intros Hhead Hutf Hhs1 Hhs2. unfold client_addr, forwarded_client, client_from.
  rewrite Hhead. cbn [mbind option_bind parsed_headers].
  assert (Hnil : forall hs, Forall (fun h => ~ forwarded_line h) hs ->
    filter (fun h => eq_ignore_ascii_case h.1 FORWARDED_FOR = true) hs = []).
  { induction 1 as [|h hs Hh _ IH]; [done|]. by rewrite filter_cons_False. }
  assert (Hentries : forwarded_entries (hs1 ++ (name, pre ++ "," ++ e) :: hs2) = []).
  { unfold forwarded_entries. rewrite filter_app, (Hnil hs1), app_nil_l by done.
    rewrite filter_cons, (Hnil hs2) by done. case_decide; [|done].
    cbn [omap list_omap snd]. unfold from_utf8. by rewrite Hutf. }
  rewrite Hentries. by destruct (proxies_contain _ _).
Qed.
End forwarded.

(** ** Witnesses *)

Module ForwardedTests.
Import ClientAddrTests.

Definition proxy : SocketAddr := mkSocketAddr localhost_v4 5555 0.
Definition host_header : str * bytes := ("Host", "x").
Definition request (value : bytes) : bytes :=
  "GET / HTTP/1.1\r\nHost: x\r\nX-Forwarded-For: " ++ value ++ "\r\n\r\n".

(** The client sent [10.0.0.1] and, in the second request, a byte that is not UTF-8; the proxy
    appended [203.0.113.7]. *)
Example prepending_cannot_forge_witness :
  client_addr trusted proxy (request "10.0.0.1, 203.0.113.7") =
    mkClientAddr proxy (Some (ip "203.0.113.7")).
Proof.
  apply (prepending_cannot_forge _ _ _ (Some "GET") (Some "/") [host_header]
    "X-Forwarded-For" "10.0.0.1, 203.0.113.7" " 203.0.113.7" []);
    [by_eval | by_eval | unfold forwarded_line; by_eval | constructor | by_eval
    | right; by exists "10.0.0.1" | | by_eval | by_eval].
  by apply (bool_decide_unpack _).
Defined.

(** A client that sends 64 header lines of its own before the one of the proxy. *)
Definition many_headers : bytes :=
  "GET / HTTP/1.1\r\n" ++ concat (replicate 64 "A: b\r\n") ++ "X-Forwarded-For: 203.0.113.7\r\n\r\n".

Example too_many_headers_hide_client_witness : client_addr trusted proxy many_headers = client_from proxy.
Proof. apply too_many_headers_hide_client. by_eval. Defined.

Example non_utf8_line_hides_client_witness :
  client_addr trusted proxy (request ([xff] ++ ", 203.0.113.7")) = client_from proxy.
Proof.
  apply (non_utf8_line_hides_client _ _ _ (Some "GET") (Some "/") [host_header]
    "X-Forwarded-For" [xff] " 203.0.113.7" []); [by_eval | by_eval | | constructor].
  constructor; [by intros Hf; vm_compute in Hf | constructor].
Defined.

Example select_client_iff_check :
  select_client trusted ["garbage"; "203.0.113.7"; "10.0.0.5"] = Some (ip "203.0.113.7").
Proof. by_eval. Qed.
End ForwardedTests.
