(* ===== verification/Args.v ===== *)
(** [src/args.rs]: the options of the router, from the command line, the configuration file and
    the defaults.

    [CliArgs] is what [clap] parsed ([clap_parse] is an argument), [ConfigArgs] what [toml] parsed
    ([toml_from_str] is an argument); [cli_declared] and [config_declared] say what their
    declarations ask of the generated parsers. [try_parse_from] is the whole way from the command
    line to the options: [from_cli] merges the two and validates the result. The theorems: what is
    given on the command line takes effect, accepted options are well typed and satisfy what the
    rest of the program relies on. *)

From S2P Require Import Prelude RustStd Net ClientAddr Target.

Definition DEFAULT_BIND : str := "::".
Definition DEFAULT_PORT : Z := 80.
Definition DEFAULT_TLS_PORT : Z := 443.
Definition DEFAULT_BUFFER_SIZE : Z := 16 * 1024.
Definition DEFAULT_UDP_IDLE_TIMEOUT : Z := 60.
Definition DEFAULT_ACCESS_TOKEN_TTL : Z := 10 * 60.
Definition DEFAULT_REFRESH_TOKEN_TTL : Z := 7 * 24 * 60 * 60.

Inductive ServiceMode : Type := WsOnly | WssOnly | Both.
#[export] Instance ServiceMode_eq_dec : EqDecision ServiceMode.
Proof. solve_decision. Defined.

Definition includes_ws (m : ServiceMode) : bool :=
  match m with WsOnly | Both => true | WssOnly => false end.
Definition includes_wss (m : ServiceMode) : bool :=
  match m with WssOnly | Both => true | WsOnly => false end.

Record Args : Type := mkArgs {
  bind_addr : str;
  service_mode : ServiceMode;
  ws_port : Z;
  tls_port : Z;
  ipv6_only : bool;
  buffer_size : Z;
  udp_idle_timeout : Z;
  basic_auth : list str;
  basic_auth_file : option str;
  anonymous_target : list str;
  anonymous_target_file : option str;
  trusted_proxy : list IpRange;
  token_secret_file : option str;
  access_token_ttl : Z;
  refresh_token_ttl : Z;
  tls_cert : option str;
  tls_key : option str;
  auto_self_signed_cert : bool;
  log_file : option str;
  log_level : option str;
}.

Record CliArgs : Type := mkCli {
  cli_config : option str;
  cli_bind : option str;
  cli_service_mode : option ServiceMode;
  cli_port : option Z;
  cli_tls_port : option Z;
  cli_ipv6_only : bool;
  cli_no_ipv6_only : bool;
  cli_buffer_size : option Z;
  cli_udp_idle_timeout : option Z;
  cli_basic_auth : list str;
  cli_basic_auth_file : option str;
  cli_anonymous_target : list str;
  cli_anonymous_target_file : option str;
  cli_trusted_proxy : list IpRange;
  cli_token_secret_file : option str;
  cli_access_token_ttl : option Z;
  cli_refresh_token_ttl : option Z;
  cli_tls_cert : option str;
  cli_tls_key : option str;
  cli_auto_self_signed_cert : bool;
  cli_no_auto_self_signed_cert : bool;
  cli_log_file : option str;
  cli_log_level : option str;
}.

Record ConfigArgs : Type := mkConfig {
  config_bind : option str;
  config_service_mode : option ServiceMode;
  config_port : option Z;
  config_tls_port : option Z;
  config_ipv6_only : option bool;
  config_buffer_size : option Z;
  config_udp_idle_timeout : option Z;
  config_basic_auth : option (list str);
  config_basic_auth_file : option str;
  config_anonymous_target : option (list str);
  config_anonymous_target_file : option str;
  config_trusted_proxy : option (list IpRange);
  config_token_secret_file : option str;
  config_access_token_ttl : option Z;
  config_refresh_token_ttl : option Z;
  config_tls_cert : option str;
  config_tls_key : option str;
  config_auto_self_signed_cert : option bool;
  config_log_file : option str;
  config_log_level : option str;
}.

(** What the declarations of [CliArgs] ask of the generated parser: integers of the declared widths,
    ranges as [IpRange::from_str] returns them, and none of the conflicting options together. *)
Definition opt_within (max : Z) (o : option Z) : bool :=
  match o with Some n => (0 <=? n)%Z && (n <=? max)%Z | None => true end.
Definition cli_declared (cli : CliArgs) : bool :=
  opt_within U16_MAX (cli_port cli) && opt_within U16_MAX (cli_tls_port cli) &&
  opt_within U64_MAX (cli_buffer_size cli) && opt_within U64_MAX (cli_udp_idle_timeout cli) &&
  opt_within U64_MAX (cli_access_token_ttl cli) && opt_within U64_MAX (cli_refresh_token_ttl cli) &&
  forallb (fun r => bool_decide (wf_range r)) (cli_trusted_proxy cli) &&
  negb (cli_ipv6_only cli && cli_no_ipv6_only cli) &&
  negb (cli_auto_self_signed_cert cli &&
    (cli_no_auto_self_signed_cert cli || bool_decide (is_Some (cli_tls_cert cli))
     || bool_decide (is_Some (cli_tls_key cli)))).

(** The same of [ConfigArgs], which declares no conflicts. *)
Definition config_declared (config : ConfigArgs) : bool :=
  opt_within U16_MAX (config_port config) && opt_within U16_MAX (config_tls_port config) &&
  opt_within U64_MAX (config_buffer_size config) &&
  opt_within U64_MAX (config_udp_idle_timeout config) &&
  opt_within U64_MAX (config_access_token_ttl config) &&
  opt_within U64_MAX (config_refresh_token_ttl config) &&
  forallb (fun r => bool_decide (wf_range r)) (default [] (config_trusted_proxy config)).

(** [ConfigArgs::default]. *)
Definition default_config : ConfigArgs :=
  mkConfig None None None None None None None None None None None None None None None None None
    None None None.

(** The refusals of [from_cli] and [validate], in the order of the source. *)
Inductive ArgsError : Type :=
  | UsageError             (* clap: no such option, a bad value, a conflict, or --help *)
  | ConfigUnreadable
  | ConfigUnparsable
  | BufferSizeZero
  | UdpIdleTimeoutZero
  | InvalidAnonymousTarget (target : str) (e : TargetError)
  | AccessTokenTtlZero
  | RefreshTokenTtlZero
  | TlsPairIncomplete
  | AutoSelfSignedWithFiles
  | WssWithoutTls
  | SamePorts.
#[export] Instance ArgsError_eq_dec : EqDecision ArgsError.
Proof. solve_decision. Defined.

(** [Args::has_tls_config]. *)
Definition has_tls_config (a : Args) : bool :=
  auto_self_signed_cert a || (bool_decide (is_Some (tls_cert a)) && bool_decide (is_Some (tls_key a))).

(** [bail!] unless the condition holds. *)
Definition ensure {E} (cond : bool) (e : E) : outcome E unit := if cond then Ok tt else Err e.

(** The loop over [anonymous_target]. *)
Fixpoint check_targets (targets : list str) : outcome ArgsError unit :=
  match targets with
  | [] => Ok tt
  | target :: rest =>
      let? _ := omap_err (InvalidAnonymousTarget target) (parse_target_addr target) in
      check_targets rest
  end.

(** [Args::validate]. *)
Definition validate (a : Args) : outcome ArgsError unit :=
  let? _ := ensure (negb (buffer_size a =? 0)%Z) BufferSizeZero in
  let? _ := ensure (negb (udp_idle_timeout a =? 0)%Z) UdpIdleTimeoutZero in
  let? _ := check_targets (anonymous_target a) in
  let? _ := ensure (negb (access_token_ttl a =? 0)%Z) AccessTokenTtlZero in
  let? _ := ensure (negb (refresh_token_ttl a =? 0)%Z) RefreshTokenTtlZero in
  let? _ := ensure (bool_decide (is_Some (tls_cert a) <-> is_Some (tls_key a))) TlsPairIncomplete in
  let? _ := ensure (negb (auto_self_signed_cert a && bool_decide (is_Some (tls_cert a))))
              AutoSelfSignedWithFiles in
  let? _ := ensure (negb (includes_wss (service_mode a) && negb (has_tls_config a)))
              WssWithoutTls in
  ensure (negb (bool_decide (service_mode a = Both) && (ws_port a =? tls_port a)%Z)) SamePorts.

(** [Option::or]. *)
Definition or {A} (a b : option A) : option A := match a with Some _ => a | None => b end.

(** A repeatable option: the configuration file counts only when the command line has none. *)
Definition merge_list {A} (cli : list A) (config : option (list A)) (fallback : list A) : list A :=
  match cli with [] => default fallback config | _ => cli end.

(** The certificate, the key and whether to generate a certificate. *)
Definition merge_tls (cli : CliArgs) (config : ConfigArgs) : option str * option str * bool :=
  let cli_file_tls :=
    bool_decide (is_Some (cli_tls_cert cli)) || bool_decide (is_Some (cli_tls_key cli)) in
  if cli_auto_self_signed_cert cli then (None, None, true)
  else if cli_no_auto_self_signed_cert cli || cli_file_tls then
    (or (cli_tls_cert cli) (config_tls_cert config), or (cli_tls_key cli) (config_tls_key config),
     false)
  else
    (config_tls_cert config, config_tls_key config,
     default false (config_auto_self_signed_cert config)).

(** The trusted proxies: those of the command line, else of the file, else the loopback addresses. *)
Definition merge_proxies (cli : CliArgs) (config : ConfigArgs) : outcome ArgsError (list IpRange) :=
  match cli_trusted_proxy cli with
  | [] => match config_trusted_proxy config with Some l => Ok l | None => loopback end
  | l => Ok l
  end.

(** The options [from_cli] puts together. *)
Definition merge_args (cli : CliArgs) (config : ConfigArgs) (proxies : list IpRange) : Args :=
  let '(cert, key, auto) := merge_tls cli config in
  {|
    bind_addr := default DEFAULT_BIND (or (cli_bind cli) (config_bind config));
    service_mode := default WsOnly (or (cli_service_mode cli) (config_service_mode config));
    ws_port := default DEFAULT_PORT (or (cli_port cli) (config_port config));
    tls_port := default DEFAULT_TLS_PORT (or (cli_tls_port cli) (config_tls_port config));
    ipv6_only :=
      if cli_ipv6_only cli then true
      else if cli_no_ipv6_only cli then false else default false (config_ipv6_only config);
    buffer_size := default DEFAULT_BUFFER_SIZE (or (cli_buffer_size cli) (config_buffer_size config));
    udp_idle_timeout := default DEFAULT_UDP_IDLE_TIMEOUT
      (or (cli_udp_idle_timeout cli) (config_udp_idle_timeout config));
    basic_auth := merge_list (cli_basic_auth cli) (config_basic_auth config) [];
    basic_auth_file := or (cli_basic_auth_file cli) (config_basic_auth_file config);
    anonymous_target := merge_list (cli_anonymous_target cli) (config_anonymous_target config) [];
    anonymous_target_file := or (cli_anonymous_target_file cli) (config_anonymous_target_file config);
    trusted_proxy := proxies;
    token_secret_file := or (cli_token_secret_file cli) (config_token_secret_file config);
    access_token_ttl := default DEFAULT_ACCESS_TOKEN_TTL
      (or (cli_access_token_ttl cli) (config_access_token_ttl config));
    refresh_token_ttl := default DEFAULT_REFRESH_TOKEN_TTL
      (or (cli_refresh_token_ttl cli) (config_refresh_token_ttl config));
    tls_cert := cert;
    tls_key := key;
    auto_self_signed_cert := auto;
    log_file := or (cli_log_file cli) (config_log_file config);
    log_level := or (cli_log_level cli) (config_log_level config);
  |}.

Section args.
(** [toml::from_str::<ConfigArgs>]. *)
Variable toml_from_str : str -> option ConfigArgs.
Variable fs : Files.

(** [ConfigArgs::read]. *)
Definition read_config (path : str) : outcome ArgsError ConfigArgs :=
  let? contents := ok_or ConfigUnreadable (read_to_string fs path) in
  ok_or ConfigUnparsable (toml_from_str contents).

Definition config_of (cli : CliArgs) : outcome ArgsError ConfigArgs :=
  match cli_config cli with
  | Some path => read_config path
  | None => Ok default_config
  end.

(** [Args::from_cli]. *)
Definition from_cli (cli : CliArgs) : outcome ArgsError Args :=
  let? config := config_of cli in
  let? proxies := merge_proxies cli config in
  let args := merge_args cli config proxies in
  let? _ := validate args in
  Ok args.

(** [CliArgs::parse_from]: what the generated parser makes of the arguments; [None] where it ends the
    process with a message. *)
Variable clap_parse : list str -> option CliArgs.

(** [Args::try_parse_from], and [Args::parse] on the arguments of the process. *)
Definition try_parse_from (argv : list str) : outcome ArgsError Args :=
  let? cli := ok_or UsageError (clap_parse argv) in
  from_cli cli.
Definition parse (args_os : list str) : outcome ArgsError Args := try_parse_from args_os.
End args.

(** ** Validated options *)

(** What the rest of the program relies on. *)
Record valid_args (a : Args) : Prop := mkValid {
  valid_buffer : buffer_size a <> 0%Z;
  valid_timeout : udp_idle_timeout a <> 0%Z;
  valid_targets : Forall (fun t => exists t', parse_target_addr t = Ok t') (anonymous_target a);
  valid_access_ttl : access_token_ttl a <> 0%Z;
  valid_refresh_ttl : refresh_token_ttl a <> 0%Z;
  valid_tls_pair : is_Some (tls_cert a) <-> is_Some (tls_key a);
  valid_tls_exclusive : auto_self_signed_cert a = true -> tls_cert a = None;
  valid_wss : includes_wss (service_mode a) = true -> has_tls_config a = true;
  valid_ports : service_mode a = Both -> ws_port a <> tls_port a;
}.

Lemma ensure_bind {E A} cond (e : E) (k : outcome E A) x :
  (let? _ := ensure cond e in k) = Ok x <-> cond = true /\ k = Ok x.
Proof. destruct cond; cbn; intuition congruence. Qed.

Lemma ensure_Ok {E} cond (e : E) : ensure cond e = Ok tt <-> cond = true.
Proof. destruct cond; cbn; intuition congruence. Qed.

Lemma check_targets_Ok ts :
  check_targets ts = Ok tt <-> Forall (fun t => exists t', parse_target_addr t = Ok t') ts.
Proof.
  induction ts as [|t ts IH]; cbn; [done|]. rewrite Forall_cons, <- IH.
  destruct (parse_target_addr t) as [t'| |]; cbn; [|split; [done | by intros [[? ?] _]]..].
  split; [intros H; split; [by exists t' | done] | by intros [_ H]].
Qed.

Lemma check_targets_bind {A} ts (k : outcome ArgsError A) x :
  (let? _ := check_targets ts in k) = Ok x <-> check_targets ts = Ok tt /\ k = Ok x.
Proof. destruct (check_targets ts) as [[]| |]; cbn; intuition congruence. Qed.

Lemma validate_Ok a : validate a = Ok tt <-> valid_args a.
Proof.
  unfold validate.
  rewrite !ensure_bind, check_targets_bind, !ensure_bind, ensure_Ok, check_targets_Ok.
  rewrite !negb_true_iff, !Z.eqb_neq, bool_decide_eq_true. rewrite !andb_false_iff, negb_false_iff.
  rewrite !bool_decide_eq_false, Z.eqb_neq. split.
  - intros (? & ? & ? & ? & ? & ? & He & Hw & Hports). split; try done.
    + intros Ha. destruct He as [?|He]; [congruence|]. by apply eq_None_not_Some.
    + intros Hi. destruct Hw; congruence.
    + intros Hb. destruct Hports; [done|congruence].
  - intros [? ? ? ? ? ? He Hw Hports]. repeat (split; [done|]). split; [|split].
    + destruct (auto_self_signed_cert a); [right|by left].
      rewrite He by done. by intros [? ?].
    + destruct (includes_wss _); [right; auto | by left].
    + destruct (decide (service_mode a = Both)); [right; auto | by left].
Qed.

Lemma validate_no_panic a : is_panic (validate a) = false.
Proof.
  assert (Hbind : forall cond e (k : outcome ArgsError unit), is_panic k = false ->
    is_panic (let? _ := ensure cond e in k) = false) by by intros [].
  assert (Htargets : is_panic (check_targets (anonymous_target a)) = false).
  { induction (anonymous_target a) as [|t ts IH]; [done|]. cbn.
    pose proof (parse_target_addr_no_panic t). by destruct (parse_target_addr t). }
  unfold validate. do 2 apply Hbind.
  destruct (check_targets _); [|done..]. cbn [obind]. do 5 apply Hbind.
  by destruct (negb _).
Qed.

(** A merge always yields proxies. *)
Lemma merge_proxies_Ok cli config : exists l, merge_proxies cli config = Ok l.
Proof.
  unfold merge_proxies. rewrite loopback_Ok.
  destruct (cli_trusted_proxy cli); [destruct (config_trusted_proxy config)|]; by eexists.
Qed.

Lemma config_of_no_panic toml fs cli : is_panic (config_of toml fs cli) = false.
Proof.
  unfold config_of, read_config. destruct (cli_config cli) as [path|]; [|done].
  destruct (read_to_string fs path) as [contents|]; [|done]. cbn [ok_or obind].
  by destruct (toml contents).
Qed.

(** Whatever was parsed, merging and validating ends in options or an error. *)
Lemma from_cli_no_panic toml fs cli : is_panic (from_cli toml fs cli) = false.
Proof.
  unfold from_cli. pose proof (config_of_no_panic toml fs cli) as Hc.
  destruct (config_of toml fs cli) as [config| |]; [|done..]. cbn [obind].
  destruct (merge_proxies_Ok cli config) as [proxies ->]. cbn [obind].
  pose proof (validate_no_panic (merge_args cli config proxies)) as Hv. by destruct (validate _).
Qed.

Lemma try_parse_no_panic toml fs clap argv : is_panic (try_parse_from toml fs clap argv) = false.
Proof.
  unfold try_parse_from. destruct (clap argv); [|done]. cbn [ok_or obind]. apply from_cli_no_panic.
Qed.

(** Accepted options are a valid merge. *)
Lemma from_cli_Ok toml fs cli a :
  from_cli toml fs cli = Ok a <->
  exists config proxies, config_of toml fs cli = Ok config /\ merge_proxies cli config = Ok proxies /\
    a = merge_args cli config proxies /\ valid_args a.
Proof.
  unfold from_cli. split.
  - destruct (config_of toml fs cli) as [config| |]; [|done..]. cbn [obind].
    destruct (merge_proxies cli config) as [proxies| |] eqn:Hp; [|done..]. cbn [obind].
    destruct (validate (merge_args cli config proxies)) as [[]| |] eqn:Hv; [|done..].
    intros [= <-]. apply validate_Ok in Hv. by exists config, proxies.
  - intros (config & proxies & -> & Hp & -> & Hv%validate_Ok). cbn [obind]. rewrite Hp.
    cbn [obind]. by rewrite Hv.
Qed.

Lemma from_cli_valid toml fs cli a : from_cli toml fs cli = Ok a -> valid_args a.
Proof. intros (config & proxies & _ & _ & _ & Hv)%from_cli_Ok. done. Qed.

Lemma try_parse_valid toml fs clap argv a : try_parse_from toml fs clap argv = Ok a -> valid_args a.
Proof.
  unfold try_parse_from. destruct (clap argv); [|done]. cbn [ok_or obind]. apply from_cli_valid.
Qed.

Lemma merge_args_tls cli config proxies :
  let a := merge_args cli config proxies in
  (tls_cert a, tls_key a, auto_self_signed_cert a) = merge_tls cli config.
Proof. unfold merge_args. by destruct (merge_tls cli config) as [[cert key] auto]. Qed.

(** Accepted options satisfy everything [validate] promises: no zero buffer, timeout or lifetime,
    every anonymous target parses, certificate and key come together and not with a generated one,
    a TLS service has a TLS configuration, and the two services have different ports; and
    [validate] accepts every such set of options. *)
Theorem accepted_options_valid toml fs cli a :
  from_cli toml fs cli = Ok a -> valid_args a /\ validate a = Ok tt.
Proof. intros H%from_cli_valid. split; [done | by apply validate_Ok]. Qed.

(** Where TLS comes from. [--auto-self-signed-cert] overrides the files of the configuration;
    [--no-auto-self-signed-cert] or a file on the command line overrides the configuration's
    generated certificate; and a TLS service always has exactly one source: a generated
    certificate, or a certificate and a key file. *)
Theorem tls_has_one_source toml fs cli a :
  from_cli toml fs cli = Ok a ->
  (cli_auto_self_signed_cert cli = true ->
     auto_self_signed_cert a = true /\ tls_cert a = None /\ tls_key a = None) /\
  (cli_auto_self_signed_cert cli = false ->
   cli_no_auto_self_signed_cert cli = true \/ is_Some (cli_tls_cert cli) \/ is_Some (cli_tls_key cli) ->
     auto_self_signed_cert a = false) /\
  (includes_wss (service_mode a) = true ->
     auto_self_signed_cert a = true /\ tls_cert a = None /\ tls_key a = None \/
     auto_self_signed_cert a = false /\ is_Some (tls_cert a) /\ is_Some (tls_key a)).
Proof.
  intros H. pose proof (from_cli_valid _ _ _ _ H) as Hv.
  assert (Htls : exists config,
    (tls_cert a, tls_key a, auto_self_signed_cert a) = merge_tls cli config).
  { apply from_cli_Ok in H as (config & proxies & _ & _ & -> & _). exists config.
    apply merge_args_tls. }
  destruct Htls as [config Htls]. unfold merge_tls in Htls. split; [|split].
  - intros Ha. rewrite Ha in Htls. by injection Htls as -> -> ->.
  - intros Ha Hno. rewrite Ha in Htls.
    replace (cli_no_auto_self_signed_cert cli || _) with true in Htls.
    + by injection Htls.
    + symmetry. rewrite !orb_true_iff, !bool_decide_eq_true. tauto.
  - intros Hw%(valid_wss _ Hv). unfold has_tls_config in Hw.
    destruct (auto_self_signed_cert a) eqn:Ea; [left | right].
    + pose proof (valid_tls_exclusive _ Hv Ea) as Hc. split; [done|]. split; [done|].
      destruct (tls_key a) as [k|] eqn:Ek; [|done].
      assert (is_Some (tls_cert a)) as [? ?] by (apply (valid_tls_pair _ Hv); rewrite Ek; done).
      congruence.
    + apply andb_true_iff in Hw as [Hc%bool_decide_eq_true Hk%bool_decide_eq_true]. done.
Qed.

(** ** From the command line *)

(** Options of the types [Args] declares: [u16] ports, [usize] and [u64] numbers that are not zero
    where they must not be, ranges that are well formed. *)
Record typed_args (a : Args) : Prop := mkTyped {
  typed_port : (0 <= ws_port a <= U16_MAX)%Z;
  typed_tls_port : (0 <= tls_port a <= U16_MAX)%Z;
  typed_buffer : (0 < buffer_size a <= U64_MAX)%Z;
  typed_timeout : (0 < udp_idle_timeout a <= U64_MAX)%Z;
  typed_access_ttl : (0 < access_token_ttl a <= U64_MAX)%Z;
  typed_refresh_ttl : (0 < refresh_token_ttl a <= U64_MAX)%Z;
  typed_proxies : Forall wf_range (trusted_proxy a);
}.

Lemma opt_within_spec max o : opt_within max o = true <-> forall n, o = Some n -> (0 <= n <= max)%Z.
Proof.
  destruct o as [n|]; cbn; [|done]. rewrite andb_true_iff, !Z.leb_le.
  split; [by intros ? _ [= <-] | auto].
Qed.

(** A merged number is within the bound its sources and its default keep. *)
Lemma or_within max d a b :
  (0 <= d <= max)%Z -> opt_within max a = true -> opt_within max b = true ->
  (0 <= default d (or a b) <= max)%Z.
Proof. rewrite !opt_within_spec. intros Hd Ha Hb. destruct a, b; cbn; auto. Qed.

Lemma forallb_wf l : forallb (fun r => bool_decide (wf_range r)) l = true <-> Forall wf_range l.
Proof.
  rewrite forallb_forall, List.Forall_forall.
  split; intros H r Hr; specialize (H r Hr); by rewrite bool_decide_eq_true in *.
Qed.

Section command_line.
Context (toml : str -> option ConfigArgs) (fs : Files) (clap : list str -> option CliArgs).

(** The generated parsers keep to the declarations. *)
Definition clap_keeps : Prop := forall argv cli, clap argv = Some cli -> cli_declared cli = true.
Definition toml_keeps : Prop := forall s config, toml s = Some config -> config_declared config = true.

Lemma config_of_declared cli config :
  toml_keeps -> config_of toml fs cli = Ok config -> config_declared config = true.
Proof.
  intros Htoml. unfold config_of, read_config. destruct (cli_config cli) as [path|]; [|by intros [= <-]].
  destruct (read_to_string fs path) as [contents|]; [|done]. cbn [ok_or obind].
  destruct (toml contents) as [c|] eqn:Ec; [|done]. intros [= <-]. by apply (Htoml contents).
Qed.

Lemma merge_proxies_wf cli config l :
  Forall wf_range (cli_trusted_proxy cli) -> Forall wf_range (default [] (config_trusted_proxy config)) ->
  merge_proxies cli config = Ok l -> Forall wf_range l.
Proof.
  unfold merge_proxies. intros Hcli Hconfig. destruct (cli_trusted_proxy cli) as [|r rs].
  - destruct (config_trusted_proxy config); [by intros [= <-]|].
    rewrite loopback_Ok. intros [= <-].
    rewrite !Forall_cons. split; [|split; [|done]]; apply (bool_decide_unpack _);
      vm_cast_no_check I.
  - by intros [= <-].
Qed.

(** Merging and validation keep accepted options within the types declared for them, given parsers that
    keep to their declarations: ports are 16-bit, sizes and lifetimes are 64-bit and not zero, every
    trusted range is well formed. A lifetime or a size that its type admits can still be too
    large for the clock or the allocator: see TokenStore and Proxy. *)
Theorem parsed_options_typed argv a :
  clap_keeps -> toml_keeps -> try_parse_from toml fs clap argv = Ok a -> typed_args a.
Proof.
  intros Hclap Htoml. unfold try_parse_from.
  destruct (clap argv) as [cli|] eqn:Ecli; [|done]. cbn [ok_or obind].
  intros (config & proxies & Hconf & Hp & -> & Hv)%from_cli_Ok.
  apply Hclap in Ecli. apply config_of_declared in Hconf; [|done].
  unfold cli_declared, config_declared in *. rewrite !andb_true_iff, forallb_wf in *.
  destruct_and!. pose proof (merge_proxies_wf _ _ _ ltac:(done) ltac:(done) Hp) as Hwf.
  destruct Hv as [Hb Ht _ Ha Hr _ _ _ _].
  unfold merge_args in *. destruct (merge_tls cli config) as [[cert key] auto].
  cbn [ws_port tls_port buffer_size udp_idle_timeout access_token_ttl refresh_token_ttl
    trusted_proxy] in *.
  assert (Hpos : forall n max : Z, (n <> 0 -> 0 <= n <= max -> 0 < n <= max)%Z) by lia.
  split; cbn [ws_port tls_port buffer_size udp_idle_timeout access_token_ttl refresh_token_ttl
    trusted_proxy]; [| | | | | |done]; try (apply Hpos; [done|]); by apply or_within.
Qed.

(** The option was given and is in force. *)
Definition in_force {A} (given : option A) (field : A) : Prop := forall v, given = Some v -> field = v.
Definition in_force_option {A} (given field : option A) : Prop := forall v, given = Some v -> field = Some v.
Definition in_force_list {A} (given field : list A) : Prop := given <> [] -> field = given.

Lemma or_in_force {A} (d : A) given config : in_force given (default d (or given config)).
Proof. intros v Hv. subst given. reflexivity. Qed.
Lemma or_in_force_option {A} (given config : option A) : in_force_option given (or given config).
Proof. intros v Hv. subst given. reflexivity. Qed.
Lemma merge_list_in_force {A} (given : list A) config d : in_force_list given (merge_list given config d).
Proof. intros Hne. destruct given; [congruence | reflexivity]. Qed.

(** C33: nothing given on the command line is ignored: every option of an accepted command line is in
    force, whatever the configuration file says. For the TLS options this rests on the
    conflicts declared for them: [from_cli] by itself drops certificate files next to
    [--auto-self-signed-cert]. *)
Theorem command_line_wins argv cli a :
  clap_keeps -> clap argv = Some cli -> try_parse_from toml fs clap argv = Ok a ->
  (in_force (cli_bind cli) (bind_addr a) /\ in_force (cli_service_mode cli) (service_mode a) /\
   in_force (cli_port cli) (ws_port a) /\ in_force (cli_tls_port cli) (tls_port a)) /\
  (in_force (cli_buffer_size cli) (buffer_size a) /\
   in_force (cli_udp_idle_timeout cli) (udp_idle_timeout a) /\
   in_force (cli_access_token_ttl cli) (access_token_ttl a) /\
   in_force (cli_refresh_token_ttl cli) (refresh_token_ttl a)) /\
  (in_force_list (cli_basic_auth cli) (basic_auth a) /\
   in_force_option (cli_basic_auth_file cli) (basic_auth_file a) /\
   in_force_list (cli_anonymous_target cli) (anonymous_target a) /\
   in_force_option (cli_anonymous_target_file cli) (anonymous_target_file a) /\
   in_force_list (cli_trusted_proxy cli) (trusted_proxy a) /\
   in_force_option (cli_token_secret_file cli) (token_secret_file a)) /\
  (in_force_option (cli_tls_cert cli) (tls_cert a) /\ in_force_option (cli_tls_key cli) (tls_key a) /\
   (cli_auto_self_signed_cert cli = true -> auto_self_signed_cert a = true) /\
   (cli_no_auto_self_signed_cert cli = true -> auto_self_signed_cert a = false)) /\
  (cli_ipv6_only cli = true -> ipv6_only a = true) /\
  (cli_no_ipv6_only cli = true -> ipv6_only a = false) /\
  in_force_option (cli_log_file cli) (log_file a) /\ in_force_option (cli_log_level cli) (log_level a).
Proof.
  intros Hclap Ecli. unfold try_parse_from. rewrite Ecli. cbn [ok_or obind].
  intros (config & proxies & _ & Hp & -> & _)%from_cli_Ok. apply Hclap in Ecli.
  pose proof (merge_args_tls cli config proxies) as Htls. cbv zeta in Htls.
  assert (Hlists : in_force_list (cli_trusted_proxy cli) proxies).
  { unfold merge_proxies in Hp. intros Hne. destruct (cli_trusted_proxy cli); congruence. }
  unfold cli_declared in Ecli. rewrite !andb_true_iff, !negb_true_iff, !andb_false_iff in Ecli.
  destruct Ecli as [[_ Hipv6] Hauto]. rewrite !orb_false_iff, !bool_decide_eq_false in Hauto.
  unfold merge_args in *. destruct (merge_tls cli config) as [[cert key] auto] eqn:Hm.
  cbn [tls_cert tls_key auto_self_signed_cert] in *. clear Htls. unfold merge_tls in Hm.
  repeat match goal with |- _ /\ _ => split end;
    cbn [bind_addr service_mode ws_port tls_port buffer_size udp_idle_timeout access_token_ttl
      refresh_token_ttl basic_auth basic_auth_file anonymous_target anonymous_target_file
      trusted_proxy token_secret_file tls_cert tls_key auto_self_signed_cert ipv6_only log_file
      log_level]; auto using or_in_force, or_in_force_option, merge_list_in_force.
  - intros v Hv. destruct (cli_auto_self_signed_cert cli); [naive_solver|].
    rewrite (bool_decide_eq_true_2 (is_Some (cli_tls_cert cli))), orb_true_l, orb_true_r in Hm by eauto.
    injection Hm as <- _ _. by rewrite Hv.
  - intros v Hv. destruct (cli_auto_self_signed_cert cli); [naive_solver|].
    rewrite (bool_decide_eq_true_2 (is_Some (cli_tls_key cli))), !orb_true_r in Hm by eauto.
    injection Hm as _ <- _. by rewrite Hv.
  - intros Ha. rewrite Ha in Hm. by injection Hm.
  - intros Hn. destruct (cli_auto_self_signed_cert cli); [naive_solver congruence|].
    rewrite Hn in Hm. by injection Hm.
  - by intros ->.
  - intros Hn. destruct (cli_ipv6_only cli); [naive_solver congruence|]. by rewrite Hn.
Qed.
End command_line.

(** The options written down as a configuration file. *)
Definition to_config (a : Args) : ConfigArgs :=
  mkConfig (Some (bind_addr a)) (Some (service_mode a)) (Some (ws_port a)) (Some (tls_port a))
    (Some (ipv6_only a)) (Some (buffer_size a)) (Some (udp_idle_timeout a)) (Some (basic_auth a))
    (basic_auth_file a) (Some (anonymous_target a)) (anonymous_target_file a)
    (Some (trusted_proxy a)) (token_secret_file a) (Some (access_token_ttl a))
    (Some (refresh_token_ttl a)) (tls_cert a) (tls_key a) (Some (auto_self_signed_cert a))
    (log_file a) (log_level a).

(** A command line with nothing but a configuration file. *)
Definition only_config (path : option str) : CliArgs :=
  mkCli path None None None None false false None None [] None [] None [] None None None None None
    false false None None.

(** Every valid set of options can be given by a configuration file alone, and is read back
    unchanged. *)
Theorem config_file_roundtrip toml fs path contents a :
  valid_args a -> read_to_string fs path = Some contents ->
  toml contents = Some (to_config a) ->
  from_cli toml fs (only_config (Some path)) = Ok a.
Proof.
  intros Hv Hread Htoml. apply from_cli_Ok. exists (to_config a), (trusted_proxy a).
  unfold config_of, read_config. cbn [cli_config only_config]. rewrite Hread. cbn [ok_or obind].
  rewrite Htoml. by destruct a.
Qed.

(** Without any option: the documented defaults. *)
Example defaults toml fs :
  exists a, from_cli toml fs (only_config None) = Ok a /\
    (bind_addr a, service_mode a, ws_port a, tls_port a, buffer_size a) =
      ("::" : str, WsOnly, 80, 443, 16384)%Z /\
    (udp_idle_timeout a, access_token_ttl a, refresh_token_ttl a) = (60, 600, 604800)%Z /\
    show_proxies (trusted_proxy a) = "127.0.0.0/8, ::1/128".
Proof. eexists. split; [vm_compute; reflexivity | vm_compute; done]. Qed.

(** ** Witnesses *)

Module ArgsTests.
(** [--service-mode both --auto-self-signed-cert --anonymous-target example.com:53]. *)
Definition cli : CliArgs :=
  mkCli (Some "router.toml") None (Some Both) None None false false None None [] None
    ["example.com:53"] None [] None None None None None true false None None.
Definition no_files : Files := fun _ => None.
Definition config_file : Files := fun path => if decide (path = "router.toml") then Some "..." else None.
(** A configuration file that names certificate files. *)
Definition toml (_ : str) : option ConfigArgs :=
  Some (mkConfig None None None None None None None None None None None None None None None
    (Some "cert.pem") (Some "key.pem") None None None).

Definition args : Args :=
  match from_cli toml config_file cli with
  | Ok a => a
  | _ => mkArgs [] WsOnly 0 0 false 0 0 [] None [] None [] None 0 0 None None false None None
  end.

Lemma cli_accepted : from_cli toml config_file cli = Ok args.
Proof. by_eval. Qed.

Lemma args_valid : valid_args args.
Proof. apply (from_cli_valid _ _ _ _ cli_accepted). Qed.

Example accepted_options_valid_witness : valid_args args /\ validate args = Ok tt.
Proof. apply (accepted_options_valid toml config_file cli). by_eval. Defined.

Example tls_has_one_source_witness : auto_self_signed_cert args = true /\ tls_cert args = None.
Proof.
  destruct (tls_has_one_source toml config_file cli args) as (H & _ & _); [by_eval|].
  destruct H as (Ha & Hc & _); [reflexivity | exact (conj Ha Hc)].
Defined.

(** Parsers that keep to the declarations. *)
Definition clap (_ : list str) : option CliArgs := Some cli.
Lemma clap_ok : clap_keeps clap.
Proof. intros argv c [= <-]. reflexivity. Qed.
Lemma toml_ok : toml_keeps toml.
Proof. intros s c [= <-]. reflexivity. Qed.

Example parsed_options_typed_witness : typed_args args.
Proof. apply (parsed_options_typed toml config_file clap []); [apply clap_ok|apply toml_ok|by_eval]. Defined.

(** The configuration file's certificate yields to the generated one of the command line. *)
Example command_line_wins_witness :
  clap_keeps clap /\ auto_self_signed_cert args = true /\ tls_cert args = None.
Proof.
  destruct (command_line_wins toml config_file clap [] cli args) as (_ & _ & _ & (_ & _ & Ha & _) & _);
    [apply clap_ok | reflexivity | by_eval |].
  split; [apply clap_ok|]. split; [exact (Ha eq_refl) | reflexivity].
Defined.

Example config_file_roundtrip_witness :
  from_cli (fun _ => Some (to_config args)) config_file (only_config (Some "router.toml")) = Ok args.
Proof.
  apply (config_file_roundtrip _ _ _ "..."); [apply args_valid | by_eval | reflexivity].
Defined.
End ArgsTests.
