(* ===== verification/Token.v ===== *)
(** [src/token.rs]: access and refresh tokens. The state, and every operation of [TokenService].

    A call reads the clocks and the random number generator; its readings are the [Env] argument:
    [Instant::now()], the system clock, and the bytes [SystemRandom::fill] puts in a buffer of a
    given length ([None] when it fails; a call fills at most one buffer of each length). The
    service's [Mutex<State>] is a [Mutex] of [RustStd]; the operations run in the state-error monad
    [M]. [HashMap]s are [gmap]s, [retain] is [filter]. *)

From S2P Require Import Prelude RustStd Extern Instances Args.

Definition TOKEN_BYTES : nat := 32.
Definition MIN_SECRET_BYTES : nat := 32.
Definition ACCESS_TOKEN_VERSION : byte := x01.
Definition MAX_FAMILY_LIFETIME : Duration := from_secs (30 * 24 * 60 * 60).
Definition MAX_RECORDS : Z := 100000.
Definition SWEEP_INTERVAL : Duration := from_secs 60.

(** What a call reads from its environment. *)
Record Env : Type := mkEnv {
  instant_now : Instant;               (* Instant::now() *)
  system_now : Z;                      (* SystemTime::now(), nanoseconds since the epoch *)
  random_fill : nat -> option bytes;   (* SystemRandom::fill *)
}.

(** [unix_now]: a system clock before the epoch counts as the epoch. *)
Definition unix_now (env : Env) : Z :=
  if (system_now env <? 0)%Z then 0%Z else as_secs (system_now env).

Record IssuedTokens : Type := mkIssued {
  access_token : str;
  access_expires_in : Z;
  refresh_token : str;
  refresh_expires_in : Z;
}.
#[export] Instance IssuedTokens_eq_dec : EqDecision IssuedTokens.
Proof. solve_decision. Defined.

Inductive TokenError : Type :=
  | Invalid
  | Reused (user : str)
  | Full
  | Random.
#[export] Instance TokenError_eq_dec : EqDecision TokenError.
Proof. solve_decision. Defined.

Abbreviation Hash := (list byte).

Record RefreshRecord : Type := mkRefresh {
  r_family : Z;
  r_user : str;
  r_expires : Instant;
  r_deadline : Instant;
}.

Record SpentRecord : Type := mkSpent {
  s_family : Z;
  s_user : str;
  s_expires : Instant;
}.

Record State : Type := mkState {
  refreshes : gmap Hash RefreshRecord;
  spent : gmap Hash SpentRecord;
  revoked : gmap Z Instant;
  next_sweep : Instant;
}.

Definition set_refreshes f s := mkState (f (refreshes s)) (spent s) (revoked s) (next_sweep s).
Definition set_spent f s := mkState (refreshes s) (f (spent s)) (revoked s) (next_sweep s).
Definition set_revoked f s := mkState (refreshes s) (spent s) (f (revoked s)) (next_sweep s).
Definition set_next_sweep t s := mkState (refreshes s) (spent s) (revoked s) t.

(** Keys to the two record maps together; [state.refresh.len() + state.spent.len()]. *)
Definition record_count (s : State) : Z := Z.of_nat (size (refreshes s) + size (spent s)).

(** [State::force_sweep]: drops what has expired. *)
Definition force_sweep (now : Instant) : M State TokenError unit :=
  run! modify (set_refreshes
    (filter (fun kr => (now < r_expires kr.2)%Z /\ (now < r_deadline kr.2)%Z))) in
  run! modify (set_spent (filter (fun kr => (now < s_expires kr.2)%Z))) in
  run! modify (set_revoked (filter (fun ku => (now < ku.2)%Z))) in
  do! t := lift (instant_add now SWEEP_INTERVAL) in
  modify (set_next_sweep t).

(** [State::sweep]: at most once per interval. *)
Definition sweep (now : Instant) : M State TokenError unit :=
  do! s := get in
  if (now <? next_sweep s)%Z then ret tt else force_sweep now.

(** [State::revoke_family]. *)
Definition revoke_family (family : Z) (now : Instant) (access_ttl : Duration) :
    M State TokenError unit :=
  run! modify (set_refreshes (filter (fun kr => r_family kr.2 <> family))) in
  do! until := lift (instant_add now access_ttl) in
  modify (set_revoked (insert family until)).

(** [TokenService::make_room]. *)
Definition make_room (now : Instant) : M State TokenError unit :=
  do! s := get in
  if (MAX_RECORDS <=? record_count s)%Z then
    run! force_sweep now in
    do! s := get in
    if (MAX_RECORDS <=? record_count s)%Z then fail Full else ret tt
  else ret tt.

(** [random_family]. *)
Definition random_family (env : Env) : outcome TokenError Z :=
  match random_fill env 8 with
  | Some b => Ok (from_be_bytes b)
  | None => Err Random
  end.

Section service.
Context `{Base64} `{Ring}.

Record TokenService : Type := mkService {
  key : Key;
  access_ttl : Duration;
  refresh_ttl : Duration;
  state : Mutex State;
}.

(** [generate_token]. *)
Definition generate_token (env : Env) : option str :=
  url_encode <$> random_fill env TOKEN_BYTES.

Definition hash_token (token : str) : Hash := sha256 token.

(** [TokenService::new]. *)
Definition new (env : Env) (secret : bytes) (access_ttl refresh_ttl : Duration) :
    outcome TokenError TokenService :=
  let? t := instant_add (instant_now env) SWEEP_INTERVAL in
  Ok (mkService (hmac_key secret) access_ttl refresh_ttl (mutex_new (mkState ∅ ∅ ∅ t))).

(** A critical section of the service's mutex. *)
Definition locked {A} (m : TokenService -> M State TokenError A) :
    M TokenService TokenError A :=
  fun self =>
    let '(r, mx) := with_lock (m self) (state self) in
    (r, mkService (key self) (access_ttl self) (refresh_ttl self) mx).

(** The signed payload of an access token, and [mint_access]. *)
Definition access_payload (family expires : Z) (user : str) : bytes :=
  ACCESS_TOKEN_VERSION :: to_be_bytes 8 family ++ to_be_bytes 8 expires ++ user.

Definition sign_payload (k : Key) (payload : bytes) : str :=
  url_encode payload ++ "." ++ url_encode (hmac_sign k payload).

Definition mint_access (self : TokenService) (env : Env) (family : Z) (user : str) : str :=
  let expires := u64_add (unix_now env) (as_secs (access_ttl self)) in
  sign_payload (key self) (access_payload family expires user).

(** [TokenService::issue]. *)
Definition issue (self : TokenService) (env : Env) (family : Z) (user : str) (now : Instant)
    (family_deadline : Instant) : M State TokenError IssuedTokens :=
  do! refresh_token := lift (ok_or Random (generate_token env)) in
  do! t := lift (instant_add now (refresh_ttl self)) in
  let refresh_expires := Z.min t family_deadline in
  run! modify (set_refreshes (insert (hash_token refresh_token)
    (mkRefresh family user refresh_expires family_deadline))) in
  ret (mkIssued (mint_access self env family user) (as_secs (access_ttl self)) refresh_token
    (as_secs (saturating_duration_since refresh_expires now))).

(** [TokenService::login]. *)
Definition login (env : Env) (user : str) : M TokenService TokenError IssuedTokens :=
  let now := instant_now env in
  do! family := lift (random_family env) in
  locked (fun self =>
    run! make_room now in
    do! deadline := lift (instant_add now MAX_FAMILY_LIFETIME) in
    issue self env family user now deadline).

(** [TokenService::refresh]. *)
Definition refresh (env : Env) (refresh_token : str) (user_exists : str -> bool) :
    M TokenService TokenError (str * IssuedTokens) :=
  let now := instant_now env in
  let hash := hash_token refresh_token in
  locked (fun self =>
    run! sweep now in
    run! make_room now in
    do! s := get in
    match refreshes s !! hash with
    | None =>
        match spent s !! hash with
        | Some sp =>
            if (now <? s_expires sp)%Z then
              run! revoke_family (s_family sp) now (access_ttl self) in
              fail (Reused (s_user sp))
            else fail Invalid
        | None => fail Invalid
        end
    | Some record =>
        run! modify (set_refreshes (delete hash)) in
        if (r_expires record <=? now)%Z || (r_deadline record <=? now)%Z
           || negb (user_exists (r_user record))
        then fail Invalid
        else
          run! modify (set_spent (insert hash
            (mkSpent (r_family record) (r_user record) (r_expires record)))) in
          do! issued :=
            issue self env (r_family record) (r_user record) now (r_deadline record) in
          ret (r_user record, issued)
    end).

(** [TokenService::revoke]. *)
Definition revoke (env : Env) (refresh_token : str) : M TokenService TokenError bool :=
  let now := instant_now env in
  let hash := hash_token refresh_token in
  locked (fun self =>
    do! s := get in
    let family :=
      match refreshes s !! hash with
      | Some record => Some (r_family record)
      | None => s_family <$> spent s !! hash
      end in
    match family with
    | Some family => run! revoke_family family now (access_ttl self) in ret true
    | None => ret false
    end).

(** [TokenService::verify_access] up to the lock: the family and the user of a token whose
    signature, version, length, user name and expiry are good. *)
Definition open_access (k : Key) (unix : Z) (token : str) : option (Z * str) :=
  '(payload, tag) ← split_once "." token;
  payload ← url_decode payload;
  tag ← url_decode tag;
  if hmac_verify k payload tag then
    match payload with
    | [] => None
    | version :: rest =>
        if bool_decide (version <> ACCESS_TOKEN_VERSION) || bool_decide (length rest < 16) then None
        else
          let family := from_be_bytes (take 8 rest) in
          let expires := from_be_bytes (take 8 (drop 8 rest)) in
          user ← from_utf8 (drop 16 rest);
          if (expires <=? unix)%Z then None else Some (family, user)
    end
  else None.

Definition verify_access (env : Env) (token : str) : M TokenService TokenError (option str) :=
  fun self =>
    match open_access (key self) (unix_now env) token with
    | None => (Ok None, self)
    | Some (family, user) =>
        locked (fun _ =>
          do! s := get in
          ret (match revoked s !! family with Some _ => None | None => Some user end)) self
    end.
End service.

(** [load_secret], given what [fs::read] returned. *)
Inductive SecretError : Type :=
  | SecretRead
  | SecretTooShort (found : nat).

Definition load_secret (contents : option bytes) : outcome SecretError bytes :=
  let? contents := ok_or SecretRead contents in
  let secret := trim_ascii contents in
  if bool_decide (length secret < MIN_SECRET_BYTES) then Err (SecretTooShort (length secret))
  else Ok secret.

(** Why [TokenService::from_args] fails. *)
Inductive ServiceError : Type :=
  | BadSecret (e : SecretError)
  | NoRandom.

(** [TokenService::from_args]: the configured secret, or a random one. *)
Definition from_args `{Base64} `{Ring} (env : Env) (fs : Files) (args : Args) :
    outcome ServiceError TokenService :=
  let? secret :=
    match token_secret_file args with
    | Some path => omap_err BadSecret (load_secret (fs path))
    | None => ok_or NoRandom (random_fill env TOKEN_BYTES)
    end in
  omap_err (fun _ => NoRandom)
    (new env secret (from_secs (access_token_ttl args)) (from_secs (refresh_token_ttl args))).

(** ** A service and its tokens, for the witnesses *)

Module TokenTests.
(** Readings [secs] seconds after both clocks started; the generator returns copies of [seed]. *)
Definition env_at (secs : Z) (seed : Z) : Env :=
  mkEnv (from_secs secs) (from_secs secs) (fun n => Some (replicate n (zb seed))).

Definition service (access_ttl refresh_ttl : Z) : TokenService :=
  mkService "0123456789abcdef0123456789abcdef" (from_secs access_ttl) (from_secs refresh_ttl)
    (mutex_new (mkState ∅ ∅ ∅ SWEEP_INTERVAL)).

Definition everyone (_ : str) : bool := true.

(** Two logins and a refresh of the first. *)
Definition first : IssuedTokens :=
  match login (env_at 1 65) "alice" (service 600 3600) with (Ok i, _) => i | _ => mkIssued [] 0 [] 0 end.
Definition after_login : TokenService := (login (env_at 1 65) "alice" (service 600 3600)).2.
Definition after_refresh : TokenService :=
  (refresh (env_at 2 66) (refresh_token first) everyone after_login).2.
Definition second : IssuedTokens :=
  match refresh (env_at 2 66) (refresh_token first) everyone after_login with
  | (Ok (_, i), _) => i | _ => mkIssued [] 0 [] 0 end.
Definition after_reuse : TokenService :=
  (refresh (env_at 3 67) (refresh_token first) everyone after_refresh).2.
End TokenTests.
