(* ===== verification/TokenAccess.v ===== *)
(** Access tokens ([TokenService::mint_access], [TokenService::verify_access]): the accepted tokens
    are exactly the service's own signatures over unexpired payloads of families that are not
    revoked; a minted token is accepted until it expires or its login is revoked. *)

From S2P Require Import Prelude RustStd Extern Instances Token.

Section access.
Context `{Base64Laws} `{RingLaws}.

Lemma url_encode_inj b1 b2 : url_encode b1 = url_encode b2 -> b1 = b2.
Proof. intros E. apply (f_equal url_decode) in E. rewrite !url_decode_encode in E. congruence. Qed.

(** A signed payload splits at its only dot. *)
Lemma sign_payload_split k p :
  split_once "." (sign_payload k p) = Some (url_encode p, url_encode (hmac_sign k p)).
Proof. apply split_once_char_Some. split; [done | by apply url_encode_without]. Qed.

Lemma sign_payload_inj k p1 p2 : sign_payload k p1 = sign_payload k p2 -> p1 = p2.
Proof.
  intros E. apply (f_equal (split_once ".")) in E. rewrite !sign_payload_split in E.
  injection E as E _. by apply url_encode_inj.
Qed.

Definition is_u64 (n : Z) : Prop := (0 <= n < U64_MODULUS)%Z.

Lemma from_be_u64 b : length b = 8 -> is_u64 (from_be_bytes b).
Proof. intros Hb. unfold is_u64. pose proof (from_be_bytes_range b) as Hr. by rewrite Hb in Hr. Qed.

Lemma from_to_be_u64 n : is_u64 n -> from_be_bytes (to_be_bytes 8 n) = n.
Proof. intros Hn. rewrite from_to_be_bytes. by apply Z.mod_small. Qed.

Lemma to_from_be_u64 b : length b = 8 -> to_be_bytes 8 (from_be_bytes b) = b.
Proof. intros <-. apply to_from_be_bytes. Qed.

Lemma access_payload_inj f1 e1 u1 f2 e2 u2 :
  is_u64 f1 -> is_u64 e1 -> is_u64 f2 -> is_u64 e2 ->
  access_payload f1 e1 u1 = access_payload f2 e2 u2 -> f1 = f2 /\ e1 = e2 /\ u1 = u2.
Proof.
  intros Hf1 He1 Hf2 He2 E. apply (f_equal tail) in E. unfold access_payload in E. cbn [tail] in E.
  apply app_inj_1 in E as [Ef E]; [|by rewrite !length_to_be_bytes].
  apply app_inj_1 in E as [Ee E]; [|by rewrite !length_to_be_bytes].
  apply (f_equal from_be_bytes) in Ef, Ee. by rewrite !from_to_be_u64 in Ef, Ee by done.
Qed.

(** The bytes after the version of a long enough payload are a family, an expiry and a user. *)
Lemma payload_split rest :
  16 <= length rest ->
  rest = to_be_bytes 8 (from_be_bytes (take 8 rest)) ++
         to_be_bytes 8 (from_be_bytes (take 8 (drop 8 rest))) ++ drop 16 rest.
Proof.
  intros Hlen. rewrite !to_from_be_u64 by (rewrite length_take, ?length_drop; lia).
  transitivity (take 8 rest ++ drop 8 rest); [by rewrite take_drop|]. f_equal.
  transitivity (take 8 (drop 8 rest) ++ drop 8 (drop 8 rest)); [by rewrite take_drop|].
  by rewrite drop_drop.
Qed.

Lemma payload_fields f e u :
  let rest := to_be_bytes 8 f ++ to_be_bytes 8 e ++ u in
  take 8 rest = to_be_bytes 8 f /\ take 8 (drop 8 rest) = to_be_bytes 8 e /\ drop 16 rest = u /\
  16 <= length rest.
Proof.
  intros rest. subst rest.
  rewrite take_app_length' by by rewrite length_to_be_bytes.
  rewrite drop_app_length' by by rewrite length_to_be_bytes.
  rewrite take_app_length' by by rewrite length_to_be_bytes.
  rewrite app_assoc, drop_app_length' by by rewrite length_app, !length_to_be_bytes.
  rewrite !length_app, !length_to_be_bytes. repeat split; lia.
Qed.

(** The tokens [open_access] accepts. *)
Definition access_token_of (k : Key) (unix : Z) (token : str) (family : Z) (user : str) : Prop :=
  exists expires,
    token = sign_payload k (access_payload family expires user) /\
    is_u64 family /\ is_u64 expires /\ is_utf8 user = true /\ (unix < expires)%Z.

Lemma open_access_iff k unix t f u :
  open_access k unix t = Some (f, u) <-> access_token_of k unix t f u.
Proof.
  unfold open_access, access_token_of. split.
  - destruct (split_once "." t) as [[p q]|] eqn:Es; [|done]. cbn [mbind option_bind].
    apply split_once_char_Some in Es as [-> _].
    destruct (url_decode p) as [payload|] eqn:Ep; [|done]. cbn [mbind option_bind].
    destruct (url_decode q) as [tag|] eqn:Eq; [|done]. cbn [mbind option_bind].
    apply url_encode_decode in Ep as <-. apply url_encode_decode in Eq as <-.
    destruct (hmac_verify k payload tag) eqn:Ev; [|done].
    apply hmac_verify_spec in Ev as ->. destruct payload as [|version rest]; [done|].
    case_bool_decide as Hv; [done|]. case_bool_decide as Hlen; [done|]. cbn [orb].
    destruct (from_utf8 (drop 16 rest)) as [user|] eqn:Eu; [|done]. cbn [mbind option_bind].
    apply from_utf8_Some in Eu as [<- Eu].
    destruct (Z.leb_spec (from_be_bytes (take 8 (drop 8 rest))) unix); [done|].
    intros [= <- <-]. eexists. unfold access_payload. rewrite <- payload_split by lia.
    subst version. repeat split; try done;
      by apply from_be_u64; rewrite length_take, ?length_drop; lia.
  - intros (e & -> & Hf & He & Hu & Hlt). rewrite sign_payload_split. cbn [mbind option_bind].
    rewrite !url_decode_encode. cbn [mbind option_bind].
    rewrite (proj2 (hmac_verify_spec k _ _)) by done. unfold access_payload.
    destruct (payload_fields f e u) as (-> & -> & -> & Hlen).
    rewrite bool_decide_eq_false_2 by tauto. rewrite bool_decide_eq_false_2 by lia. cbn [orb].
    rewrite !from_to_be_u64 by done. unfold from_utf8. rewrite Hu. cbn [mbind option_bind].
    by destruct (Z.leb_spec e unix); [lia|].
Qed.

(** [verify_access] never changes the service. *)
Lemma verify_access_state env t self : (verify_access env t self).2 = self.
Proof.
  unfold verify_access. destruct (open_access _ _ _) as [[f u]|]; [|done].
  unfold locked, with_lock. destruct self as [k a r [p s]]. by destruct p.
Qed.

Lemma verify_access_run env t self :
  poisoned (state self) = false ->
  (verify_access env t self).1 =
    Ok ('(f, u) ← open_access (key self) (unix_now env) t;
        if decide (revoked (inner (state self)) !! f = None) then Some u else None).
Proof.
  intros Hp. unfold verify_access. destruct (open_access _ _ _) as [[f u]|]; [|done].
  unfold locked, with_lock. rewrite Hp. munfold.
  cbn [fst snd mbind option_bind]. by destruct (revoked (inner (state self)) !! f).
Qed.

(** Opening a token the service signed, then looking its family up. *)
Lemma open_signed k unix expires family user (rev : gmap Z Instant) :
  is_u64 family -> is_u64 expires -> is_utf8 user = true ->
  @Ok TokenError _ ('(f, u) ← open_access k unix (sign_payload k (access_payload family expires user));
      if decide (rev !! f = None) then Some u else None)
  = Ok (if decide ((unix < expires)%Z /\ rev !! family = None) then Some user else None).
Proof.
  intros Hf He Hu. set (t := sign_payload _ _).
  destruct (open_access k unix t) as [[f u]|] eqn:E; cbn [mbind option_bind].
  - apply open_access_iff in E as (e & E & Hf' & He' & _ & Hlt).
    apply sign_payload_inj, access_payload_inj in E as (<- & <- & <-); [|done..].
    repeat case_decide; tauto.
  - rewrite decide_False; [done|]. intros [Hlt _].
    assert (open_access k unix t = Some (family, user)) as E'
      by (apply open_access_iff; exists expires; done).
    congruence.
Qed.

Lemma u64_add_u64 a b : is_u64 (u64_add a b).
Proof. by apply Z.mod_pos_bound. Qed.
End access.

Section access_theorems.
Context `{Base64Laws} `{RingLaws}.

(** C12: an access token is accepted exactly when it is, byte for byte, the service's signature over
    a version-1 payload with a UTF-8 user whose expiry is in the future and whose family is not
    revoked; then the result is the user of the payload. *)
Theorem verify_access_iff env t self u :
  poisoned (state self) = false ->
  (verify_access env t self).1 = Ok (Some u) <->
  exists family, access_token_of (key self) (unix_now env) t family u /\
    revoked (inner (state self)) !! family = None.
Proof.
  intros Hp. rewrite verify_access_run by done. split.
  - destruct (open_access _ _ _) as [[f u']|] eqn:E; [|done]. cbn [mbind option_bind].
    case_decide as Hr; [|done]. intros [= <-]. exists f. by apply open_access_iff in E.
  - intros (f & E%open_access_iff & Hr). rewrite E. cbn [mbind option_bind].
    by rewrite decide_True.
Qed.

(** Round trip. A token minted for a user verifies to that user until it expires, as long as
    its family is not revoked; after that it verifies to nobody. *)
Theorem mint_verify_roundtrip self env family user env' :
  poisoned (state self) = false ->
  is_u64 family -> is_utf8 user = true ->
  let expires := u64_add (unix_now env) (as_secs (access_ttl self)) in
  (verify_access env' (mint_access self env family user) self).1 =
    Ok (if decide ((unix_now env' < expires)%Z /\ revoked (inner (state self)) !! family = None)
        then Some user else None).
Proof.
  intros Hp Hf Hu expires. rewrite verify_access_run by done. apply open_signed; [done | apply u64_add_u64 | done].
Qed.
End access_theorems.

Example verify_access_iff_witness :
  exists family,
    access_token_of (key TokenTests.after_login) 1 (access_token TokenTests.first) family "alice" /\
    revoked (inner (state TokenTests.after_login)) !! family = None.
Proof.
  apply (verify_access_iff (TokenTests.env_at 1 0)); vm_compute; reflexivity.
Defined.

Example mint_verify_roundtrip_witness :
  (verify_access (TokenTests.env_at 5 0)
     (mint_access TokenTests.after_login (TokenTests.env_at 1 0) 7 "bob")
     TokenTests.after_login).1 = Ok (Some ("bob" : str)).
Proof.
  rewrite (mint_verify_roundtrip TokenTests.after_login (TokenTests.env_at 1 0) 7 "bob"
    (TokenTests.env_at 5 0)); [|reflexivity|done|reflexivity].
  rewrite decide_True; [reflexivity|]. split; [by apply Z.ltb_lt | by vm_compute].
Defined.
