(* ===== verification/TokenStore.v ===== *)
(** The token store: what [login], [refresh] and [revoke] do to [State], on every branch.

    The first part replaces the monadic definitions by pure state transformers ([swept],
    [roomy], ...) where no clock addition overflows ([fits]); the theorems after it state rotation,
    reuse detection, the bound on the store, the treatment of a full store, of a failing random
    generator and of lifetimes too large for the clock. *)

From S2P Require Import Prelude RustStd Extern Instances Token TokenAccess.

(** ** Pure descriptions of the state changes *)

Definition unexpired (now : Instant) (r : RefreshRecord) : Prop :=
  (now < r_expires r)%Z /\ (now < r_deadline r)%Z.
#[export] Instance unexpired_dec now r : Decision (unexpired now r).
Proof. unfold unexpired. apply _. Defined.

Definition swept (now : Instant) (s : State) : State :=
  mkState (filter (fun kr => (now < r_expires kr.2)%Z /\ (now < r_deadline kr.2)%Z) (refreshes s))
    (filter (fun kr => (now < s_expires kr.2)%Z) (spent s))
    (filter (fun ku => (now < ku.2)%Z) (revoked s))
    (now + SWEEP_INTERVAL)%Z.

Definition maybe_swept (now : Instant) (s : State) : State :=
  if (now <? next_sweep s)%Z then s else swept now s.

Definition roomy (now : Instant) (s : State) : State :=
  if (MAX_RECORDS <=? record_count s)%Z then swept now s else s.

Definition family_revoked (family : Z) (until : Instant) (s : State) : State :=
  set_revoked (insert family until)
    (set_refreshes (filter (fun kr => r_family kr.2 <> family)) s).

Lemma force_sweep_run now s :
  (now + SWEEP_INTERVAL < INSTANT_MAX)%Z -> force_sweep now s = (Ok tt, swept now s).
Proof.
  intros Hfit. unfold force_sweep, instant_add. munfold.
  by rewrite (proj2 (Z.ltb_lt _ _) Hfit).
Qed.

Lemma sweep_run now s :
  (now + SWEEP_INTERVAL < INSTANT_MAX)%Z -> sweep now s = (Ok tt, maybe_swept now s).
Proof.
  intros Hfit. unfold sweep, maybe_swept. munfold.
  destruct (now <? next_sweep s)%Z; [done|]. by apply force_sweep_run.
Qed.

(** The check after the sweep also decides the case without one. *)
Lemma make_room_run now s :
  (now + SWEEP_INTERVAL < INSTANT_MAX)%Z ->
  make_room now s =
    (if (MAX_RECORDS <=? record_count (roomy now s))%Z then Err Full else Ok tt, roomy now s).
Proof.
  intros Hfit. unfold make_room, roomy. munfold.
  destruct (Z.leb_spec MAX_RECORDS (record_count s)) as [Hfull|Hroom].
  - rewrite force_sweep_run by done. by destruct (MAX_RECORDS <=? _)%Z.
  - by destruct (Z.leb_spec MAX_RECORDS (record_count s)); [lia|].
Qed.

Lemma revoke_family_run family now ttl s :
  (now + ttl < INSTANT_MAX)%Z ->
  revoke_family family now ttl s = (Ok tt, family_revoked family (now + ttl) s).
Proof.
  intros Hfit. unfold revoke_family, instant_add. munfold.
  by rewrite (proj2 (Z.ltb_lt _ _) Hfit).
Qed.

Section store.
Context `{Base64} `{Ring}.

(** No addition to the clock reading [now] leaves the range of [Instant]. *)
Definition fits (self : TokenService) (now : Instant) : Prop :=
  (now + MAX_FAMILY_LIFETIME < INSTANT_MAX)%Z /\ (now + access_ttl self < INSTANT_MAX)%Z /\
  (now + refresh_ttl self < INSTANT_MAX)%Z.

Lemma fits_sweep self now : fits self now -> (now + SWEEP_INTERVAL < INSTANT_MAX)%Z.
Proof.
  intros [Hfit _]. eapply Z.le_lt_trans; [|exact Hfit].
  apply Z.add_le_mono_l. by vm_compute.
Qed.

(** The service with another state. *)
Definition with_state (self : TokenService) (s : State) : TokenService :=
  mkService (key self) (access_ttl self) (refresh_ttl self) (mkMutex false s).

Definition new_record (self : TokenService) (now : Instant) (family : Z) (user : str)
    (deadline : Instant) : RefreshRecord :=
  mkRefresh family user (Z.min (now + refresh_ttl self) deadline) deadline.

Definition new_tokens (self : TokenService) (env : Env) (family : Z) (user : str)
    (deadline : Instant) (token : str) : IssuedTokens :=
  mkIssued (mint_access self env family user) (as_secs (access_ttl self)) token
    (as_secs (saturating_duration_since
      (Z.min (instant_now env + refresh_ttl self) deadline) (instant_now env))).

Definition add_record (h : Hash) (r : RefreshRecord) : State -> State :=
  set_refreshes (insert h r).

Lemma issue_run self env family user deadline s :
  (instant_now env + refresh_ttl self < INSTANT_MAX)%Z ->
  issue self env family user (instant_now env) deadline s =
    match generate_token env with
    | None => (Err Random, s)
    | Some t => (Ok (new_tokens self env family user deadline t),
                 add_record (hash_token t) (new_record self (instant_now env) family user deadline) s)
    end.
Proof.
  intros Hfit. unfold issue, instant_add. munfold.
  destruct (generate_token env) as [t|]; [|done]. cbn.
  by rewrite (proj2 (Z.ltb_lt _ _) Hfit).
Qed.

Lemma locked_run {A} (m : TokenService -> M State TokenError A) self r s :
  poisoned (state self) = false -> m self (inner (state self)) = (r, s) ->
  is_panic r = false -> locked m self = (r, with_state self s).
Proof. intros Hp Hm Hr. unfold locked, with_lock. by rewrite Hp, Hm, Hr. Qed.

(** The state after the housekeeping of [login] and of [refresh]. *)
Definition login_state (self : TokenService) (now : Instant) : State :=
  roomy now (inner (state self)).
Definition refresh_state (self : TokenService) (now : Instant) : State :=
  roomy now (maybe_swept now (inner (state self))).

Definition is_full (s : State) : bool := (MAX_RECORDS <=? record_count s)%Z.

Lemma login_run env user self :
  poisoned (state self) = false -> fits self (instant_now env) ->
  login env user self =
    match random_fill env 8 with
    | None => (Err Random, self)
    | Some b =>
        let now := instant_now env in
        let s := login_state self now in
        let deadline := (now + MAX_FAMILY_LIFETIME)%Z in
        let family := from_be_bytes b in
        if is_full s then (Err Full, with_state self s)
        else
          match generate_token env with
          | None => (Err Random, with_state self s)
          | Some t =>
              (Ok (new_tokens self env family user deadline t),
               with_state self (add_record (hash_token t)
                 (new_record self now family user deadline) s))
          end
    end.
Proof.
  intros Hp Hfit. unfold login, random_family, bind at 1, lift at 1.
  destruct (random_fill env 8) as [b|]; [|done]. cbn zeta.
  assert (Hdl : @instant_add TokenError (instant_now env) MAX_FAMILY_LIFETIME =
                Ok (instant_now env + MAX_FAMILY_LIFETIME)%Z).
  { unfold instant_add. by rewrite (proj2 (Z.ltb_lt _ _) (proj1 Hfit)). }
  destruct (is_full (login_state self (instant_now env))) eqn:Hfull;
    [|destruct (generate_token env) as [t|] eqn:Ht]; apply locked_run; try done;
    unfold bind at 1; rewrite make_room_run by (by eapply fits_sweep);
    unfold is_full, login_state in Hfull; rewrite Hfull; try done;
    unfold bind, lift; rewrite Hdl, issue_run by apply Hfit; by rewrite Ht.
Qed.

(** Whether a live record may be exchanged. *)
Definition usable (now : Instant) (user_exists : str -> bool) (r : RefreshRecord) : bool :=
  bool_decide (unexpired now r) && user_exists (r_user r).

Definition spent_of (r : RefreshRecord) : SpentRecord :=
  mkSpent (r_family r) (r_user r) (r_expires r).

(** The live record of [h] moved to the spent ones. *)
Definition retired (h : Hash) (r : RefreshRecord) (s : State) : State :=
  set_spent (insert h (spent_of r)) (set_refreshes (delete h) s).

(** The result and the state of a refresh once there is room. *)
Definition refreshed (self : TokenService) (env : Env) (h : Hash) (user_exists : str -> bool)
    (s : State) : outcome TokenError (str * IssuedTokens) * State :=
  let now := instant_now env in
  match refreshes s !! h with
  | None =>
      match spent s !! h with
      | Some sp =>
          if (now <? s_expires sp)%Z
          then (Err (Reused (s_user sp)),
                family_revoked (s_family sp) (now + access_ttl self) s)
          else (Err Invalid, s)
      | None => (Err Invalid, s)
      end
  | Some r =>
      if usable now user_exists r then
        match generate_token env with
        | None => (Err Random, retired h r s)
        | Some t =>
            (Ok (r_user r, new_tokens self env (r_family r) (r_user r) (r_deadline r) t),
             add_record (hash_token t)
               (new_record self now (r_family r) (r_user r) (r_deadline r)) (retired h r s))
        end
      else (Err Invalid, set_refreshes (delete h) s)
  end.

Lemma refreshed_no_panic self env h ex s : is_panic (refreshed self env h ex s).1 = false.
Proof. unfold refreshed. repeat case_match; done. Qed.

Lemma usable_spec now ex r :
  (r_expires r <=? now)%Z || (r_deadline r <=? now)%Z || negb (ex (r_user r))
  = negb (usable now ex r).
Proof.
  unfold usable, unexpired. destruct (ex (r_user r)); [|by rewrite andb_false_r, orb_true_r].
  rewrite andb_true_r, orb_false_r. case_bool_decide as Hu; cbn.
  - destruct (Z.leb_spec (r_expires r) now), (Z.leb_spec (r_deadline r) now); lia || done.
  - destruct (Z.leb_spec (r_expires r) now), (Z.leb_spec (r_deadline r) now); lia || done.
Qed.

Lemma refresh_run env token ex self :
  poisoned (state self) = false -> fits self (instant_now env) ->
  refresh env token ex self =
    let s := refresh_state self (instant_now env) in
    if is_full s then (Err Full, with_state self s)
    else let '(r, s') := refreshed self env (hash_token token) ex s in (r, with_state self s').
Proof.
  intros Hp Hfit. unfold refresh. cbv zeta.
  set (s := refresh_state self (instant_now env)).
  assert (Hroom : forall (k : unit -> M State TokenError (str * IssuedTokens)),
    bind (sweep (instant_now env)) (fun _ => bind (make_room (instant_now env)) k)
      (inner (state self)) = if is_full s then (Err Full, s) else k tt s).
  { intros k. unfold bind at 1. rewrite sweep_run by (by eapply fits_sweep).
    unfold bind. rewrite make_room_run by (by eapply fits_sweep).
    fold (is_full (roomy (instant_now env) (maybe_swept (instant_now env) (inner (state self))))).
    change (roomy _ _) with s. by destruct (is_full s). }
  destruct (is_full s) eqn:Hfull; [by apply locked_run; [|rewrite Hroom|]|].
  pose proof (refreshed_no_panic self env (hash_token token) ex s) as Hnp.
  destruct (refreshed _ _ _ _ _) as [r s'] eqn:Er.
  apply locked_run; [done| |done]. rewrite Hroom, <- Er. clear Hroom Er Hnp Hfull.
  unfold bind at 1, get at 1. unfold refreshed.
  destruct (refreshes s !! hash_token token) as [rec|].
  - unfold bind at 1, modify at 1. rewrite usable_spec.
    destruct (usable _ _ _); cbn [negb]; [|done].
    unfold bind at 1, modify at 1. unfold bind at 1. rewrite issue_run by apply Hfit.
    by destruct (generate_token env).
  - destruct (spent s !! hash_token token) as [sp|]; [|done].
    destruct (_ <? _)%Z; [|done]. unfold bind at 1.
    by rewrite revoke_family_run by apply Hfit.
Qed.

(** The family a refresh token belongs to, live or spent. *)
Definition family_of (h : Hash) (s : State) : option Z :=
  match refreshes s !! h with
  | Some r => Some (r_family r)
  | None => s_family <$> spent s !! h
  end.

Lemma revoke_run env token self :
  poisoned (state self) = false -> fits self (instant_now env) ->
  revoke env token self =
    match family_of (hash_token token) (inner (state self)) with
    | Some f => (Ok true, with_state self
                   (family_revoked f (instant_now env + access_ttl self) (inner (state self))))
    | None => (Ok false, self)
    end.
Proof.
  intros Hp Hfit. unfold revoke. cbv zeta.
  destruct (family_of _ _) as [f|] eqn:Ef.
  - apply locked_run; [done| |done]. unfold bind at 1, get. unfold family_of in Ef. rewrite Ef.
    unfold bind. by rewrite revoke_family_run by apply Hfit.
  - transitivity (Ok false : outcome TokenError bool, with_state self (inner (state self))).
    + apply locked_run; [done| |done]. unfold bind at 1, get. unfold family_of in Ef.
      by rewrite Ef.
    + unfold with_state. destruct self as [k a r [p s]]. cbn in *. by subst.
Qed.

(** The same service with another state, its mutex in order. *)
Definition carries_on (self self' : TokenService) : Prop :=
  poisoned (state self') = false /\ key self' = key self /\ access_ttl self' = access_ttl self /\
  refresh_ttl self' = refresh_ttl self.

#[export] Instance carries_on_trans : Transitive carries_on.
Proof.
  intros a b c (_ & Hk & Ha & Hr) (Hp & Hk' & Ha' & Hr').
  split; [done|]. by rewrite Hk', Ha', Hr'.
Qed.

Lemma carries_on_refl self : poisoned (state self) = false -> carries_on self self.
Proof. done. Qed.

Lemma carries_on_with_state self s : carries_on self (with_state self s).
Proof. done. Qed.

Lemma carries_on_fits self self' now : carries_on self self' -> fits self now -> fits self' now.
Proof. unfold fits. by intros (_ & _ & -> & ->). Qed.

Section calls.
Context (env : Env) (self : TokenService).
Hypothesis Hp : poisoned (state self) = false.
Hypothesis Hfit : fits self (instant_now env).

(** No call panics, and each leaves the service in order. *)
Lemma login_carries_on user :
  is_panic (login env user self).1 = false /\ carries_on self (login env user self).2.
Proof. rewrite login_run by done. cbv zeta. repeat case_match; done. Qed.

Lemma refresh_carries_on token ex :
  is_panic (refresh env token ex self).1 = false /\ carries_on self (refresh env token ex self).2.
Proof.
  rewrite refresh_run by done. cbv zeta. destruct (is_full _); [done|].
  pose proof (refreshed_no_panic self env (hash_token token) ex
    (refresh_state self (instant_now env))) as Hnp.
  by destruct (refreshed _ _ _ _ _).
Qed.

Lemma revoke_carries_on token :
  is_panic (revoke env token self).1 = false /\ carries_on self (revoke env token self).2.
Proof. rewrite revoke_run by done. by destruct (family_of _ _). Qed.
End calls.
End store.

(** ** Lookups after the housekeeping *)

Lemma swept_refreshes now s h r :
  refreshes (swept now s) !! h = Some r <-> refreshes s !! h = Some r /\ unexpired now r.
Proof. apply map_lookup_filter_Some. Qed.

Lemma swept_spent now s h sp :
  spent (swept now s) !! h = Some sp <-> spent s !! h = Some sp /\ (now < s_expires sp)%Z.
Proof. apply map_lookup_filter_Some. Qed.

Lemma swept_revoked now s f u :
  revoked (swept now s) !! f = Some u <-> revoked s !! f = Some u /\ (now < u)%Z.
Proof. apply map_lookup_filter_Some. Qed.

Lemma swept_count now s : (record_count (swept now s) <= record_count s)%Z.
Proof.
  unfold record_count, swept. cbn [refreshes spent].
  pose proof (map_size_filter (fun kr : Hash * RefreshRecord =>
    (now < r_expires kr.2)%Z /\ (now < r_deadline kr.2)%Z) (refreshes s)) as H1.
  pose proof (map_size_filter (fun kr : Hash * SpentRecord => (now < s_expires kr.2)%Z) (spent s)) as H2.
  lia.
Qed.

(** What housekeeping may do to a state: drop expired entries. *)
Definition cleaned (now : Instant) (s s' : State) : Prop :=
  (forall h r, unexpired now r -> refreshes s' !! h = Some r <-> refreshes s !! h = Some r) /\
  (forall h sp, (now < s_expires sp)%Z -> spent s' !! h = Some sp <-> spent s !! h = Some sp) /\
  (forall f u, (now < u)%Z -> revoked s' !! f = Some u <-> revoked s !! f = Some u) /\
  refreshes s' ⊆ refreshes s /\ spent s' ⊆ spent s /\ revoked s' ⊆ revoked s.

Lemma cleaned_refl now s : cleaned now s s.
Proof. repeat split; try tauto; done. Qed.

Lemma cleaned_swept now s : cleaned now s (swept now s).
Proof.
  repeat split; intros; try (by apply swept_refreshes || by apply swept_spent || by apply swept_revoked);
    try (by eapply swept_refreshes || by eapply swept_spent || by eapply swept_revoked);
    apply map_filter_subseteq.
Qed.

Lemma cleaned_trans now s1 s2 s3 : cleaned now s1 s2 -> cleaned now s2 s3 -> cleaned now s1 s3.
Proof.
  intros (A1 & B1 & C1 & D1 & E1 & F1) (A2 & B2 & C2 & D2 & E2 & F2).
  split; [|split; [|split; [|split; [|split]]]].
  - intros h r Hr. by rewrite A2, A1.
  - intros h sp Hsp. by rewrite B2, B1.
  - intros f u Hu. by rewrite C2, C1.
  - by etrans.
  - by etrans.
  - by etrans.
Qed.

Lemma cleaned_maybe_swept now s : cleaned now s (maybe_swept now s).
Proof. unfold maybe_swept. destruct (_ <? _)%Z; [apply cleaned_refl | apply cleaned_swept]. Qed.

Lemma cleaned_roomy now s : cleaned now s (roomy now s).
Proof. unfold roomy. destruct (_ <=? _)%Z; [apply cleaned_swept | apply cleaned_refl]. Qed.
#[export] Hint Resolve cleaned_refl cleaned_swept cleaned_maybe_swept cleaned_roomy : router.

Section theorems.
Context `{Base64Laws} `{RingLaws}.

Abbreviation st self := (inner (state self)).

Lemma cleaned_login_state self now : cleaned now (st self) (login_state self now).
Proof. apply cleaned_roomy. Qed.

Lemma cleaned_refresh_state self now : cleaned now (st self) (refresh_state self now).
Proof. eapply cleaned_trans; [apply cleaned_maybe_swept | apply cleaned_roomy]. Qed.

(** ** The size of the store *)

Definition bounded (self : TokenService) : Prop := (record_count (st self) <= MAX_RECORDS)%Z.

Lemma count_subseteq s s' :
  refreshes s' ⊆ refreshes s -> spent s' ⊆ spent s -> (record_count s' <= record_count s)%Z.
Proof.
  intros Hr Hs. unfold record_count.
  pose proof (map_subseteq_size _ _ Hr). pose proof (map_subseteq_size _ _ Hs). lia.
Qed.

Lemma count_add_record h r s : (record_count (add_record h r s) <= record_count s + 1)%Z.
Proof.
  unfold record_count, add_record, set_refreshes. cbn [refreshes spent].
  rewrite map_size_insert. destruct (refreshes s !! h); unfold id; lia.
Qed.

Lemma count_retired h r s :
  refreshes s !! h = Some r -> (record_count (retired h r s) <= record_count s)%Z.
Proof.
  intros Hh. unfold record_count, retired, set_spent, set_refreshes. cbn [refreshes spent].
  rewrite map_size_insert, map_size_delete, Hh.
  assert (size (refreshes s) <> 0) by (rewrite map_size_ne_0_lookup; eauto).
  destruct (spent s !! h); unfold id; lia.
Qed.

Lemma count_family_revoked f u s : (record_count (family_revoked f u s) <= record_count s)%Z.
Proof. apply count_subseteq; [apply map_filter_subseteq | done]. Qed.

Lemma count_cleaned now s s' : cleaned now s s' -> (record_count s' <= record_count s)%Z.
Proof. intros (_ & _ & _ & Hr & Hs & _). by apply count_subseteq. Qed.

Lemma refreshed_count self env h ex s :
  (record_count (refreshed self env h ex s).2 <= record_count s + 1)%Z.
Proof.
  unfold refreshed. destruct (refreshes s !! h) as [r|] eqn:Hh.
  - pose proof (count_retired h r s Hh). destruct (usable _ _ _).
    + destruct (generate_token env) as [t|]; cbn [snd]; [|lia].
      etrans; [apply count_add_record | lia].
    + cbn [snd]. etrans; [apply (count_subseteq s)|lia]; [apply delete_subseteq | done].
  - destruct (spent s !! h); [destruct (_ <? _)%Z|]; cbn [snd]; try lia.
    etrans; [apply count_family_revoked | lia].
Qed.

(** C15: the number of remembered refresh tokens, live and spent, never exceeds [MAX_RECORDS]. *)
Theorem store_bounded self env token user ex :
  poisoned (state self) = false -> fits self (instant_now env) -> bounded self ->
  bounded (login env user self).2 /\ bounded (refresh env token ex self).2 /\
  bounded (revoke env token self).2.
Proof.
  intros Hp Hfit Hb. unfold bounded in *. split; [|split].
  - rewrite login_run by done. destruct (random_fill env 8); [|done]. cbv zeta.
    pose proof (count_cleaned _ _ _ (cleaned_login_state self (instant_now env))).
    unfold is_full. destruct (Z.leb_spec MAX_RECORDS (record_count (login_state self (instant_now env))));
      [cbn [snd state with_state inner]; lia|]. destruct (generate_token env); cbn [snd state with_state inner]; [|lia].
    etrans; [apply count_add_record | lia].
  - rewrite refresh_run by done. cbv zeta.
    pose proof (count_cleaned _ _ _ (cleaned_refresh_state self (instant_now env))).
    unfold is_full. destruct (Z.leb_spec MAX_RECORDS (record_count (refresh_state self (instant_now env))));
      [cbn [snd state with_state inner]; lia|].
    pose proof (refreshed_count self env (hash_token token) ex (refresh_state self (instant_now env))).
    destruct (refreshed _ _ _ _ _). cbn [snd state with_state inner] in *. lia.
  - rewrite revoke_run by done. destruct (family_of _ _); [|done].
    etrans; [apply count_family_revoked | done].
Qed.

(** ** A full store *)

Lemma swept_idemp now s : swept now (swept now s) = swept now s.
Proof.
  unfold swept. cbn [refreshes spent revoked]. f_equal; apply map_eq; intros k;
    apply option_eq; intros x; rewrite !map_lookup_filter_Some; tauto.
Qed.

Lemma swept_maybe_swept now s : swept now (maybe_swept now s) = swept now s.
Proof. unfold maybe_swept. destruct (_ <? _)%Z; [done | apply swept_idemp]. Qed.

Lemma is_full_roomy now s : is_full (roomy now s) = (MAX_RECORDS <=? record_count (swept now s))%Z.
Proof.
  unfold is_full, roomy. pose proof (swept_count now s).
  destruct (Z.leb_spec MAX_RECORDS (record_count s)); [done|].
  destruct (Z.leb_spec MAX_RECORDS (record_count s)), (Z.leb_spec MAX_RECORDS (record_count (swept now s)));
    lia || done.
Qed.

Lemma is_full_refresh_state self now :
  is_full (refresh_state self now) = (MAX_RECORDS <=? record_count (swept now (st self)))%Z.
Proof. unfold refresh_state. by rewrite is_full_roomy, swept_maybe_swept. Qed.

Lemma refreshed_not_Full self env h ex s : (refreshed self env h ex s).1 <> Err Full.
Proof. unfold refreshed. repeat case_match; done. Qed.

(** A refresh is refused because the store is full exactly when [MAX_RECORDS] records have not
    expired, and then it costs no client its token: the only entries dropped are expired ones. *)
Theorem full_store_keeps_tokens env token ex self :
  poisoned (state self) = false -> fits self (instant_now env) ->
  let '(r, self') := refresh env token ex self in
  (r = Err Full <-> (MAX_RECORDS <= record_count (swept (instant_now env) (st self)))%Z) /\
  (r = Err Full -> cleaned (instant_now env) (st self) (st self')).
Proof.
  intros Hp Hfit. rewrite refresh_run by done. cbv zeta.
  pose proof (cleaned_refresh_state self (instant_now env)) as Hc.
  rewrite is_full_refresh_state.
  destruct (Z.leb_spec MAX_RECORDS (record_count (swept (instant_now env) (st self)))).
  - done.
  - pose proof (refreshed_not_Full self env (hash_token token) ex
      (refresh_state self (instant_now env))) as Hn.
    destruct (refreshed _ _ _ _ _) as [r s']. cbn in Hn. split; [|done].
    split; [done | lia].
Qed.

(** ** Rotation *)

Lemma refresh_inv env token ex self r self' :
  poisoned (state self) = false -> fits self (instant_now env) ->
  refresh env token ex self = (r, self') -> r <> Err Full ->
  exists s', refreshed self env (hash_token token) ex (refresh_state self (instant_now env)) = (r, s')
    /\ self' = with_state self s'.
Proof.
  intros Hp Hfit. rewrite refresh_run by done. cbv zeta. destruct (is_full _).
  - intros [= <- <-] Hr. done.
  - destruct (refreshed _ _ _ _ _) as [r' s']. intros [= <- <-] _. by exists s'.
Qed.

(** C7: a successful refresh rotates: the presented token had an unexpired record of an existing
    user; the new token's record continues the same family and user up to the same 30-day
    deadline; the presented token is spent, no longer live, and remembered until it would have
    expired; every other unexpired token is untouched. *)
Theorem refresh_rotates env token ex self u issued self' :
  poisoned (state self) = false -> fits self (instant_now env) ->
  refresh env token ex self = (Ok (u, issued), self') ->
  let now := instant_now env in
  let old := hash_token token in
  let fresh := hash_token (refresh_token issued) in
  exists r,
    refreshes (st self) !! old = Some r /\ unexpired now r /\ r_user r = u /\ ex u = true /\
    refreshes (st self') !! fresh =
      Some (mkRefresh (r_family r) u (Z.min (now + refresh_ttl self) (r_deadline r)) (r_deadline r)) /\
    spent (st self') !! old = Some (mkSpent (r_family r) u (r_expires r)) /\
    (fresh <> old -> refreshes (st self') !! old = None) /\
    (forall h r', h <> old -> h <> fresh -> unexpired now r' ->
       refreshes (st self') !! h = Some r' <-> refreshes (st self) !! h = Some r').
Proof.
  intros Hp Hfit Href now old fresh.
  destruct (refresh_inv _ _ _ _ _ _ Hp Hfit Href) as (s' & Hs' & ->); [done|].
  pose proof (cleaned_refresh_state self now) as (Hlive & _ & _ & Hsub & _).
  unfold refreshed in Hs'. fold now old in Hs'. set (s := refresh_state self now) in *.
  destruct (refreshes s !! old) as [r|] eqn:Hr; [|repeat case_match; done].
  destruct (usable now ex r) eqn:Hu; [|done].
  destruct (generate_token env) as [t|] eqn:Ht; [|done]. injection Hs' as <- <- <-.
  unfold usable in Hu. apply andb_true_iff in Hu as [Hu Hex]. apply bool_decide_eq_true in Hu.
  subst fresh. cbn [refresh_token new_tokens state with_state inner].
  unfold add_record, retired, set_spent, set_refreshes. cbn [refreshes spent].
  exists r. split; [by eapply lookup_weaken|]. do 3 (split; [done|]).
  split; [apply lookup_insert_eq|]. split; [apply lookup_insert_eq|]. split.
  - intros Hne. rewrite lookup_insert_ne by done. apply lookup_delete_eq.
  - intros h r' Hold Hfresh Hr'. rewrite lookup_insert_ne, lookup_delete_ne by done.
    by apply Hlive.
Qed.

(** ** Reuse detection *)

(** No token of the family is left: no live record, and every access token is refused. *)
Definition family_dead (f : Z) (self : TokenService) : Prop :=
  (forall h r, refreshes (st self) !! h = Some r -> r_family r <> f) /\
  is_Some (revoked (st self) !! f) /\
  (forall env k unix token u, access_token_of k unix token f u -> key self = k ->
     unix_now env = unix -> (verify_access env token self).1 = Ok None).

Lemma family_revoked_dead f until s self :
  family_dead f (with_state self (family_revoked f until s)).
Proof.
  assert (Hrev : revoked (family_revoked f until s) !! f = Some until) by apply lookup_insert_eq.
  split; [|split].
  - intros h r [_ Hr]%map_lookup_filter_Some. done.
  - by eexists.
  - intros env k unix token u Ht <- <-. rewrite verify_access_run by done.
    cbn [key with_state] in *. rewrite (proj2 (open_access_iff _ _ _ _ _) Ht).
    cbn [mbind option_bind state with_state inner]. by rewrite Hrev.
Qed.

Lemma present_spent env token ex self sp :
  poisoned (state self) = false -> fits self (instant_now env) ->
  (record_count (swept (instant_now env) (st self)) < MAX_RECORDS)%Z ->
  refreshes (st self) !! hash_token token = None ->
  spent (st self) !! hash_token token = Some sp -> (instant_now env < s_expires sp)%Z ->
  exists self', refresh env token ex self = (Err (Reused (s_user sp)), self') /\
    family_dead (s_family sp) self'.
Proof.
  intros Hp Hfit Hroom Hr Hsp Hexp. rewrite refresh_run by done. cbv zeta.
  rewrite is_full_refresh_state.
  destruct (Z.leb_spec MAX_RECORDS (record_count (swept (instant_now env) (st self)))); [lia|].
  pose proof (cleaned_refresh_state self (instant_now env)) as (_ & Hspent & _ & Hsub & _).
  unfold refreshed.
  rewrite (lookup_weaken_None _ (refreshes (st self))) by done.
  rewrite (proj2 (Hspent _ _ Hexp) Hsp), (proj2 (Z.ltb_lt _ _) Hexp).
  eexists. split; [done | apply family_revoked_dead].
Qed.

(** C8: presenting a spent refresh token before the time it would have expired, to a service whose mutex is
    in order, at a time that leaves room for the lifetimes. While the store has room,
    it reports the token's user and kills the whole login: no refresh token of the family is left, all
    its access tokens are refused, and the live tokens of other logins stay. When [MAX_RECORDS] records
    have not expired, the reuse goes unnoticed: the answer is [Full], and nothing that has not expired
    changes, so the login lives on. *)
Theorem reuse_kills_family env token ex self sp :
  poisoned (state self) = false -> fits self (instant_now env) ->
  refreshes (st self) !! hash_token token = None ->
  spent (st self) !! hash_token token = Some sp -> (instant_now env < s_expires sp)%Z ->
  let '(r, self') := refresh env token ex self in
  if (MAX_RECORDS <=? record_count (swept (instant_now env) (st self)))%Z
  then r = Err Full /\ cleaned (instant_now env) (st self) (st self')
  else r = Err (Reused (s_user sp)) /\ family_dead (s_family sp) self' /\
    (forall h rec, r_family rec <> s_family sp -> unexpired (instant_now env) rec ->
       refreshes (st self') !! h = Some rec <-> refreshes (st self) !! h = Some rec).
Proof.
  intros Hp Hfit Hr Hsp Hexp. rewrite refresh_run by done. cbv zeta. rewrite is_full_refresh_state.
  pose proof (cleaned_refresh_state self (instant_now env)) as Hc.
  destruct (Z.leb_spec MAX_RECORDS (record_count (swept (instant_now env) (st self)))); [done|].
  destruct Hc as (Hlive & Hspent & _ & Hsub & _). unfold refreshed.
  rewrite (lookup_weaken_None _ (refreshes (st self))) by done.
  rewrite (proj2 (Hspent _ _ Hexp) Hsp), (proj2 (Z.ltb_lt _ _) Hexp).
  split; [done|]. split; [apply family_revoked_dead|]. intros h rec Hne Hu.
  cbn [state with_state inner family_revoked set_revoked set_refreshes refreshes].
  rewrite map_lookup_filter_Some, <- (Hlive h rec Hu). tauto.
Qed.

(** C14: logging out with a known refresh token, live or spent, kills its family and leaves the
    live tokens of every other family; with an unknown one it changes nothing. The answer tells
    which it was. *)
Theorem revoke_kills_family env token self :
  poisoned (state self) = false -> fits self (instant_now env) ->
  let '(r, self') := revoke env token self in
  match family_of (hash_token token) (st self) with
  | Some f =>
      r = Ok true /\ family_dead f self' /\
      (forall h rec, r_family rec <> f ->
         refreshes (st self') !! h = Some rec <-> refreshes (st self) !! h = Some rec)
  | None => r = Ok false /\ self' = self
  end.
Proof.
  intros Hp Hfit. rewrite revoke_run by done. destruct (family_of _ _) as [f|]; [|done].
  split; [done|]. split; [apply family_revoked_dead|]. intros h rec Hne.
  cbn [state with_state inner family_revoked set_revoked set_refreshes refreshes].
  rewrite map_lookup_filter_Some. tauto.
Qed.

(** ** Logging in *)

Lemma login_inv env user self issued self' :
  poisoned (state self) = false -> fits self (instant_now env) ->
  (forall n b, random_fill env n = Some b -> length b = n) -> is_utf8 user = true ->
  login env user self = (Ok issued, self') ->
  let now := instant_now env in
  let deadline := (now + MAX_FAMILY_LIFETIME)%Z in
  let h := hash_token (refresh_token issued) in
  exists b, random_fill env 8 = Some b /\
    poisoned (state self') = false /\
    access_token issued = mint_access self env (from_be_bytes b) user /\
    generate_token env = Some (refresh_token issued) /\
    revoked (st self') = revoked (login_state self now) /\
    refreshes (st self') !! h =
      Some (mkRefresh (from_be_bytes b) user (Z.min (now + refresh_ttl self) deadline) deadline) /\
    (forall env', (verify_access env' (access_token issued) self').1 =
       Ok (if decide ((unix_now env' < u64_add (unix_now env) (as_secs (access_ttl self)))%Z /\
                      revoked (st self') !! from_be_bytes b = None)
           then Some user else None)) /\
    (forall h' r, h' <> h -> unexpired now r ->
       refreshes (st self') !! h' = Some r <-> refreshes (st self) !! h' = Some r).
Proof.
  intros Hp Hfit Hrand Hu Hlogin now deadline h. rewrite login_run in Hlogin by done.
  destruct (random_fill env 8) as [b|] eqn:Hb; [|done]. cbv zeta in Hlogin.
  destruct (is_full _); [done|]. destruct (generate_token env) as [t|]; [|done].
  pose proof (cleaned_login_state self now) as (Hlive & _).
  injection Hlogin as <- <-. subst h. cbn [refresh_token new_tokens access_token].
  set (self' := with_state _ _). exists b.
  do 5 (split; [done|]). split; [apply lookup_insert_eq|]. split.
  - intros env'. change (mint_access self env) with (mint_access self' env).
    rewrite verify_access_run by done. unfold mint_access.
    change (access_ttl self') with (access_ttl self).
    apply open_signed; [by apply from_be_u64, Hrand | apply u64_add_u64 | done].
  - intros h' r Hne Hr. cbn [state self' with_state inner add_record set_refreshes refreshes].
    rewrite lookup_insert_ne by done. by apply Hlive.
Qed.

(** A successful login starts a family drawn at random: one live refresh record for the user,
    expiring after the refresh lifetime and at the latest 30 days after the login, an access
    token that verifies to the user until it expires, and nothing unexpired is dropped. *)
Theorem login_starts_family env user self issued self' :
  poisoned (state self) = false -> fits self (instant_now env) ->
  (forall n b, random_fill env n = Some b -> length b = n) -> is_utf8 user = true ->
  login env user self = (Ok issued, self') ->
  let now := instant_now env in
  let deadline := (now + MAX_FAMILY_LIFETIME)%Z in
  let h := hash_token (refresh_token issued) in
  exists b, random_fill env 8 = Some b /\
    refreshes (st self') !! h =
      Some (mkRefresh (from_be_bytes b) user (Z.min (now + refresh_ttl self) deadline) deadline) /\
    (forall env', (verify_access env' (access_token issued) self').1 =
       Ok (if decide ((unix_now env' < u64_add (unix_now env) (as_secs (access_ttl self)))%Z /\
                      revoked (st self') !! from_be_bytes b = None)
           then Some user else None)) /\
    (forall h' r, h' <> h -> unexpired now r ->
       refreshes (st self') !! h' = Some r <-> refreshes (st self) !! h' = Some r).
Proof.
  intros Hp Hfit Hrand Hu Hlogin now deadline h.
  destruct (login_inv env user self issued self' Hp Hfit Hrand Hu Hlogin)
    as (b & Hb & _ & _ & _ & _ & Hrest). by exists b.
Qed.
End theorems.

(** ** Behaviour at the edges *)

Section edges.
Context `{Base64Laws} `{RingLaws}.

Abbreviation st self := (inner (state self)).

(** C36: when the random generator fails during a refresh, the presented token has already been
    retired: the client gets no tokens, and its retry with the same token is reported as reuse
    and kills the login. *)
Theorem refresh_random_failure_loses_login env env' token ex ex' self r :
  poisoned (state self) = false -> fits self (instant_now env) -> fits self (instant_now env') ->
  (record_count (st self) < MAX_RECORDS)%Z ->
  refreshes (st self) !! hash_token token = Some r -> usable (instant_now env) ex r = true ->
  random_fill env TOKEN_BYTES = None -> (instant_now env' < r_expires r)%Z ->
  exists self1 self2,
    refresh env token ex self = (Err Random, self1) /\
    refresh env' token ex' self1 = (Err (Reused (r_user r)), self2) /\
    family_dead (r_family r) self2.
Proof.
  intros Hp Hfit Hfit' Hcount Hr Hu Hrand Hexp.
  set (now := instant_now env). set (s := refresh_state self now).
  pose proof (cleaned_refresh_state self now) as Hc. fold s in Hc.
  pose proof (count_cleaned _ _ _ Hc) as Hcs.
  assert (Hs : refreshes s !! hash_token token = Some r).
  { apply Hc; [|done]. unfold usable in Hu. apply andb_true_iff in Hu as [Hu _].
    by apply bool_decide_eq_true in Hu. }
  set (self1 := with_state self (retired (hash_token token) r s)).
  destruct (present_spent env' token ex' self1 (spent_of r)) as (self2 & Hre & Hdead).
  - done.
  - done.
  - pose proof (swept_count (instant_now env') (st self1)).
    pose proof (count_retired _ _ _ Hs). cbn [self1 state with_state inner] in *. lia.
  - apply lookup_delete_eq.
  - apply lookup_insert_eq.
  - done.
  - exists self1, self2. split; [|done]. rewrite refresh_run by done. cbv zeta. fold now s.
    unfold is_full. destruct (Z.leb_spec MAX_RECORDS (record_count s)); [lia|].
    unfold refreshed. cbv zeta. rewrite Hs. fold now in Hu |- *. rewrite Hu. unfold generate_token. by rewrite Hrand.
Qed.

(** A service whose lock is poisoned answers nothing any more. *)
Definition out_of_order (self : TokenService) : Prop :=
  (forall env user, is_ok (login env user self).1 = false) /\
  (forall env token ex, (refresh env token ex self).1 = Panicked) /\
  (forall env token, (revoke env token self).1 = Panicked) /\
  (forall env token f u, open_access (key self) (unix_now env) token = Some (f, u) ->
     (verify_access env token self).1 = Panicked).

Lemma locked_poisoned {A} (m : TokenService -> M State TokenError A) self :
  poisoned (state self) = true -> (locked m self).1 = Panicked.
Proof. intros Hp. unfold locked, with_lock. by rewrite Hp. Qed.

Lemma poisoned_out_of_order self : poisoned (state self) = true -> out_of_order self.
Proof.
  intros Hp. split; [|split; [|split]].
  - intros env user. unfold login, bind at 1, lift at 1.
    destruct (random_family env); [|done..]. by rewrite locked_poisoned.
  - intros env token ex. by apply locked_poisoned.
  - intros env token. by apply locked_poisoned.
  - intros env token f u Ho. unfold verify_access. rewrite Ho. by apply locked_poisoned.
Qed.

(** C37: a refresh lifetime that leaves the range of the clock ([Args::validate] accepts any
    positive number of seconds) makes the first login panic while it holds the lock, and the
    token service is out of order from then on. *)
Theorem oversized_refresh_ttl_poisons env user self family token :
  poisoned (state self) = false -> is_full (login_state self (instant_now env)) = false ->
  (instant_now env + MAX_FAMILY_LIFETIME < INSTANT_MAX)%Z ->
  (INSTANT_MAX <= instant_now env + refresh_ttl self)%Z ->
  random_family env = Ok family -> generate_token env = Some token ->
  (login env user self).1 = Panicked /\ out_of_order (login env user self).2.
Proof.
  intros Hp Hfull Hfit Hover Hf Ht.
  assert (Hrun : exists s, login env user self =
    (Panicked, mkService (key self) (access_ttl self) (refresh_ttl self) (mkMutex true s))).
  { unfold login, bind at 1, lift at 1. rewrite Hf. unfold locked, with_lock. rewrite Hp.
    unfold bind at 1. rewrite make_room_run.
    - unfold is_full, login_state in Hfull. rewrite Hfull.
      unfold bind at 1, lift at 1, instant_add at 1. rewrite (proj2 (Z.ltb_lt _ _) Hfit).
      unfold issue, bind at 1, lift at 1. rewrite Ht. cbn [ok_or].
      unfold bind at 1, lift at 1, instant_add. rewrite (proj2 (Z.ltb_ge _ _) Hover).
      eexists. done.
    - eapply Z.le_lt_trans; [|exact Hfit]. apply Z.add_le_mono_l. by vm_compute. }
  destruct Hrun as [s ->]. split; [done | by apply poisoned_out_of_order].
Qed.

(** Logging in and out again. *)
Definition login_logout (env : Env) (user : str) (self : TokenService) : TokenService :=
  match login env user self with
  | (Ok issued, self') => (revoke env (refresh_token issued) self').2
  | (_, self') => self'
  end.

Lemma login_logout_run env user self family token :
  poisoned (state self) = false -> fits self (instant_now env) ->
  (refreshes (st self) = ∅ /\ spent (st self) = ∅) ->
  random_family env = Ok family -> generate_token env = Some token ->
  login_logout env user self =
    with_state self (mkState ∅ ∅
      (<[family := (instant_now env + access_ttl self)%Z]> (revoked (st self)))
      (next_sweep (st self))).
Proof.
  intros Hp Hfit [Hr Hs] Hf Ht. unfold random_family in Hf.
  destruct (random_fill env 8) as [b|] eqn:Hb; [|done]. injection Hf as Hf.
  assert (Hls : login_state self (instant_now env) = st self).
  { unfold login_state, roomy. by replace (record_count (st self)) with 0%Z
      by (unfold record_count; by rewrite Hr, Hs). }
  unfold login_logout. rewrite login_run by done. rewrite Hb. cbv zeta.
  rewrite Hls, Ht, Hf. unfold is_full.
  replace (record_count (st self)) with 0%Z by (unfold record_count; by rewrite Hr, Hs).
  change (MAX_RECORDS <=? 0)%Z with false. cbv iota. cbn [refresh_token new_tokens].
  rewrite revoke_run by done. cbn [state with_state inner add_record set_refreshes].
  unfold family_of, add_record, set_refreshes. cbn [refreshes state with_state inner].
  rewrite lookup_insert_eq. cbn [snd new_record r_family].
  unfold with_state. cbn [key access_ttl refresh_ttl]. do 2 f_equal.
  unfold family_revoked, set_revoked, set_refreshes. cbn [refreshes spent revoked next_sweep].
  rewrite Hr, Hs. f_equal. apply map_empty. intros h. apply map_lookup_filter_None. right.
  intros r Hlook. cbn.
  apply lookup_insert_Some in Hlook as [[_ <-]|[_ Hlook]]; [|by rewrite lookup_empty in Hlook].
  cbn [r_family]. tauto.
Qed.

(** C40: [MAX_RECORDS] does not bound the list of revoked families: every round of logging in and
    out adds an entry, for as many rounds as there are distinct families, while no refresh token
    is remembered and neither operation ever sweeps. *)
Theorem revoked_grows_without_bound (rounds : list (Env * (Z * str))) user self :
  poisoned (state self) = false -> refreshes (st self) = ∅ -> spent (st self) = ∅ ->
  (forall env f t, (env, (f, t)) ∈ rounds ->
     fits self (instant_now env) /\ random_family env = Ok f /\ generate_token env = Some t /\
     revoked (st self) !! f = None) ->
  NoDup (rounds.*2.*1) ->
  let self' := foldl (fun s r => login_logout r.1 user s) self rounds in
  size (revoked (st self')) = size (revoked (st self)) + length rounds /\
  record_count (st self') = 0%Z.
Proof.
  revert self. induction rounds as [|[env [f t]] rounds IH]; intros self Hp Hr Hs Hrounds Hnd.
  { cbn [foldl length]. split; [lia|]. unfold record_count. by rewrite Hr, Hs. }
  cbn [foldl fst snd length fmap list_fmap] in *. apply NoDup_cons in Hnd as [Hf Hnd].
  destruct (Hrounds env f t) as (Hfit & Hrf & Hgt & Hnew); [by left|].
  rewrite (login_logout_run env user self f t) by done.
  destruct (IH (with_state self (mkState ∅ ∅
      (<[f := (instant_now env + access_ttl self)%Z]> (revoked (st self)))
      (next_sweep (st self))))) as [Hsize Hcount]; try done.
  - intros env' f' t' Hin. destruct (Hrounds env' f' t') as (Hfit' & Hrf' & Hgt' & Hnew'); [by right|].
    split; [exact Hfit'|]. split; [done|]. split; [done|].
    cbn [state with_state inner revoked]. rewrite lookup_insert_ne; [done|].
    intros <-. apply Hf. apply list_elem_of_fmap. exists (f, t'). split; [done|].
    apply list_elem_of_fmap. by exists (env', (f, t')).
  - split; [|done]. rewrite Hsize. cbn [state with_state inner revoked].
    rewrite map_size_insert, Hnew. unfold id. lia.
Qed.
End edges.

(** ** Witnesses *)

Lemma fits_tests self a r secs :
  access_ttl self = from_secs a -> refresh_ttl self = from_secs r ->
  (a <= 1000000)%Z -> (r <= 1000000)%Z -> (secs <= 1000000)%Z -> fits self (from_secs secs).
Proof.
  intros Ha Hr ???. unfold fits. rewrite Ha, Hr.
  change MAX_FAMILY_LIFETIME with 2592000000000000%Z.
  change INSTANT_MAX with 9223372036854775808000000000%Z. unfold from_secs, NANOS. lia.
Qed.

Ltac fits_test := apply (fits_tests _ 600 3600); [by_eval..|lia|lia|lia].

Import TokenTests.

Example store_bounded_witness :
  bounded (login (env_at 2 66) "bob" after_login).2 /\
  bounded (refresh (env_at 2 66) (refresh_token first) everyone after_login).2 /\
  bounded (revoke (env_at 2 66) (refresh_token first) after_login).2.
Proof.
  apply store_bounded; [reflexivity | fits_test | by apply Z.leb_le; vm_compute].
Defined.

Example full_store_keeps_tokens_witness :
  let '(r, self') := refresh (env_at 2 66) (refresh_token first) everyone after_login in
  (r = Err Full <->
     (MAX_RECORDS <= record_count (swept (from_secs 2) (inner (state after_login))))%Z) /\
  (r = Err Full -> cleaned (from_secs 2) (inner (state after_login)) (inner (state self'))).
Proof. apply (full_store_keeps_tokens (env_at 2 66)); [reflexivity | fits_test]. Defined.

Example refresh_rotates_witness :
  exists r,
    refreshes (inner (state after_login)) !! hash_token (refresh_token first) = Some r /\
    spent (inner (state after_refresh)) !! hash_token (refresh_token first) =
      Some (mkSpent (r_family r) "alice" (r_expires r)).
Proof.
  destruct (refresh_rotates (env_at 2 66) (refresh_token first) everyone after_login "alice" second
    after_refresh) as (r & Hr & _ & _ & _ & _ & Hs & _);
    [reflexivity | fits_test | by_eval | exists r; split; [exact Hr | exact Hs]].
Defined.

Example reuse_kills_family_witness :
  let '(r, self') := refresh (env_at 3 67) (refresh_token first) everyone after_refresh in
  if (MAX_RECORDS <=? record_count (swept (from_secs 3) (inner (state after_refresh))))%Z
  then r = Err Full /\ cleaned (from_secs 3) (inner (state after_refresh)) (inner (state self'))
  else r = Err (Reused "alice") /\ family_dead (from_be_bytes (replicate 8 (zb 65))) self' /\
    (forall h rec, r_family rec <> from_be_bytes (replicate 8 (zb 65)) -> unexpired (from_secs 3) rec ->
       refreshes (inner (state self')) !! h = Some rec <->
       refreshes (inner (state after_refresh)) !! h = Some rec).
Proof.
  apply (reuse_kills_family (env_at 3 67) (refresh_token first) everyone after_refresh
    (mkSpent (from_be_bytes (replicate 8 (zb 65))) "alice" (from_secs 3601)));
    [reflexivity | fits_test | by_eval | by_eval | by apply Z.ltb_lt; vm_compute].
Defined.

Example revoke_kills_family_witness :
  let '(r, self') := revoke (env_at 2 0) (refresh_token first) after_login in
  match family_of (hash_token (refresh_token first)) (inner (state after_login)) with
  | Some f =>
      r = Ok true /\ family_dead f self' /\
      (forall h rec, r_family rec <> f ->
         refreshes (inner (state self')) !! h = Some rec <->
         refreshes (inner (state after_login)) !! h = Some rec)
  | None => r = Ok false /\ self' = after_login
  end.
Proof. apply revoke_kills_family; [reflexivity | fits_test]. Defined.

Example login_starts_family_witness :
  exists b, random_fill (env_at 1 65) 8 = Some b /\
    (verify_access (env_at 600 0) (access_token first) after_login).1 =
      Ok (if decide ((600 < 601)%Z /\ revoked (inner (state after_login)) !! from_be_bytes b = None)
          then Some ("alice" : str) else None).
Proof.
  destruct (login_starts_family (env_at 1 65) "alice" (service 600 3600) first after_login)
    as (b & Hb & _ & Hv & _);
    [reflexivity | fits_test | by intros n b [= <-]; apply length_replicate | reflexivity
    | by_eval | exists b; split; [exact Hb | apply (Hv (env_at 600 0))]].
Defined.

(** A generator that fails only for tokens. *)
Definition broken_env (secs : Z) : Env :=
  mkEnv (from_secs secs) (from_secs secs)
    (fun n => if decide (n = TOKEN_BYTES) then None else Some (replicate n x00)).

Example refresh_random_failure_loses_login_witness :
  exists self1 self2,
    refresh (broken_env 2) (refresh_token first) everyone after_login = (Err Random, self1) /\
    refresh (env_at 3 66) (refresh_token first) everyone self1 = (Err (Reused "alice"), self2) /\
    family_dead (from_be_bytes (replicate 8 (zb 65))) self2.
Proof.
  apply (refresh_random_failure_loses_login (broken_env 2) (env_at 3 66) (refresh_token first)
    everyone everyone after_login
    (mkRefresh (from_be_bytes (replicate 8 (zb 65))) "alice" (from_secs 3601)
       (from_secs 1 + MAX_FAMILY_LIFETIME)));
    [reflexivity | fits_test | fits_test | by apply Z.ltb_lt; vm_compute | by_eval
    | by_eval | reflexivity | by apply Z.ltb_lt; vm_compute].
Defined.

Example oversized_refresh_ttl_poisons_witness :
  (login (env_at 1 65) "alice" (service 600 (2 ^ 63))).1 = Panicked /\
  out_of_order (login (env_at 1 65) "alice" (service 600 (2 ^ 63))).2.
Proof.
  apply (oversized_refresh_ttl_poisons (env_at 1 65) "alice" _ (from_be_bytes (replicate 8 (zb 65)))
    (url_encode (replicate 32 (zb 65))));
    [reflexivity | by_eval | by apply Z.ltb_lt; vm_compute
    | by apply Z.leb_le; vm_compute | reflexivity | reflexivity].
Defined.

(** Rounds of logging in and out, a second apart. *)
Definition rounds : list (Env * (Z * str)) :=
  (fun s => (env_at s (64 + s), (from_be_bytes (replicate 8 (zb (64 + s))),
                                 url_encode (replicate 32 (zb (64 + s)))))) <$> [1; 2; 3]%Z.

Example revoked_grows_without_bound_witness :
  let self' := foldl (fun s r => login_logout r.1 "eve" s) (service 600 3600) rounds in
  size (revoked (inner (state self'))) = size (revoked (inner (state (service 600 3600)))) + 3 /\
  record_count (inner (state self')) = 0%Z.
Proof.
  apply (revoked_grows_without_bound rounds); [reflexivity | reflexivity | reflexivity | |].
  - intros env f t (s & [= -> -> ->] & Hs)%list_elem_of_fmap.
    assert (0 <= s <= 1000000)%Z by (repeat (apply elem_of_cons in Hs as [-> | Hs]; [lia|]);
      by apply elem_of_nil in Hs).
    split; [fits_test | done].
  - apply (bool_decide_unpack _). vm_compute. done.
Defined.
