(* ===== verification/TokenTyped.v ===== *)
(** The types of the token store: [State] keeps in its maps only what its Rust types admit.

    The maps are keyed and filled with plain lists and integers here, where the code has [[u8; 32]],
    [u64], [String] and [Instant]; [typed_state] says that every stored value is of its type, and
    that a live record never outlives its login. A logic of invariants of the state-error monad
    ([keeps]) carries it through the operations, failing and panicking runs included. *)

From S2P Require Import Prelude RustStd Extern Instances Token TokenAccess TokenStore.

(** ** Invariants of the state-error monad *)

(** From states with [P], [m] leaves a state with [P], however it ends, and what it returns has [Q]. *)
Definition keeps {S E A} (P : S -> Prop) (m : M S E A) (Q : A -> Prop) : Prop :=
  forall s, P s -> P (m s).2 /\ forall a, (m s).1 = Ok a -> Q a.

Create HintDb keeps.

Section keeps.
Context {S E : Type} (P : S -> Prop).

Lemma keeps_bind {A B} (Q : A -> Prop) (R : B -> Prop) (m : M S E A) (k : A -> M S E B) :
  keeps P m Q -> (forall a, Q a -> keeps P (k a) R) -> keeps P (bind m k) R.
Proof.
  intros Hm Hk s Hs. unfold bind. destruct (Hm s Hs) as [Hs' HQ].
  destruct (m s) as [[a|e|] s']; cbn in *; [|by split..].
  by apply Hk; [apply HQ|].
Qed.

Lemma keeps_ret {A} (Q : A -> Prop) a : Q a -> keeps P (ret (E := E) a) Q.
Proof. intros HQ s Hs. split; [done|]. by intros ? [= <-]. Qed.

Lemma keeps_fail {A} (Q : A -> Prop) (e : E) : keeps P (fail e) Q.
Proof. by intros s Hs. Qed.

Lemma keeps_lift {A} (Q : A -> Prop) (o : outcome E A) :
  (forall a, o = Ok a -> Q a) -> keeps P (lift o) Q.
Proof. by intros HQ s Hs. Qed.

Lemma keeps_get : keeps P (get (E := E)) P.
Proof. intros s Hs. split; [done|]. by intros ? [= <-]. Qed.

Lemma keeps_modify f : (forall s, P s -> P (f s)) -> keeps P (modify (E := E) f) (fun _ => True).
Proof. intros Hf s Hs. split; [by apply Hf | done]. Qed.

(** A poisoned mutex gives no access; a panic poisons it and keeps what was written. *)
Lemma keeps_with_lock {A} (Q : A -> Prop) (m : M S E A) :
  keeps P m Q -> keeps (fun mx => P (inner mx)) (with_lock m) Q.
Proof.
  intros Hm mx Hmx. unfold with_lock. destruct (poisoned mx); [done|].
  destruct (Hm _ Hmx) as [Hs HQ]. by destruct (m (inner mx)).
Qed.

Lemma keeps_if {A} (Q : A -> Prop) (b : bool) (m n : M S E A) :
  keeps P m Q -> keeps P n Q -> keeps P (if b then m else n) Q.
Proof. by destruct b. Qed.
End keeps.
#[export] Hint Resolve keeps_ret keeps_fail keeps_get keeps_if : keeps.

(** ** The types *)

Definition typed_record (r : RefreshRecord) : Prop :=
  is_u64 (r_family r) /\ is_utf8 (r_user r) = true /\ (r_expires r <= r_deadline r)%Z /\
  (r_deadline r < INSTANT_MAX)%Z.

Definition typed_spent (sp : SpentRecord) : Prop :=
  is_u64 (s_family sp) /\ is_utf8 (s_user sp) = true /\ (s_expires sp < INSTANT_MAX)%Z.

Record typed_state (s : State) : Prop := mkTyped {
  typed_refreshes : map_Forall (fun h r => length h = 32 /\ typed_record r) (refreshes s);
  typed_spents : map_Forall (fun h sp => length h = 32 /\ typed_spent sp) (spent s);
  typed_revoked : map_Forall (fun f u => is_u64 f /\ (u < INSTANT_MAX)%Z) (revoked s);
  typed_sweep : (next_sweep s < INSTANT_MAX)%Z;
}.

#[export] Instance typed_record_dec r : Decision (typed_record r).
Proof. unfold typed_record, is_u64. apply _. Defined.
#[export] Instance typed_spent_dec sp : Decision (typed_spent sp).
Proof. unfold typed_spent, is_u64. apply _. Defined.
#[export] Instance typed_state_dec s : Decision (typed_state s).
Proof.
  refine (cast_if (decide
    (map_Forall (fun h r => length h = 32 /\ typed_record r) (refreshes s) /\
     map_Forall (fun h sp => length h = 32 /\ typed_spent sp) (spent s) /\
     map_Forall (fun f u => is_u64 f /\ (u < INSTANT_MAX)%Z) (revoked s) /\
     (next_sweep s < INSTANT_MAX)%Z))); [by destruct_and!; split | intros [????]; tauto].
Defined.

Lemma instant_add_typed {E} t d u : @instant_add E t d = Ok u -> (u < INSTANT_MAX)%Z.
Proof. unfold instant_add. case_match eqn:Hlt; [|done]. intros [= <-]. by apply Z.ltb_lt. Qed.

Lemma typed_filter {K A} `{Countable K} (Q : K -> A -> Prop) (R : K * A -> Prop)
    `{forall x, Decision (R x)} (m : gmap K A) :
  map_Forall Q m -> map_Forall Q (filter R m).
Proof. intros Hm k x [Hx _]%map_lookup_filter_Some. by apply Hm. Qed.

Lemma typed_force_sweep now : keeps typed_state (force_sweep now) (fun _ => True).
Proof.
  unfold force_sweep.
  do 3 (eapply keeps_bind;
    [by apply keeps_modify; intros s [????]; split; try apply typed_filter | intros ? _; cbn beta]).
  eapply keeps_bind; [apply keeps_lift, instant_add_typed|]. intros t Ht.
  apply keeps_modify. by intros s [????].
Qed.

Lemma typed_make_room now : keeps typed_state (make_room now) (fun _ => True).
Proof.
  unfold make_room. eapply keeps_bind; [apply keeps_get|]. intros s _.
  apply keeps_if; [|by apply keeps_ret]. eapply keeps_bind; [apply typed_force_sweep|]. intros ? _.
  eapply keeps_bind; [apply keeps_get|]. auto with keeps.
Qed.

Lemma typed_sweep_run now : keeps typed_state (sweep now) (fun _ => True).
Proof.
  unfold sweep. eapply keeps_bind; [apply keeps_get|]. intros s _.
  apply keeps_if; [by apply keeps_ret | apply typed_force_sweep].
Qed.

Lemma typed_revoke_family f now ttl :
  is_u64 f -> keeps typed_state (revoke_family f now ttl) (fun _ => True).
Proof.
  intros Hf. unfold revoke_family. eapply keeps_bind; [apply keeps_modify | intros ? _].
  - intros s [????]. split; by try apply typed_filter.
  - eapply keeps_bind; [apply keeps_lift, instant_add_typed|]. intros t Ht. apply keeps_modify.
    intros s [????]. split; try done. by apply map_Forall_insert_2.
Qed.

Section typed.
Context `{Base64} `{Ring}.
(** SHA-256 digests have 32 bytes. *)
Hypothesis Hsha : forall b, length (sha256 b) = 32.

Abbreviation typed_service := (fun self => typed_state (inner (state self))).

Lemma keeps_locked {A} (Q : A -> Prop) (m : TokenService -> M State TokenError A) :
  (forall self, keeps typed_state (m self) Q) -> keeps typed_service (locked m) Q.
Proof.
  intros Hm self Hself. unfold locked.
  destruct (keeps_with_lock _ _ _ (Hm self) _ Hself) as [Hs HQ].
  by destruct (with_lock (m self) (state self)).
Qed.

Lemma typed_issue self env f u now deadline :
  is_u64 f -> is_utf8 u = true -> (deadline < INSTANT_MAX)%Z ->
  keeps typed_state (issue self env f u now deadline) (fun _ => True).
Proof.
  intros Hf Hu Hd. unfold issue. eapply (keeps_bind _ (fun _ => True)); [by apply keeps_lift|]. intros token _.
  eapply keeps_bind; [apply keeps_lift, instant_add_typed|]. intros t Ht. cbv zeta.
  eapply keeps_bind; [|intros ? _; by apply keeps_ret].
  apply keeps_modify. intros s [????]. split; try done. apply map_Forall_insert_2; [|done].
  split; [apply Hsha|]. split; [done|]. split; [done|]. cbn. lia.
Qed.

Lemma typed_login env user :
  (forall b, random_fill env 8 = Some b -> length b = 8) -> is_utf8 user = true ->
  keeps typed_service (login env user) (fun _ => True).
Proof.
  intros Hrand Hu. unfold login. cbv zeta. eapply (keeps_bind _ is_u64); [apply keeps_lift|].
  - unfold random_family. intros f Hf. destruct (random_fill env 8) as [b|] eqn:Hb; [|done].
    injection Hf as <-. by apply from_be_u64, Hrand.
  - intros f Hf. apply keeps_locked. intros self. eapply keeps_bind; [apply typed_make_room|].
    intros ? _. eapply keeps_bind; [apply keeps_lift, instant_add_typed|].
    intros t Ht. by apply typed_issue.
Qed.

Lemma typed_refresh env token ex : keeps typed_service (refresh env token ex) (fun _ => True).
Proof.
  unfold refresh. cbv zeta. apply keeps_locked. intros self.
  eapply keeps_bind; [apply typed_sweep_run | intros ? _].
  eapply keeps_bind; [apply typed_make_room | intros ? _].
  eapply keeps_bind; [apply keeps_get | intros s Hs].
  destruct (refreshes s !! hash_token token) as [r|] eqn:Hr.
  - apply (typed_refreshes _ Hs) in Hr as [Hh (Hf & Hu & He & Hd)].
    eapply keeps_bind; [apply keeps_modify | intros ? _].
    { intros s' [????]. split; try done. by apply map_Forall_delete. }
    apply keeps_if; [apply keeps_fail|]. eapply keeps_bind; [apply keeps_modify | intros ? _].
    { intros s' [????]. split; try done. apply map_Forall_insert_2; [|done].
      split; [done|]. split; [done|]. split; [done|]. cbn. lia. }
    eapply keeps_bind; [by apply typed_issue|]. intros; by apply keeps_ret.
  - destruct (spent s !! hash_token token) as [sp|] eqn:Hsp; [|apply keeps_fail].
    apply (typed_spents _ Hs) in Hsp as [_ (Hf & _)].
    apply keeps_if; [|apply keeps_fail].
    eapply keeps_bind; [by apply typed_revoke_family|]. intros; apply keeps_fail.
Qed.

Lemma family_of_typed h s f : typed_state s -> family_of h s = Some f -> is_u64 f.
Proof.
  intros [Hr Hsp _ _]. unfold family_of. destruct (refreshes s !! h) as [r|] eqn:Hh.
  - intros [= <-]. by apply Hr in Hh as [_ [Hf _]].
  - intros (sp & Hs & ->)%fmap_Some. by apply Hsp in Hs as [_ [Hf _]].
Qed.

Lemma typed_revoke env token : keeps typed_service (revoke env token) (fun _ => True).
Proof.
  unfold revoke. cbv zeta. apply keeps_locked. intros self.
  eapply keeps_bind; [apply keeps_get | intros s Hs]. fold (family_of (hash_token token) s).
  destruct (family_of _ s) as [f|] eqn:Hf; [|by apply keeps_ret].
  apply family_of_typed in Hf; [|done].
  eapply keeps_bind; [by apply typed_revoke_family|]. intros; by apply keeps_ret.
Qed.

(** C34: the store keeps to its types. A service starts with a typed store, and every login, refresh and
    logout leaves one, whatever its outcome: success, an error, a poisoned mutex, or a panic of an
    addition to the clock under the lock. In a typed store every key is a digest of 32 bytes, every
    family a [u64], every user name text, every time an [Instant]; and a live refresh token expires
    no later than the deadline of its login. The digest has 32 bytes, a buffer of 8 bytes is filled
    entirely, and the user name is text. *)
Theorem store_stays_typed env secret a r self user token ex :
  (forall b, random_fill env 8 = Some b -> length b = 8) -> is_utf8 user = true ->
  (forall self0, new env secret a r = Ok self0 -> typed_state (inner (state self0))) /\
  (typed_state (inner (state self)) ->
   typed_state (inner (state (login env user self).2)) /\
   typed_state (inner (state (refresh env token ex self).2)) /\
   typed_state (inner (state (revoke env token self).2))).
Proof.
  intros Hrand Hu. split.
  - intros self0. unfold new. destruct (instant_add _ _) as [t| |] eqn:Ht; [|done..].
    intros [= <-]. split; [apply map_Forall_empty.. |]. by eapply instant_add_typed.
  - intros Hs. split; [|split].
    + by apply typed_login.
    + by apply typed_refresh.
    + by apply typed_revoke.
Qed.
End typed.

(** ** Witness: a store with a live record, a refresh of it and a login that panics *)

Import TokenTests.

Example store_stays_typed_witness :
  typed_state (inner (state (refresh (env_at 2 66) (refresh_token first) everyone after_login).2)) /\
  (login (env_at 2 66) "bob" (service 600 (2 ^ 63))).1 = Panicked /\
  typed_state (inner (state (login (env_at 2 66) "bob" (service 600 (2 ^ 63))).2)).
Proof.
  assert (Hsha : forall b, length (sha256 b) = 32).
  { intros b. cbn -[take replicate app]. rewrite length_take, length_app, length_replicate. lia. }
  assert (Hrand : forall b, random_fill (env_at 2 66) 8 = Some b -> length b = 8)
    by (intros b [= <-]; reflexivity).
  split; [|split].
  - apply (store_stays_typed Hsha (env_at 2 66) [] 0 0 after_login "bob"); [done|done|].
    apply (bool_decide_unpack _). vm_cast_no_check I.
  - by_eval.
  - apply (store_stays_typed Hsha (env_at 2 66) [] 0 0 _ "bob" [] everyone); [done|done|].
    apply (bool_decide_unpack _). vm_cast_no_check I.
Defined.
