(* ===== verification/TokenSafety.v ===== *)
(** The token service over time: every sequence of logins, refreshes and logouts, with a ghost
    record of what was issued and which logins were ended.

    [execute] runs one call of the service and updates the ghost record; [reachable] closes it over
    the calls a server can see: a monotonic clock that does not go back, a wall clock that may show
    anything, random families that are not repeated ([allowed]). The invariant [Inv] relates the records
    of [State] to the ghost record, through every sweep; from it the life cycle of an access token
    follows: it is accepted exactly until it expires or its login is ended. Sweeps go by the monotonic
    clock and expiry by the wall clock, so a token of an ended login stays out only as long as the wall
    clock has not lost time against the monotonic one since the token was issued ([kept_up]). *)

From S2P Require Import Prelude RustStd Extern Instances Token TokenAccess TokenStore.

Section safety.
Context `{Base64Laws} `{RingLaws}.

Abbreviation st self := (inner (state self)).

(** An access token that was handed out. *)
Record Minted : Type := mkMinted {
  m_family : Z;
  m_user : str;
  m_token : str;
  m_time : Instant;       (* the monotonic clock when it was issued *)
  m_wall : Z;             (* and the wall clock *)
  m_expires : Z;
}.

(** The service, the time of the last call, the tokens handed out, the families whose login was
    ended (logout or reuse), and when each family was started. *)
Record World : Type := mkWorld {
  svc : TokenService;
  clock : Instant;
  minted : list Minted;
  killed : gset Z;
  born : gmap Z Instant;
}.

Inductive Call : Type :=
  | Login (user : str)
  | Refresh (token : str) (user_exists : str -> bool)
  | Revoke (token : str).

Definition mint (env : Env) (f : Z) (u : str) (i : IssuedTokens) (self : TokenService) : Minted :=
  mkMinted f u (access_token i) (instant_now env) (system_now env)
    (u64_add (unix_now env) (as_secs (access_ttl self))).

(** One call, and what it means for the ghost record. *)
Definition execute (env : Env) (call : Call) (w : World) : World :=
  let now := instant_now env in
  let quiet self := mkWorld self now (minted w) (killed w) (born w) in
  match call with
  | Login user =>
      match login env user (svc w), random_family env with
      | (Ok i, self), Ok f =>
          mkWorld self now (mint env f user i self :: minted w) (killed w) (<[f := now]> (born w))
      | (_, self), _ => quiet self
      end
  | Refresh token ex =>
      match refresh env token ex (svc w), family_of (hash_token token) (refresh_state (svc w) now) with
      | (Ok (u, i), self), Some f =>
          mkWorld self now (mint env f u i self :: minted w) (killed w) (born w)
      | (Err (Reused _), self), Some f =>
          mkWorld self now (minted w) ({[f]} ∪ killed w) (born w)
      | (_, self), _ => quiet self
      end
  | Revoke token =>
      match revoke env token (svc w), family_of (hash_token token) (st (svc w)) with
      | (Ok true, self), Some f => mkWorld self now (minted w) ({[f]} ∪ killed w) (born w)
      | (_, self), _ => quiet self
      end
  end.

(** [ttl]: the access token lifetime in seconds, as configured. *)
Variable ttl : Z.

(** The monotonic clock moved on since the last call and leaves room for the lifetimes. *)
Definition advances (w : World) (env : Env) : Prop :=
  (clock w <= instant_now env)%Z /\ fits (svc w) (instant_now env).

(** Since the token was issued, the wall clock, which then showed a time after 1970, has advanced at
    least as much as the monotonic clock: it was not set back. *)
Definition kept_up (env : Env) (m : Minted) : Prop :=
  (0 <= m_wall m)%Z /\ (instant_now env - m_time m <= system_now env - m_wall m)%Z.

(** Buffers are filled entirely, a user name is text, and a login draws a family that was not
    drawn before. *)
Definition allowed (w : World) (env : Env) (call : Call) : Prop :=
  advances w env /\ (forall n b, random_fill env n = Some b -> length b = n) /\
  match call with
  | Login user => is_utf8 user = true /\ forall f, random_family env = Ok f -> born w !! f = None
  | _ => True
  end.

Inductive reachable (w0 : World) : World -> Prop :=
  | reachable_start : reachable w0 w0
  | reachable_step w env call :
      reachable w0 w -> allowed w env call -> reachable w0 (execute env call w).

(** A service as [TokenService::new] builds it. *)
Definition start (self : TokenService) (t : Instant) : World := mkWorld self t [] ∅ ∅.
Definition fresh_service (self : TokenService) : Prop :=
  poisoned (state self) = false /\ access_ttl self = from_secs ttl /\ (0 <= ttl)%Z /\
  refreshes (st self) = ∅ /\ spent (st self) = ∅ /\ revoked (st self) = ∅.

(** ** The invariant *)

Definition signed (k : Key) (m : Minted) : Prop :=
  m_token m = sign_payload k (access_payload (m_family m) (m_expires m) (m_user m)) /\
  is_u64 (m_family m) /\ is_u64 (m_expires m) /\ is_utf8 (m_user m) = true.

(** A live record: its family was started 30 days before its deadline and not ended. *)
Definition record_ok (killed : gset Z) (born : gmap Z Instant) (r : RefreshRecord) : Prop :=
  (exists t0, born !! r_family r = Some t0 /\ r_deadline r = (t0 + MAX_FAMILY_LIFETIME)%Z) /\
  r_family r ∉ killed /\ is_u64 (r_family r) /\ is_utf8 (r_user r) = true.

(** A token of an ended family is kept out by the revocation list, or its lifetime is over on the
    monotonic clock. *)
Definition shut_out (now : Instant) (rev : gmap Z Instant) (m : Minted) : Prop :=
  (exists u, rev !! m_family m = Some u /\ (m_time m + from_secs ttl <= u)%Z) \/
  (m_time m + from_secs ttl <= now)%Z.

Record Inv (k : Key) (now : Instant) (s : State) (ms : list Minted) (dead : gset Z)
    (births : gmap Z Instant) : Prop := mkInv {
  inv_signed m : m ∈ ms -> signed k m;
  inv_time m : m ∈ ms -> (m_time m <= now)%Z;
  inv_expiry m : m ∈ ms -> (0 <= m_wall m)%Z -> (m_expires m <= as_secs (m_wall m) + ttl)%Z;
  inv_lifetime m : m ∈ ms ->
    exists t0, births !! m_family m = Some t0 /\ (m_time m < t0 + MAX_FAMILY_LIFETIME)%Z;
  inv_live h r : refreshes s !! h = Some r -> record_ok dead births r;
  inv_spent h sp : spent s !! h = Some sp -> is_Some (births !! s_family sp);
  inv_dead f : f ∈ dead -> is_Some (births !! f);
  inv_revoked f u : revoked s !! f = Some u -> f ∈ dead;
  inv_shut m : m ∈ ms -> m_family m ∈ dead -> shut_out now (revoked s) m;
}.

Lemma as_secs_mono a b : (a <= b)%Z -> (as_secs a <= as_secs b)%Z.
Proof. intros. by apply Z.div_le_mono. Qed.

Lemma as_secs_add a n : as_secs (a + from_secs n) = (as_secs a + n)%Z.
Proof. unfold as_secs, from_secs. by apply Z.div_add. Qed.

Lemma shut_out_mono now now' rev m :
  (now <= now')%Z -> shut_out now rev m -> shut_out now' rev m.
Proof.
  intros Hle [Hr | He]; [by left | right]. by etrans.
Qed.

Lemma inv_clock k now now' s ms dead births :
  (now <= now')%Z -> Inv k now s ms dead births -> Inv k now' s ms dead births.
Proof.
  intros Hle [Hs Ht He Hl Hr Hsp Hd Hrev Hshut]. split; try done.
  - intros m Hm. specialize (Ht m Hm). lia.
  - intros m Hm Hk. eapply shut_out_mono; eauto.
Qed.

(** Housekeeping at [now]: a revocation is forgotten only when the tokens it kept out expired. *)
Lemma inv_cleaned k now s s' ms dead births :
  cleaned now s s' -> Inv k now s ms dead births -> Inv k now s' ms dead births.
Proof.
  intros (_ & _ & Hkeep & Hsub1 & Hsub2 & Hsub3) [Hs Ht He Hl Hr Hsp Hd Hrev Hshut]. split; try done.
  - intros h r Hh. eapply Hr, lookup_weaken; eauto.
  - intros h sp Hh. eapply Hsp, lookup_weaken; eauto.
  - intros f u Hf. eapply Hrev, lookup_weaken; eauto.
  - intros m Hm Hk. destruct (Hshut m Hm Hk) as [(u & Hu & Hexp) | Hexp]; [|by right].
    destruct (Z.lt_ge_cases now u) as [Hlt|Hge].
    + left. exists u. split; [by apply Hkeep | done].
    + right. lia.
Qed.

Lemma inv_add_record k now s ms dead births h r :
  record_ok dead births r -> Inv k now s ms dead births ->
  Inv k now (add_record h r s) ms dead births.
Proof.
  intros Hok [Hs Ht He Hl Hr Hsp Hd Hrev Hshut]. split; try done.
  intros h' r'. cbn. intros [[_ <-] | [_ Hh]]%lookup_insert_Some; eauto.
Qed.

Lemma inv_delete k now s ms dead births h :
  Inv k now s ms dead births -> Inv k now (set_refreshes (delete h) s) ms dead births.
Proof.
  intros [Hs Ht He Hl Hr Hsp Hd Hrev Hshut]. split; try done.
  intros h' r'. cbn. intros [_ Hh]%lookup_delete_Some; eauto.
Qed.

Lemma inv_retired k now s ms dead births h r :
  refreshes s !! h = Some r -> Inv k now s ms dead births ->
  Inv k now (retired h r s) ms dead births.
Proof.
  intros Hh HI. pose proof (inv_delete _ _ _ _ _ _ h HI) as [Hs Ht He Hl Hr Hsp Hd Hrev Hshut].
  split; try done. intros h' sp. cbn. intros [[_ <-] | [_ Hsph]]%lookup_insert_Some; [|eauto].
  destruct (inv_live _ _ _ _ _ _ HI _ _ Hh) as [(t0 & Ht0 & _) _]. by exists t0.
Qed.

Lemma inv_mint k now s ms dead births m t0 :
  signed k m -> (m_time m <= now)%Z ->
  ((0 <= m_wall m)%Z -> (m_expires m <= as_secs (m_wall m) + ttl)%Z) -> m_family m ∉ dead ->
  births !! m_family m = Some t0 -> (m_time m < t0 + MAX_FAMILY_LIFETIME)%Z ->
  Inv k now s ms dead births -> Inv k now s (m :: ms) dead births.
Proof.
  intros Hsig Hnow Hexp Hnd Hb Hborn [Hs Ht He Hl Hr Hsp Hd Hrev Hshut]. split; try done.
  - intros m' [-> | Hm]%elem_of_cons; auto.
  - intros m' [-> | Hm]%elem_of_cons; auto.
  - intros m' [-> | Hm]%elem_of_cons; auto.
  - intros m' [-> | Hm]%elem_of_cons; eauto.
  - intros m' [-> | Hm]%elem_of_cons; auto. done.
Qed.

Lemma inv_birth k now s ms dead births f t :
  births !! f = None -> Inv k now s ms dead births -> Inv k now s ms dead (<[f := t]> births).
Proof.
  intros Hf [Hs Ht He Hl Hr Hsp Hd Hrev Hshut].
  assert (Hsub : births ⊆ <[f := t]> births) by by apply insert_subseteq.
  assert (Hsome : forall g, is_Some (births !! g) -> is_Some (<[f := t]> births !! g)).
  { intros g [t0 Hg]. exists t0. by eapply lookup_weaken. }
  split; try done; eauto.
  - intros m Hm. destruct (Hl m Hm) as (t0 & Hb & Hlt). exists t0. split; [by eapply lookup_weaken | done].
  - intros h r Hh. destruct (Hr h r Hh) as [(t0 & Hb & Hdl) Hrest].
    split; [exists t0; split; [by eapply lookup_weaken | done] | done].
Qed.

(** Ending a family at [now] shuts out every token it ever got. *)
Lemma inv_kill k now s ms dead births f :
  is_Some (births !! f) -> Inv k now s ms dead births ->
  Inv k now (family_revoked f (now + from_secs ttl) s) ms ({[f]} ∪ dead) births.
Proof.
  intros Hf [Hs Ht He Hl Hr Hsp Hd Hrev Hshut]. split; try done.
  - intros h r [Hh Hne]%map_lookup_filter_Some. destruct (Hr h r Hh) as (Hb & Hnd & Hrest).
    split; [done|]. split; [cbn in Hne; set_solver | done].
  - intros g [-> %elem_of_singleton | Hg]%elem_of_union; auto.
  - intros g u. cbn. intros [[-> _] | [_ Hg]]%lookup_insert_Some; [set_solver|].
    apply Hrev in Hg. set_solver.
  - intros m Hm Hk. unfold shut_out. cbn [revoked family_revoked set_revoked].
    destruct (decide (m_family m = f)) as [<-|Hne].
    + left. eexists. split; [apply lookup_insert_eq|]. specialize (Ht m Hm). lia.
    + destruct (Hshut m Hm) as [(u & Hu & Hexp) | Hexp]; [set_solver | left | by right].
      exists u. split; [by rewrite lookup_insert_ne | done].
Qed.

(** ** Every call keeps the invariant *)

Definition world_ok (w : World) : Prop :=
  poisoned (state (svc w)) = false /\ access_ttl (svc w) = from_secs ttl /\ (0 <= ttl)%Z /\
  Inv (key (svc w)) (clock w) (st (svc w)) (minted w) (killed w) (born w).

Lemma unix_now_wall env : (0 <= system_now env)%Z -> unix_now env = as_secs (system_now env).
Proof. intros Hpos. unfold unix_now. by destruct (Z.ltb_spec (system_now env) 0); [lia|]. Qed.

(** The expiry of a token minted now; a wrap-around only makes it earlier. *)
Lemma signed_mint w env f u i self :
  world_ok w -> is_u64 f -> is_utf8 u = true ->
  access_token i = mint_access (svc w) env f u -> access_ttl self = access_ttl (svc w) ->
  signed (key (svc w)) (mint env f u i self) /\
  ((0 <= m_wall (mint env f u i self))%Z ->
   (m_expires (mint env f u i self) <= as_secs (m_wall (mint env f u i self)) + ttl)%Z).
Proof.
  intros (_ & Hattl & Httl & _) Hf Hu Hi Hself. split.
  - unfold signed, mint. cbn [m_token m_family m_expires m_user]. rewrite Hi, Hself.
    split; [done|]. split; [done|]. split; [apply u64_add_u64 | done].
  - cbn. intros Hpos. rewrite Hself, Hattl, as_from_secs, unix_now_wall by done.
    apply Z.mod_le; [|done]. assert (0 <= as_secs (system_now env))%Z by by apply Z.div_pos. lia.
Qed.

Lemma world_ok_login w env user :
  world_ok w -> allowed w env (Login user) -> world_ok (execute env (Login user) w).
Proof.
  intros Hok (Hsync & Hrand & Hu & Hfresh). pose proof Hok as (Hp & Hattl & Httl & HI).
  pose proof Hsync as [Hclock Hfit]. unfold execute.
  apply (inv_clock _ _ (instant_now env)) in HI; [|done].
  pose proof (inv_cleaned _ _ _ _ _ _ _
    (cleaned_login_state (svc w) (instant_now env)) HI) as HI'.
  rewrite login_run by done. unfold random_family in *.
  destruct (random_fill env 8) as [b|] eqn:Hb; [|done]. cbv zeta.
  destruct (is_full _); [done|]. destruct (generate_token env) as [t|]; [|done].
  set (f := from_be_bytes b). specialize (Hfresh f eq_refl).
  assert (Hf64 : is_u64 f) by by apply from_be_u64, Hrand.
  destruct (signed_mint w env f user
    (new_tokens (svc w) env f user (instant_now env + MAX_FAMILY_LIFETIME) t) (svc w))
    as [Hsig Hexp]; try done.
  split; [done|]. split; [done|]. split; [done|]. cbn [svc clock minted killed born].
  apply (inv_mint _ _ _ _ _ _ _ (instant_now env)); [done|done|done| | | |].
  - cbn [mint m_family]. intros Hk. apply (inv_dead _ _ _ _ _ _ HI) in Hk as [? Hk].
    by rewrite Hfresh in Hk.
  - apply lookup_insert_eq.
  - cbn [mint m_time]. assert (0 < MAX_FAMILY_LIFETIME)%Z by done. lia.
  - cbn [state with_state inner key]. apply inv_add_record; [|by apply inv_birth].
    split; [exists (instant_now env); split; [apply lookup_insert_eq | done]|].
    split; [|done]. cbn. intros Hk. apply (inv_dead _ _ _ _ _ _ HI) in Hk as [? Hk].
    by rewrite Hfresh in Hk.
Qed.

Lemma world_ok_refresh w env token ex :
  world_ok w -> allowed w env (Refresh token ex) -> world_ok (execute env (Refresh token ex) w).
Proof.
  intros Hok (Hsync & _). pose proof Hok as (Hp & Hattl & Httl & HI).
  pose proof Hsync as [Hclock Hfit]. unfold execute.
  apply (inv_clock _ _ (instant_now env)) in HI; [|done].
  pose proof (inv_cleaned _ _ _ _ _ _ _
    (cleaned_refresh_state (svc w) (instant_now env)) HI) as HI'.
  rewrite refresh_run by done. cbv zeta.
  set (s := refresh_state (svc w) (instant_now env)) in *. destruct (is_full s); [done|].
  unfold refreshed, family_of. cbv zeta.
  destruct (refreshes s !! hash_token token) as [r|] eqn:Hr.
  - destruct (usable (instant_now env) ex r) eqn:Huse; [|split; [done|split; [done|split; [done|]]]; by apply inv_delete].
    destruct (inv_live _ _ _ _ _ _ HI' _ _ Hr) as ((t0 & Hb & Hdl) & Hnd & Hf64 & Hu).
    destruct (generate_token env) as [t|];
      [|split; [done|split; [done|split; [done|]]]; by apply inv_retired].
    destruct (signed_mint w env (r_family r) (r_user r)
      (new_tokens (svc w) env (r_family r) (r_user r) (r_deadline r) t) (svc w))
      as [Hsig Hexp]; try done.
    split; [done|]. split; [done|]. split; [done|]. cbn [svc clock minted killed born].
    apply (inv_mint _ _ _ _ _ _ _ t0); [done..| |].
    + unfold usable in Huse. apply andb_true_iff in Huse as [[_ Hlt]%bool_decide_eq_true _].
      cbn [mint m_time]. lia.
    + cbn [state with_state inner key]. apply inv_add_record; [|by apply inv_retired].
      split; [by exists t0 | done].
  - destruct (spent s !! hash_token token) as [sp|] eqn:Hsp; [|done].
    destruct (_ <? _)%Z; [|done]. split; [done|]. split; [done|]. split; [done|].
    cbn. rewrite Hattl. apply inv_kill; [|done]. by eapply inv_spent.
Qed.

Lemma world_ok_revoke w env token :
  world_ok w -> allowed w env (Revoke token) -> world_ok (execute env (Revoke token) w).
Proof.
  intros Hok (Hsync & _). pose proof Hok as (Hp & Hattl & Httl & HI).
  pose proof Hsync as [Hclock Hfit]. unfold execute.
  apply (inv_clock _ _ (instant_now env)) in HI; [|done].
  rewrite revoke_run by done. destruct (family_of _ _) as [f|] eqn:Hf; [|done].
  split; [done|]. split; [done|]. split; [done|]. cbn. rewrite Hattl. apply inv_kill; [|done].
  unfold family_of in Hf. destruct (refreshes _ !! _) as [r|] eqn:Hr.
  - injection Hf as <-. destruct (inv_live _ _ _ _ _ _ HI _ _ Hr) as [(t0 & Hb & _) _]. by exists t0.
  - apply fmap_Some in Hf as (sp & Hsp & ->). by eapply inv_spent.
Qed.

Lemma world_ok_reachable self t w :
  fresh_service self -> reachable (start self t) w -> world_ok w.
Proof.
  intros (Hp & Hattl & Httl & Hr & Hs & Hrev). induction 1 as [|w env call Hw IH Hal].
  - split; [done|]. split; [done|]. split; [done|]. split; cbn.
    + intros m Hm. by apply not_elem_of_nil in Hm.
    + intros m Hm. by apply not_elem_of_nil in Hm.
    + intros m Hm. by apply not_elem_of_nil in Hm.
    + intros m Hm. by apply not_elem_of_nil in Hm.
    + rewrite Hr. intros h r Hh. by rewrite lookup_empty in Hh.
    + rewrite Hs. intros h r Hh. by rewrite lookup_empty in Hh.
    + set_solver.
    + rewrite Hrev. intros h r Hh. by rewrite lookup_empty in Hh.
    + intros m Hm. by apply not_elem_of_nil in Hm.
  - destruct call; [by apply world_ok_login | by apply world_ok_refresh | by apply world_ok_revoke].
Qed.

(** ** The theorems *)

(** C1: the life cycle of an access token, over every history of logins, refreshes and logouts (and the
    sweeps they make) in which the monotonic clock does not go back, clock readings leave room for
    the lifetimes, random buffers are filled and no login draws the family of an earlier one; the wall clock
    may show anything. A token that was handed out verifies to its user exactly while it has not
    expired and its login was neither logged out nor caught reusing a refresh token. The second half,
    that a token of an ended login is refused, is for a wall clock that was not set back since the token
    was issued ([kept_up]): the revocation is forgotten by the monotonic clock
    ([clock_set_back_readmits]). *)
Theorem access_token_lifecycle self t w env m :
  fresh_service self -> reachable (start self t) w -> m ∈ minted w ->
  (clock w <= instant_now env)%Z -> (m_family m ∈ killed w -> kept_up env m) ->
  (verify_access env (m_token m) (svc w)).1 =
    Ok (if decide ((unix_now env < m_expires m)%Z /\ m_family m ∉ killed w)
        then Some (m_user m) else None).
Proof.
  intros Hself Hw Hm Hclock Hkept.
  destruct (world_ok_reachable self t w Hself Hw) as (Hp & _ & Httl & HI).
  destruct (inv_signed _ _ _ _ _ _ HI m Hm) as (Htok & Hf & He & Hu).
  rewrite verify_access_run, Htok, open_signed by done. do 2 f_equal. apply decide_ext.
  split; intros [Hlt Hrev]; (split; [done|]).
  - intros Hk. destruct (inv_shut _ _ _ _ _ _ HI m Hm Hk) as [(u & Hru & _) | Hover]; [congruence|].
    destruct (Hkept Hk) as [Hwall Hadv]. pose proof (inv_expiry _ _ _ _ _ _ HI m Hm Hwall) as Hexp.
    assert (Hpast : (m_wall m + from_secs ttl <= system_now env)%Z) by lia.
    assert (0 <= from_secs ttl)%Z by (unfold from_secs, NANOS; lia).
    rewrite unix_now_wall in Hlt by lia. apply as_secs_mono in Hpast. rewrite as_secs_add in Hpast. lia.
  - destruct (revoked _ !! _) as [u|] eqn:Hr; [|done].
    by apply (inv_revoked _ _ _ _ _ _ HI) in Hr.
Qed.

(** A revocation is forgotten by the monotonic clock, a token expires by the wall clock: when a sweep
    finds the revocation over while the wall clock, set back, still shows a time before the token's
    expiry, the sweep readmits a token that was refused before it. *)
Theorem clock_set_back_readmits self now until env token f u :
  poisoned (state self) = false -> revoked (st self) !! f = Some until -> (until <= now)%Z ->
  access_token_of (key self) (unix_now env) token f u ->
  (verify_access env token self).1 = Ok None /\
  (verify_access env token (with_state self (swept now (st self)))).1 = Ok (Some u).
Proof.
  intros Hp Hrev Hnow Htok. rewrite !verify_access_run by done. cbn [key with_state].
  rewrite (proj2 (open_access_iff _ _ _ _ _) Htok). cbn [mbind option_bind state with_state inner].
  rewrite Hrev. split; [done|].
  destruct (revoked (swept now (st self)) !! f) as [u'|] eqn:Hs; [|done].
  apply swept_revoked in Hs as [Hs Hlt]. rewrite Hrev in Hs. injection Hs as <-. lia.
Qed.

(** An ended login stays ended: no live refresh token of the family exists, ever after. *)
Theorem ended_login_stays_ended self t w h r :
  fresh_service self -> reachable (start self t) w ->
  refreshes (st (svc w)) !! h = Some r -> r_family r ∉ killed w.
Proof.
  intros Hself Hw Hh. destruct (world_ok_reachable self t w Hself Hw) as (_ & _ & _ & HI).
  by destruct (inv_live _ _ _ _ _ _ HI _ _ Hh) as (_ & Hnd & _).
Qed.

(** C13: however often the client refreshes, a login yields no token later than 30 days after it
    started. *)
Theorem login_lifetime_capped self t w m t0 :
  fresh_service self -> reachable (start self t) w -> m ∈ minted w ->
  born w !! m_family m = Some t0 -> (m_time m < t0 + MAX_FAMILY_LIFETIME)%Z.
Proof.
  intros Hself Hw Hm Hb. destruct (world_ok_reachable self t w Hself Hw) as (_ & _ & _ & HI).
  destruct (inv_lifetime _ _ _ _ _ _ HI m Hm) as (t0' & Hb' & Hlt). congruence.
Qed.
End safety.

(** ** Witnesses: a login, a refresh, and the reuse of the first refresh token *)

Module SafetyTests.
Import TokenTests.

Definition world0 : World := start (service 600 3600) 0.
Definition world1 : World := execute (env_at 1 65) (Login "alice") world0.
Definition world2 : World := execute (env_at 2 66) (Refresh (refresh_token first) everyone) world1.
Definition world3 : World := execute (env_at 3 67) (Refresh (refresh_token first) everyone) world2.

Lemma env_at_fills secs seed n b : random_fill (env_at secs seed) n = Some b -> length b = n.
Proof. intros [= <-]. apply length_replicate. Qed.

Lemma advances_tests w secs seed :
  access_ttl (svc w) = from_secs 600 -> refresh_ttl (svc w) = from_secs 3600 ->
  (clock w <=? from_secs secs)%Z = true -> (secs <= 1000000)%Z ->
  advances w (env_at secs seed).
Proof.
  intros Ha Hr Hc%Z.leb_le Hs. split; [done|]. apply (fits_tests _ 600 3600); done || lia.
Qed.

Ltac advances_test := apply advances_tests; [by_eval | by_eval | by_eval | lia].

Lemma fresh_service_tests : fresh_service 600 (service 600 3600).
Proof. repeat split; done. Qed.

Lemma reachable1 : reachable world0 world1.
Proof.
  apply reachable_step; [apply reachable_start|]. split; [advances_test|].
  split; [apply env_at_fills|]. split; [done|]. intros f _. apply lookup_empty.
Qed.

Lemma reachable3 : reachable world0 world3.
Proof.
  apply reachable_step; [apply reachable_step; [apply reachable1|]|];
    (split; [advances_test | split; [apply env_at_fills | done]]).
Qed.

(** The two clocks of the tests show the same time. *)
Lemma kept_up_tests m : m ∈ minted world3 -> kept_up (env_at 4 0) m.
Proof.
  intros Hm.
  assert (Hall : forallb (fun m => ((0 <=? m_wall m) && (m_wall m =? m_time m))%Z) (minted world3)
    = true) by by_eval.
  rewrite forallb_forall in Hall. apply list_elem_of_In, Hall, andb_true_iff in Hm as [Hm Heq].
  apply Z.leb_le in Hm. apply Z.eqb_eq in Heq. split; [done|]. cbn. lia.
Qed.

(** The access tokens of the login and of the refresh. *)
Definition issued_tokens : list str := m_token <$> minted world3.

Example two_tokens_were_issued : issued_tokens = [access_token second; access_token first].
Proof. by_eval. Qed.
End SafetyTests.

Import TokenTests SafetyTests.

Example access_token_lifecycle_witness :
  Forall (fun m => (verify_access (env_at 4 0) (m_token m) (svc world3)).1 = Ok None) (minted world3) /\
  minted world3 <> [].
Proof.
  split; [|by intros Hn; apply (f_equal length) in Hn; vm_compute in Hn].
  apply Forall_forall. intros m Hm.
  rewrite (access_token_lifecycle 600 (service 600 3600) 0 world3 (env_at 4 0) m
    fresh_service_tests reachable3 Hm);
    [| by apply Z.leb_le; vm_compute | intros _; by apply kept_up_tests].
  rewrite decide_False; [done|]. intros [_ Hk]. apply Hk.
  assert (Hall : forallb (fun m => bool_decide (m_family m ∈ killed world3)) (minted world3) = true)
    by by_eval.
  rewrite forallb_forall in Hall. apply list_elem_of_In, Hall in Hm.
  by apply bool_decide_eq_true in Hm.
Defined.

Example ended_login_stays_ended_witness :
  exists h r, refreshes (inner (state (svc world1))) !! h = Some r /\ r_family r ∉ killed world1.
Proof.
  exists (hash_token (refresh_token first)),
    (mkRefresh (from_be_bytes (replicate 8 (zb 65))) "alice" (from_secs 3601)
       (from_secs 1 + MAX_FAMILY_LIFETIME)).
  assert (Hh : refreshes (inner (state (svc world1))) !! hash_token (refresh_token first) =
    Some (mkRefresh (from_be_bytes (replicate 8 (zb 65))) "alice" (from_secs 3601)
       (from_secs 1 + MAX_FAMILY_LIFETIME))) by by_eval.
  split; [exact Hh|].
  exact (ended_login_stays_ended 600 (service 600 3600) 0 world1 _ _
    fresh_service_tests reachable1 Hh).
Defined.

Example login_lifetime_capped_witness :
  Forall (fun m => (m_time m < from_secs 1 + MAX_FAMILY_LIFETIME)%Z) (minted world3).
Proof.
  apply Forall_forall. intros m Hm.
  apply (login_lifetime_capped 600 (service 600 3600) 0 world3 m (from_secs 1)
    fresh_service_tests reachable3 Hm).
  assert (Hall : forallb (fun m => bool_decide (born world3 !! m_family m = Some (from_secs 1)))
    (minted world3) = true) by by_eval.
  rewrite forallb_forall in Hall. apply list_elem_of_In, Hall in Hm.
  by apply bool_decide_eq_true in Hm.
Defined.
