(* ===== verification/TokenSpec.v ===== *)
(** An abstract token service, and the proof that [TokenService] implements it.

    The abstract service has no housekeeping: it holds the refresh tokens that can be used now, the
    rotated ones whose reuse would be noticed, and the family of every token it ever issued; time
    passing takes entries away ([aged]). [State] keeps more (what no sweep has dropped yet), so the
    two are related by what is in force at the moment ([view]). The theorem: every sequence of
    replies of the service is one of the abstract service. The one freedom the abstract service
    leaves is a logout with an expired token, which may or may not still be recognised. *)

From S2P Require Import Prelude RustStd Extern Instances Token TokenAccess TokenStore TokenSafety.

Section spec.
Context `{Base64Laws} `{RingLaws}.

Abbreviation st self := (inner (state self)).

(** ** The abstract service *)

Record Spec : Type := mkSpec {
  live : gmap Hash RefreshRecord;
  rotated : gmap Hash SpentRecord;
  ended : gmap Z Instant;
  known : gmap Hash Z;
}.

(** Time passing. *)
Definition in_force (now : Instant) (kr : Hash * RefreshRecord) : Prop := unexpired now kr.2.
Definition noticed (now : Instant) (kr : Hash * SpentRecord) : Prop := (now < s_expires kr.2)%Z.
Definition shut (now : Instant) (ku : Z * Instant) : Prop := (now < ku.2)%Z.
#[export] Instance in_force_dec now kr : Decision (in_force now kr).
Proof. unfold in_force. apply _. Defined.
#[export] Instance noticed_dec now kr : Decision (noticed now kr).
Proof. unfold noticed. apply _. Defined.
#[export] Instance shut_dec now ku : Decision (shut now ku).
Proof. unfold shut. apply _. Defined.

Definition aged (now : Instant) (a : Spec) : Spec :=
  mkSpec (filter (in_force now) (live a)) (filter (noticed now) (rotated a))
    (filter (shut now) (ended a)) (known a).

Definition spec_full (a : Spec) : bool :=
  (MAX_RECORDS <=? Z.of_nat (size (live a) + size (rotated a)))%Z.

(** Issuing a token, exchanging one, dropping one, ending a family. *)
Definition spec_add (h : Hash) (r : RefreshRecord) (a : Spec) : Spec :=
  mkSpec (<[h := r]> (live a)) (rotated a) (ended a) (<[h := r_family r]> (known a)).
Definition spec_rotate (h : Hash) (r : RefreshRecord) (a : Spec) : Spec :=
  mkSpec (delete h (live a)) (<[h := spent_of r]> (rotated a)) (ended a) (known a).
Definition spec_drop (h : Hash) (a : Spec) : Spec :=
  mkSpec (delete h (live a)) (rotated a) (ended a) (known a).
Definition spec_end (family : Z) (until : Instant) (a : Spec) : Spec :=
  mkSpec (filter (fun kr => r_family kr.2 <> family) (live a)) (rotated a)
    (<[family := until]> (ended a)) (known a).

(** A login; [self] gives the key and the lifetimes. *)
Definition spec_login (self : TokenService) (env : Env) (user : str) (a : Spec) :
    outcome TokenError IssuedTokens * Spec :=
  let now := instant_now env in
  let deadline := (now + MAX_FAMILY_LIFETIME)%Z in
  match random_fill env 8 with
  | None => (Err Random, a)
  | Some b =>
      let family := from_be_bytes b in
      if spec_full a then (Err Full, a)
      else
        match generate_token env with
        | None => (Err Random, a)
        | Some t =>
            (Ok (new_tokens self env family user deadline t),
             spec_add (hash_token t) (new_record self now family user deadline) a)
        end
  end.

(** A refresh: exchange a live token, punish the reuse of a rotated one. *)
Definition spec_refresh (self : TokenService) (env : Env) (token : str) (user_exists : str -> bool)
    (a : Spec) : outcome TokenError (str * IssuedTokens) * Spec :=
  let now := instant_now env in
  let h := hash_token token in
  if spec_full a then (Err Full, a)
  else
    match live a !! h, rotated a !! h with
    | Some r, _ =>
        if user_exists (r_user r) then
          match generate_token env with
          | None => (Err Random, spec_rotate h r a)
          | Some t =>
              (Ok (r_user r, new_tokens self env (r_family r) (r_user r) (r_deadline r) t),
               spec_add (hash_token t) (new_record self now (r_family r) (r_user r) (r_deadline r))
                 (spec_rotate h r a))
          end
        else (Err Invalid, spec_drop h a)
    | None, Some sp => (Err (Reused (s_user sp)), spec_end (s_family sp) (now + access_ttl self) a)
    | None, None => (Err Invalid, a)
    end.

Definition spec_family (h : Hash) (a : Spec) : option Z :=
  match live a !! h with
  | Some r => Some (r_family r)
  | None => s_family <$> rotated a !! h
  end.

(** The reply of a call. *)
Inductive Reply : Type :=
  | LoginReply (r : outcome TokenError IssuedTokens)
  | RefreshReply (r : outcome TokenError (str * IssuedTokens))
  | RevokeReply (r : outcome TokenError bool).

(** A call of the abstract service: what it may reply and become. A logout ends the family of a token
    in force; of an expired token it may. *)
Inductive spec_call (self : TokenService) (env : Env) : Call -> Spec -> Reply -> Spec -> Prop :=
  | spec_call_login user a :
      spec_call self env (Login user) a (LoginReply (spec_login self env user a).1)
        (spec_login self env user a).2
  | spec_call_refresh token ex a :
      spec_call self env (Refresh token ex) a (RefreshReply (spec_refresh self env token ex a).1)
        (spec_refresh self env token ex a).2
  | spec_call_revoke token a f :
      spec_family (hash_token token) a = Some f ->
      spec_call self env (Revoke token) a (RevokeReply (Ok true))
        (spec_end f (instant_now env + access_ttl self) a)
  | spec_call_revoke_unknown token a :
      spec_family (hash_token token) a = None ->
      spec_call self env (Revoke token) a (RevokeReply (Ok false)) a
  | spec_call_revoke_expired token a f :
      spec_family (hash_token token) a = None -> known a !! hash_token token = Some f ->
      spec_call self env (Revoke token) a (RevokeReply (Ok true))
        (spec_end f (instant_now env + access_ttl self) a).

(** The same call of [TokenService]. *)
Definition call (env : Env) (c : Call) (self : TokenService) : Reply * TokenService :=
  match c with
  | Login user => let '(r, self) := login env user self in (LoginReply r, self)
  | Refresh token ex => let '(r, self) := refresh env token ex self in (RefreshReply r, self)
  | Revoke token => let '(r, self) := revoke env token self in (RevokeReply r, self)
  end.

(** ** What is in force *)

(** The abstract service a state stands for at a moment. *)
Definition views (now : Instant) (s : State) (a : Spec) : Prop :=
  filter (in_force now) (refreshes s) = live a /\ filter (noticed now) (spent s) = rotated a /\
  filter (shut now) (revoked s) = ended a.

(** Housekeeping is not visible. *)
Lemma views_cleaned now s s' a : cleaned now s s' -> views now s a -> views now s' a.
Proof.
  unfold views. intros (Hr & Hsp & Hrev & _) (<- & <- & <-).
  split; [|split]; apply map_filter_strong_ext; intros k x; unfold in_force, noticed, shut; cbn.
  - split; intros [Hx Hk]; (split; [done|]); by apply Hr.
  - split; intros [Hx Hk]; (split; [done|]); by apply Hsp.
  - split; intros [Hx Hk]; (split; [done|]); by apply Hrev.
Qed.

(** A full store is one with too much in force: the sweep in [make_room] counts nothing else. *)
Lemma full_roomy now s a : views now s a -> is_full (roomy now s) = spec_full a.
Proof.
  intros Hv. unfold is_full, roomy, spec_full. destruct (Z.leb_spec MAX_RECORDS (record_count s)) as [Hf|Hf].
  - destruct Hv as (<- & <- & _). done.
  - rewrite (proj2 (Z.leb_gt _ _) Hf). symmetry. apply Z.leb_gt.
    eapply Z.le_lt_trans; [|exact Hf]. destruct Hv as (<- & <- & _). unfold record_count.
    pose proof (map_subseteq_size _ _ (map_filter_subseteq (in_force now) (refreshes s))).
    pose proof (map_subseteq_size _ _ (map_filter_subseteq (noticed now) (spent s))). lia.
Qed.

(** Time passes the same way on both sides. *)
Lemma views_aged now now' s a : (now <= now')%Z -> views now s a -> views now' s (aged now' a).
Proof.
  unfold views, aged. cbn. intros Hle (<- & <- & <-).
  repeat split; symmetry; apply map_filter_filter_l; intros k x _; unfold in_force, unexpired, noticed, shut; lia.
Qed.

(** Lookups of what is in force. *)
Lemma views_live now s a h r :
  views now s a -> live a !! h = Some r <-> refreshes s !! h = Some r /\ unexpired now r.
Proof. unfold views. intros (<- & _). apply map_lookup_filter_Some. Qed.

Lemma views_rotated now s a h sp :
  views now s a -> rotated a !! h = Some sp <-> spent s !! h = Some sp /\ (now < s_expires sp)%Z.
Proof. unfold views. intros (_ & <- & _). apply map_lookup_filter_Some. Qed.

Lemma views_add now s a h r :
  unexpired now r -> views now s a -> views now (add_record h r s) (spec_add h r a).
Proof.
  unfold views. cbn. intros Hr (<- & <- & <-). cbn. split; [|done]. by rewrite map_filter_insert_True.
Qed.

Lemma views_rotate now s a h r :
  unexpired now r -> views now s a -> views now (retired h r s) (spec_rotate h r a).
Proof.
  unfold views. cbn. intros [Hr _] (<- & <- & <-). split; [|split; [|done]].
  - apply map_filter_delete.
  - by rewrite map_filter_insert_True.
Qed.

Lemma views_drop now s a h :
  views now s a -> views now (set_refreshes (delete h) s) (spec_drop h a).
Proof. unfold views. cbn. intros (<- & <- & <-). cbn. split; [|done]. apply map_filter_delete. Qed.

(** Dropping a record that has expired is not visible. *)
Lemma views_drop_expired now s a h :
  live a !! h = None -> views now s a -> views now (set_refreshes (delete h) s) a.
Proof.
  unfold views. cbn. intros Hn (E & <- & <-). cbn. split; [|done]. by rewrite map_filter_delete, E, delete_id.
Qed.

Lemma views_end now s a f until :
  (now < until)%Z -> views now s a -> views now (family_revoked f until s) (spec_end f until a).
Proof.
  unfold views. cbn. intros Hu (<- & <- & <-). cbn. split; [|split; [done|]].
  - apply map_filter_comm.
  - by rewrite map_filter_insert_True.
Qed.

(** ** The simulation *)

(** The state stands for the abstract service, every record belongs to an issued token, and no token
    is both live and rotated. *)
Record simulates (now : Instant) (s : State) (a : Spec) : Prop := mkSimulates {
  sim_views : views now s a;
  sim_live h r : refreshes s !! h = Some r -> known a !! h = Some (r_family r);
  sim_rotated h sp : spent s !! h = Some sp -> known a !! h = Some (s_family sp);
  sim_disjoint h r : refreshes s !! h = Some r -> spent s !! h = None;
}.

Lemma simulates_aged now now' s a :
  (now <= now')%Z -> simulates now s a -> simulates now' s (aged now' a).
Proof. intros Hle [Hv Hl Hr Hd]. split; [by eapply views_aged | done..]. Qed.

Lemma simulates_cleaned now s s' a : cleaned now s s' -> simulates now s a -> simulates now s' a.
Proof.
  intros Hc [Hv Hl Hr Hd]. pose proof Hc as (_ & _ & _ & Hrs & Hss & _).
  split; [by eapply views_cleaned| | |].
  - intros h r Hh. apply Hl. by eapply lookup_weaken.
  - intros h sp Hh. apply Hr. by eapply lookup_weaken.
  - intros h r Hh. destruct (spent s' !! h) as [sp|] eqn:Esp; [|done].
    assert (spent s !! h = None) by (eapply Hd, lookup_weaken; done).
    assert (spent s !! h = Some sp) by by eapply lookup_weaken. congruence.
Qed.

Lemma simulates_add now s a h r :
  known a !! h = None -> unexpired now r -> simulates now s a ->
  simulates now (add_record h r s) (spec_add h r a).
Proof.
  intros Hfresh Hr [Hv Hl Hsp Hd].
  assert (Hspent : spent s !! h = None).
  { destruct (spent s !! h) as [sp|] eqn:E; [|done]. apply Hsp in E. congruence. }
  split; [by apply views_add | | |]; cbn.
  - intros h' r' [[<- <-] | [Hne Hh]]%lookup_insert_Some; [by rewrite lookup_insert_eq|].
    rewrite lookup_insert_ne by done. by apply Hl.
  - intros h' sp Hh. rewrite lookup_insert_ne by congruence. by apply Hsp.
  - intros h' r' [[<- <-] | [Hne Hh]]%lookup_insert_Some; [done | by eapply Hd].
Qed.

Lemma simulates_rotate now s a h r :
  refreshes s !! h = Some r -> unexpired now r -> simulates now s a ->
  simulates now (retired h r s) (spec_rotate h r a).
Proof.
  intros Hh Hr [Hv Hl Hsp Hd]. split; [by apply views_rotate | | |]; cbn.
  - intros h' r' [_ Hh']%lookup_delete_Some. by apply Hl.
  - intros h' sp [[<- <-] | [Hne Hh']]%lookup_insert_Some; [by apply Hl | by apply Hsp].
  - intros h' r' [Hne Hh']%lookup_delete_Some. rewrite lookup_insert_ne by done. by eapply Hd.
Qed.

Lemma simulates_drop now s a a' h :
  known a' = known a -> views now (set_refreshes (delete h) s) a' -> simulates now s a ->
  simulates now (set_refreshes (delete h) s) a'.
Proof.
  intros Hk Hv' [Hv Hl Hsp Hd]. split; [done| | |]; rewrite ?Hk; cbn.
  - intros h' r' [_ Hh']%lookup_delete_Some. by apply Hl.
  - done.
  - intros h' r' [Hne Hh']%lookup_delete_Some. by eapply Hd.
Qed.

Lemma simulates_end now s a f until :
  (now < until)%Z -> simulates now s a ->
  simulates now (family_revoked f until s) (spec_end f until a).
Proof.
  intros Hu [Hv Hl Hsp Hd]. split; [by apply views_end | | done |]; cbn.
  - intros h r [Hh _]%map_lookup_filter_Some. by apply Hl.
  - intros h r [Hh _]%map_lookup_filter_Some. by eapply Hd.
Qed.

(** ** Every call *)

Section calls.
Context (self : TokenService) (env : Env) (a : Spec).
Hypothesis Hp : poisoned (state self) = false.
Hypothesis Hfit : fits self (instant_now env).
Hypothesis Hattl : (0 < access_ttl self)%Z.
Hypothesis Hrttl : (0 < refresh_ttl self)%Z.
Hypothesis Hfresh : forall t, generate_token env = Some t -> known a !! hash_token t = None.
Hypothesis Hsim : simulates (instant_now env) (st self) a.

Lemma new_record_unexpired f u deadline :
  (instant_now env < deadline)%Z ->
  unexpired (instant_now env) (new_record self (instant_now env) f u deadline).
Proof. intros Hd. split; cbn; lia. Qed.

Lemma login_simulates user :
  (login env user self).1 = (spec_login self env user a).1 /\
  simulates (instant_now env) (st (login env user self).2) (spec_login self env user a).2.
Proof.
  rewrite login_run by done. unfold spec_login. cbv zeta.
  destruct (random_fill env 8) as [b|]; [|done].
  pose proof (cleaned_login_state self (instant_now env)) as Hc.
  pose proof (simulates_cleaned _ _ _ _ Hc Hsim) as Hs.
  unfold login_state in *. rewrite (full_roomy _ _ a) by apply Hsim.
  destruct (spec_full a); [done|]. destruct (generate_token env) as [t|]; [|done].
  split; [done|]. apply simulates_add; [by apply Hfresh | | done].
  apply new_record_unexpired. assert (0 < MAX_FAMILY_LIFETIME)%Z by done. lia.
Qed.

Lemma refreshed_simulates token ex s :
  simulates (instant_now env) s a -> spec_full a = false ->
  (refreshed self env (hash_token token) ex s).1 = (spec_refresh self env token ex a).1 /\
  simulates (instant_now env) (refreshed self env (hash_token token) ex s).2
    (spec_refresh self env token ex a).2.
Proof.
  intros Hs Hfull. unfold refreshed, spec_refresh. rewrite Hfull. cbv zeta.
  pose proof (sim_views _ _ _ Hs) as Hv. set (h := hash_token token).
  destruct (refreshes s !! h) as [r|] eqn:Hr.
  - unfold usable. destruct (decide (unexpired (instant_now env) r)) as [Hu|Hu].
    + rewrite bool_decide_eq_true_2 by done. cbn [andb].
      rewrite (proj2 (views_live _ _ _ h r Hv)) by done.
      destruct (ex (r_user r)).
      * destruct (generate_token env) as [t|] eqn:Ht; [|split; [done | by apply simulates_rotate]].
        split; [done|]. apply simulates_add; [by apply Hfresh | | by apply simulates_rotate].
        apply new_record_unexpired, Hu.
      * split; [done|]. apply (simulates_drop _ _ a); [done | | done]. by apply views_drop.
    + rewrite bool_decide_eq_false_2 by done. cbn [andb].
      assert (Hl : live a !! h = None).
      { destruct (live a !! h) as [r'|] eqn:E; [|done].
        apply (views_live _ _ _ _ _ Hv) in E as [E Hu']. congruence. }
      assert (Hsp : rotated a !! h = None).
      { destruct (rotated a !! h) as [sp|] eqn:E; [|done].
        apply (views_rotated _ _ _ _ _ Hv) in E as [E _].
        by rewrite (sim_disjoint _ _ _ Hs h r Hr) in E. }
      rewrite Hl, Hsp. split; [done|]. apply (simulates_drop _ _ a); [done | | done].
      by apply views_drop_expired.
  - assert (Hl : live a !! h = None).
    { destruct (live a !! h) as [r'|] eqn:E; [|done].
      apply (views_live _ _ _ _ _ Hv) in E as [E _]. congruence. }
    rewrite Hl. destruct (rotated a !! h) as [sp|] eqn:E.
    + apply (views_rotated _ _ _ _ _ Hv) in E as [-> Hlt]. rewrite (proj2 (Z.ltb_lt _ _) Hlt).
      split; [done|]. apply simulates_end; [lia | done].
    + destruct (spent s !! h) as [sp|] eqn:Hsp; [|done].
      destruct (Z.ltb_spec (instant_now env) (s_expires sp)) as [Hlt|]; [|done].
      by rewrite (proj2 (views_rotated _ _ _ h sp Hv)) in E.
Qed.

Lemma refresh_simulates token ex :
  (refresh env token ex self).1 = (spec_refresh self env token ex a).1 /\
  simulates (instant_now env) (st (refresh env token ex self).2) (spec_refresh self env token ex a).2.
Proof.
  rewrite refresh_run by done. cbv zeta.
  pose proof (cleaned_refresh_state self (instant_now env)) as Hc.
  pose proof (simulates_cleaned _ _ _ _ Hc Hsim) as Hs.
  assert (Hfull : is_full (refresh_state self (instant_now env)) = spec_full a).
  { apply full_roomy. eapply views_cleaned; [apply cleaned_maybe_swept | apply Hsim]. }
  rewrite Hfull. destruct (spec_full a) eqn:Ha.
  { unfold spec_refresh. rewrite Ha. done. }
  pose proof (refreshed_simulates token ex _ Hs Ha) as [Hr Hs'].
  by destruct (refreshed _ _ _ _ _) as [r s'].
Qed.

Lemma revoke_simulates token :
  exists a', spec_call self env (Revoke token) a (RevokeReply (revoke env token self).1) a' /\
    simulates (instant_now env) (st (revoke env token self).2) a'.
Proof.
  rewrite revoke_run by done. pose proof (sim_views _ _ _ Hsim) as Hv. set (h := hash_token token).
  assert (Hend : forall f, simulates (instant_now env)
    (st (with_state self (family_revoked f (instant_now env + access_ttl self) (st self))))
    (spec_end f (instant_now env + access_ttl self) a)).
  { intros f. apply simulates_end; [lia | done]. }
  destruct (family_of h (st self)) as [f|] eqn:Hf.
  - exists (spec_end f (instant_now env + access_ttl self) a). split; [|apply Hend].
    assert (Hknown : known a !! h = Some f).
    { unfold family_of in Hf. destruct (refreshes (st self) !! h) as [r|] eqn:Hr.
      - injection Hf as <-. by apply (sim_live _ _ _ Hsim).
      - apply fmap_Some in Hf as (sp & Hsp & ->). by apply (sim_rotated _ _ _ Hsim). }
    destruct (spec_family h a) as [f'|] eqn:Hf'; [|by apply spec_call_revoke_expired].
    replace f with f'; [by apply spec_call_revoke|].
    unfold spec_family in Hf'. destruct (live a !! h) as [r|] eqn:Hr.
    + apply (views_live _ _ _ _ _ Hv) in Hr as [Hr _]. apply (sim_live _ _ _ Hsim) in Hr. congruence.
    + apply fmap_Some in Hf' as (sp & Hsp & ->). apply (views_rotated _ _ _ _ _ Hv) in Hsp as [Hsp _].
      apply (sim_rotated _ _ _ Hsim) in Hsp. congruence.
  - exists a. split; [|done]. apply spec_call_revoke_unknown. fold h.
    unfold spec_family, family_of in *.
    destruct (refreshes (st self) !! h) as [r|] eqn:Hr; [done|].
    destruct (live a !! h) as [r|] eqn:E; [apply (views_live _ _ _ _ _ Hv) in E as [E _]; congruence|].
    destruct (rotated a !! h) as [sp|] eqn:E'; [|done].
    apply (views_rotated _ _ _ _ _ Hv) in E' as [E' _]. by rewrite E' in Hf.
Qed.

Lemma call_simulates c :
  exists a', spec_call self env c a (call env c self).1 a' /\
    simulates (instant_now env) (st (call env c self).2) a'.
Proof.
  destruct c as [user|token ex|token]; cbn [call].
  - destruct (login_simulates user) as [Hr Hs]. destruct (login env user self) as [r self'].
    cbn in *. subst r. eexists. split; [constructor | done].
  - destruct (refresh_simulates token ex) as [Hr Hs]. destruct (refresh env token ex self) as [r self'].
    cbn in *. subst r. eexists. split; [constructor | done].
  - destruct (revoke_simulates token) as (a' & Hc & Hs). exists a'.
    by destruct (revoke env token self) as [r self'].
Qed.
End calls.

Lemma call_carries_on env c self :
  poisoned (state self) = false -> fits self (instant_now env) ->
  carries_on self (call env c self).2.
Proof.
  intros Hp Hfit. destruct c as [user|token ex|token]; cbn [call].
  - pose proof (login_carries_on env self Hp Hfit user) as [_ Hc]. by destruct (login env user self).
  - pose proof (refresh_carries_on env self Hp Hfit token ex) as [_ Hc].
    by destruct (refresh env token ex self).
  - pose proof (revoke_carries_on env self Hp Hfit token) as [_ Hc]. by destruct (revoke env token self).
Qed.

(** The abstract service depends on the key and the lifetimes of [self] only. *)
Lemma spec_call_config self self' env c a r a' :
  carries_on self self' -> spec_call self' env c a r a' -> spec_call self env c a r a'.
Proof.
  intros (_ & Hk & Ha & Hr).
  assert (Htok : forall f u d t, new_tokens self' env f u d t = new_tokens self env f u d t).
  { intros. unfold new_tokens, mint_access. by rewrite Hk, Ha, Hr. }
  assert (Hrec : forall f u d, new_record self' (instant_now env) f u d =
    new_record self (instant_now env) f u d) by (intros; unfold new_record; by rewrite Hr).
  destruct 1 as [user a|token ex a|token a f Hf|token a Hf|token a f Hf Hkn].
  - replace (spec_login self' env user a) with (spec_login self env user a); [constructor|].
    unfold spec_login. cbv zeta. destruct (random_fill env 8); [|done]. destruct (spec_full a); [done|].
    destruct (generate_token env); [|done]. by rewrite Htok, Hrec.
  - replace (spec_refresh self' env token ex a) with (spec_refresh self env token ex a); [constructor|].
    unfold spec_refresh. cbv zeta. rewrite Ha. destruct (spec_full a); [done|].
    destruct (live a !! _) as [rec|]; [|done]. destruct (ex _); [|done].
    destruct (generate_token env); [|done]. by rewrite Htok, Hrec.
  - rewrite Ha. by apply spec_call_revoke.
  - by apply spec_call_revoke_unknown.
  - rewrite Ha. by apply spec_call_revoke_expired.
Qed.

(** Only the token a call generates becomes known. *)
Lemma spec_call_known self env c a r a' h :
  spec_call self env c a r a' -> known a !! h = None ->
  (forall t, generate_token env = Some t -> hash_token t <> h) -> known a' !! h = None.
Proof.
  intros Hc Hh Hne. destruct Hc; cbn; try done.
  - unfold spec_login. cbv zeta. repeat case_match; cbn; try done.
    rewrite lookup_insert_ne; [done | by apply Hne].
  - unfold spec_refresh. cbv zeta. repeat case_match; cbn; try done.
    rewrite lookup_insert_ne; [done | by apply Hne].
Qed.

(** ** Histories *)

(** The replies of the service to a history of calls, and of the abstract service. *)
Fixpoint serve (history : list (Env * Call)) (self : TokenService) : list Reply * TokenService :=
  match history with
  | [] => ([], self)
  | (env, c) :: rest =>
      let '(r, self) := call env c self in
      let '(rs, self) := serve rest self in
      (r :: rs, self)
  end.

Inductive spec_serve (self : TokenService) : list (Env * Call) -> Spec -> list Reply -> Prop :=
  | spec_serve_nil a : spec_serve self [] a []
  | spec_serve_cons env c rest a r a' rs :
      spec_call self env c (aged (instant_now env) a) r a' -> spec_serve self rest a' rs ->
      spec_serve self ((env, c) :: rest) a (r :: rs).

(** The clock does not go back, and leaves room for the lifetimes. *)
Fixpoint in_time (self : TokenService) (clock : Instant) (history : list (Env * Call)) : Prop :=
  match history with
  | [] => True
  | (env, _) :: rest =>
      (clock <= instant_now env)%Z /\ fits self (instant_now env) /\
      in_time self (instant_now env) rest
  end.

(** The hashes of the refresh tokens a history generates. *)
Definition generated (history : list (Env * Call)) : list Hash :=
  omap (fun ec => hash_token <$> generate_token ec.1) history.

Lemma in_time_config self self' clock history :
  carries_on self self' -> in_time self clock history -> in_time self' clock history.
Proof.
  intros Hc. revert clock. induction history as [|[env c] rest IH]; intros clock; [done|].
  intros (Hclock & Hfit & Hrest). split; [done|]. split; [by eapply carries_on_fits | by apply IH].
Qed.

Lemma serve_simulates self0 self clock history a :
  carries_on self0 self -> (0 < access_ttl self0)%Z -> (0 < refresh_ttl self0)%Z ->
  in_time self0 clock history -> NoDup (generated history) ->
  Forall (fun h => known a !! h = None) (generated history) ->
  simulates clock (st self) a -> spec_serve self0 history a (serve history self).1.
Proof.
  intros Hc Ha Hr. revert self clock a Hc.
  induction history as [|[env c] rest IH]; intros self clock a Hc Htime Hnd Hfresh Hsim; [constructor|].
  destruct Htime as (Hclock & Hfit & Htime). pose proof Hc as (Hp & _ & Hattl & Hrttl).
  apply (simulates_aged _ (instant_now env)) in Hsim; [|done].
  assert (Hnew : forall t, generate_token env = Some t ->
    known a !! hash_token t = None /\ hash_token t ∉ generated rest).
  { intros t Ht. unfold generated in *. cbn in Hnd, Hfresh. rewrite Ht in Hnd, Hfresh. cbn in Hnd, Hfresh.
    apply NoDup_cons in Hnd as [? _]. by apply Forall_cons in Hfresh as [? _]. }
  assert (Hrest : NoDup (generated rest) /\ Forall (fun h => known a !! h = None) (generated rest)).
  { unfold generated in *. cbn in Hnd, Hfresh. destruct (generate_token env); [|done].
    cbn in Hnd, Hfresh. apply NoDup_cons in Hnd as [_ ?]. by apply Forall_cons in Hfresh as [_ ?]. }
  destruct Hrest as [Hnd' Hfresh'].
  destruct (call_simulates self env (aged (instant_now env) a) Hp) with (c := c)
    as (a' & Hcall & Hsim');
    [by eapply carries_on_fits | by rewrite Hattl | by rewrite Hrttl | by intros t [? _]%Hnew | done|].
  pose proof (call_carries_on env c self Hp (carries_on_fits _ _ _ Hc Hfit)) as Hc'.
  cbn [serve]. destruct (call env c self) as [r self'].
  specialize (IH self' (instant_now env) a' (transitivity Hc Hc') Htime Hnd').
  destruct (serve rest self') as [rs self'']. cbn in *.
  econstructor; [by eapply spec_call_config|]. apply IH; [|done].
  apply Forall_forall. intros h Hh. rewrite Forall_forall in Hfresh'.
  apply (spec_call_known _ _ _ _ _ _ h Hcall); [by apply Hfresh'|].
  intros t Ht <-. by apply (Hnew t Ht).
Qed.

(** C2: the token service implements the abstract one. As long as the generator does not repeat itself,
    every history of logins, refreshes and logouts gets replies the abstract service could give: what
    is swept when, and what is still stored after it expired, cannot be told from outside, except
    that a logout with an expired token may still find it. *)
Theorem service_refines_spec self clock history :
  poisoned (state self) = false -> (0 < access_ttl self)%Z -> (0 < refresh_ttl self)%Z ->
  refreshes (st self) = ∅ -> spent (st self) = ∅ -> revoked (st self) = ∅ ->
  in_time self clock history -> NoDup (generated history) ->
  spec_serve self history (mkSpec ∅ ∅ ∅ ∅) (serve history self).1.
Proof.
  intros Hp Ha Hr Hrs Hsp Hrev Htime Hnd. apply (serve_simulates self self clock); try done.
  - apply Forall_forall. intros h _. apply lookup_empty.
  - split; rewrite ?Hrs, ?Hsp, ?Hrev.
    + unfold views. rewrite Hrs, Hsp, Hrev. cbn. by rewrite !map_filter_empty.
    + intros h r Hh. by rewrite lookup_empty in Hh.
    + intros h sp Hh. by rewrite lookup_empty in Hh.
    + intros h r Hh. by rewrite lookup_empty in Hh.
Qed.
End spec.

(** ** Witness: a login, a refresh, the reuse of the first token, a logout with the second *)

Module TokenSpecTests.
Import TokenTests.

Definition history : list (Env * Call) :=
  [(env_at 1 65, Login "alice"); (env_at 2 66, Refresh (refresh_token first) everyone);
   (env_at 3 67, Refresh (refresh_token first) everyone); (env_at 4 68, Revoke (refresh_token second))].

Example replies :
  (serve history (service 600 3600)).1 =
    [LoginReply (Ok first); RefreshReply (Ok ("alice" : str, second));
     RefreshReply (Err (Reused "alice")); RevokeReply (Ok false)].
Proof. by_eval. Qed.

Example service_refines_spec_witness :
  spec_serve (service 600 3600) history (mkSpec ∅ ∅ ∅ ∅)
    [LoginReply (Ok first); RefreshReply (Ok ("alice" : str, second));
     RefreshReply (Err (Reused "alice")); RevokeReply (Ok false)].
Proof.
  assert (Hfits : forall secs, (0 <= secs <= 1000000)%Z ->
    fits (service 600 3600) (instant_now (env_at secs 0))).
  { intros secs Hs. apply (fits_tests _ 600 3600); [done | done | lia..]. }
  assert (E : (serve history (service 600 3600)).1 =
    [LoginReply (Ok first); RefreshReply (Ok ("alice" : str, second));
     RefreshReply (Err (Reused "alice")); RevokeReply (Ok false)]) by by_eval.
  rewrite <- E. apply (service_refines_spec (service 600 3600) 0).
  - reflexivity.
  - by apply Z.ltb_lt.
  - by apply Z.ltb_lt.
  - reflexivity.
  - reflexivity.
  - reflexivity.
  - repeat (split; [by apply Z.leb_le|]; split; [apply Hfits; lia|]). exact I.
  - apply (bool_decide_unpack _). vm_cast_no_check I.
Defined.
End TokenSpecTests.
