(* ===== verification/Auth.v ===== *)
(** [src/auth.rs]: who may open a connection.

    [AuthConfig] holds the expected [Authorization] values, the targets open to anyone, and the
    token service. [build_auth_config] makes it from the options and the files, [reload_auth_file]
    and [reload_anonymous_target_file] replace a part of it while the router runs, and
    [authorize_request] decides a handshake. The two [RwLock]s are never left poisoned (nothing
    panics while one is write-locked), so each is its contents. *)

From S2P Require Import Prelude RustStd Extern Instances Target Args Token TokenAccess.

Definition BASIC_CHALLENGE : str := "Basic realm=\qws2tcp-router\q, charset=\qUTF-8\q".
Definition BEARER_CHALLENGE : str := "Bearer realm=\qws2tcp-router\q".
Definition BEARER_INVALID_CHALLENGE : str :=
  "Bearer realm=\qws2tcp-router\q, error=\qinvalid_token\q".
Definition ANONYMOUS_AUTH_USER : str := "anonymous".
Definition INVALID_AUTH_USER : str := "invalid".
Definition AUTHORIZATION : str := "authorization".
Definition WWW_AUTHENTICATE : str := "www-authenticate".

(** What a credential may be refused for, and the failures of loading a configuration. *)
Inductive AuthError : Type :=
  | CredentialFormat
  | UsernameEmpty
  | PasswordEmpty
  | FileUnreadable (path : str)
  | InvalidCredentialLine (path : str) (line : nat) (e : AuthError)
  | InvalidTargetEntry (target : str) (e : TargetError)
  | InvalidTargetLine (path : str) (line : nat) (e : TargetError)
  | NoCredentials
  | TokenSetup (e : ServiceError).

(** [validate_basic_auth_credential]. *)
Definition validate_basic_auth_credential (credential : str) : outcome AuthError unit :=
  let? '(username, password) := ok_or CredentialFormat (split_once ":" credential) in
  if decide (username = []) then Err UsernameEmpty
  else if decide (password = []) then Err PasswordEmpty
  else Ok tt.

(** The lines of a file that hold an entry, trimmed, with their index: not empty, no comment. *)
Definition file_entries (file : str) : list (nat * str) :=
  filter (fun il => il.2 <> [] /\ starts_with "#" il.2 = false)
    (imap (fun index line => (index, trim line)) (lines file)).

(** [normalize_anonymous_targets]. *)
Definition normalize_anonymous_targets (targets : list str) : outcome AuthError (list str) :=
  collect ((fun target =>
    let? t := omap_err (InvalidTargetEntry target) (parse_target_addr target) in Ok (addr t))
    <$> targets).

(** [load_anonymous_target_file]. *)
Definition load_anonymous_target_file (fs : Files) (path : str) : outcome AuthError (list str) :=
  let? file := ok_or (FileUnreadable path) (read_to_string fs path) in
  collect ((fun entry =>
    let? t := omap_err (InvalidTargetLine path (entry.1 + 1)) (parse_target_addr entry.2) in
    Ok (addr t)) <$> file_entries file).

(** [bearer_token]: the scheme is case-insensitive. *)
Definition bearer_token (authorization : str) : option str :=
  '(scheme, token) ← split_once " " authorization;
  if eq_ignore_ascii_case scheme "bearer" then
    let token := trim token in if decide (token = []) then None else Some token
  else None.

(** ** The file poller *)

Inductive ReloadLog : Type :=
  | Reloaded
  | ReloadFailed (message : str).
#[export] Instance ReloadLog_eq_dec : EqDecision ReloadLog.
Proof. solve_decision. Defined.

(** One tick of [poll_file_reload]: the last error it reported, and its log lines. [show] formats
    an error; the reload functions do not panic ([reload_auth_file_no_panic]). *)
Definition poll_tick {E} (show : E -> str) (result : outcome E bool) (last_error : option str) :
    option str * list ReloadLog :=
  match result with
  | Ok true => (None, [Reloaded])
  | Ok false => (None, [])
  | Err err =>
      let error := show err in
      if decide (last_error <> Some error) then (Some error, [ReloadFailed error])
      else (last_error, [])
  | Panicked => (last_error, [])
  end.

(** [poll_file_reload] over the results of its reloads: the log of every tick. *)
Fixpoint poll_file_reload {E} (show : E -> str) (last_error : option str)
    (results : list (outcome E bool)) : list (list ReloadLog) :=
  match results with
  | [] => []
  | r :: rest =>
      let '(last_error, log) := poll_tick show r last_error in
      log :: poll_file_reload show last_error rest
  end.

Section auth.
Context `{Base64} `{Ring} `{Subtle} `{Http}.

(** The header value of a credential. *)
Definition basic_authorization (credential : str) : str := "Basic " ++ std_encode credential.

(** [encode_credentials]. *)
Definition encode_credentials (credentials : list str) : outcome AuthError (list str) :=
  collect ((fun credential =>
    let? _ := validate_basic_auth_credential credential in
    Ok (basic_authorization credential)) <$> credentials).

(** [load_auth_file]. *)
Definition load_auth_file (fs : Files) (path : str) : outcome AuthError (list str) :=
  let? file := ok_or (FileUnreadable path) (read_to_string fs path) in
  let? credentials :=
    collect ((fun entry =>
      let? _ := omap_err (InvalidCredentialLine path (entry.1 + 1))
                  (validate_basic_auth_credential entry.2) in
      Ok entry.2) <$> file_entries file) in
  encode_credentials credentials.

Record AuthConfig : Type := mkAuth {
  expected_authorizations : list str;
  fixed_authorizations : list str;
  auth_file : option str;
  anonymous_targets : list str;
  fixed_anonymous_targets : list str;
  anonymous_file : option str;
  tokens : option TokenService;
}.

Definition set_expected (l : list str) (auth : AuthConfig) : AuthConfig :=
  mkAuth l (fixed_authorizations auth) (auth_file auth) (anonymous_targets auth)
    (fixed_anonymous_targets auth) (anonymous_file auth) (tokens auth).
Definition set_anonymous (l : list str) (auth : AuthConfig) : AuthConfig :=
  mkAuth (expected_authorizations auth) (fixed_authorizations auth) (auth_file auth) l
    (fixed_anonymous_targets auth) (anonymous_file auth) (tokens auth).

(** [AuthConfig::with_basic_auth_for_test] and [AuthConfig::with_tokens_for_test]. *)
Definition with_basic_auth_for_test (credential : str) : AuthConfig :=
  mkAuth ["Basic " ++ std_encode credential] [] None [] [] None None.
Definition with_tokens_for_test (credential : str) (service : TokenService) : AuthConfig :=
  let auth := with_basic_auth_for_test credential in
  mkAuth (expected_authorizations auth) (fixed_authorizations auth) (auth_file auth)
    (anonymous_targets auth) (fixed_anonymous_targets auth) (anonymous_file auth) (Some service).

(** [path.map(load).transpose()?.unwrap_or_default()]. *)
Definition load_optional (load : str -> outcome AuthError (list str)) (path : option str) :
    outcome AuthError (list str) :=
  match path with Some path => load path | None => Ok [] end.

(** [build_auth_config]: [None] when Basic authentication is not configured. *)
Definition build_auth_config (env : Env) (fs : Files) (args : Args) :
    outcome AuthError (option AuthConfig) :=
  if bool_decide (basic_auth args = []) && bool_decide (basic_auth_file args = None) then Ok None
  else
    let? fixed := encode_credentials (basic_auth args) in
    let? from_file := load_optional (load_auth_file fs) (basic_auth_file args) in
    let expected := fixed ++ from_file in
    if decide (expected = []) then Err NoCredentials
    else
      let? fixed_targets := normalize_anonymous_targets (anonymous_target args) in
      let? file_targets :=
        load_optional (load_anonymous_target_file fs) (anonymous_target_file args) in
      let? service := omap_err TokenSetup (from_args env fs args) in
      Ok (Some (mkAuth expected fixed (basic_auth_file args) (fixed_targets ++ file_targets)
                  fixed_targets (anonymous_target_file args) (Some service))).

(** [AuthConfig::reload_auth_file]: whether the credentials changed. *)
Definition reload_auth_file (fs : Files) (path : str) : M AuthConfig AuthError bool :=
  do! auth := get in
  do! from_file := lift (load_auth_file fs path) in
  let next := fixed_authorizations auth ++ from_file in
  if decide (next = []) then fail NoCredentials
  else if decide (expected_authorizations auth = next) then ret false
  else run! modify (set_expected next) in ret true.

(** [AuthConfig::reload_anonymous_target_file]. *)
Definition reload_anonymous_target_file (fs : Files) (path : str) : M AuthConfig AuthError bool :=
  do! auth := get in
  do! from_file := lift (load_anonymous_target_file fs path) in
  let next := fixed_anonymous_targets auth ++ from_file in
  if decide (anonymous_targets auth = next) then ret false
  else run! modify (set_anonymous next) in ret true.

(** A task of [spawn_auth_file_reloader]: it polls one file. *)
Inductive Reloader : Type :=
  | AuthFileReloader (path : str)
  | AnonymousFileReloader (path : str).

(** [spawn_auth_file_reloader]: the tasks it spawns, in order. *)
Definition spawn_auth_file_reloader (auth : AuthConfig) : list Reloader :=
  option_list (AuthFileReloader <$> auth_file auth) ++
  option_list (AnonymousFileReloader <$> anonymous_file auth).

(** What a task does at a tick ([reload] of [poll_file_reload]). *)
Definition reload (fs : Files) (task : Reloader) : M AuthConfig AuthError bool :=
  match task with
  | AuthFileReloader path => reload_auth_file fs path
  | AnonymousFileReloader path => reload_anonymous_target_file fs path
  end.

(** [basic_auth_username]. *)
Definition basic_auth_username (authorization : str) : option str :=
  encoded ← strip_prefix "Basic " authorization;
  decoded ← std_decode encoded;
  credential ← from_utf8 decoded;
  '(username, _) ← split_once ":" credential;
  if decide (username = []) then None else Some username.

(** [AuthConfig::basic_user]: every credential is compared. *)
Definition basic_user (auth : AuthConfig) (authorization : str) : option str :=
  let matched :=
    foldl (fun matched expected => matched || ct_eq authorization expected) false
      (expected_authorizations auth) in
  if matched then basic_auth_username authorization else None.

(** [AuthConfig::has_user]. *)
Definition has_user (auth : AuthConfig) (user : str) : bool :=
  existsb (fun expected => bool_decide (basic_auth_username expected = Some user))
    (expected_authorizations auth).

(** [AuthConfig::verify_access_token]. Verification never changes the service (see
    [verify_access_state]), so only its result matters. *)
Definition verify_access_token {E} (env : Env) (auth : AuthConfig) (token : str) :
    outcome E (option str) :=
  match tokens auth with
  | None => Ok None
  | Some service =>
      match (verify_access env token service).1 with
      | Ok (Some user) => Ok (if has_user auth user then Some user else None)
      | Ok None | Err _ => Ok None
      | Panicked => Panicked
      end
  end.

(** [AuthConfig::allows_anonymous_target]. *)
Definition allows_anonymous_target (auth : AuthConfig) (path : str) : bool :=
  match parse_target path with
  | Ok target => existsb (fun t => bool_decide (t = addr target)) (anonymous_targets auth)
  | _ => false
  end.

(** Appends the challenges, in order. *)
Fixpoint append_challenges {E} (challenges : list str) (r : Response) : outcome E Response :=
  match challenges with
  | [] => Ok r
  | challenge :: rest =>
      let? v := expect_header challenge in
      append_challenges rest (with_headers (headers_append WWW_AUTHENTICATE v) r)
  end.

(** [unauthorized_response]. *)
Definition unauthorized_response {E} (basic : bool) (bearer : option str) : outcome E Response :=
  append_challenges ((if basic then [BASIC_CHALLENGE] else []) ++ option_list bearer)
    (with_status 401 (response_new (Some "authentication required"))).

(** [authorize_request]; its log line is [authorize_log] of [AuditLog]. *)
Definition authorize_request (env : Env) (request : Request) (auth : option AuthConfig) :
    outcome Response str :=
  match auth with
  | None => Ok ANONYMOUS_AUTH_USER
  | Some auth =>
      if allows_anonymous_target auth (uri_path (req_uri request)) then Ok ANONYMOUS_AUTH_USER
      else
        let authorization := headers_get (req_headers request) AUTHORIZATION ≫= header_to_str in
        let? '(authorized_user, bearer_presented) :=
          match authorization with
          | None => Ok (None, false)
          | Some authorization =>
              match bearer_token authorization with
              | Some token =>
                  let? user := verify_access_token env auth token in Ok (user, true)
              | None => Ok (basic_user auth authorization, false)
              end
          end in
        match authorized_user with
        | Some user => Ok user
        | None =>
            let bearer :=
              if tokens auth then
                Some (if bearer_presented : bool then BEARER_INVALID_CHALLENGE else BEARER_CHALLENGE)
              else None in
            let? response := unauthorized_response true bearer in
            Err response
        end
  end.
End auth.
