(* ===== verification/AuthSpec.v ===== *)
(** What [Auth] promises: who is let in, what a refused client is told, and what survives a reload.

    [wf_auth] is the invariant of a configuration: it holds credentials, each of the form
    [USER:PASS], and its anonymous targets are normal forms of well-formed targets.
    [build_auth_config] establishes it and the reloads keep it. *)

From S2P Require Import Prelude RustStd Extern Instances Target Args Token TokenAccess Auth.

(** ** Credentials *)

(** A credential: the user before the first colon, a password after it, neither empty. *)
Definition credential_of (c user password : str) : Prop :=
  c = user ++ ":" ++ password /\ x3a ∉ user /\ user <> [] /\ password <> [].

Lemma validate_credential_iff c :
  validate_basic_auth_credential c = Ok tt <-> exists u p, credential_of c u p.
Proof.
  unfold validate_basic_auth_credential, credential_of. split.
  - destruct (split_once ":" c) as [[u p]|] eqn:E; [|done]. cbn [ok_or obind].
    apply split_once_char_Some in E as [-> Hu]. repeat case_decide; try done.
    intros _. by exists u, p.
  - intros (u & p & -> & Hc & Hu & Hp).
    rewrite (proj2 (split_once_char_Some x3a _ u p)) by done. cbn [ok_or obind].
    by rewrite !decide_False.
Qed.

Lemma credential_user_unique c u1 p1 u2 p2 :
  credential_of c u1 p1 -> credential_of c u2 p2 -> u1 = u2.
Proof.
  intros (-> & H1 & _) (E & H2 & _).
  assert (split_once [x3a] (u1 ++ x3a :: p1) = Some (u1, p1)) as E1 by by apply split_once_char_Some.
  assert (split_once [x3a] (u1 ++ x3a :: p1) = Some (u2, p2)) as E2
    by by apply split_once_char_Some. congruence.
Qed.

Section spec.
Context `{Base64Laws} `{RingLaws} `{SubtleLaws} `{HttpLaws}.

(** A header value that stands for a credential. *)
Definition encodes_credential (a : str) : Prop :=
  exists c, a = basic_authorization c /\ validate_basic_auth_credential c = Ok tt.

Lemma encode_credentials_Ok cs l :
  encode_credentials cs = Ok l <->
  l = basic_authorization <$> cs /\ Forall (fun c => validate_basic_auth_credential c = Ok tt) cs.
Proof. apply collect_check_Ok. Qed.

Lemma encode_credentials_wf cs l : encode_credentials cs = Ok l -> Forall encodes_credential l.
Proof.
  intros [-> Hcs]%encode_credentials_Ok. apply Forall_fmap.
  eapply Forall_impl; [exact Hcs|]. intros c Hc. by exists c.
Qed.

Lemma load_auth_file_wf fs path l : load_auth_file fs path = Ok l -> Forall encodes_credential l.
Proof.
  unfold load_auth_file. destruct (read_to_string fs path); [|done]. cbn [ok_or obind].
  destruct (collect _); [|done..]. cbn [obind]. apply encode_credentials_wf.
Qed.

(** An allowlist entry in normal form. *)
Definition normal_target (a : str) : Prop := exists t, wf_target t /\ a = addr t.

Lemma parse_target_addr_wf s t : parse_target_addr s = Ok t -> wf_target t.
Proof.
  unfold parse_target_addr. destruct (parse_host_port s) as [[h n]| |] eqn:E; [|done..].
  cbn [obind]. intros [= <-]. apply parse_host_port_Ok in E as (p & Hs & Hp).
  by eapply target_shape_wf.
Qed.

Lemma normalize_targets_wf {A} (f : A -> str) (e : A -> TargetError -> AuthError) (l : list A) l' :
  collect ((fun a => let? t := omap_err (e a) (parse_target_addr (f a)) in Ok (addr t)) <$> l) = Ok l' ->
  Forall normal_target l'.
Proof.
  rewrite collect_Ok. revert l'. induction l as [|a l IH]; intros [|x l']; cbn; try done.
  destruct (parse_target_addr (f a)) as [t| |] eqn:Et; cbn; try done.
  intros [= <- Hl]. constructor; [|by apply IH]. exists t.
  split; [by eapply parse_target_addr_wf | done].
Qed.

Lemma load_anonymous_wf fs path l :
  load_anonymous_target_file fs path = Ok l -> Forall normal_target l.
Proof.
  unfold load_anonymous_target_file. destruct (read_to_string fs path) as [file|]; [|done].
  cbn [ok_or obind]. intros Hl.
  by apply (normalize_targets_wf snd (fun il => InvalidTargetLine path (il.1 + 1)) (file_entries file)).
Qed.

Definition wf_auth (auth : AuthConfig) : Prop :=
  expected_authorizations auth <> [] /\
  Forall encodes_credential (expected_authorizations auth) /\
  Forall encodes_credential (fixed_authorizations auth) /\
  Forall normal_target (anonymous_targets auth) /\
  Forall normal_target (fixed_anonymous_targets auth).

Lemma load_optional_wf (P : str -> Prop) load path l :
  (forall p l, load p = Ok l -> Forall P l) -> load_optional load path = Ok l -> Forall P l.
Proof. intros Hload. destruct path; cbn; [apply Hload | by intros [= <-]]. Qed.

(** What building a configuration succeeds with. *)
Lemma build_auth_config_inv env fs args auth :
  build_auth_config env fs args = Ok auth ->
  match auth with
  | None => basic_auth args = [] /\ basic_auth_file args = None
  | Some auth =>
      exists fixed from_file fixed_targets file_targets service,
        encode_credentials (basic_auth args) = Ok fixed /\
        load_optional (load_auth_file fs) (basic_auth_file args) = Ok from_file /\
        fixed ++ from_file <> [] /\
        normalize_anonymous_targets (anonymous_target args) = Ok fixed_targets /\
        load_optional (load_anonymous_target_file fs) (anonymous_target_file args) = Ok file_targets /\
        from_args env fs args = Ok service /\
        auth = mkAuth (fixed ++ from_file) fixed (basic_auth_file args)
                 (fixed_targets ++ file_targets) fixed_targets (anonymous_target_file args)
                 (Some service)
  end.
Proof.
  unfold build_auth_config.
  destruct (bool_decide (basic_auth args = []) && _) eqn:Hoff.
  { intros [= <-]. apply andb_true_iff in Hoff as [?%bool_decide_eq_true ?%bool_decide_eq_true]. done. }
  destruct (encode_credentials (basic_auth args)) as [fixed| |]; [|done..]. cbn [obind].
  destruct (load_optional (load_auth_file fs) _) as [file| |]; [|done..]. cbn [obind].
  case_decide as Hne; [done|].
  destruct (normalize_anonymous_targets _) as [ft| |]; [|done..]. cbn [obind].
  destruct (load_optional (load_anonymous_target_file fs) _) as [l| |]; [|done..]. cbn [obind].
  destruct (from_args env fs args) as [service| |]; [|done..]. cbn [omap_err obind].
  intros [= <-]. by exists fixed, file, ft, l, service.
Qed.

Lemma build_auth_config_wf env fs args auth :
  build_auth_config env fs args = Ok (Some auth) -> wf_auth auth.
Proof.
  intros (fixed & file & ft & l & service & Ef & El & Hne & Et & Ea & _ & ->)%build_auth_config_inv.
  apply encode_credentials_wf in Ef.
  apply (load_optional_wf _ _ _ _ (load_auth_file_wf fs)) in El.
  apply (load_optional_wf _ _ _ _ (load_anonymous_wf fs)) in Ea.
  apply (normalize_targets_wf id InvalidTargetEntry) in Et.
  split; [done|]. cbn. rewrite !Forall_app. done.
Qed.

(** Authentication is off exactly when nothing asks for it; else the configuration polls the
    configured files. *)
Lemma build_auth_config_files env fs args auth :
  build_auth_config env fs args = Ok auth ->
  match auth with
  | Some auth => wf_auth auth /\ spawn_auth_file_reloader auth =
      option_list (AuthFileReloader <$> basic_auth_file args) ++
      option_list (AnonymousFileReloader <$> anonymous_target_file args)
  | None => basic_auth args = [] /\ basic_auth_file args = None
  end.
Proof.
  destruct auth as [auth|]; intros Hb; [|by apply build_auth_config_inv in Hb].
  split; [by eapply build_auth_config_wf|].
  by apply build_auth_config_inv in Hb as (? & ? & ? & ? & ? & _ & _ & _ & _ & _ & _ & ->).
Qed.

(** ** Reloading *)

(** The outcome of a reload of the credentials. *)
Lemma reload_auth_file_run fs path auth :
  reload_auth_file fs path auth =
    match load_auth_file fs path with
    | Ok l =>
        let next := fixed_authorizations auth ++ l in
        if decide (next = []) then (Err NoCredentials, auth)
        else if decide (expected_authorizations auth = next) then (Ok false, auth)
        else (Ok true, set_expected next auth)
    | Err e => (Err e, auth)
    | Panicked => (Panicked, auth)
    end.
Proof.
  unfold reload_auth_file. munfold. destruct (load_auth_file fs path); try done.
  cbv zeta. repeat case_decide; done.
Qed.

Lemma reload_anonymous_run fs path auth :
  reload_anonymous_target_file fs path auth =
    match load_anonymous_target_file fs path with
    | Ok l =>
        let next := fixed_anonymous_targets auth ++ l in
        if decide (anonymous_targets auth = next) then (Ok false, auth)
        else (Ok true, set_anonymous next auth)
    | Err e => (Err e, auth)
    | Panicked => (Panicked, auth)
    end.
Proof.
  unfold reload_anonymous_target_file. munfold. destruct (load_anonymous_target_file fs path); try done.
  cbv zeta. repeat case_decide; done.
Qed.

Lemma reload_auth_file_wf fs path auth :
  wf_auth auth -> wf_auth (reload_auth_file fs path auth).2.
Proof.
  intros (Hne & He & Hf & Ha & Hfa). rewrite reload_auth_file_run.
  destruct (load_auth_file fs path) as [l| |] eqn:El; try done. cbv zeta.
  repeat case_decide; try done. cbn [snd]. split; [done|]. cbn.
  rewrite Forall_app. apply load_auth_file_wf in El. done.
Qed.

Lemma reload_anonymous_wf fs path auth :
  wf_auth auth -> wf_auth (reload_anonymous_target_file fs path auth).2.
Proof.
  intros (Hne & He & Hf & Ha & Hfa). rewrite reload_anonymous_run.
  destruct (load_anonymous_target_file fs path) as [l| |] eqn:El; try done. cbv zeta.
  repeat case_decide; try done. cbn [snd]. split; [done|]. cbn.
  rewrite Forall_app. apply load_anonymous_wf in El. done.
Qed.

(** The configuration the router starts with is well formed, and however often the files are
    reloaded, whatever they hold, it stays so: in particular there are always credentials. *)
Theorem auth_config_stays_wf env fs args auth (reloads : list (bool * Files * str)) :
  build_auth_config env fs args = Ok (Some auth) ->
  wf_auth (foldl (fun auth '(credentials, fs, path) =>
    (if credentials : bool then reload_auth_file fs path auth
     else reload_anonymous_target_file fs path auth).2) auth reloads).
Proof.
  intros Hb%build_auth_config_wf. revert auth Hb.
  induction reloads as [|[[[] fs'] path] reloads IH]; intros auth Hwf; cbn; [done|..]; apply IH.
  - by apply reload_auth_file_wf.
  - by apply reload_anonymous_wf.
Qed.

(** ** Loading a file *)

(** The check of one entry. *)
Abbreviation check_entry path :=
  (fun entry : nat * str => omap_err (InvalidCredentialLine path (entry.1 + 1))
     (validate_basic_auth_credential entry.2)).

Lemma check_entries path (es : list (nat * str)) :
  Forall (fun e => check_entry path e = Ok tt) es <->
  Forall (fun c => exists u p, credential_of c u p) es.*2.
Proof.
  rewrite Forall_fmap. apply Forall_iff. intros [i c]. cbn.
  rewrite <- validate_credential_iff. by destruct (validate_basic_auth_credential c) as [[]| |].
Qed.

Lemma encode_valid cs :
  Forall (fun c => exists u p, credential_of c u p) cs ->
  encode_credentials cs = Ok (basic_authorization <$> cs).
Proof.
  intros Hcs. apply encode_credentials_Ok. split; [done|].
  eapply Forall_impl; [exact Hcs|]. intros c. apply validate_credential_iff.
Qed.

Lemma load_auth_file_run fs path :
  load_auth_file fs path =
    let? file := ok_or (FileUnreadable path) (read_to_string fs path) in
    let? credentials :=
      collect ((fun entry => let? _ := check_entry path entry in Ok entry.2) <$> file_entries file) in
    encode_credentials credentials.
Proof. done. Qed.

Lemma load_auth_file_Ok fs path file l :
  read_to_string fs path = Some file ->
  load_auth_file fs path = Ok l <->
    l = basic_authorization <$> (file_entries file).*2 /\
    Forall (fun c => exists u p, credential_of c u p) (file_entries file).*2.
Proof.
  intros Hread. rewrite load_auth_file_run, Hread. cbn [ok_or obind]. split.
  - destruct (collect _) as [cs| |] eqn:E; [|done..]. cbn [obind].
    apply (collect_check_Ok (check_entry path) snd) in E as [-> E%check_entries].
    rewrite encode_valid by done. by intros [= <-].
  - intros [-> Hall]. rewrite (proj2 (collect_check_Ok (check_entry path) snd _ (file_entries file).*2));
      [by apply encode_valid | split; [done | by apply check_entries]].
Qed.

(** Loading a credentials file succeeds exactly when every line that is neither blank nor a
    comment is a credential, and fails at the first line that is not, with its line number. *)
Theorem load_auth_file_spec fs path file :
  read_to_string fs path = Some file ->
  (forall l, load_auth_file fs path = Ok l <->
     l = basic_authorization <$> (file_entries file).*2 /\
     Forall (fun c => exists u p, credential_of c u p) (file_entries file).*2) /\
  (forall e, load_auth_file fs path = Err e <->
     exists es1 i c es2 e', file_entries file = es1 ++ (i, c) :: es2 /\
       Forall (fun c => exists u p, credential_of c u p) es1.*2 /\
       validate_basic_auth_credential c = Err e' /\ e = InvalidCredentialLine path (i + 1) e').
Proof.
  intros Hread. split; [intros l; by apply load_auth_file_Ok|]. intros e.
  rewrite load_auth_file_run, Hread. cbn [ok_or obind]. split.
  - destruct (collect _) as [cs|e0|] eqn:E; cbn [obind]; [| |done].
    + apply (collect_check_Ok (check_entry path) snd) in E as [-> E%check_entries].
      by rewrite encode_valid.
    + intros [= <-]. apply (collect_check_Err (check_entry path) snd) in E
        as (es1 & [i c] & es2 & -> & Hes1 & Hc). cbn in Hc.
      destruct (validate_basic_auth_credential c) as [|e'|] eqn:Hv; try done. injection Hc as <-.
      exists es1, i, c, es2, e'. split; [done|]. split; [by apply (check_entries path) | done].
  - intros (es1 & i & c & es2 & e' & -> & Hes1 & Hv & ->).
    rewrite (proj2 (collect_check_Err (check_entry path) snd _ (InvalidCredentialLine path (i + 1) e')));
      [done|].
    exists es1, (i, c), es2. split; [done|]. split; [by apply check_entries|]. cbn. by rewrite Hv.
Qed.

(** ** Reloads do not panic *)

Lemma validate_credential_no_panic c : is_panic (validate_basic_auth_credential c) = false.
Proof.
  unfold validate_basic_auth_credential. destruct (split_once ":" c) as [[u p]|]; [|done].
  cbn. by repeat case_decide.
Qed.

Lemma collect_check_no_panic {X A} (check : X -> outcome AuthError unit) (f : X -> A) xs :
  (forall x, is_panic (check x) = false) ->
  is_panic (collect ((fun x => let? _ := check x in Ok (f x)) <$> xs)) = false.
Proof.
  intros Hc. apply collect_not_panicked, Forall_fmap, Forall_forall. intros x _. cbn.
  specialize (Hc x). by destruct (check x).
Qed.

Lemma load_auth_file_no_panic fs path : is_panic (load_auth_file fs path) = false.
Proof.
  rewrite load_auth_file_run. destruct (read_to_string fs path) as [file|]; [|done]. cbn [ok_or obind].
  assert (Hcheck : forall x, is_panic (check_entry path x) = false).
  { intros [i c]. cbn. pose proof (validate_credential_no_panic c).
    by destruct (validate_basic_auth_credential c). }
  apply (collect_check_no_panic (check_entry path) snd (file_entries file)) in Hcheck.
  destruct (collect _); cbn [obind]; [|done..].
  by apply collect_check_no_panic, validate_credential_no_panic.
Qed.

(** A credentials file that can be used: it can be read and every line that is neither blank nor a
    comment is a credential; these are its credentials. *)
Definition usable_file (fs : Files) (path : str) (cs : list str) : Prop :=
  exists file, read_to_string fs path = Some file /\ cs = (file_entries file).*2 /\
    Forall (fun c => exists u p, credential_of c u p) cs.

Lemma usable_file_loads fs path cs :
  usable_file fs path cs <->
  load_auth_file fs path = Ok (basic_authorization <$> cs) /\
  exists file, read_to_string fs path = Some file /\ cs = (file_entries file).*2.
Proof.
  split.
  - intros (file & Hread & -> & Hall). split; [|by exists file].
    apply (load_auth_file_Ok _ _ _ _ Hread). done.
  - intros (Hload & file & Hread & ->). exists file. split; [done|]. split; [done|].
    by apply (load_auth_file_Ok _ _ _ _ Hread) in Hload as [_ ?].
Qed.

Lemma load_auth_file_usable fs path l :
  load_auth_file fs path = Ok l -> exists cs, usable_file fs path cs /\ l = basic_authorization <$> cs.
Proof.
  intros Hload. destruct (read_to_string fs path) as [file|] eqn:Hread.
  - pose proof (proj1 (load_auth_file_Ok _ _ _ _ Hread) Hload) as [-> Hall].
    exists (file_entries file).*2. split; [by exists file | done].
  - by rewrite load_auth_file_run, Hread in Hload.
Qed.

Lemma usable_file_unique fs path cs cs' : usable_file fs path cs -> usable_file fs path cs' -> cs = cs'.
Proof. intros (f & Hf & E & _) (f' & Hf' & E' & _). congruence. Qed.

(** C23: a reload takes effect completely or not at all. From a usable file that leaves some credentials,
    the reload succeeds: the credentials are those of the command line followed by those of the file,
    the answer says whether they changed, and nothing else does. From any other file (it cannot be
    read, a line of it is no credential, or no credential would be left) it fails, and changes
    nothing. *)
Theorem reload_is_atomic fs path auth :
  let '(r, auth') := reload_auth_file fs path auth in
  let next cs := fixed_authorizations auth ++ (basic_authorization <$> cs) in
  (forall cs, usable_file fs path cs -> next cs <> [] ->
     auth' = set_expected (next cs) auth /\
     exists changed : bool, r = Ok changed /\ (changed = true <-> next cs <> expected_authorizations auth)) /\
  ((forall cs, usable_file fs path cs -> next cs = []) -> (exists e, r = Err e) /\ auth' = auth).
Proof.
  pose proof (load_auth_file_no_panic fs path) as Hnp. rewrite reload_auth_file_run.
  destruct (load_auth_file fs path) as [l|e|] eqn:Hload; [| |done].
  - destruct (load_auth_file_usable _ _ _ Hload) as (cs & Hcs & ->). cbv zeta.
    assert (Huniq : forall cs', usable_file fs path cs' -> cs' = cs)
      by (intros cs' Hcs'; by eapply usable_file_unique).
    case_decide as Hnil; [|case_decide as Hsame].
    + split; [by intros cs' ->%Huniq | by intros _; split; [eexists|]].
    + split; [|by intros Hall%(fun H => H cs Hcs)]. intros cs' ->%Huniq _. rewrite <- Hsame.
      split; [by destruct auth|]. exists false. split; [done|]. by split.
    + split; [|by intros Hall%(fun H => H cs Hcs)]. intros cs' ->%Huniq _. split; [done|].
      exists true. split; [done|]. split; [congruence | done].
  - split; [|by intros _; split; [eexists|]]. intros cs [Hok _]%usable_file_loads. by rewrite Hload in Hok.
Qed.

Lemma reload_auth_file_no_panic fs path auth : is_panic (reload_auth_file fs path auth).1 = false.
Proof.
  rewrite reload_auth_file_run. pose proof (load_auth_file_no_panic fs path).
  destruct (load_auth_file fs path); [|done..]. cbv zeta. by repeat case_decide.
Qed.

Lemma normalize_no_panic {A} (f : A -> str) (e : A -> TargetError -> AuthError) (l : list A) :
  is_panic (collect ((fun a => let? t := omap_err (e a) (parse_target_addr (f a)) in Ok (addr t)) <$> l))
    = false.
Proof.
  apply collect_not_panicked, Forall_fmap, Forall_forall. intros a _. cbn.
  pose proof (parse_target_addr_no_panic (f a)). by destruct (parse_target_addr (f a)).
Qed.

Lemma load_anonymous_no_panic fs path : is_panic (load_anonymous_target_file fs path) = false.
Proof.
  unfold load_anonymous_target_file. destruct (read_to_string fs path) as [file|]; [|done].
  cbn [ok_or obind].
  apply (normalize_no_panic snd (fun il => InvalidTargetLine path (il.1 + 1)) (file_entries file)).
Qed.

Lemma from_args_no_panic env fs args :
  (instant_now env + SWEEP_INTERVAL < INSTANT_MAX)%Z -> is_panic (from_args env fs args) = false.
Proof.
  intros Hfit. unfold from_args.
  assert (Hnew : forall secret a r, is_panic (omap_err (fun _ => NoRandom) (new env secret a r)) = false).
  { intros secret a r. unfold new, instant_add. by rewrite (proj2 (Z.ltb_lt _ _) Hfit). }
  destruct (token_secret_file args) as [path|].
  - unfold load_secret. destruct (fs path); [|done]. cbn [ok_or obind omap_err].
    case_bool_decide; [done|]. apply Hnew.
  - destruct (random_fill env TOKEN_BYTES); [apply Hnew | done].
Qed.

(** Starting the router does not panic on any options or files. *)
Lemma build_auth_config_no_panic env fs args :
  (instant_now env + SWEEP_INTERVAL < INSTANT_MAX)%Z ->
  is_panic (build_auth_config env fs args) = false.
Proof.
  intros Hfit. unfold build_auth_config, load_optional. destruct (_ && _); [done|].
  assert (Henc : is_panic (encode_credentials (basic_auth args)) = false)
    by by apply collect_check_no_panic, validate_credential_no_panic.
  destruct (encode_credentials _) as [fixed| |]; [|done..]. cbn [obind].
  assert (Hload : is_panic (match basic_auth_file args with
    | Some path => load_auth_file fs path | None => Ok [] end) = false)
    by (destruct (basic_auth_file args); [apply load_auth_file_no_panic | done]).
  destruct (match basic_auth_file args with Some _ => _ | None => _ end) as [file| |]; [|done..].
  cbn [obind]. case_decide; [done|].
  pose proof (normalize_no_panic id InvalidTargetEntry (anonymous_target args)) as Hn.
  change (collect _) with (normalize_anonymous_targets (anonymous_target args)) in Hn.
  destruct (normalize_anonymous_targets _) as [ft| |]; [|done..]. cbn [obind].
  assert (Hanon : is_panic (match anonymous_target_file args with
    | Some path => load_anonymous_target_file fs path | None => Ok [] end) = false)
    by (destruct (anonymous_target_file args); [apply load_anonymous_no_panic | done]).
  destruct (match anonymous_target_file args with Some _ => _ | None => _ end) as [tf| |]; [|done..].
  cbn [obind]. pose proof (from_args_no_panic env fs args Hfit).
  by destruct (from_args env fs args).
Qed.

(** ** Users *)

(** A credential of the configuration, and the user it stands for. *)
Definition configured (auth : AuthConfig) (c user : str) : Prop :=
  basic_authorization c ∈ expected_authorizations auth /\ is_utf8 c = true /\
  exists p, credential_of c user p.

Lemma basic_authorization_inj c1 c2 : basic_authorization c1 = basic_authorization c2 -> c1 = c2.
Proof.
  intros E. apply app_inv_head in E. apply (f_equal std_decode) in E.
  rewrite !std_decode_encode in E. congruence.
Qed.

Lemma basic_auth_username_iff c u :
  validate_basic_auth_credential c = Ok tt ->
  basic_auth_username (basic_authorization c) = Some u <->
  is_utf8 c = true /\ exists p, credential_of c u p.
Proof.
  intros (u0 & p0 & Hc)%validate_credential_iff. unfold basic_auth_username, basic_authorization.
  rewrite strip_prefix_app. cbn [mbind option_bind]. rewrite std_decode_encode.
  cbn [mbind option_bind]. unfold from_utf8. pose proof Hc as (E & Hcolon & Hu & Hp).
  destruct (is_utf8 c); cbn [mbind option_bind]; [|split; [done | by intros [? _]]].
  rewrite (proj2 (split_once_char_Some x3a _ u0 p0)) by done. cbn [mbind option_bind].
  rewrite decide_False by done. split.
  - intros [= <-]. split; [done | by exists p0].
  - intros (_ & p & Hc'). by rewrite (credential_user_unique _ _ _ _ _ Hc Hc').
Qed.

Lemma matched_iff (a : str) l b :
  foldl (fun matched expected => matched || ct_eq a expected) b l = true <-> b = true \/ a ∈ l.
Proof.
  revert b. induction l as [|x l IH]; intros b; cbn.
  - rewrite elem_of_nil. tauto.
  - rewrite IH, orb_true_iff, ct_eq_spec, elem_of_cons. tauto.
Qed.

Lemma basic_user_iff auth a u :
  wf_auth auth ->
  basic_user auth a = Some u <-> exists c, a = basic_authorization c /\ configured auth c u.
Proof.
  intros (_ & Hexp & _). rewrite Forall_forall in Hexp. unfold basic_user, configured.
  destruct (foldl _ _ _) eqn:Hm.
  - apply matched_iff in Hm as [Hm|Hm]; [done|]. destruct (Hexp a Hm) as (c & -> & Hv).
    rewrite basic_auth_username_iff by done. split.
    + intros [? ?]. by exists c.
    + intros (c' & <-%basic_authorization_inj & _ & ?). done.
  - split; [done|]. intros (c & -> & Hin & _).
    assert (foldl (fun matched expected => matched || ct_eq (basic_authorization c) expected) false
      (expected_authorizations auth) = true) by (apply matched_iff; by right).
    congruence.
Qed.

Lemma has_user_iff auth u :
  wf_auth auth -> has_user auth u = true <-> exists c, configured auth c u.
Proof.
  intros (_ & Hexp & _). rewrite Forall_forall in Hexp. unfold has_user, configured.
  rewrite existsb_exists. split.
  - intros (a & Hin%list_elem_of_In & Ha%bool_decide_eq_true).
    destruct (Hexp a Hin) as (c & -> & Hv). apply basic_auth_username_iff in Ha as [? ?]; [|done].
    by exists c.
  - intros (c & Hin & Hu). exists (basic_authorization c). split; [by apply list_elem_of_In|].
    apply bool_decide_eq_true, basic_auth_username_iff; [|done].
    apply validate_credential_iff. destruct Hu as (_ & p & Hc). by exists u, p.
Qed.

(** A credential's header value is not a bearer token. *)
Lemma basic_not_bearer c : bearer_token (basic_authorization c) = None.
Proof.
  unfold bearer_token.
  rewrite (proj2 (split_once_char_Some x20 _ "Basic" (std_encode c))); [done|].
  split; [done|]. by apply (bool_decide_unpack _).
Qed.

(** The path names an upstream that is open to anyone: its host and port are on the list. *)
Definition open_target (auth : AuthConfig) (path : str) : Prop :=
  exists t t0, parse_target path = Ok t /\ wf_target t0 /\
    addr t0 ∈ anonymous_targets auth /\ host t0 = host t /\ port t0 = port t.

Lemma parse_target_wellformed path t : parse_target path = Ok t -> wf_target t.
Proof.
  intros (rest & _ & (p & Hs & Hp)%parse_host_port_Ok)%parse_target_Ok.
  destruct t. by eapply target_shape_wf.
Qed.

Lemma allows_anonymous_iff auth path :
  wf_auth auth -> allows_anonymous_target auth path = true <-> open_target auth path.
Proof.
  intros (_ & _ & _ & Han & _). rewrite Forall_forall in Han.
  unfold allows_anonymous_target, open_target. split.
  - destruct (parse_target path) as [t| |] eqn:Et; [|done..]. intros Hx.
    apply existsb_exists in Hx as (a & Hin%list_elem_of_In & ->%bool_decide_eq_true).
    destruct (Han _ Hin) as (t0 & Hwf0 & E). exists t, t0. split; [done|]. split; [done|].
    rewrite <- E. split; [done|]. apply parse_host_port_addr in Hwf0.
    pose proof (parse_host_port_addr _ (parse_target_wellformed _ _ Et)) as Ht.
    rewrite E, Hwf0 in Ht. by injection Ht as -> ->.
  - intros (t & t0 & -> & Hwf0 & Hin & Hh & Hp). apply existsb_exists. exists (addr t0).
    split; [by apply list_elem_of_In|]. apply bool_decide_eq_true. unfold addr. by rewrite Hh, Hp.
Qed.

(** ** The decision *)

(** The [Authorization] value of the request, when it is text. *)
Definition presented (request : Request) (a : str) : Prop :=
  exists v, headers_get (req_headers request) AUTHORIZATION = Some v /\ header_to_str v = Some a.

(** The token service, if any, is in order. *)
Definition service_in_order (auth : AuthConfig) : Prop :=
  forall s, tokens auth = Some s -> poisoned (state s) = false.

(** An access token of a user who is still configured. *)
Definition token_user (env : Env) (auth : AuthConfig) (token u : str) : Prop :=
  exists s, tokens auth = Some s /\ (verify_access env token s).1 = Ok (Some u) /\
    exists c, configured auth c u.

Lemma verify_access_token_iff env auth token :
  wf_auth auth -> service_in_order auth ->
  exists r, verify_access_token (E := Response) env auth token = Ok r /\
    forall u, r = Some u <-> token_user env auth token u.
Proof.
  intros Hwf Hs. unfold verify_access_token, token_user.
  destruct (tokens auth) as [s|] eqn:Et.
  - pose proof (verify_access_run env token s (Hs s Et)) as Hrun.
    destruct (verify_access env token s).1 as [[u|]| |] eqn:Hv; try done; clear Hrun.
    + eexists. split; [done|]. intros u'. pose proof (has_user_iff auth u Hwf) as Hu. split.
      * destruct (has_user auth u); [|done]. intros [= <-]. exists s.
        split; [done|]. split; [done|]. by apply Hu.
      * intros (s' & [= <-] & Hv' & Hc). assert (u' = u) as -> by congruence.
        apply Hu in Hc. by rewrite Hc.
    + eexists. split; [done|]. intros u. split; [done|]. intros (s' & [= <-] & Hv' & _). congruence.
  - exists None. split; [done|]. intros u. split; [done | by intros (? & ? & _)].
Qed.

(** What [authorize_request] grants. *)
Definition granted (env : Env) (request : Request) (auth : AuthConfig) (u : str) : Prop :=
  (open_target auth (uri_path (req_uri request)) /\ u = ANONYMOUS_AUTH_USER) \/
  (~ open_target auth (uri_path (req_uri request)) /\
   ((exists a token, presented request a /\ bearer_token a = Some token /\
       token_user env auth token u) \/
    (exists c, presented request (basic_authorization c) /\ configured auth c u))).

(** The decision before the response is built: the user, or whether a bearer token was shown. *)
Lemma authorize_request_run env request auth :
  wf_auth auth -> service_in_order auth ->
  (exists u, granted env request auth u /\ authorize_request env request (Some auth) = Ok u) \/
  ((forall u, ~ granted env request auth u) /\
   exists shown : bool,
     (shown = true <-> exists a token, presented request a /\ bearer_token a = Some token) /\
     authorize_request env request (Some auth) =
       let? response := unauthorized_response true
         (if tokens auth then Some (if shown then BEARER_INVALID_CHALLENGE else BEARER_CHALLENGE)
          else None) in
       Err response).
Proof.
  intros Hwf Hs. unfold authorize_request, granted.
  pose proof (allows_anonymous_iff auth (uri_path (req_uri request)) Hwf) as Hopen.
  destruct (allows_anonymous_target _ _).
  { left. eexists. split; [left; split; [by apply Hopen | done] | done]. }
  assert (Hclosed : ~ open_target auth (uri_path (req_uri request))) by (intros ?%Hopen; done).
  unfold presented.
  destruct (headers_get (req_headers request) AUTHORIZATION ≫= header_to_str) as [a|] eqn:Ha.
  2:{ right. split.
    - intros u [[? _] | [_ [(a & t & (v & Hv & Hv') & _) | (c & (v & Hv & Hv') & _)]]]; [done|..];
        rewrite Hv in Ha; cbn in Ha; congruence.
    - exists false. split; [|done]. split; [done|]. intros (a & t & (v & Hv & Hv') & _).
      rewrite Hv in Ha. cbn in Ha. congruence. }
  apply bind_Some in Ha as (v & Hv & Ha).
  destruct (bearer_token a) as [token|] eqn:Hb.
  - destruct (verify_access_token_iff env auth token Hwf Hs) as (r & -> & Hr). cbn [obind].
    destruct r as [u|].
    + left. exists u. split; [|done]. right. split; [done|]. left. exists a, token.
      split; [by exists v|]. split; [done | by apply Hr].
    + right. split.
      * intros u [[? _] | [_ [(a' & t & (v' & Hv' & Ha') & Hb' & Ht) | (c & (v' & Hv' & Ha') & _)]]];
          [done|..]; assert (v' = v) as -> by congruence.
        -- assert (a' = a) as -> by congruence. assert (t = token) as -> by congruence.
           by apply Hr in Ht.
        -- assert (basic_authorization c = a) as <- by congruence. by rewrite basic_not_bearer in Hb.
      * exists true. split; [|done]. split; [|done]. intros _. exists a, token. split; [by exists v | done].
  - cbn [obind]. pose proof (basic_user_iff auth a) as Hu.
    destruct (basic_user auth a) as [u|].
    + left. exists u. split; [|done]. right. split; [done|]. right.
      destruct (proj1 (Hu u Hwf) eq_refl) as (c & -> & Hc). exists c. split; [by exists v | done].
    + right. split.
      * intros u [[? _] | [_ [(a' & t & (v' & Hv' & Ha') & Hb' & _) | (c & (v' & Hv' & Ha') & Hc)]]];
          [done|..]; assert (v' = v) as -> by congruence; [congruence|].
        assert (basic_authorization c = a) as <- by congruence.
        assert (None = Some u) by (apply Hu; [done | by exists c]). done.
      * exists false. split; [|done]. split; [done|].
        intros (a' & t & (v' & Hv' & Ha') & Hb'). congruence.
Qed.

(** The challenges of a 401. *)
Definition challenges (auth : AuthConfig) (shown : bool) : list bytes :=
  BASIC_CHALLENGE ::
  match tokens auth with
  | Some _ => [if shown then BEARER_INVALID_CHALLENGE else BEARER_CHALLENGE]
  | None => []
  end.

Lemma expect_header_visible {E} v :
  forallb (in_range 32 126) v = true -> @expect_header _ E v = Ok v.
Proof. intros Hv. unfold expect_header. by rewrite header_value_visible. Qed.

Lemma append_challenges_Ok {E} cs r :
  Forall (fun c => forallb (in_range 32 126) c = true) cs ->
  exists r', append_challenges (E := E) cs r = Ok r' /\ status r' = status r /\
    headers_get_all (headers r') WWW_AUTHENTICATE = headers_get_all (headers r) WWW_AUTHENTICATE ++ cs.
Proof.
  intros Hcs. revert r. induction Hcs as [|c cs Hc _ IH]; intros r; cbn [append_challenges].
  { exists r. by rewrite app_nil_r. }
  rewrite expect_header_visible by done. cbn [obind].
  destruct (IH (with_headers (headers_append WWW_AUTHENTICATE c) r)) as (r' & -> & Hst & Hh).
  exists r'. split; [done|]. split; [done|]. rewrite Hh. cbn [with_headers headers].
  rewrite get_all_append, decide_True by done. by rewrite <- app_assoc.
Qed.

Lemma unauthorized_response_run {E} (basic : bool) (bearer : option str) :
  Forall (fun c => forallb (in_range 32 126) c = true) (option_list bearer) ->
  exists r, unauthorized_response (E := E) basic bearer = Ok r /\ status r = 401%Z /\
    headers_get_all (headers r) WWW_AUTHENTICATE =
      (if basic then [BASIC_CHALLENGE] else []) ++ option_list bearer.
Proof.
  intros Hb. unfold unauthorized_response.
  destruct (append_challenges_Ok (E := E) ((if basic then [BASIC_CHALLENGE] else []) ++ option_list bearer)
    (with_status 401 (response_new (Some "authentication required")))) as (r & E' & Hst & Hh).
  { apply Forall_app. split; [destruct basic; by repeat constructor | exact Hb]. }
  exists r. split; [exact E'|]. split; [done|]. rewrite Hh. cbn [with_status response_new headers].
  by rewrite get_all_new.
Qed.

(** A request is granted to one user at most. *)
Lemma granted_unique env request auth u1 u2 :
  granted env request auth u1 -> granted env request auth u2 -> u1 = u2.
Proof.
  intros [[Ho ->] | [Hc Hg]] [[Ho' ->] | [Hc' Hg']]; try done.
  destruct Hg as [(a & t & (v & Hv & Ha) & Hb & s & Hts & Hva & _) | (c & (v & Hv & Ha) & _ & _ & p & Hcr)],
    Hg' as [(a' & t' & (v' & Hv' & Ha') & Hb' & s' & Hts' & Hva' & _)
           | (c' & (v' & Hv' & Ha') & _ & _ & p' & Hcr')];
    assert (v' = v) as -> by congruence.
  - congruence.
  - assert (a = basic_authorization c') as -> by congruence. by rewrite basic_not_bearer in Hb.
  - assert (a' = basic_authorization c) as -> by congruence. by rewrite basic_not_bearer in Hb'.
  - assert (c' = c) as -> by (apply basic_authorization_inj; congruence).
    by eapply credential_user_unique.
Qed.

(** Whoever is granted a request is let in. *)
Lemma authorized_when_granted env request auth u :
  wf_auth auth -> service_in_order auth -> granted env request auth u ->
  authorize_request env request (Some auth) = Ok u.
Proof.
  intros Hwf Hs Hg.
  destruct (authorize_request_run env request auth Hwf Hs) as [(u0 & Hg0 & ->) | (Hno & _)].
  - f_equal. by eapply granted_unique.
  - by apply Hno in Hg.
Qed.

(** C6: who gets in. With authentication configured, a handshake is accepted exactly for: anyone, to
    an upstream whose host and port are on the anonymous list; the user of a valid access token
    who is still configured; the user of a configured credential, presented byte for byte. *)
Theorem authorize_request_iff env request auth u :
  wf_auth auth -> service_in_order auth ->
  authorize_request env request (Some auth) = Ok u <-> granted env request auth u.
Proof.
  intros Hwf Hs.
  destruct (authorize_request_run env request auth Hwf Hs) as [(u0 & Hg & ->) | (Hno & shown & _ & ->)].
  - split; [by intros [= <-]|]. intros Hg'. f_equal. by eapply granted_unique.
  - split; [by destruct (unauthorized_response _ _) | by intros Hg%Hno].
Qed.

(** C24: everyone else is refused with a 401 that offers Basic, and Bearer when tokens are in use;
    the Bearer challenge says [invalid_token] exactly when a bearer token was presented. *)
Theorem refused_with_challenges env request auth :
  wf_auth auth -> service_in_order auth -> (forall u, ~ granted env request auth u) ->
  exists r shown, authorize_request env request (Some auth) = Err r /\ status r = 401%Z /\
    (shown = true <-> exists a token, presented request a /\ bearer_token a = Some token) /\
    headers_get_all (headers r) WWW_AUTHENTICATE = challenges auth shown.
Proof.
  intros Hwf Hs Hno.
  destruct (authorize_request_run env request auth Hwf Hs) as [(u0 & Hg & _) | (_ & shown & Hsh & ->)];
    [by apply Hno in Hg|].
  destruct (unauthorized_response_run (E := Response) true
    (if tokens auth then Some (if shown then BEARER_INVALID_CHALLENGE else BEARER_CHALLENGE)
     else None)) as (r & Hr & Hst & Hh).
  { destruct (tokens auth), shown; repeat constructor. }
  exists r, shown. rewrite Hr. split; [done|]. split; [done|]. split; [done|]. rewrite Hh.
  unfold challenges. by destruct (tokens auth).
Qed.
End spec.

(** ** Polling *)

Section polling.
Context {E : Type} (show : E -> str).

(** The message of a failed reload. *)
Definition failure (r : outcome E bool) : option str :=
  match r with Err e => Some (show e) | _ => None end.

(** The poller logs every successful change and every new failure once: a tick that fails is
    logged exactly when the tick before it did not fail with the same message. *)
Theorem poll_logs_new_failures (results : list (outcome E bool)) i r log :
  Forall (fun r => is_panic r = false) results ->
  results !! i = Some r -> poll_file_reload show None results !! i = Some log ->
  log = match r with
        | Ok true => [Reloaded]
        | Err e =>
            if decide (0 < i /\ (results !! (i - 1) ≫= failure) = Some (show e)) then []
            else [ReloadFailed (show e)]
        | _ => []
        end.
Proof.
  intros Hnp.
  assert (Hgen : forall rs last i r log, Forall (fun r => is_panic r = false) rs ->
    rs !! i = Some r -> poll_file_reload show last rs !! i = Some log ->
    log = match r with
          | Ok true => [Reloaded]
          | Err e =>
              if decide ((match i with 0 => last | S j => rs !! j ≫= failure end) = Some (show e))
              then [] else [ReloadFailed (show e)]
          | _ => []
          end).
  { clear. induction rs as [|r0 rs IH]; intros last i r log Hnp Hr Hlog; [done|].
    apply Forall_cons in Hnp as [Hr0 Hnp]. cbn [poll_file_reload] in Hlog.
    destruct (poll_tick show r0 last) as [last' log0] eqn:Ht.
    destruct i as [|i]; cbn in Hr, Hlog.
    - injection Hr as ->. injection Hlog as ->. unfold poll_tick in Ht.
      destruct r as [[]|e|]; try (by injection Ht as _ <-).
      repeat case_decide; try tauto; by injection Ht as _ <-.
    - rewrite (IH last' i r log Hnp Hr Hlog). destruct r as [|e|]; try done.
      assert (Hlast : last' = failure r0).
      { unfold poll_tick in Ht. destruct r0 as [[]|e0|]; cbn; try done; try (by injection Ht as <- _).
        case_decide as Hd; injection Ht as <- _; [done|].
        exact Hd. }
      by destruct i as [|j]; cbn; rewrite ?Hlast. }
  intros Hr Hlog. rewrite (Hgen results None i r log Hnp Hr Hlog).
  destruct r as [|e|]; try done. destruct i as [|j].
  - rewrite !decide_False; [done| |done]. lia.
  - replace (S j - 1) with j by lia.
    destruct (decide (results !! j ≫= failure = Some (show e))).
    + rewrite decide_True by (split; [lia | done]). done.
    + rewrite decide_False by tauto. done.
Qed.
End polling.

(** ** Witnesses *)

Module AuthTests.
Definition args : Args :=
  mkArgs "::" WsOnly 80 443 false 16384 60 ["alice:secret"] (Some "users") ["example.com:53"] None
    [] None 600 3600 None None false None None.
Definition users : Files := fun path =>
  if decide (path = "users") then Some "# staff\r\n\nbob:pass:word\r\n" else None.
Definition broken_users : Files := fun _ => Some "bob:password\ncarol\n".
Definition env : Env := TokenTests.env_at 1 65.

Definition auth : AuthConfig :=
  match build_auth_config env users args with
  | Ok (Some auth) => auth
  | _ => mkAuth [] [] None [] [] None None
  end.

Definition request (path : str) (authorization : option str) : Request :=
  mkRequest "GET" path
    (match authorization with
     | Some a => headers_insert AUTHORIZATION a headers_new
     | None => headers_new
     end).

Lemma auth_built : build_auth_config env users args = Ok (Some auth).
Proof. by_eval. Qed.

Lemma auth_wf : wf_auth auth.
Proof. apply (build_auth_config_wf _ _ _ _ auth_built). Qed.

Lemma auth_in_order : service_in_order auth.
Proof.
  intros s Hs. assert (Hp : (fun s => poisoned (state s)) <$> tokens auth = Some false) by by_eval.
  rewrite Hs in Hp. by injection Hp.
Qed.

Example decisions :
  (fun '(path, a) => match authorize_request env (request path a) (Some auth) with
                     | Ok u => u | Err r => show_uint (status r) | Panicked => "panic" end) <$>
    [("/tcp:example.com:53", None); ("/udp:example.com:53", Some "nonsense");
     ("/tcp:a:1", Some (basic_authorization "bob:pass:word"));
     ("/tcp:a:1", Some (basic_authorization "bob:pass")); ("/tcp:a:1", None);
     ("/tcp:a:1", Some "bearer abc")]
  = ["anonymous"; "anonymous"; "bob"; "401"; "401"; "401"].
Proof. by_eval. Qed.

Example auth_config_stays_wf_witness :
  wf_auth (foldl (fun auth '(credentials, fs, path) =>
    (if credentials : bool then reload_auth_file fs path auth
     else reload_anonymous_target_file fs path auth).2) auth
    [(true, broken_users, "users"); (false, users, "users")]).
Proof. apply (auth_config_stays_wf env users args). by_eval. Defined.

Example load_auth_file_spec_witness :
  exists es1 i c es2 e', file_entries "bob:password\ncarol\n" = es1 ++ (i, c) :: es2 /\
    Forall (fun c => exists u p, credential_of c u p) es1.*2 /\
    validate_basic_auth_credential c = Err e' /\
    InvalidCredentialLine "users" 2 CredentialFormat = InvalidCredentialLine "users" (i + 1) e'.
Proof.
  apply (load_auth_file_spec broken_users "users" "bob:password\ncarol\n"); by_eval.
Defined.

Example authorize_request_iff_witness :
  granted env (request "/tcp:a:1" (Some (basic_authorization "bob:pass:word"))) auth "bob".
Proof. apply authorize_request_iff; [apply auth_wf | apply auth_in_order | by_eval]. Defined.

Lemma nobody_granted u : ~ granted env (request "/tcp:a:1" (Some "bearer abc")) auth u.
Proof.
  intros Hg. destruct (authorize_request_run env (request "/tcp:a:1" (Some "bearer abc")) auth
    auth_wf auth_in_order) as [(u' & _ & Hu) | (Hno & _)]; [|by apply (Hno u)].
  apply (f_equal (fun r : outcome Response str => match r with Ok _ => true | _ => false end)) in Hu.
  vm_compute in Hu. done.
Qed.

Example refused_with_challenges_witness :
  exists r shown, authorize_request env (request "/tcp:a:1" (Some "bearer abc")) (Some auth) = Err r /\
    status r = 401%Z /\
    (shown = true <-> exists a token,
       presented (request "/tcp:a:1" (Some "bearer abc")) a /\ bearer_token a = Some token) /\
    headers_get_all (headers r) WWW_AUTHENTICATE = challenges auth shown.
Proof.
  apply refused_with_challenges; [apply auth_wf | apply auth_in_order | apply nobody_granted].
Defined.

(** The same failure twice, then a change, then the failure again. *)
Definition ticks : list (outcome str bool) := [Err "bad"; Err "bad"; Ok true; Err "bad"].

Example poll_logs_new_failures_witness : ([] : list ReloadLog) = [] /\
  poll_file_reload id None ticks = [[ReloadFailed "bad"]; []; [Reloaded]; [ReloadFailed "bad"]].
Proof.
  split; [|by_eval]. apply (poll_logs_new_failures id ticks 1 (Err "bad") []);
    [repeat constructor | reflexivity | reflexivity].
Defined.
End AuthTests.
