(* ===== verification/HttpProbe.v ===== *)
(** [src/http_probe.rs]: reading the request head, recognising plain HTTP requests, writing a
    response, and replaying what was read.

    An awaited [stream.read] yields bytes (none at the end of the stream) or an error; the results
    of the successive reads of a connection are a list. [ReplayStream] is a transformer of
    [poll_read] functions. *)

From S2P Require Import Prelude RustStd Extern Instances Net.

Definition MAX_REQUEST_HEAD : nat := 16 * 1024.
Definition READ_CHUNK : nat := 2048.
Definition PROBE_MAX_HEADERS : nat := 64.

(** ** Reading the head *)

(** [slice::windows]. *)
Fixpoint windows (n : nat) (l : bytes) : list bytes :=
  match l with
  | [] => []
  | _ :: l' => if bool_decide (length l < n) then [] else take n l :: windows n l'
  end.

Definition has_head_end (head : bytes) : bool :=
  existsb (fun window => bool_decide (window = ("\r\n\r\n" : bytes))) (windows 4 head).

(** The result of one awaited read; an empty buffer is the end of the stream. *)
Abbreviation read_result := (outcome unit bytes).

Inductive HeadRead : Type :=
  | HeadDone (head : bytes) (rest : list read_result)
  | HeadFailed
  | HeadWaiting (head : bytes).

(** The loop of [read_request_head], over the results of the reads; [HeadWaiting] while the next
    read has no result yet. *)
Fixpoint read_head (head : bytes) (reads : list read_result) : HeadRead :=
  if has_head_end head || bool_decide (MAX_REQUEST_HEAD <= length head) then HeadDone head reads
  else
    match reads with
    | [] => HeadWaiting head
    | Ok [] :: rest => HeadDone head rest
    | Ok chunk :: rest => read_head (head ++ chunk) rest
    | _ :: _ => HeadFailed
    end.

(** [read_request_head]. *)
Definition read_request_head (reads : list read_result) : HeadRead := read_head [] reads.

(** ** Replaying it *)

Inductive poll (A : Type) : Type :=
  | Pending
  | Ready (a : A).
Arguments Pending {A}.
Arguments Ready {A} a.

(** [AsyncRead::poll_read] of a stream with state [S]: the bytes put in a buffer with the given
    remaining capacity. *)
Abbreviation reader S := (nat -> S -> poll read_result * S).

Section replay.
Context {S : Type} (inner_poll_read : reader S).

Record ReplayStream : Type := mkReplay {
  replay_prefix : bytes;
  position : nat;
  inner_stream : S;
}.

(** [ReplayStream::new]. *)
Definition replay_new (prefix : bytes) (inner : S) : ReplayStream := mkReplay prefix 0 inner.

(** [ReplayStream::poll_read]. *)
Definition replay_poll_read : reader ReplayStream := fun remaining this =>
  if bool_decide (position this < length (replay_prefix this)) then
    let n := Nat.min remaining (length (replay_prefix this) - position this) in
    (Ready (Ok (take n (drop (position this) (replay_prefix this)))),
     mkReplay (replay_prefix this) (position this + n) (inner_stream this))
  else
    let '(r, inner) := inner_poll_read remaining (inner_stream this) in
    (r, mkReplay (replay_prefix this) (position this) inner).

(** [ReplayStream::poll_write], [poll_flush] and [poll_shutdown] all pass on to the inner stream. *)
Definition replay_delegate {A} (f : S -> A * S) (this : ReplayStream) : A * ReplayStream :=
  let '(r, inner) := f (inner_stream this) in
  (r, mkReplay (replay_prefix this) (position this) inner).
End replay.
Arguments ReplayStream : clear implicits.
Arguments mkReplay {_} _ _ _.

(** The results of polling with the given capacities, in order. *)
Fixpoint poll_all {S} (read : reader S) (capacities : list nat) (s : S) : list (poll read_result) * S :=
  match capacities with
  | [] => ([], s)
  | c :: rest =>
      let '(r, s) := read c s in
      let '(rs, s) := poll_all read rest s in
      (r :: rs, s)
  end.

(** ** Plain requests *)

Section http.
Context `{Http} `{HttParse}.

(** [Request::builder().header(..)] for every parsed header. *)
Fixpoint build_headers (hs : list (str * bytes)) (m : HeaderMap) : option HeaderMap :=
  match hs with
  | [] => Some m
  | (n, v) :: rest =>
      v ← header_value v;
      n ← header_name n;
      build_headers rest (headers_append n v m)
  end.

Definition target_path (target : str) : str :=
  default target (head (split_on (fun c => bool_decide (c = x3f \/ c = x23)) target)).

(** [parse_plain_request]. *)
Definition parse_plain_request (head : bytes) : option Request :=
  parsed ← httparse_request PROBE_MAX_HEADERS head;
  m ← parsed_method parsed;
  method ← method_from_bytes m;
  target ← parsed_path parsed;
  let path := target_path target in
  let is_health_check :=
    bool_decide (path = "/") && (bool_decide (method = "GET") || bool_decide (method = "HEAD")) in
  if negb is_health_check && negb (starts_with "/auth/" path) then None
  else
    hs ← build_headers (parsed_headers parsed) headers_new;
    uri ← uri_from_str target;
    let is_upgrade :=
      match headers_get hs "upgrade" ≫= header_to_str with
      | Some value => eq_ignore_ascii_case value "websocket"
      | None => false
      end in
    if is_upgrade then None else Some (mkRequest method uri hs).

(** [health_check_response]. *)
Definition health_check_response {E} (message : str) : outcome E Response :=
  let? v := expect_header "text/plain; charset=utf-8" in
  Ok (with_headers (headers_insert "content-type" v) (with_status 200 (response_new (Some message)))).

(** ** Writing a response *)

Definition header_line (nv : str * bytes) : str := nv.1 ++ ": " ++ from_utf8_lossy nv.2.

(** The lines before the empty one. *)
Definition response_lines (response : Response) : list str :=
  let body := default [] (body response) in
  ("HTTP/1.1 " ++ show_uint (status response) ++ " " ++ default [] (canonical_reason (status response)))
  :: (header_line <$> headers_iter (headers response))
  ++ (if (status response =? 204)%Z then [] else ["content-length: " ++ show_uint (Z.of_nat (length body))])
  ++ ["connection: close"].

(** [write_response]: the bytes written before the stream is shut down. *)
Definition write_response (response : Response) (include_body : bool) : bytes :=
  concat ((fun line => line ++ "\r\n") <$> response_lines response) ++ "\r\n" ++
  (if include_body then default [] (body response) else []).
End http.

(** ** Theorems: the head *)

Definition data_of (r : read_result) : bytes := match r with Ok b => b | _ => [] end.

(** The head is complete, or long enough to stop. *)
Definition head_stop (head : bytes) : Prop :=
  has_head_end head = true \/ MAX_REQUEST_HEAD <= length head.

Lemma head_stop_dec head :
  has_head_end head || bool_decide (MAX_REQUEST_HEAD <= length head) = true <-> head_stop head.
Proof. unfold head_stop. by rewrite orb_true_iff, bool_decide_eq_true. Qed.

Lemma read_head_spec head reads :
  Forall (fun r => length (data_of r) <= READ_CHUNK) reads ->
  length head < MAX_REQUEST_HEAD + READ_CHUNK ->
  match read_head head reads with
  | HeadDone head' rest =>
      exists used, reads = used ++ rest /\ head' = head ++ concat (data_of <$> used) /\
        Forall (fun r => exists b, r = Ok b) used /\
        length head' < MAX_REQUEST_HEAD + READ_CHUNK /\
        (head_stop head' \/ last used = Some (Ok []))
  | HeadWaiting head' =>
      head' = head ++ concat (data_of <$> reads) /\ ~ head_stop head' /\
      Forall (fun r => exists c b, r = Ok (c :: b)) reads
  | HeadFailed => exists r, r ∈ reads /\ forall b, r <> Ok b
  end.
Proof.
  revert head. induction reads as [|r reads IH]; intros head Hlen Hh; cbn [read_head];
    destruct (has_head_end head || _) eqn:Hs.
  1,3: exists []; cbn; rewrite app_nil_r; split; [done|]; split; [done|]; split; [constructor|];
    split; [done|]; left; by apply head_stop_dec.
  - cbn. rewrite app_nil_r. split; [done|]. split; [|constructor].
    intros Hstop%head_stop_dec. congruence.
  - apply Forall_cons in Hlen as [Hr Hlen].
    destruct r as [[|c b]| |]; [| |by exists (Err e); split; [left|]|by exists Panicked; split; [left|]].
    + exists [Ok []]. cbn. rewrite app_nil_r. split; [done|]. split; [done|].
      split; [repeat econstructor|]. split; [done | by right].
    + assert (Hh' : length (head ++ c :: b) < MAX_REQUEST_HEAD + READ_CHUNK).
      { apply orb_false_iff in Hs as [_ Hs%bool_decide_eq_false]. cbn [data_of] in Hr.
        rewrite length_app. lia. }
      specialize (IH (head ++ c :: b) Hlen Hh').
      destruct (read_head (head ++ c :: b) reads) as [head' rest| |head'].
      * destruct IH as (used & -> & -> & Hok & Hl & Hstop). exists (Ok (c :: b) :: used).
        cbn [app fmap list_fmap data_of concat]. rewrite <- app_assoc.
        split; [done|]. split; [done|]. split; [constructor; [by eexists | done]|].
        split; [by rewrite <- app_assoc in Hl|]. rewrite <- app_assoc in Hstop.
        destruct Hstop as [Hstop|Hlast]; [by left | right].
        destruct used; [done|]. exact Hlast.
      * destruct IH as (r & Hr' & Hne). exists r. split; [by right | done].
      * destruct IH as (-> & Hns & Hall). cbn [fmap list_fmap data_of concat].
        rewrite <- app_assoc in *. split; [done|]. split; [done|]. constructor; [by exists c, b | done].
Qed.

(** C27: reading the request head never blocks a client that has sent a complete head, ended its
    stream, or sent 16 KiB: it stops at the first read that completes one of these. What it
    returns is exactly what was read, less than 18 KiB of it; an error ends it, and nothing else
    does. *)
Theorem read_request_head_spec reads :
  Forall (fun r => length (data_of r) <= READ_CHUNK) reads ->
  match read_request_head reads with
  | HeadDone head rest =>
      exists used, reads = used ++ rest /\ head = concat (data_of <$> used) /\
        Forall (fun r => exists b, r = Ok b) used /\
        length head < MAX_REQUEST_HEAD + READ_CHUNK /\
        (head_stop head \/ last used = Some (Ok []))
  | HeadWaiting head =>
      head = concat (data_of <$> reads) /\ ~ head_stop head /\
      Forall (fun r => exists c b, r = Ok (c :: b)) reads
  | HeadFailed => exists r, r ∈ reads /\ forall b, r <> Ok b
  end.
Proof.
  intros Hlen. apply (read_head_spec [] reads Hlen).
  unfold MAX_REQUEST_HEAD, READ_CHUNK. cbn [length]. lia.
Qed.

(** With at least [left] bytes to the limit, [left] reads decide, whatever would be read after. *)
Lemma read_head_terminates head reads :
  MAX_REQUEST_HEAD - length head <= length reads ->
  exists used rest, reads = used ++ rest /\ length used <= MAX_REQUEST_HEAD - length head /\
    ((exists h, forall later, read_head head (used ++ later) = HeadDone h later) \/
     (forall later, read_head head (used ++ later) = HeadFailed)).
Proof.
  revert head. induction reads as [|r reads IH]; intros head Hl.
  - exists [], []. split; [done|]. split; [cbn [length]; lia|]. left. exists head. intros later. cbn [app].
    destruct later; cbn [read_head length] in *; rewrite bool_decide_eq_true_2 by lia;
      by rewrite orb_true_r.
  - destruct (has_head_end head || bool_decide (MAX_REQUEST_HEAD <= length head)) eqn:E.
    { exists [], (r :: reads). split; [done|]. split; [cbn [length]; lia|]. left. exists head.
      intros later. cbn [app]. by destruct later; cbn [read_head]; rewrite E. }
    apply orb_false_iff in E as E'. destruct E' as [_ Hlim%bool_decide_eq_false].
    destruct r as [[|c b]|e|].
    + exists [Ok []], reads. split; [done|]. split; [cbn [length]; lia|]. left. exists head.
      intros later. cbn [app read_head]. by rewrite E.
    + destruct (IH (head ++ c :: b)) as (used & rest & -> & Hused & Hend).
      { rewrite length_app. cbn [length] in *. lia. }
      exists (Ok (c :: b) :: used), rest. split; [done|]. rewrite length_app in Hused.
      split; [cbn [length] in *; lia|]. cbn [app read_head]. rewrite E. done.
    + exists [Err e], reads. split; [done|]. split; [cbn [length]; lia|]. right.
      intros later. cbn [app read_head]. by rewrite E.
    + exists [Panicked], reads. split; [done|]. split; [cbn [length]; lia|]. right.
      intros later. cbn [app read_head]. by rewrite E.
Qed.

(** C28: reading the request head terminates: whatever a client sends and in however small pieces, at
    most 16384 reads decide, and nothing that would be read after them changes the outcome or is
    consumed. *)
Theorem read_request_head_terminates reads :
  MAX_REQUEST_HEAD <= length reads ->
  exists used rest, reads = used ++ rest /\ length used <= MAX_REQUEST_HEAD /\
    ((exists h, forall later, read_request_head (used ++ later) = HeadDone h later) \/
     (forall later, read_request_head (used ++ later) = HeadFailed)).
Proof.
  intros Hl. destruct (read_head_terminates [] reads) as (used & rest & ?); [cbn [length]; lia|].
  exists used, rest. cbn [length] in *. by rewrite Nat.sub_0_r in *.
Qed.

Lemma poll_all_exhausted {S} (read : reader S) caps prefix pos inner :
  length prefix <= pos ->
  (poll_all (replay_poll_read read) caps (mkReplay prefix pos inner)).1 = (poll_all read caps inner).1.
Proof.
  intros Hpos. revert inner. induction caps as [|c caps IH]; intros inner; cbn [poll_all]; [done|].
  unfold replay_poll_read at 1. cbn [position replay_prefix inner_stream].
  rewrite bool_decide_eq_false_2 by lia. destruct (read c inner) as [r inner'].
  specialize (IH inner'). destruct (poll_all (replay_poll_read read) caps _).
  destruct (poll_all read caps inner'). cbn in *. by rewrite IH.
Qed.

Lemma poll_all_replay {S} (read : reader S) caps prefix pos inner :
  Forall (fun c => 0 < c) caps ->
  exists caps1 caps2 chunks, caps = caps1 ++ caps2 /\
    (poll_all (replay_poll_read read) caps (mkReplay prefix pos inner)).1 =
      ((fun b => Ready (Ok b)) <$> chunks) ++ (poll_all read caps2 inner).1 /\
    length chunks = length caps1 /\ Forall (fun b => b <> []) chunks /\
    (exists rest, drop pos prefix = concat chunks ++ rest /\ (caps2 <> [] -> rest = [])).
Proof.
  intros Hcaps. revert pos. induction Hcaps as [|c caps Hc Hcaps IH]; intros pos.
  { exists [], [], []. cbn. repeat split; try done. by exists (drop pos prefix). }
  destruct (decide (pos < length prefix)) as [Hpos|Hpos].
  - set (n := Nat.min c (length prefix - pos)).
    destruct (IH (pos + n)) as (caps1 & caps2 & chunks & -> & Hrun & Hl & Hne & rest & Hrest & Hend).
    exists (c :: caps1), caps2, (take n (drop pos prefix) :: chunks). split; [done|].
    split.
    + cbn [poll_all app]. unfold replay_poll_read at 1. cbn [position replay_prefix inner_stream].
      rewrite bool_decide_eq_true_2 by done. fold n.
      destruct (poll_all (replay_poll_read read) (caps1 ++ caps2) _). cbn in *. by rewrite Hrun.
    + split; [cbn; lia|]. split.
      * constructor; [|done]. intros E. apply (f_equal length) in E.
        rewrite length_take, length_drop in E. subst n. cbn in E. lia.
      * exists rest. split; [|done]. cbn [concat]. rewrite <- app_assoc, <- Hrest.
        rewrite <- (take_drop n (drop pos prefix)) at 1. by rewrite drop_drop.
  - exists [], (c :: caps), []. split; [done|]. split; [cbn [fmap list_fmap app]; apply poll_all_exhausted; lia|].
    split; [done|]. split; [constructor|]. exists []. split; [|done]. cbn. by apply drop_ge; lia.
Qed.

(** C29: the replayed stream reads as the head followed by the rest of the connection: however it is
    polled, it delivers the head in order and without empty reads, and only when the head is used
    up do polls reach the inner stream, which then sees exactly the remaining polls. *)
Theorem replay_stream_spec {S} (read : reader S) caps prefix inner :
  Forall (fun c => 0 < c) caps ->
  exists caps1 caps2 chunks rest, caps = caps1 ++ caps2 /\
    (poll_all (replay_poll_read read) caps (replay_new prefix inner)).1 =
      ((fun b => Ready (Ok b)) <$> chunks) ++ (poll_all read caps2 inner).1 /\
    length chunks = length caps1 /\ Forall (fun b => b <> []) chunks /\
    prefix = concat chunks ++ rest /\ (caps2 <> [] -> rest = []).
Proof.
  intros Hcaps.
  destruct (poll_all_replay read caps prefix 0 inner Hcaps)
    as (caps1 & caps2 & chunks & ? & ? & ? & ? & rest & ? & ?).
  by exists caps1, caps2, chunks, rest.
Qed.

(** ** Theorems: requests and responses *)

Section theorems.
Context `{HttpLaws} `{HttParse}.

Lemma visible_no c v : forallb (in_range 32 126) v = true -> (bz c < 32)%Z -> c ∉ v.
Proof.
  rewrite forallb_forall. intros Hv Hc Hin%list_elem_of_In%Hv. unfold in_range in Hin. lia.
Qed.

(** Only what the server answers itself is a plain request: [GET] or [HEAD] of the root, or any
    method below [/auth/]; never a websocket upgrade. The request has the method and the target of
    the head. *)
Theorem parse_plain_request_sound head request :
  parse_plain_request head = Some request ->
  exists parsed m target, httparse_request PROBE_MAX_HEADERS head = Some parsed /\
    parsed_method parsed = Some m /\ method_from_bytes m = Some (req_method request) /\
    parsed_path parsed = Some target /\ uri_from_str target = Some (req_uri request) /\
    ((target_path target = "/" /\ (req_method request = "GET" \/ req_method request = "HEAD")) \/
     exists rest, target_path target = "/auth/" ++ rest) /\
    (forall v s, headers_get (req_headers request) "upgrade" = Some v -> header_to_str v = Some s ->
       eq_ignore_ascii_case s "websocket" = false).
Proof.
  unfold parse_plain_request.
  destruct (httparse_request PROBE_MAX_HEADERS head) as [parsed|]; [|done]. cbn [mbind option_bind].
  destruct (parsed_method parsed) as [m|] eqn:Hm; [|done]. cbn [mbind option_bind].
  destruct (method_from_bytes m) as [method|] eqn:Hmeth; [|done]. cbn [mbind option_bind].
  destruct (parsed_path parsed) as [target|] eqn:Ht; [|done]. cbn [mbind option_bind]. cbv zeta.
  destruct (negb _ && negb _) eqn:Hpath; [done|].
  destruct (build_headers _ _) as [hs|]; [|done]. cbn [mbind option_bind].
  destruct (uri_from_str target) as [uri|] eqn:Hu; [|done]. cbn [mbind option_bind].
  destruct (match headers_get hs "upgrade" ≫= header_to_str with Some _ => _ | None => _ end) eqn:Hup;
    [done|].
  intros [= <-]. exists parsed, m, target. cbn [req_method req_uri req_headers].
  repeat (split; [done|]). split.
  - apply andb_false_iff in Hpath as [Hp%negb_false_iff | Hp%negb_false_iff].
    + left. rewrite !andb_true_iff, orb_true_iff, !bool_decide_eq_true in Hp. done.
    + right. by apply starts_with_spec.
  - intros v s Hv Hs. rewrite Hv in Hup. cbn [mbind option_bind] in Hup. by rewrite Hs in Hup.
Qed.

(** Lines of text, each ended by CR LF, then an empty one: the first blank line ends them. *)
Lemma lines_split ls (b : bytes) :
  ls <> [] -> Forall (fun l => l <> [] /\ x0d ∉ l) ls ->
  split_once "\r\n\r\n" (concat ((fun line => line ++ "\r\n") <$> ls) ++ "\r\n" ++ b) =
    Some (join "\r\n" ls, b).
Proof.
  intros Hne Hls. unfold lit. induction Hls as [|l ls [Hl Hcr] Hls IH]; [done|].
  cbn [fmap list_fmap concat]. rewrite <- !app_assoc. rewrite split_once_skip by done.
  destruct Hls as [|l2 ls [Hl2 Hcr2] Hls].
  - cbn. rewrite !decide_True by done. cbn. by rewrite app_nil_r.
  - specialize (IH ltac:(done)).
    change (join [x0d; x0a] (l :: l2 :: ls)) with (l ++ [x0d; x0a] ++ join [x0d; x0a] (l2 :: ls)).
    set (rest := concat _ ++ _) in *.
    assert (Hrest : exists c r, rest = c :: r /\ c <> x0d).
    { subst rest. cbn [fmap list_fmap concat]. destruct l2 as [|c l2]; [done|].
      eexists c, _. split; [done|]. apply not_elem_of_cons in Hcr2 as [? _]. done. }
    destruct Hrest as (c & r & Hr & Hc). rewrite Hr in IH |- *. cbn [app].
    assert (E : split_once [x0d; x0a; x0d; x0a] (x0d :: x0a :: c :: r) =
      prod_map (cons x0d) id <$> (prod_map (cons x0a) id <$> split_once [x0d; x0a; x0d; x0a] (c :: r))).
    { cbn [split_once strip_prefix]. rewrite !decide_True by done.
      rewrite (decide_False (P := x0d = c)) by congruence. done. }
    rewrite E, IH. done.
Qed.

(** No line break in a header. *)
Definition clean_headers (response : Response) : Prop :=
  Forall (fun nv => x0d ∉ nv.1 /\ x0d ∉ from_utf8_lossy nv.2) (headers_iter (headers response)).

Lemma show_uint_no_cr n : (0 <= n < U64_MODULUS)%Z -> x0d ∉ show_uint n.
Proof. intros Hn Hin%show_uint_chars; done. Qed.

Lemma response_lines_clean response :
  clean_headers response -> (0 <= status response < 1000)%Z ->
  (Z.of_nat (length (default [] (body response))) < U64_MODULUS)%Z ->
  Forall (fun l => l <> [] /\ x0d ∉ l) (response_lines response).
Proof.
  intros Hclean Hst Hlen. unfold response_lines, lit. constructor; [|apply Forall_app; split; [|apply Forall_app; split]].
  - split; [done|]. rewrite !not_elem_of_app. split; [by apply (bool_decide_unpack _)|].
    split; [apply show_uint_no_cr; unfold U64_MODULUS; lia|]. split; [by apply (bool_decide_unpack _)|].
    destruct (canonical_reason _) as [r|] eqn:Hr; cbn; [|apply not_elem_of_nil].
    apply canonical_reason_visible in Hr. by eapply visible_no.
  - apply Forall_fmap. eapply Forall_impl; [exact Hclean|]. intros [n v] [Hn Hv]. cbn in *.
    unfold header_line, lit. cbn. split; [by destruct n|]. rewrite !not_elem_of_app. cbn.
    rewrite !not_elem_of_cons. done.
  - destruct (_ =? _)%Z; constructor; [|constructor]. split; [done|]. rewrite not_elem_of_app.
    split; [by apply (bool_decide_unpack _) | apply show_uint_no_cr; lia].
  - constructor; [|constructor]. split; [done | by apply (bool_decide_unpack _)].
Qed.

(** ** What a client reads

    A client cuts the head off at the first blank line, takes it apart into lines, and looks among these
    for the length of the body. *)

Definition crlf_lines (head : bytes) : list str :=
  match split_on (fun c => bool_decide (c = x0d)) head with
  | [] => []
  | line :: rest => line :: (drop 1 <$> rest)
  end.

Definition client_reads (out : bytes) : option (list str * bytes) :=
  prod_map crlf_lines id <$> split_once "\r\n\r\n" out.

Definition announced_lengths (lines : list str) : list str :=
  omap (strip_prefix "content-length: ") lines.

Lemma split_on_cr (l : str) s :
  x0d ∉ l -> split_on (fun c => bool_decide (c = x0d)) (l ++ x0d :: s) =
    l :: split_on (fun c => bool_decide (c = x0d)) s.
Proof.
  intros Hl. rewrite split_on_app by by apply bool_decide_eq_true. rewrite split_on_single; [done|].
  apply Forall_forall. intros c Hc. apply bool_decide_eq_false. by intros ->.
Qed.

Lemma crlf_lines_join (ls : list str) :
  ls <> [] -> Forall (fun l => x0d ∉ l) ls -> crlf_lines (join "\r\n" ls) = ls.
Proof.
  intros Hne Hls. unfold crlf_lines.
  assert (Hgen : forall l ls, x0d ∉ l -> Forall (fun l => x0d ∉ l) ls ->
    split_on (fun c => bool_decide (c = x0d)) (join "\r\n" (l :: ls)) = l :: ((cons x0a) <$> ls)).
  { clear. intros l ls Hl Hls. revert l Hl. induction Hls as [|l2 ls Hl2 _ IH]; intros l Hl.
    - cbn. apply split_on_single, Forall_forall. intros c Hc. apply bool_decide_eq_false. by intros ->.
    - change (join "\r\n" (l :: l2 :: ls)) with (l ++ x0d :: (x0a :: join "\r\n" (l2 :: ls))).
      rewrite split_on_cr by done. specialize (IH l2 Hl2). cbn [split_on].
      rewrite bool_decide_eq_false_2 by done. by rewrite IH. }
  destruct ls as [|l ls]; [done|]. apply Forall_cons in Hls as [Hl Hls].
  rewrite Hgen by done. f_equal. rewrite <- list_fmap_compose. by apply list_fmap_id.
Qed.

(** C30: framing. What a client reads of a written response: the status line first; every header of the
    response on a line of its own; the length of the body, announced exactly once, or not at all with a
    204, which must not say it; [connection: close] last; and behind the head exactly the body when it
    was asked for, and nothing else (for a [HEAD] request). The headers must not hold line breaks or
    announce a length themselves. *)
Theorem response_framing response include_body :
  clean_headers response -> (0 <= status response < 1000)%Z ->
  (Z.of_nat (length (default [] (body response))) < U64_MODULUS)%Z ->
  announced_lengths (header_line <$> headers_iter (headers response)) = [] ->
  exists lines, client_reads (write_response response include_body) =
      Some (lines, if include_body then default [] (body response) else []) /\
    head lines = Some ("HTTP/1.1 " ++ show_uint (status response) ++ " " ++
      default [] (canonical_reason (status response))) /\
    (forall name value, (name, value) ∈ headers_iter (headers response) ->
       (name ++ ": " ++ from_utf8_lossy value) ∈ lines) /\
    announced_lengths lines =
      (if decide (status response = 204%Z) then []
       else [show_uint (Z.of_nat (length (default [] (body response))))]) /\
    last lines = Some ("connection: close" : str).
Proof.
  intros Hclean Hst Hlen Hsilent. exists (response_lines response).
  pose proof (response_lines_clean response Hclean Hst Hlen) as Hlines.
  split; [|split; [done|split; [|split]]].
  - unfold client_reads, write_response. rewrite lines_split by done. cbn [fmap option_fmap option_map prod_map fst snd].
    rewrite crlf_lines_join; [done | done|]. eapply Forall_impl; [exact Hlines|]. by intros l [_ ?].
  - intros name value Hin. unfold response_lines. right. apply elem_of_app. left.
    by apply (list_elem_of_fmap_2 header_line) in Hin.
  - unfold announced_lengths in *. unfold response_lines. cbn [omap list_omap].
    rewrite !omap_app, Hsilent. cbn [app].
    destruct (Z.eqb_spec (status response) 204) as [->|Hne]; [done|]. by rewrite decide_False.
  - unfold response_lines. rewrite (app_assoc (header_line <$> _)), app_comm_cons. by rewrite last_snoc.
Qed.
End theorems.

(** ** Witnesses *)

Module HttpProbeTests.
Definition request_bytes : bytes := "GET /auth/token?x HTTP/1.1\r\nHost: x\r\n\r\n".
Definition chunks : list read_result := [Ok (take 10 request_bytes); Ok (drop 10 request_bytes); Ok "later"].

Example read_request_head_spec_witness :
  match read_request_head chunks with
  | HeadDone head rest =>
      exists used, chunks = used ++ rest /\ head = concat (data_of <$> used) /\
        Forall (fun r => exists b, r = Ok b) used /\
        length head < MAX_REQUEST_HEAD + READ_CHUNK /\
        (head_stop head \/ last used = Some (Ok []))
  | HeadWaiting head =>
      head = concat (data_of <$> chunks) /\ ~ head_stop head /\
      Forall (fun r => exists c b, r = Ok (c :: b)) chunks
  | HeadFailed => exists r, r ∈ chunks /\ forall b, r <> Ok b
  end.
Proof.
  apply read_request_head_spec. unfold READ_CHUNK. repeat constructor; cbn; lia.
Defined.

(** A client that sends one byte at a time and never ends its head. *)
Definition drip : list read_result := replicate MAX_REQUEST_HEAD (Ok "x").

Example read_request_head_terminates_witness :
  exists used rest, drip = used ++ rest /\ length used <= MAX_REQUEST_HEAD /\
    ((exists h, forall later, read_request_head (used ++ later) = HeadDone h later) \/
     (forall later, read_request_head (used ++ later) = HeadFailed)).
Proof. apply read_request_head_terminates. unfold drip. by rewrite length_replicate. Defined.

Example head_is_returned : read_request_head chunks = HeadDone request_bytes [Ok "later"].
Proof. vm_compute. done. Qed.

(** An inner stream that holds bytes. *)
Definition bytes_read : reader bytes := fun n s => (Ready (Ok (take n s)), drop n s).

Example replay_stream_spec_witness :
  exists caps1 caps2 chunks rest, [3; 3; 2; 9] = caps1 ++ caps2 /\
    (poll_all (replay_poll_read bytes_read) [3; 3; 2; 9] (replay_new "hello " "world")).1 =
      ((fun b => Ready (Ok b)) <$> chunks) ++ (poll_all bytes_read caps2 "world").1 /\
    length chunks = length caps1 /\ Forall (fun b => b <> []) chunks /\
    "hello " = concat chunks ++ rest /\ (caps2 <> [] -> rest = []).
Proof. apply replay_stream_spec. repeat constructor; lia. Defined.

Example replay_yields_prefix_then_inner :
  (poll_all (replay_poll_read bytes_read) [4; 4; 3; 9] (replay_new "hello " "world")).1 =
    (fun b => Ready (Ok b)) <$> ["hell"; "o "; "wor"; "ld"].
Proof. vm_compute. done. Qed.

Definition request : Request :=
  default (mkRequest [] [] []) (parse_plain_request request_bytes).

Example parse_plain_request_sound_witness :
  exists parsed m target, httparse_request PROBE_MAX_HEADERS request_bytes = Some parsed /\
    parsed_method parsed = Some m /\ method_from_bytes m = Some (req_method request) /\
    parsed_path parsed = Some target /\ uri_from_str target = Some (req_uri request) /\
    ((target_path target = "/" /\ (req_method request = "GET" \/ req_method request = "HEAD")) \/
     exists rest, target_path target = "/auth/" ++ rest) /\
    (forall v s, headers_get (req_headers request) "upgrade" = Some v -> header_to_str v = Some s ->
       eq_ignore_ascii_case s "websocket" = false).
Proof. apply parse_plain_request_sound. by_eval. Defined.

Definition plain (head : bytes) : bool := bool_decide (is_Some (parse_plain_request head)).

Example plain_and_other_requests :
  plain <$>
    ["GET / HTTP/1.1\r\nHost: x\r\n\r\n"; "HEAD /?x=1 HTTP/1.1\r\nHost: x\r\n\r\n";
     "DELETE /auth/x HTTP/1.1\r\nHost: x\r\n\r\n";
     "GET / HTTP/1.1\r\nUpgrade: WebSocket\r\n\r\n"; "GET /tcp:h:1 HTTP/1.1\r\nHost: x\r\n\r\n";
     "POST / HTTP/1.1\r\nHost: x\r\n\r\n"; "POST /author HTTP/1.1\r\nHost: x\r\n\r\n"]
  = [true; true; true; false; false; false; false].
Proof. vm_compute. done. Qed.

Definition ok_response : Response :=
  match health_check_response (E := unit) "ok" with Ok r => r | _ => response_new None end.

Example written_response :
  write_response ok_response true =
    "HTTP/1.1 200 OK\r\ncontent-type: text/plain; charset=utf-8\r\ncontent-length: 2\r\nconnection: close\r\n\r\nok".
Proof. vm_compute. done. Qed.

Example response_framing_witness :
  exists lines, client_reads (write_response ok_response false) = Some (lines, []) /\
    head lines = Some ("HTTP/1.1 " ++ show_uint (status ok_response) ++ " " ++
      default [] (canonical_reason (status ok_response))) /\
    (forall name value, (name, value) ∈ headers_iter (headers ok_response) ->
       (name ++ ": " ++ from_utf8_lossy value) ∈ lines) /\
    announced_lengths lines =
      (if decide (status ok_response = 204%Z) then []
       else [show_uint (Z.of_nat (length (default [] (body ok_response))))]) /\
    last lines = Some ("connection: close" : str).
Proof.
  apply (response_framing ok_response false).
  - unfold clean_headers. apply (bool_decide_unpack _). vm_compute. exact I.
  - split; [by apply Z.leb_le | by apply Z.ltb_lt].
  - by apply Z.ltb_lt.
  - by_eval.
Defined.
End HttpProbeTests.
