(* ===== verification/TokenApi.v ===== *)
(** [src/token_api.rs]: the token endpoints, [POST /auth/token], [/auth/refresh], [/auth/revoke].

    [handle_auth_request] is the whole handler: it returns the response and the configuration with
    the token service as the call left it. Its log lines are in [AuditLog]. The theorems: requests that are
    refused early never reach the token store; the answers are no oracle for tokens; what a login
    hands out opens a connection. *)

From S2P Require Import Prelude RustStd Extern Instances Target Args Token TokenAccess TokenStore.
From S2P Require Import Auth AuthSpec.

Inductive Endpoint : Type := LoginEndpoint | RefreshEndpoint | RevokeEndpoint.

(** The endpoint of a path. *)
Definition endpoint_of (path : str) : option Endpoint :=
  if decide (path = "/auth/token") then Some LoginEndpoint
  else if decide (path = "/auth/refresh") then Some RefreshEndpoint
  else if decide (path = "/auth/revoke") then Some RevokeEndpoint
  else None.

Section api.
Context `{Base64} `{Ring} `{Subtle} `{Http}.

(** The handler returns a response or panics. *)
Abbreviation reply := (outcome Empty_set Response).

(** [text_response]. *)
Definition text_response (code : Z) (message : str) : reply :=
  let? v := expect_header "text/plain; charset=utf-8" in
  Ok (with_headers (headers_insert "content-type" v) (with_status code (response_new (Some message)))).

(** [no_store]. *)
Definition no_store (response : Response) : reply :=
  let? v := expect_header "no-store" in
  let response := with_headers (headers_insert "cache-control" v) response in
  let? v := expect_header "no-cache" in
  Ok (with_headers (headers_insert "pragma" v) response).

(** The body of [tokens_response]. *)
Definition tokens_body (issued : IssuedTokens) : str :=
  "{\qtoken_type\q:\qBearer\q,\qaccess_token\q:\q" ++ access_token issued ++
  "\q,\qexpires_in\q:" ++ show_uint (access_expires_in issued) ++
  ",\qrefresh_token\q:\q" ++ refresh_token issued ++
  "\q,\qrefresh_expires_in\q:" ++ show_uint (refresh_expires_in issued) ++ "}".

(** [tokens_response]. *)
Definition tokens_response (issued : IssuedTokens) : reply :=
  let? v := expect_header "application/json" in
  no_store (with_headers (headers_insert "content-type" v)
    (with_status 200 (response_new (Some (tokens_body issued))))).

(** [token_error_response]. *)
Definition token_error_response (err : TokenError) : reply :=
  match err with
  | Full => text_response 503 "too many active logins"
  | _ => text_response 500 "failed to issue tokens"
  end.

(** Whether the request announces a body. *)
Definition has_body (request : Request) : bool :=
  headers_contains (req_headers request) "transfer-encoding" ||
  match headers_get (req_headers request) "content-length" with
  | Some length => bool_decide (length <> "0")
  | None => false
  end.

(** The [Authorization] header as text. *)
Definition authorization_of (request : Request) : option str :=
  headers_get (req_headers request) AUTHORIZATION ≫= header_to_str.

(** The last [match] of [handle_auth_request]. *)
Definition handle_endpoint (env : Env) (endpoint : Endpoint) (authorization : option str)
    (auth : AuthConfig) (service : TokenService) : reply * TokenService :=
  match endpoint with
  | LoginEndpoint =>
      match authorization ≫= basic_user auth with
      | None => (unauthorized_response true None, service)
      | Some user =>
          match login env user service with
          | (Ok issued, service) => (tokens_response issued, service)
          | (Err err, service) => (token_error_response err, service)
          | (Panicked, service) => (Panicked, service)
          end
      end
  | RefreshEndpoint =>
      match authorization ≫= bearer_token with
      | None => (unauthorized_response false (Some BEARER_CHALLENGE), service)
      | Some token =>
          match refresh env token (has_user auth) service with
          | (Ok (_, issued), service) => (tokens_response issued, service)
          | (Err Invalid, service) | (Err (Reused _), service) =>
              (unauthorized_response false (Some BEARER_INVALID_CHALLENGE), service)
          | (Err err, service) => (token_error_response err, service)
          | (Panicked, service) => (Panicked, service)
          end
      end
  | RevokeEndpoint =>
      match authorization ≫= bearer_token with
      | None => (unauthorized_response false (Some BEARER_CHALLENGE), service)
      | Some token =>
          match revoke env token service with
          | (Panicked, service) => (Panicked, service)
          | (_, service) => (let? response := text_response 204 [] in no_store response, service)
          end
      end
  end.

Definition set_tokens (service : TokenService) (auth : AuthConfig) : AuthConfig :=
  mkAuth (expected_authorizations auth) (fixed_authorizations auth) (auth_file auth)
    (anonymous_targets auth) (fixed_anonymous_targets auth) (anonymous_file auth) (Some service).

(** [handle_auth_request]. *)
Definition handle_auth_request (env : Env) (request : Request) (auth : option AuthConfig) :
    reply * option AuthConfig :=
  match auth ≫= (fun auth => pair auth <$> tokens auth) with
  | None => (text_response 404 "not found", auth)
  | Some (config, service) =>
      match endpoint_of (uri_path (req_uri request)) with
      | None => (text_response 404 "not found", auth)
      | Some endpoint =>
          if decide (req_method request <> "POST") then
            (let? response := text_response 405 "use POST" in
             let? v := expect_header "POST" in
             Ok (with_headers (headers_insert "allow" v) response), auth)
          else if has_body request then (text_response 400 "request must not have a body", auth)
          else
            let '(response, service) :=
              handle_endpoint env endpoint (authorization_of request) config service in
            (response, Some (set_tokens service config))
      end
  end.
End api.

(** ** Theorems *)

Section theorems.
Context `{Base64Laws} `{RingLaws} `{SubtleLaws} `{HttpLaws}.

Lemma text_response_run code message :
  exists r, text_response code message = Ok r /\ status r = code /\ body r = Some message /\
    headers_get_all (headers r) "allow" = [].
Proof.
  unfold text_response. rewrite expect_header_visible by done. cbn [obind].
  eexists. split; [done|]. cbn [status body headers with_headers with_status response_new].
  repeat (split; [done|]). by rewrite get_all_insert, decide_False, get_all_new.
Qed.

(** The answers given before the token store is touched. *)
Definition refusal (request : Request) (auth : option AuthConfig) : option (Z * list bytes) :=
  match auth ≫= tokens, endpoint_of (uri_path (req_uri request)) with
  | Some _, Some _ =>
      if decide (req_method request <> "POST") then Some (405%Z, ["POST" : bytes])
      else if has_body request then Some (400%Z, []) else None
  | _, _ => Some (404%Z, [])
  end.

Lemma auth_request_gate_run env request auth :
  match refusal request auth with
  | Some (code, allow) =>
      exists r, handle_auth_request env request auth = (Ok r, auth) /\ status r = code /\
        headers_get_all (headers r) "allow" = allow
  | None =>
      exists config service endpoint, auth = Some config /\ tokens config = Some service /\
        endpoint_of (uri_path (req_uri request)) = Some endpoint /\
        handle_auth_request env request auth =
          let '(response, service) :=
            handle_endpoint env endpoint (authorization_of request) config service in
          (response, Some (set_tokens service config))
  end.
Proof.
  unfold refusal, handle_auth_request.
  destruct auth as [config|]; cbn [mbind option_bind].
  2:{ destruct (text_response_run 404 "not found") as (r & -> & ? & _ & ?). by exists r. }
  destruct (tokens config) as [service|] eqn:Et; cbn [fmap option_fmap option_map].
  2:{ destruct (text_response_run 404 "not found") as (r & -> & ? & _ & ?). by exists r. }
  destruct (endpoint_of _) as [endpoint|].
  2:{ destruct (text_response_run 404 "not found") as (r & -> & ? & _ & ?). by exists r. }
  case_decide.
  { destruct (text_response_run 405 "use POST") as (r & -> & ? & _ & ?). cbn [obind].
    rewrite expect_header_visible by done. cbn [obind]. eexists. split; [done|].
    cbn [status headers with_headers]. split; [done|]. by rewrite get_all_insert, decide_True. }
  destruct (has_body request).
  { destruct (text_response_run 400 "request must not have a body") as (r & -> & ? & _ & ?).
    by exists r. }
  by exists config, service, endpoint.
Qed.

(** The gate of the token endpoints. An unknown endpoint (or any, when authentication is off)
    answers 404, a method other than POST 405 with [Allow: POST], a request with a body 400, and
    none of these changes anything; every other request reaches its endpoint. *)
Theorem auth_request_gate env request auth :
  match refusal request auth with
  | Some (code, allow) =>
      exists r, handle_auth_request env request auth = (Ok r, auth) /\ status r = code /\
        headers_get_all (headers r) "allow" = allow
  | None =>
      exists config service endpoint, auth = Some config /\ tokens config = Some service /\
        endpoint_of (uri_path (req_uri request)) = Some endpoint /\
        handle_auth_request env request auth =
          let '(response, service) :=
            handle_endpoint env endpoint (authorization_of request) config service in
          (response, Some (set_tokens service config))
  end.
Proof. apply auth_request_gate_run. Qed.

(** A refused refresh: the token is unknown, expired, of a removed user, or was used before. *)
Definition refused (r : outcome TokenError (str * IssuedTokens)) : Prop :=
  r = Err Invalid \/ exists user, r = Err (Reused user).

(** C25: the answers are no oracle. A logout is answered the same whether or not the token was known;
    a refused refresh is answered the same whether the token is unknown, expired or was reused. *)
Theorem answers_are_no_oracle env auth service a1 a2 t1 t2 :
  poisoned (state service) = false -> fits service (instant_now env) ->
  bearer_token a1 = Some t1 -> bearer_token a2 = Some t2 ->
  (handle_endpoint env RevokeEndpoint (Some a1) auth service).1 =
    (handle_endpoint env RevokeEndpoint (Some a2) auth service).1 /\
  (refused (refresh env t1 (has_user auth) service).1 ->
   refused (refresh env t2 (has_user auth) service).1 ->
   (handle_endpoint env RefreshEndpoint (Some a1) auth service).1 =
     (handle_endpoint env RefreshEndpoint (Some a2) auth service).1).
Proof.
  intros Hp Hfit Ha1 Ha2. unfold handle_endpoint. cbn [mbind option_bind]. rewrite Ha1, Ha2. split.
  - rewrite !revoke_run by done. repeat case_match; simplify_eq; done.
  - destruct (refresh env t1 _ _) as [r1 s1], (refresh env t2 _ _) as [r2 s2]. cbn [fst].
    by intros [-> | [u1 ->]] [-> | [u2 ->]].
Qed.

Definition quote : byte := x22.

(** The answer to a successful login or refresh: status 200, no caching, and a body that splits at its
    quotes into exactly the issued values, so no escaping is missing. *)
Theorem tokens_response_fields issued :
  quote ∉ access_token issued -> quote ∉ refresh_token issued ->
  (0 <= access_expires_in issued < U64_MODULUS)%Z ->
  (0 <= refresh_expires_in issued < U64_MODULUS)%Z ->
  exists r b, tokens_response issued = Ok r /\ status r = 200%Z /\ body r = Some b /\
    headers_get_all (headers r) "cache-control" = ["no-store" : bytes] /\
    split_on (fun c => bool_decide (c = quote)) b =
      ["{"; "token_type"; ":"; "Bearer"; ","; "access_token"; ":"; access_token issued; ",";
       "expires_in"; ":" ++ show_uint (access_expires_in issued) ++ ","; "refresh_token"; ":";
       refresh_token issued; ","; "refresh_expires_in";
       ":" ++ show_uint (refresh_expires_in issued) ++ "}"].
Proof.
  intros Ha Hr Hae Hre. unfold tokens_response, no_store.
  rewrite !expect_header_visible by done. cbn [obind]. eexists _, (tokens_body issued).
  split; [done|]. split; [done|]. split; [done|]. split.
  { cbn [headers with_headers with_status response_new].
    by rewrite get_all_insert, decide_False, get_all_insert, decide_True. }
  assert (Hstep : forall (l s : str), quote ∉ l ->
    split_on (fun c => bool_decide (c = quote)) (l ++ quote :: s) =
      l :: split_on (fun c => bool_decide (c = quote)) s).
  { intros l s Hl. rewrite split_on_app by done.
    rewrite split_on_single; [done|]. apply Forall_forall. intros c Hc.
    apply bool_decide_eq_false. intros ->. done. }
  assert (Hnum : forall n, (0 <= n < U64_MODULUS)%Z -> quote ∉ show_uint n)
    by by intros n Hn Hin%show_uint_chars.
  transitivity (split_on (fun c => bool_decide (c = quote))
    ("{" ++ quote :: "token_type" ++ quote :: ":" ++ quote :: "Bearer" ++ quote :: "," ++ quote ::
     "access_token" ++ quote :: ":" ++ quote :: access_token issued ++ quote :: "," ++ quote ::
     "expires_in" ++ quote :: (":" ++ show_uint (access_expires_in issued) ++ ",") ++ quote ::
     "refresh_token" ++ quote :: ":" ++ quote :: refresh_token issued ++ quote :: "," ++ quote ::
     "refresh_expires_in" ++ quote :: (":" ++ show_uint (refresh_expires_in issued) ++ "}"))).
  { unfold tokens_body, lit. cbn [app]. by rewrite <- !app_assoc. }
  rewrite !Hstep by first [exact Ha | exact Hr | by apply (bool_decide_unpack _)
    | unfold lit; rewrite !not_elem_of_app; split; [by apply (bool_decide_unpack _)|];
      split; [by apply Hnum | by apply (bool_decide_unpack _)]].
  rewrite split_on_single; [done|]. apply Forall_forall. intros c Hc.
  apply bool_decide_eq_false. intros ->. revert Hc. change (quote ∉ ":" ++ show_uint (refresh_expires_in issued) ++ "}").
  unfold lit. rewrite !not_elem_of_app. split; [by apply (bool_decide_unpack _)|].
  split; [by apply Hnum | by apply (bool_decide_unpack _)].
Qed.

(** ** No call panics *)

Lemma tokens_response_Ok issued : is_ok (tokens_response issued) = true.
Proof. unfold tokens_response, no_store. by rewrite !expect_header_visible. Qed.

(** The service of a configuration is in order and its clock readings have room. *)
Definition ready (env : Env) (auth : AuthConfig) : Prop :=
  forall s, tokens auth = Some s ->
    poisoned (state s) = false /\ fits s (instant_now env).

(** The configuration with the token service moved on. *)
Definition auth_carries_on (auth auth' : AuthConfig) : Prop :=
  auth' = auth \/
  exists s s', tokens auth = Some s /\ carries_on s s' /\ auth' = set_tokens s' auth.

Lemma handle_endpoint_total env endpoint a auth service :
  poisoned (state service) = false -> fits service (instant_now env) ->
  is_ok (handle_endpoint env endpoint a auth service).1 = true /\
  carries_on service (handle_endpoint env endpoint a auth service).2.
Proof.
  intros Hp Hfit.
  assert (Herr : forall err, is_ok (token_error_response err) = true).
  { intros err. unfold token_error_response, text_response.
    destruct err; by rewrite expect_header_visible. }
  assert (H401 : forall basic bearer,
    forallb (in_range 32 126) (default [] bearer) = true ->
    is_ok (unauthorized_response (E := Empty_set) basic bearer) = true).
  { intros basic bearer Hb.
    destruct (unauthorized_response_run (E := Empty_set) basic bearer) as (r & -> & _); [|done].
    destruct bearer; by repeat constructor. }
  unfold handle_endpoint. destruct endpoint.
  - destruct (a ≫= basic_user auth) as [u|]; [|by split; [apply H401|]].
    destruct (login_carries_on env service Hp Hfit u) as [Hnp Hc].
    destruct (login env u service) as [[i|e|] s]; [| |done];
      (split; [apply tokens_response_Ok || apply Herr | done]).
  - destruct (a ≫= bearer_token) as [t|]; [|by split; [apply H401|]].
    destruct (refresh_carries_on env service Hp Hfit t (has_user auth)) as [Hnp Hc].
    destruct (refresh env t _ service) as [[[u i]|[]|] s]; try done;
      (split; [apply tokens_response_Ok || apply Herr || by apply H401 | done]).
  - destruct (a ≫= bearer_token) as [t|]; [|by split; [apply H401|]].
    destruct (revoke_carries_on env service Hp Hfit t) as [Hnp Hc].
    assert (H204 : is_ok (let? response := text_response 204 [] in no_store response) = true).
    { unfold text_response, no_store. by rewrite !expect_header_visible. }
    by destruct (revoke env t service) as [[[]| |] s].
Qed.

Lemma handle_auth_request_total env request auth :
  ready env auth ->
  is_ok (handle_auth_request env request (Some auth)).1 = true /\
  exists auth', (handle_auth_request env request (Some auth)).2 = Some auth' /\
    auth_carries_on auth auth'.
Proof.
  intros Hready. pose proof (auth_request_gate_run env request (Some auth)) as Hgate.
  destruct (refusal request (Some auth)) as [[code allow]|].
  - destruct Hgate as (r & -> & _). split; [done|]. exists auth. split; [done | by left].
  - destruct Hgate as (config & service & endpoint & [= <-] & Hs & _ & ->).
    destruct (Hready service Hs) as [Hp Hfit].
    pose proof (handle_endpoint_total env endpoint (authorization_of request) auth service Hp Hfit)
      as [Hok Hc].
    destruct (handle_endpoint _ _ _ _ _) as [r s]. split; [done|]. eexists. split; [done|].
    right. by exists service, s.
Qed.

(** ** From a login to a connection *)

(** Access tokens are base64url with a dot: nothing to trim or to quote. *)
Definition token_char (c : byte) : bool := url_char c || bool_decide (c = x2e).

Lemma sign_payload_chars k p : forallb token_char (sign_payload k p) = true.
Proof.
  unfold sign_payload. rewrite !forallb_app. apply andb_true_iff. split; [|apply andb_true_iff; split; [done|]];
    apply url_char_facts; intros c Hc; unfold token_char; by rewrite Hc.
Qed.

Lemma token_char_visible t : forallb token_char t = true -> Forall (fun c => 33 <= bz c <= 126)%Z t.
Proof.
  intros Ht. apply Forall_forall. intros c Hc%list_elem_of_In. rewrite forallb_forall in Ht.
  apply Ht in Hc. clear Ht. destruct c; vm_compute in Hc; try done; by vm_compute.
Qed.

(** The header value a client sends for an access token. *)
Definition bearer_authorization (token : str) : str := "Bearer " ++ token.

Lemma bearer_token_of t :
  t <> [] -> Forall (fun c => 33 <= bz c <= 126)%Z t ->
  bearer_token (bearer_authorization t) = Some t.
Proof.
  intros Hne Ht. unfold bearer_token, bearer_authorization.
  rewrite (proj2 (split_once_char_Some x20 _ "Bearer" t)).
  - cbn [mbind option_bind]. change (eq_ignore_ascii_case "Bearer" "bearer") with true. cbv iota zeta.
    by rewrite trim_visible, decide_False.
  - split; [done | by apply (bool_decide_unpack _)].
Qed.

(** C11: from a login to a connection. A login answers with an access token that, presented as a bearer
    token at any later time, to whatever the configuration has become and whatever state the token
    service is in (its mutex in order), opens a
    connection to an upstream that is not open to anyone, as the user who logged in, exactly while it
    has not expired, its login has not been ended, and the user is (still) one of the configuration:
    removing the user takes the token's force away. To an open target it is not needed, and the
    connection is anonymous. At the login the clock has room for the lifetimes and random
    buffers are filled. *)
Theorem login_opens_connections env auth service a u issued service' env' request auth' service2 :
  wf_auth auth -> tokens auth = Some service ->
  poisoned (state service) = false -> fits service (instant_now env) ->
  (forall n b, random_fill env n = Some b -> length b = n) -> is_utf8 u = true ->
  basic_user auth a = Some u -> login env u service = (Ok issued, service') ->
  wf_auth auth' -> tokens auth' = Some service2 -> carries_on service' service2 ->
  headers_get (req_headers request) AUTHORIZATION =
    Some (bearer_authorization (access_token issued)) ->
  handle_endpoint env LoginEndpoint (Some a) auth service = (tokens_response issued, service') /\
  exists family, random_fill env 8 = Some family /\
    (open_target auth' (uri_path (req_uri request)) ->
     authorize_request env' request (Some auth') = Ok ANONYMOUS_AUTH_USER) /\
    (~ open_target auth' (uri_path (req_uri request)) ->
     authorize_request env' request (Some auth') = Ok u <->
     (unix_now env' < u64_add (unix_now env) (as_secs (access_ttl service)))%Z /\
     revoked (inner (state service2)) !! from_be_bytes family = None /\
     exists c, configured auth' c u).
Proof.
  intros Hwf Htok Hp Hfit Hrand Hu Hbasic Hlogin Hwf' Htok' (Hp2 & Hkey & _) Hhdr. split.
  { unfold handle_endpoint. cbn [mbind option_bind]. by rewrite Hbasic, Hlogin. }
  destruct (login_inv env u service issued service' Hp Hfit Hrand Hu Hlogin)
    as (b & Hb & _ & Hacc & _). cbv zeta in *.
  assert (Hkey' : key service' = key service).
  { pose proof (login_carries_on env service Hp Hfit u) as [_ (_ & Hk & _)]. by rewrite Hlogin in Hk. }
  exists b. split; [done|].
  assert (Hchars : forallb token_char (access_token issued) = true)
    by (rewrite Hacc; apply sign_payload_chars).
  pose proof (token_char_visible _ Hchars) as Hvis.
  assert (Hne : access_token issued <> []).
  { rewrite Hacc. intros E. apply (f_equal length) in E. unfold mint_access, sign_payload in E.
    rewrite !length_app in E. cbn in E. lia. }
  assert (Hstr : header_to_str (bearer_authorization (access_token issued)) =
                 Some (bearer_authorization (access_token issued))).
  { apply header_to_str_visible. unfold bearer_authorization. rewrite forallb_app. cbn [forallb].
    apply forallb_forall. intros c Hc%list_elem_of_In. rewrite Forall_forall in Hvis.
    apply Hvis in Hc. unfold in_range. lia. }
  assert (Hverify : (verify_access env' (access_token issued) service2).1 =
    Ok (if decide ((unix_now env' < u64_add (unix_now env) (as_secs (access_ttl service)))%Z /\
                   revoked (inner (state service2)) !! from_be_bytes b = None)
        then Some u else None)).
  { rewrite verify_access_run by done. rewrite Hacc. unfold mint_access. rewrite <- Hkey', <- Hkey.
    apply open_signed; [by apply from_be_u64, Hrand | apply u64_add_u64 | done]. }
  unfold authorize_request. pose proof (allows_anonymous_iff auth' (uri_path (req_uri request)) Hwf') as Ho.
  destruct (allows_anonymous_target _ _).
  { split; [done|]. intros Hclosed. destruct Hclosed. by apply Ho. }
  split; [by intros ?%Ho|]. intros _. rewrite Hhdr.
  cbn [mbind option_bind]. rewrite Hstr, bearer_token_of by done.
  unfold verify_access_token. rewrite Htok', Hverify. rewrite <- (has_user_iff auth' u Hwf').
  case_decide as Hd; [destruct (has_user auth' u)|]; cbn [obind].
  - split; [intros _; by destruct Hd | done].
  - split; [by destruct (unauthorized_response _ _) | by intros (_ & _ & ?)].
  - split; [by destruct (unauthorized_response _ _) | intros (? & ? & _); tauto].
Qed.
End theorems.

(** ** Witnesses *)

Module TokenApiTests.
Import TokenTests AuthTests.

(** The service of the test configuration. *)
Definition service0 : TokenService :=
  default (service 600 3600) (tokens auth).

Lemma service0_tokens : tokens auth = Some service0.
Proof. by_eval. Qed.

Lemma service0_fits secs : (0 <= secs <= 1000000)%Z -> fits service0 (from_secs secs).
Proof. intros. apply (fits_tests _ 600 3600); [by_eval | by_eval | lia..]. Qed.

Definition post (path : str) (authorization : str) : Request :=
  mkRequest "POST" path (headers_insert AUTHORIZATION authorization headers_new).

Definition alice : str := basic_authorization "alice:secret".
Definition issued0 : IssuedTokens :=
  match (login (env_at 2 66) "alice" service0).1 with Ok i => i | _ => first end.
Definition service1 : TokenService := (login (env_at 2 66) "alice" service0).2.

Lemma login0 : login (env_at 2 66) "alice" service0 = (Ok issued0, service1).
Proof. by_eval. Qed.

Definition code (r : outcome Empty_set Response * option AuthConfig) : Z :=
  match r.1 with Ok r => status r | _ => 0%Z end.

Example statuses :
  (fun r => code (handle_auth_request (env_at 2 66) r (Some auth))) <$>
    [post "/auth/token" alice; post "/auth/token" "Basic xyz"; post "/auth/nope" alice;
     mkRequest "GET" "/auth/token" headers_new; post "/auth/refresh" "Bearer nope";
     post "/auth/revoke" "Bearer nope"; post "/auth/revoke" alice;
     mkRequest "POST" "/auth/token" (headers_insert "content-length" "3" headers_new)]
  = [200; 401; 404; 405; 401; 204; 401; 400]%Z.
Proof. by_eval. Qed.

Example auth_off : code (handle_auth_request (env_at 2 66) (post "/auth/token" alice) None) = 404%Z.
Proof. by_eval. Qed.

Example auth_request_gate_witness :
  exists r, handle_auth_request (env_at 2 66) (mkRequest "GET" "/auth/token" headers_new)
      (Some auth) = (Ok r, Some auth) /\ status r = 405%Z /\
    headers_get_all (headers r) "allow" = ["POST" : bytes].
Proof. exact (auth_request_gate _ (mkRequest "GET" "/auth/token" headers_new) (Some auth)). Defined.

Example answers_are_no_oracle_witness :
  (handle_endpoint (env_at 3 67) RevokeEndpoint
     (Some (bearer_authorization (refresh_token issued0))) auth service1).1 =
  (handle_endpoint (env_at 3 67) RevokeEndpoint (Some "Bearer never-issued") auth service1).1.
Proof.
  refine (proj1 (answers_are_no_oracle (env_at 3 67) auth service1 _ _ (refresh_token issued0)
    "never-issued" _ _ _ _));
    [by_eval | apply (fits_tests _ 600 3600); [by_eval | by_eval | lia..] | by_eval | by_eval].
Defined.

Example tokens_response_fields_witness :
  exists r b, tokens_response issued0 = Ok r /\ status r = 200%Z /\ body r = Some b /\
    headers_get_all (headers r) "cache-control" = ["no-store" : bytes] /\
    split_on (fun c => bool_decide (c = quote)) b =
      ["{"; "token_type"; ":"; "Bearer"; ","; "access_token"; ":"; access_token issued0; ",";
       "expires_in"; ":" ++ show_uint (access_expires_in issued0) ++ ","; "refresh_token"; ":";
       refresh_token issued0; ","; "refresh_expires_in";
       ":" ++ show_uint (refresh_expires_in issued0) ++ "}"].
Proof.
  apply tokens_response_fields.
  - apply (bool_decide_unpack _). vm_compute. exact I.
  - apply (bool_decide_unpack _). vm_compute. exact I.
  - split; [by apply Z.leb_le; by_eval | by apply Z.ltb_lt; by_eval].
  - split; [by apply Z.leb_le; by_eval | by apply Z.ltb_lt; by_eval].
Defined.

(** Alice logs in; later she is removed from the credentials. *)
Definition auth_without_alice : AuthConfig := set_expected [basic_authorization "bob:pass:word"] (set_tokens service1 auth).
Definition with_token : Request :=
  AuthTests.request "/tcp:a:1" (Some (bearer_authorization (access_token issued0))).

Lemma auth_without_alice_wf : wf_auth auth_without_alice.
Proof.
  destruct auth_wf as (_ & _ & Hrest). split; [done|]. split; [|done]. constructor; [|done].
  exists "bob:pass:word". split; [done | by_eval].
Qed.

Example login_opens_connections_witness :
  exists family, random_fill (env_at 2 66) 8 = Some family /\
    (open_target auth_without_alice (uri_path (req_uri with_token)) ->
     authorize_request (env_at 100 0) with_token (Some auth_without_alice) = Ok ANONYMOUS_AUTH_USER) /\
    (~ open_target auth_without_alice (uri_path (req_uri with_token)) ->
     authorize_request (env_at 100 0) with_token (Some auth_without_alice) = Ok ("alice" : str) <->
     (unix_now (env_at 100 0) < u64_add (unix_now (env_at 2 66)) (as_secs (access_ttl service0)))%Z /\
     revoked (inner (state service1)) !! from_be_bytes family = None /\
     exists c, configured auth_without_alice c "alice").
Proof.
  refine (proj2 (login_opens_connections (env_at 2 66) auth service0 alice "alice" issued0 service1
    (env_at 100 0) with_token auth_without_alice service1 _ _ _ _ _ _ _ _ _ _ _ _)).
  - apply auth_wf.
  - apply service0_tokens.
  - by_eval.
  - apply service0_fits. lia.
  - intros n b [= <-]. apply length_replicate.
  - reflexivity.
  - by_eval.
  - apply login0.
  - apply auth_without_alice_wf.
  - reflexivity.
  - apply carries_on_refl. by_eval.
  - by_eval.
Defined.

Example alice_is_in_until_removed :
  (fun a => match authorize_request (env_at 100 0) with_token (Some a) with Ok u => u | _ => [] end)
    <$> [set_tokens service1 auth; auth_without_alice] = ["alice" : str; []].
Proof. by_eval. Qed.
End TokenApiTests.
