(* ===== verification/Proxy.v ===== *)
(** [src/proxy.rs]: a connection from its request head to its end.

    [handle_head] decides what becomes of a connection once its head is read: a plain HTTP answer, a
    refused or failed handshake, a health check, or a proxied upstream. [proxy_tcp] and [proxy_udp]
    are the two forwarding loops: a [select!] loop is a step function over the events it selects,
    each paired with whether the write it causes succeeds. [handle_connection] is the whole
    connection: reading the head, the decision, sending the answer of the handshake (which can
    fail), connecting the upstream, allocating the buffer of the TCP loop, forwarding. The theorems:
    no upstream is reached without authorization; no connection panics while the clock has room for
    the lifetimes and the buffer size is one an allocation can have; the loops forward every
    byte, in order, and keep datagram boundaries; an idle UDP session ends, a busy one does not. *)

From S2P Require Import Prelude RustStd Extern Instances Net Target ClientAddr Args Token.
From S2P Require Import TokenAccess TokenStore Auth AuthSpec HttpProbe TokenApi.

Definition UDP_DATAGRAM_BUFFER : nat := Z.to_nat 65536.
Definition HEALTH_CHECK_PATH : str := "/".
Definition HEALTH_CHECK_MESSAGE : str :=
  "ok: ws2tcp-router " ++ "0.2.2" ++ " is available; health check only, no upstream connected".
Definition HEALTH_CHECK_CLOSE_REASON : str := "health check".
Definition BAD_PATH_MESSAGE : str :=
  "path must be /tcp:<host>:<port> or /udp:<host>:<port>, with IPv6 hosts formatted as [host]:port".

Inductive Route : Type :=
  | HealthCheck
  | ProxyTo (target : Target).

(** A close frame is a code and a reason. *)
Inductive Message : Type :=
  | Binary (payload : bytes)
  | Text (text : str)
  | Ping (payload : bytes)
  | Pong (payload : bytes)
  | Close (frame : option (Z * str))
  | RawFrame (payload : bytes).

(** The messages of a health check: [CloseCode::Normal] is 1000. *)
Definition health_check_messages : list Message :=
  [Text HEALTH_CHECK_MESSAGE; Close (Some (1000%Z, HEALTH_CHECK_CLOSE_REASON))].

(** ** The connection *)

Section connection.
Context `{Base64} `{Ring} `{Subtle} `{Http} `{HttParse}.

(** [request_user_agent]. *)
Definition request_user_agent (request : Request) : str :=
  default "-" (headers_get (req_headers request) "user-agent" ≫= header_to_str).

(** What the handshake callback leaves behind for [handle_connection]. *)
Record Slots : Type := mkSlots {
  requested_target : option Route;
  authenticated_user : option str;
  user_agent : option str;
}.

(** [capture_requested_target]. *)
Definition capture_requested_target (request : Request) (slots : Slots) :
    outcome Response unit * Slots :=
  let set route := mkSlots (Some route) (authenticated_user slots) (user_agent slots) in
  let path := uri_path (req_uri request) in
  if decide (path = HEALTH_CHECK_PATH) then (Ok tt, set HealthCheck)
  else
    match parse_target path with
    | Ok target => (Ok tt, set (ProxyTo target))
    | _ => (Err (with_status 400 (response_new (Some BAD_PATH_MESSAGE))), slots)
    end.

(** The callback of [accept_hdr_async]. *)
Definition handshake_callback (env : Env) (auth : option AuthConfig) (request : Request) :
    M Slots Response unit :=
  run! modify (fun slots =>
    mkSlots (requested_target slots) (authenticated_user slots) (Some (request_user_agent request))) in
  do! auth_user := lift (authorize_request env request auth) in
  run! modify (fun slots => mkSlots (requested_target slots) (Some auth_user) (user_agent slots)) in
  capture_requested_target request.

(** What becomes of a connection. *)
Inductive Plan : Type :=
  | Answered (response : Response) (include_body : bool)   (* plain HTTP, then closed *)
  | HandshakeFailed                                        (* not a websocket handshake *)
  | Refused (response : Response)                          (* handshake refused *)
  | NotCaptured                                            (* a slot was left empty *)
  | HealthChecked (user : str)                             (* the health check messages *)
  | Proxied (user : str) (target : Target).                (* connect and forward *)

(** The stream of a connection: its reads to come. The request [tungstenite] hands to the callback is
    a function of what it reads from the replayed stream; [None] when that is no websocket
    handshake. *)
Variable accept_request : ReplayStream (list read_result) -> option Request.

(** A plain request: the response, and the configuration after it. *)
Definition answer_plain (env : Env) (auth : option AuthConfig) (request : Request) :
    outcome Empty_set Response * option AuthConfig :=
  if decide (uri_path (req_uri request) = HEALTH_CHECK_PATH) then
    (match authorize_request env request auth with
     | Ok _ => health_check_response HEALTH_CHECK_MESSAGE
     | Err response => Ok response
     | Panicked => Panicked
     end, auth)
  else handle_auth_request env request auth.

(** The websocket half of [handle_connection]. *)
Definition handshake (env : Env) (auth : option AuthConfig) (head : bytes) (rest : list read_result) :
    outcome Empty_set Plan :=
  match accept_request (replay_new head rest) with
  | None => Ok HandshakeFailed
  | Some request =>
      match handshake_callback env auth request (mkSlots None None None) with
      | (Panicked, _) => Panicked
      | (Err response, _) => Ok (Refused response)
      | (Ok _, slots) =>
          match requested_target slots, authenticated_user slots, user_agent slots with
          | Some HealthCheck, Some user, Some _ => Ok (HealthChecked user)
          | Some (ProxyTo target), Some user, Some _ => Ok (Proxied user target)
          | _, _, _ => Ok NotCaptured
          end
      end
  end.

(** [handle_connection] once the head is read: the address it reports, what it does, and the
    configuration after it. The handshake sees the head again, then the reads to come. *)
Definition handle_head (env : Env) (auth : option AuthConfig) (trusted : TrustedProxies)
    (peer : SocketAddr) (head : bytes) (rest : list read_result) :
    ClientAddr * (outcome Empty_set Plan * option AuthConfig) :=
  (client_addr trusted peer head,
   match parse_plain_request head with
   | Some request =>
       let '(response, auth) := answer_plain env auth request in
       (let? response := response in
        Ok (Answered response (bool_decide (req_method request <> "HEAD"))), auth)
   | None => (handshake env auth head rest, auth)
   end).

End connection.

(** ** The forwarding loops *)

(** What a loop does: writes to the upstream and to the websocket. *)
Inductive Action : Type :=
  | Upstream (payload : bytes)
  | ShutdownUpstream
  | WsSend (message : Message).

Inductive Next : Type :=
  | Continue
  | Finished
  | Failed
  | Crashed.    (* a panic *)
#[export] Instance Next_eq_dec : EqDecision Next.
Proof. solve_decision. Defined.

(** What [select!] picked: the next websocket item, or a read of the upstream. *)
Inductive Event : Type :=
  | WsNext (item : option (outcome unit Message))
  | Received (result : read_result)
  | IdleTimeout.

Definition must (ok : bool) (next : Next) : Next := if ok then next else Failed.

(** One iteration of [proxy_tcp]; [ok] says whether the write it makes succeeds. *)
Definition tcp_step (event : Event * bool) : list Action * Next :=
  let '(event, ok) := event in
  match event with
  | WsNext (Some (Ok (Binary payload))) => ([Upstream payload], must ok Continue)
  | WsNext (Some (Ok (Text text))) => ([Upstream text], must ok Continue)
  | WsNext (Some (Ok (Ping payload))) => ([WsSend (Pong payload)], must ok Continue)
  | WsNext (Some (Ok (Pong _))) => ([], Continue)
  | WsNext (Some (Ok (RawFrame _))) => ([], Continue)
  | WsNext (Some (Ok (Close _))) => ([ShutdownUpstream], must ok Finished)
  | WsNext (Some _) => ([], Failed)
  | WsNext None => ([ShutdownUpstream], must ok Finished)
  | Received (Ok []) => ([WsSend (Close None)], Finished)
  | Received (Ok data) => ([WsSend (Binary data)], must ok Continue)
  | Received _ => ([], Failed)
  | IdleTimeout => ([], Continue)      (* no timer in this loop *)
  end.

(** [UdpSocket::recv] drops what does not fit the buffer. *)
Definition recv (datagram : bytes) : bytes := take UDP_DATAGRAM_BUFFER datagram.

(** One iteration of [proxy_udp]; a received datagram is the whole datagram. *)
Definition udp_step (event : Event * bool) : list Action * Next :=
  let '(event, ok) := event in
  match event with
  | WsNext (Some (Ok (Binary payload))) => ([Upstream payload], must ok Continue)
  | WsNext (Some (Ok (Text text))) => ([Upstream text], must ok Continue)
  | WsNext (Some (Ok (Ping payload))) => ([WsSend (Pong payload)], must ok Continue)
  | WsNext (Some (Ok (Pong _))) => ([], Continue)
  | WsNext (Some (Ok (RawFrame _))) => ([], Continue)
  | WsNext (Some (Ok (Close _))) => ([], Finished)
  | WsNext (Some _) => ([], Failed)
  | WsNext None => ([], Finished)
  | Received (Ok datagram) => ([WsSend (Binary (recv datagram))], must ok Continue)
  | Received _ => ([], Failed)
  | IdleTimeout => ([WsSend (Close None)], Finished)
  end.

(** A loop over the events it meets, up to its end. *)
Fixpoint run_loop (step : Event * bool -> list Action * Next) (events : list (Event * bool)) :
    list Action * Next :=
  match events with
  | [] => ([], Continue)
  | e :: rest =>
      match step e with
      | (actions, Continue) =>
          let '(more, next) := run_loop step rest in (actions ++ more, next)
      | (actions, next) => (actions, next)
      end
  end.

(** The largest size of an allocation: a [vec!] of more bytes panics with a capacity overflow. *)
Definition ISIZE_MAX : Z := 2 ^ 63 - 1.

(** [proxy_tcp]: the read buffer is allocated before the loop. *)
Definition proxy_tcp (buffer_size : Z) (events : list (Event * bool)) : list Action * Next :=
  if (ISIZE_MAX <? buffer_size)%Z then ([], Crashed) else run_loop tcp_step events.

(** The timers of [proxy_udp]: both are started anew by every iteration, so the loop meets
    [IdleTimeout] when nothing happened for [idle] since the last event. Events carry the time they
    are ready; one iteration takes no time. *)
Fixpoint with_timer (idle now : Z) (events : list (Z * (Event * bool))) : list (Event * bool) :=
  match events with
  | [] => [(IdleTimeout, true)]
  | (t, e) :: rest =>
      if (t - now <? idle)%Z then e :: with_timer idle t rest else [(IdleTimeout, true)]
  end.

Definition proxy_udp (idle start : Z) (events : list (Z * (Event * bool))) : list Action * Next :=
  run_loop udp_step (with_timer idle start events).

(** ** The whole connection *)

Inductive UdpError : Type :=
  | UdpUnresolved
  | UdpNoAddress
  | UdpBindFailed
  | UdpConnectFailed.

(** The network: whether the answer to an accepted handshake can be written, whether connecting
    succeeds, and what the forwarding loops then meet. *)
Record Network : Type := mkNetwork {
  handshake_sent : bool;
  tcp_connect : str -> bool;
  lookup_host : str -> option (list SocketAddr);
  udp_bind : str -> bool;
  udp_connect : SocketAddr -> bool;
  tcp_session : list (Event * bool);
  udp_session : list (Z * (Event * bool));
}.

(** The local address a UDP socket binds to. *)
Definition local_bind (addr : SocketAddr) : str :=
  if is_ipv4 (sock_ip addr) then "0.0.0.0:0" else "[::]:0".

(** [connect_udp]: the local address and the peer of the socket. *)
Definition connect_udp (net : Network) (target_addr : str) : outcome UdpError (str * SocketAddr) :=
  let? addrs := ok_or UdpUnresolved (lookup_host net target_addr) in
  let? addr := ok_or UdpNoAddress (head addrs) in
  let local := local_bind addr in
  let? _ := if udp_bind net local then Ok tt else Err UdpBindFailed in
  let? _ := if udp_connect net addr then Ok tt else Err UdpConnectFailed in
  Ok (local, addr).

Inductive ConnectionError : Type :=
  | HeadUnreadable
  | HandshakeError
  | SlotNotCaptured
  | UpstreamFailed (upstream : str)
  | ForwardingFailed.

(** What a connection does to the outside. *)
Inductive Effect `{Http} : Type :=
  | Respond (answer : bytes)                      (* written to the client, which is shut down *)
  | RefuseHandshake (response : Response)         (* the answer of [tungstenite] *)
  | SendMessage (message : Message)               (* on the websocket *)
  | ConnectTcp (upstream : str)                   (* the attempt, whether it succeeds or not *)
  | LookupUdp (upstream : str)                    (* likewise *)
  | ConnectUdp (upstream local : str) (remote : SocketAddr)
                                                  (* a socket bound to [local] is connected *)
  | Forwarding (action : Action).

(** What [connect_udp] does, up to where it fails: the look-up, and the connection of the socket when
    it could be bound. *)
Definition connect_udp_effects `{Http} (net : Network) (target_addr : str) : list Effect :=
  LookupUdp target_addr ::
  match lookup_host net target_addr ≫= head with
  | Some addr =>
      if udp_bind net (local_bind addr) then [ConnectUdp target_addr (local_bind addr) addr] else []
  | None => []
  end.

(** The end of a forwarding loop; [None] while it runs. *)
Definition loop_end (next : Next) : option (outcome ConnectionError unit) :=
  match next with
  | Continue => None
  | Finished => Some (Ok tt)
  | Failed => Some (Err ForwardingFailed)
  | Crashed => Some Panicked
  end.

Section whole.
Context `{Base64} `{Ring} `{Subtle} `{Http} `{HttParse}.
Variable accept_request : ReplayStream (list read_result) -> option Request.

(** The rest of [handle_connection]: its effects and its result. A handshake the callback accepted
    fails when its answer cannot be written. Failures to answer a client that may be gone are
    ignored; [start] is the time the loop starts. *)
Definition run_plan (net : Network) (buffer_size idle start : Z) (plan : Plan) :
    list Effect * option (outcome ConnectionError unit) :=
  match plan with
  | Answered response include_body => ([Respond (write_response response include_body)], Some (Ok tt))
  | HandshakeFailed => ([], Some (Err HandshakeError))
  | Refused response => ([RefuseHandshake response], Some (Err HandshakeError))
  | NotCaptured => ([], Some (Err SlotNotCaptured))
  | HealthChecked _ =>
      if handshake_sent net then (SendMessage <$> health_check_messages, Some (Ok tt))
      else ([], Some (Err HandshakeError))
  | Proxied _ target =>
      if handshake_sent net then
        match protocol target with
        | Tcp =>
            if tcp_connect net (addr target) then
              let '(actions, next) := proxy_tcp buffer_size (tcp_session net) in
              (ConnectTcp (addr target) :: (Forwarding <$> actions), loop_end next)
            else ([ConnectTcp (addr target)], Some (Err (UpstreamFailed (addr target))))
        | Udp =>
            let attempt := connect_udp_effects net (addr target) in
            match connect_udp net (addr target) with
            | Ok _ =>
                let '(actions, next) := proxy_udp idle start (udp_session net) in
                (attempt ++ (Forwarding <$> actions), loop_end next)
            | _ => (attempt, Some (Err (UpstreamFailed (addr target))))
            end
        end
      else ([], Some (Err HandshakeError))
  end.

(** [handle_connection]: its effects, its result ([None] while it runs) and the configuration after
    it. *)
Definition handle_connection (env : Env) (auth : option AuthConfig) (trusted : TrustedProxies)
    (peer : SocketAddr) (reads : list read_result) (net : Network) (buffer_size idle : Z) :
    (list Effect * option (outcome ConnectionError unit)) * option AuthConfig :=
  match read_request_head reads with
  | HeadWaiting _ => (([], None), auth)
  | HeadFailed => (([], Some (Err HeadUnreadable)), auth)
  | HeadDone head rest =>
      match (handle_head accept_request env auth trusted peer head rest).2 with
      | (Ok plan, auth) => (run_plan net buffer_size idle (instant_now env) plan, auth)
      | (_, auth) => (([], Some Panicked), auth)
      end
  end.
End whole.

(** ** What was forwarded *)

Definition upstream_writes (actions : list Action) : list bytes :=
  omap (fun a => match a with Upstream b => Some b | _ => None end) actions.
Definition ws_data (actions : list Action) : list bytes :=
  omap (fun a => match a with WsSend (Binary b) => Some b | _ => None end) actions.
Definition ws_pongs (actions : list Action) : list bytes :=
  omap (fun a => match a with WsSend (Pong b) => Some b | _ => None end) actions.
Definition shutdowns (actions : list Action) : list unit :=
  omap (fun a => match a with ShutdownUpstream => Some tt | _ => None end) actions.

Definition ws_payload (e : Event * bool) : option bytes :=
  match e.1 with
  | WsNext (Some (Ok (Binary b))) | WsNext (Some (Ok (Text b))) => Some b
  | _ => None
  end.
Definition ws_ping (e : Event * bool) : option bytes :=
  match e.1 with WsNext (Some (Ok (Ping b))) => Some b | _ => None end.
Definition upstream_data (e : Event * bool) : option bytes :=
  match e.1 with Received (Ok b) => Some b | _ => None end.

(** ** Theorems: the connection *)

Section connection_theorems.
Context `{Base64Laws} `{RingLaws} `{SubtleLaws} `{HttpLaws} `{HttParse}.
Variable accept_request : ReplayStream (list read_result) -> option Request.

(** The handshake without the slots: they are always filled. *)
Lemma handshake_run env auth head rest :
  handshake accept_request env auth head rest =
    match accept_request (replay_new head rest) with
    | None => Ok HandshakeFailed
    | Some request =>
        match authorize_request env request auth with
        | Panicked => Panicked
        | Err response => Ok (Refused response)
        | Ok user =>
            if decide (uri_path (req_uri request) = HEALTH_CHECK_PATH) then Ok (HealthChecked user)
            else
              match parse_target (uri_path (req_uri request)) with
              | Ok target => Ok (Proxied user target)
              | _ => Ok (Refused (with_status 400 (response_new (Some BAD_PATH_MESSAGE))))
              end
        end
    end.
Proof.
  unfold handshake, handshake_callback, capture_requested_target.
  destruct (accept_request _) as [request|]; [|done]. munfold.
  destruct (authorize_request env request auth) as [user|r|]; [|done..].
  case_decide; [done|]. by destruct (parse_target _).
Qed.

Lemma handle_head_proxied env auth trusted peer head rest user target auth' :
  (handle_head accept_request env auth trusted peer head rest).2 =
    (Ok (Proxied user target), auth') <->
  auth' = auth /\ parse_plain_request head = None /\
  exists request, accept_request (replay_new head rest) = Some request /\
    authorize_request env request auth = Ok user /\
    uri_path (req_uri request) <> HEALTH_CHECK_PATH /\
    parse_target (uri_path (req_uri request)) = Ok target.
Proof.
  unfold handle_head. cbn [snd]. destruct (parse_plain_request head) as [request|].
  { destruct (answer_plain env auth request) as [r a]. split; [by destruct r | by intros (_ & ? & _)]. }
  rewrite handshake_run. split.
  - destruct (accept_request _) as [request|]; [|done]. intros E.
    pose proof (f_equal snd E) as Ea. apply (f_equal fst) in E. cbn [fst snd] in E, Ea.
    split; [done|]. split; [done|]. exists request. split; [done|].
    destruct (authorize_request env request auth) as [u|r|]; [|done..].
    case_decide; [done|]. destruct (parse_target _) as [t| |]; [|done..]. by injection E as <- <-.
  - intros (-> & _ & request & -> & -> & Hpath & ->). by rewrite decide_False.
Qed.

(** An effect on an upstream (looking it up and trying to connect included), and one on the given
    upstream. *)
Definition touches_upstream (e : Effect) : Prop :=
  match e with ConnectTcp _ | LookupUdp _ | ConnectUdp _ _ _ | Forwarding _ => True | _ => False end.
Definition reaches (target : Target) (e : Effect) : Prop :=
  match e with
  | ConnectTcp upstream => protocol target = Tcp /\ upstream = addr target
  | LookupUdp upstream => protocol target = Udp /\ upstream = addr target
  | ConnectUdp upstream local remote =>
      protocol target = Udp /\ upstream = addr target /\ local = local_bind remote
  | Forwarding _ => True
  | _ => False
  end.

Lemma connect_udp_reaches net target :
  protocol target = Udp -> Forall (reaches target) (connect_udp_effects net (addr target)).
Proof.
  intros Hp. unfold connect_udp_effects. constructor; [done|].
  destruct (_ ≫= _) as [a|]; [|done]. destruct (udp_bind net _); by repeat constructor.
Qed.

Lemma run_plan_upstream net buffer_size idle start plan :
  Exists touches_upstream (run_plan net buffer_size idle start plan).1 ->
  exists user target, plan = Proxied user target /\
    Forall (reaches target) (run_plan net buffer_size idle start plan).1.
Proof.
  assert (Hforward : forall target actions, Forall (reaches target) (Forwarding <$> actions)).
  { intros target actions. by apply Forall_fmap, Forall_true. }
  destruct plan as [r b| |r| |user|user target]; cbn [run_plan fst];
    [intros He; by repeat (apply Exists_cons in He as [[]|He] || apply Exists_nil in He)..| |].
  { destruct (handshake_sent net); intros He;
      by repeat (apply Exists_cons in He as [[]|He] || apply Exists_nil in He). }
  intros He. exists user, target. split; [done|]. revert He.
  destruct (handshake_sent net); [|by intros ?%Exists_nil]. destruct (protocol target) eqn:Hp.
  - destruct (tcp_connect net _); [|by repeat constructor]. destruct (proxy_tcp _ _) as [actions next].
    intros _. constructor; [done | apply Hforward].
  - pose proof (connect_udp_reaches net target Hp) as Ha.
    destruct (connect_udp net _); [|done..]. destruct (proxy_udp _ _ _) as [actions next].
    intros _. apply Forall_app. split; [done | apply Hforward].
Qed.

Lemma upstream_mediated env auth trusted peer reads net buffer_size idle effects ended auth' :
  wf_auth auth -> service_in_order auth ->
  handle_connection accept_request env (Some auth) trusted peer reads net buffer_size idle =
    ((effects, ended), auth') ->
  Exists touches_upstream effects ->
  exists head rest request user target,
    read_request_head reads = HeadDone head rest /\
    accept_request (replay_new head rest) = Some request /\
    granted env request auth user /\ authorize_request env request (Some auth) = Ok user /\
    parse_target (uri_path (req_uri request)) = Ok target /\
    Forall (reaches target) effects /\ auth' = Some auth.
Proof.
  intros Hwf Hs Hc Htouch. unfold handle_connection in Hc.
  destruct (read_request_head reads) as [head rest| |head];
    [|injection Hc as <- <- <-; inversion Htouch..].
  destruct (handle_head _ _ _ _ _ _ _).2 as [[plan|[]|] a] eqn:Hh;
    [|injection Hc as <- <- <-; inversion Htouch].
  injection Hc as Hrun <-. pose proof (run_plan_upstream net buffer_size idle (instant_now env) plan) as Hup.
  rewrite Hrun in Hup. destruct (Hup Htouch) as (user & target & -> & Hall).
  apply handle_head_proxied in Hh as (-> & _ & request & Hacc & Hauth & _ & Htarget).
  exists head, rest, request, user, target. split; [done|]. split; [done|].
  split; [|done].
  destruct (authorize_request_run env request auth Hwf Hs) as [(u & Hg & Ha) | (_ & shown & _ & Ha)];
    rewrite Hauth in Ha; [by injection Ha as -> | by destruct (unauthorized_response _ _)].
Qed.

(** C5: complete mediation, for the whole connection. With authentication configured, a connection
    that does anything to an upstream (connects it, writes to it, reads from it) is a completed
    websocket handshake whose user was granted the upstream its path names (see [granted]), and all
    it touches is that upstream. *)
Theorem upstream_needs_grant env auth trusted peer reads net buffer_size idle effects ended auth' :
  wf_auth auth -> service_in_order auth ->
  handle_connection accept_request env (Some auth) trusted peer reads net buffer_size idle =
    ((effects, ended), auth') ->
  Exists touches_upstream effects ->
  exists head rest request user target,
    read_request_head reads = HeadDone head rest /\
    accept_request (replay_new head rest) = Some request /\
    granted env request auth user /\
    parse_target (uri_path (req_uri request)) = Ok target /\ wf_target target /\
    Forall (reaches target) effects /\ auth' = Some auth.
Proof.
  intros Hwf Hs Hc Htouch.
  destruct (upstream_mediated _ _ _ _ _ _ _ _ _ _ _ Hwf Hs Hc Htouch)
    as (head & rest & request & user & target & Hhead & Hreq & Hg & _ & Htarget & Hall & Ha).
  exists head, rest, request, user, target.
  by repeat (split; [done || by eapply parse_target_wellformed|]).
Qed.

Lemma ready_in_order env auth : ready env auth -> service_in_order auth.
Proof. intros Hr s Hs. by apply (Hr s). Qed.

Lemma authorize_request_no_panic env request auth :
  wf_auth auth -> service_in_order auth ->
  is_panic (authorize_request env request (Some auth)) = false.
Proof.
  intros Hwf Hs.
  destruct (authorize_request_run env request auth Hwf Hs) as [(u & _ & ->) | (_ & shown & _ & ->)];
    [done|].
  destruct (unauthorized_response_run (E := Response) true
    (if tokens auth then Some (if shown then BEARER_INVALID_CHALLENGE else BEARER_CHALLENGE)
     else None)) as (r & -> & _); [|done].
  destruct (tokens auth), shown; by repeat constructor.
Qed.

(** Whom a request is let in for: anyone when authentication is off. *)
Definition let_in (env : Env) (request : Request) (auth : option AuthConfig) (user : str) : Prop :=
  match auth with
  | Some auth => granted env request auth user
  | None => user = ANONYMOUS_AUTH_USER
  end.

(** Authentication is off, or its configuration is well formed and its service in order. *)
Definition auth_in_order (auth : option AuthConfig) : Prop :=
  forall a, auth = Some a -> wf_auth a /\ service_in_order a.

Lemma authorize_let_in env request auth :
  auth_in_order auth ->
  (exists user, authorize_request env request auth = Ok user /\
     forall u, let_in env request auth u <-> u = user) \/
  (exists response, authorize_request env request auth = Err response /\ status response = 401%Z /\
     forall u, ~ let_in env request auth u).
Proof.
  destruct auth as [auth|]; intros Hord; [|left; by eexists].
  destruct (Hord auth eq_refl) as [Hwf Hs].
  pose proof (authorize_request_run env request auth Hwf Hs) as [(u & Hg & Ha) | (Hno & shown & _ & Ha)].
  - left. exists u. split; [done|]. intros u'. cbn [let_in]. split; [|by intros ->].
    intros Hg'. by eapply granted_unique.
  - right. destruct (unauthorized_response_run (E := Response) true
      (if tokens auth then Some (if shown then BEARER_INVALID_CHALLENGE else BEARER_CHALLENGE)
       else None)) as (r & Hr & Hst & _).
    { destruct (tokens auth), shown; by repeat constructor. }
    exists r. rewrite Ha, Hr. done.
Qed.

(** C9: complete mediation. A head that is a plain request is answered and never becomes a websocket.
    Any other head goes to the handshake, which leaves the configuration as it was and has exactly
    three outcomes besides not being a handshake at all: the upstream the path names is to be connected
    for a user, exactly when the request is let in for that user; the health check runs, exactly for a
    request to [/] let in for its user; or it is refused, with 401 exactly when it is let in for
    nobody and with 400 when it is let in but its path is neither [/] nor a target. None ends without
    its target or its user. The configuration, if any, is well formed and the mutex of its token
    service in order. *)
Theorem handshake_decides env auth trusted peer head rest :
  auth_in_order auth ->
  let '(decision, auth') := (handle_head accept_request env auth trusted peer head rest).2 in
  match parse_plain_request head with
  | Some _ => forall plan, decision = Ok plan -> exists response include_body,
                plan = Answered response include_body
  | None =>
      auth' = auth /\
      match accept_request (replay_new head rest) with
      | None => decision = Ok HandshakeFailed
      | Some request =>
          let path := uri_path (req_uri request) in
          (forall user target, decision = Ok (Proxied user target) <->
             let_in env request auth user /\ path <> HEALTH_CHECK_PATH /\ parse_target path = Ok target) /\
          (forall user, decision = Ok (HealthChecked user) <->
             let_in env request auth user /\ path = HEALTH_CHECK_PATH) /\
          ((exists user target, decision = Ok (Proxied user target)) \/
           (exists user, decision = Ok (HealthChecked user)) \/
           (exists response, decision = Ok (Refused response) /\
              ((status response = 401%Z /\ forall user, ~ let_in env request auth user) \/
               (status response = 400%Z /\ (exists user, let_in env request auth user) /\
                path <> HEALTH_CHECK_PATH /\ forall target, parse_target path <> Ok target))))
      end
  end.
Proof.
  intros Hord. unfold handle_head. cbn [snd]. destruct (parse_plain_request head) as [plain|].
  { destruct (answer_plain env auth plain) as [[r| |] a]; cbn [obind]; [|done..].
    intros plan [= <-]. by eexists _, _. }
  split; [done|]. rewrite handshake_run. destruct (accept_request _) as [request|]; [|done]. cbv zeta.
  destruct (authorize_let_in env request auth Hord)
    as [(u & -> & Hu) | (r & -> & Hst & Hno)].
  2:{ split; [intros user target; split; [done | by intros [?%Hno _]]|].
      split; [intros user; split; [done | by intros [?%Hno _]]|].
      right. right. exists r. split; [done|]. by left. }
  case_decide as Hpath.
  - split; [intros user target; by split; [|intros (_ & ? & _)]|].
    split; [intros user; rewrite Hu; split; [by intros [= <-] | by intros [-> _]]|].
    right. left. by exists u.
  - destruct (parse_target _) as [t|e|] eqn:Ht.
    + split; [intros user target; rewrite Hu; split;
        [by intros [= <- <-] | by intros (-> & _ & [= <-])]|].
      split; [intros user; by split; [|intros (_ & ?)]|]. left. by exists u, t.
    + split; [intros user target; by split; [|intros (_ & _ & ?)]|].
      split; [intros user; by split; [|intros (_ & ?)]|]. right. right. eexists. split; [done|].
      right. split; [done|]. split; [exists u; by apply Hu | done].
    + split; [intros user target; by split; [|intros (_ & _ & ?)]|].
      split; [intros user; by split; [|intros (_ & ?)]|]. right. right. eexists. split; [done|].
      right. split; [done|]. split; [exists u; by apply Hu | done].
Qed.

(** Authentication is off, or its configuration is well formed and its service ready. *)
Definition auth_ready (env : Env) (auth : option AuthConfig) : Prop :=
  forall a, auth = Some a -> wf_auth a /\ ready env a.

(** The configuration after a connection: the same, or with the token service moved on. *)
Definition option_carries_on (auth auth' : option AuthConfig) : Prop :=
  match auth, auth' with
  | Some a, Some a' => auth_carries_on a a'
  | None, None => True
  | _, _ => False
  end.

Lemma option_carries_on_refl auth : option_carries_on auth auth.
Proof. destruct auth; [by left | done]. Qed.

Lemma authorize_option_no_panic env request auth :
  auth_ready env auth -> is_panic (authorize_request env request auth) = false.
Proof.
  destruct auth as [auth|]; [|done]. intros Hr. destruct (Hr auth eq_refl) as [Hwf Hready].
  by apply authorize_request_no_panic; [|eapply ready_in_order].
Qed.

Lemma handle_auth_request_off env request :
  exists r, handle_auth_request env request None = (Ok r, None).
Proof.
  pose proof (auth_request_gate_run env request None) as Hgate.
  destruct (refusal request None) as [[code allow]|].
  - destruct Hgate as (r & -> & _). by exists r.
  - by destruct Hgate as (config & service & endpoint & ? & _).
Qed.

Lemma handle_head_total env auth trusted peer head rest :
  auth_ready env auth ->
  exists plan auth', (handle_head accept_request env auth trusted peer head rest).2 =
      (Ok plan, auth') /\ plan <> NotCaptured /\ option_carries_on auth auth'.
Proof.
  intros Hready. pose proof (option_carries_on_refl auth) as Hrefl. unfold handle_head. cbn [snd].
  destruct (parse_plain_request head) as [request|].
  - unfold answer_plain. case_decide.
    + pose proof (authorize_option_no_panic env request auth Hready) as Hnp.
      unfold health_check_response. rewrite expect_header_visible by done.
      destruct (authorize_request _ _ _); [| |done]; cbn [obind]; by eexists _, auth.
    + destruct auth as [auth|].
      * destruct (handle_auth_request_total env request auth) as (Hok & auth' & Ha & Hc);
          [by apply Hready|].
        destruct (handle_auth_request env request (Some auth)) as [[r| |] a]; try done.
        cbn in Ha. subst a. by eexists _, (Some auth').
      * destruct (handle_auth_request_off env request) as [r ->]. by eexists _, None.
  - rewrite handshake_run. destruct (accept_request _) as [request|]; [|by eexists _, auth].
    pose proof (authorize_option_no_panic env request auth Hready) as Hnp.
    destruct (authorize_request _ _ _) as [u|r|]; [| |done].
    + case_decide; [|destruct (parse_target _)]; by eexists _, auth.
    + by eexists _, auth.
Qed.

Lemma run_plan_end net buffer_size idle start plan :
  plan <> NotCaptured ->
  (run_plan net buffer_size idle start plan).2 <> Some (Err SlotNotCaptured) /\
  ((buffer_size <= ISIZE_MAX)%Z -> (run_plan net buffer_size idle start plan).2 <> Some Panicked).
Proof.
  assert (Hend : forall next, loop_end next <> Some (Err SlotNotCaptured) /\
    (next <> Crashed -> loop_end next <> Some Panicked)) by by intros [].
  assert (Hrun : forall step events, (forall e, (step e).2 <> Crashed) ->
    (run_loop step events).2 <> Crashed).
  { intros step events Hstep. induction events as [|e events IH]; [done|]. cbn [run_loop].
    specialize (Hstep e). destruct (step e) as [actions []]; try done. by destruct (run_loop step events). }
  intros Hplan. destruct plan as [| | | |user|user target]; try done; cbn [run_plan].
  { by destruct (handshake_sent net). }
  destruct (handshake_sent net); [|done]. destruct (protocol target).
  - destruct (tcp_connect net _); [|done]. unfold proxy_tcp.
    destruct (Z.ltb_spec ISIZE_MAX buffer_size); [by split; [|intros ?; lia]|].
    assert (Hnc : (run_loop tcp_step (tcp_session net)).2 <> Crashed).
    { apply Hrun. intros [[[[[]| |]|]|[[]| |]|] []]; done. }
    destruct (run_loop tcp_step _) as [actions next]. split; [apply Hend | intros _; by apply Hend].
  - destruct (connect_udp net _) as [[local remote]| |]; [|done..]. unfold proxy_udp.
    assert (Hnc : (run_loop udp_step (with_timer idle start (udp_session net))).2 <> Crashed).
    { apply Hrun. intros [[[[[]| |]|]|[[]| |]|] []]; done. }
    destruct (run_loop udp_step _) as [actions next]. split; [apply Hend | intros _; by apply Hend].
Qed.

Lemma handle_connection_total env auth trusted peer reads net buffer_size idle :
  auth_ready env auth ->
  let '((effects, ended), auth') :=
    handle_connection accept_request env auth trusted peer reads net buffer_size idle in
  ((buffer_size <= ISIZE_MAX)%Z -> ended <> Some Panicked) /\ ended <> Some (Err SlotNotCaptured) /\
  option_carries_on auth auth'.
Proof.
  intros Hready. unfold handle_connection.
  destruct (read_request_head reads) as [head rest| |head];
    [|by split; [|split; [|apply option_carries_on_refl]]..].
  destruct (handle_head_total env auth trusted peer head rest Hready) as (plan & auth' & -> & Hp & Hc).
  pose proof (run_plan_end net buffer_size idle (instant_now env) plan Hp) as [H1' H2'].
  by destruct (run_plan _ _ _ _ _) as [effects ended].
Qed.

Lemma handle_connection_carries_on env auth trusted peer reads net buffer_size idle :
  wf_auth auth -> ready env auth ->
  exists auth', (handle_connection accept_request env (Some auth) trusted peer reads net buffer_size idle).2 =
    Some auth' /\ auth_carries_on auth auth'.
Proof.
  intros Hwf Hready.
  pose proof (handle_connection_total env (Some auth) trusted peer reads net buffer_size idle) as Ht.
  destruct (handle_connection _ _ _ _ _ _ _ _ _) as [[effects ended] [auth'|]];
    (destruct Ht as (_ & _ & Hc); [by intros a [= <-]|]); [by exists auth' | done].
Qed.

(** C10: no connection panics, with or without authentication, whatever the client sends and however
    the network behaves, as long as the configuration is well formed ([wf_auth]), the clock readings leave room
    for the configured lifetimes, the token mutex is in order ([ready]) and a buffer of [buffer_size] bytes can be asked for: none
    of the [expect]s of the handlers fails, none of the slots of the handshake is found empty, no
    mutex is poisoned; and the configuration a connection leaves behind differs from the one before
    at most in the state of the token service, which stays in order. *)
Theorem connection_never_panics env auth trusted peer reads net buffer_size idle :
  auth_ready env auth -> (buffer_size <= ISIZE_MAX)%Z ->
  let '((effects, ended), auth') :=
    handle_connection accept_request env auth trusted peer reads net buffer_size idle in
  ended <> Some Panicked /\ ended <> Some (Err SlotNotCaptured) /\ option_carries_on auth auth'.
Proof.
  intros Hready Hsize.
  pose proof (handle_connection_total env auth trusted peer reads net buffer_size idle Hready) as Ht.
  destruct (handle_connection _ _ _ _ _ _ _ _ _) as [[effects ended] auth'].
  destruct Ht as (Hp & Hs & Hc). by split; [apply Hp|].
Qed.

(** The bound on the buffer is needed: with a larger one, every connection whose TCP upstream is
    reached panics there, whatever it would have forwarded. *)
Theorem oversized_buffer_panics net buffer_size idle start user target :
  handshake_sent net = true -> protocol target = Tcp -> tcp_connect net (addr target) = true ->
  (ISIZE_MAX < buffer_size)%Z ->
  run_plan net buffer_size idle start (Proxied user target) =
    ([ConnectTcp (addr target)], Some Panicked).
Proof.
  intros Hsent Hp Hconn Hsize. cbn [run_plan]. rewrite Hsent, Hp, Hconn. unfold proxy_tcp.
  by rewrite (proj2 (Z.ltb_lt _ _) Hsize).
Qed.

(** The plain health check tells [200] exactly the clients it would let in, and asks the others
    for credentials; it leaves everything as it was. *)
Theorem plain_health_check env auth request :
  uri_path (req_uri request) = HEALTH_CHECK_PATH ->
  (answer_plain env auth request).2 = auth /\
  match authorize_request env request auth with
  | Ok _ => exists r, (answer_plain env auth request).1 = Ok r /\ status r = 200%Z /\
              body r = Some HEALTH_CHECK_MESSAGE
  | Err response => (answer_plain env auth request).1 = Ok response
  | Panicked => (answer_plain env auth request).1 = Panicked
  end.
Proof.
  intros Hpath. unfold answer_plain. rewrite decide_True by done. cbn [fst snd]. split; [done|].
  destruct (authorize_request env request auth); [|done..].
  unfold health_check_response. rewrite expect_header_visible by done. cbn [obind].
  eexists. split; [done|]. done.
Qed.
End connection_theorems.

(** ** Theorems: forwarding *)

(** A loop runs through its events up to the first that ends it. *)
Lemma run_loop_spec step events :
  let '(actions, next) := run_loop step events in
  exists used rest, events = used ++ rest /\ actions = concat (fst <$> (step <$> used)) /\
    ((next = Continue /\ rest = [] /\ Forall (fun e => (step e).2 = Continue) used) \/
     (next <> Continue /\ exists init e, used = init ++ [e] /\
        Forall (fun e => (step e).2 = Continue) init /\ (step e).2 = next)).
Proof.
  induction events as [|e events IH]; cbn [run_loop].
  { exists [], []. split; [done|]. split; [done|]. by left. }
  destruct (step e) as [actions next] eqn:He. destruct (decide (next = Continue)) as [->|Hne].
  - destruct (run_loop step events) as [more next]. destruct IH as (used & rest & -> & -> & Hend).
    exists (e :: used), rest. split; [done|]. split; [cbn; by rewrite He|].
    destruct Hend as [(-> & -> & Hall) | (Hne & init & e' & -> & Hall & Hn)].
    + left. split; [done|]. split; [done|]. constructor; [by rewrite He | done].
    + right. split; [done|]. exists (e :: init), e'. split; [done|].
      split; [constructor; [by rewrite He | done] | done].
  - replace (match next with Continue => _ | _ => (actions, next) end) with (actions, next)
      by by destruct next.
    exists [e], events. split; [done|]. split; [cbn; by rewrite He, app_nil_r|]. right.
    split; [done|]. exists [], e. split; [done|]. by rewrite He.
Qed.

(** What a projection of the actions shows, event by event. *)
Lemma project_actions {X} (step : Event * bool -> list Action * Next) (f : Action -> option X)
    (g : Event * bool -> option X) used :
  (forall e, omap f (step e).1 = option_list (g e)) ->
  omap f (concat (fst <$> (step <$> used))) = omap g used.
Proof.
  intros Hstep. induction used as [|e used IH]; [done|]. cbn [fmap list_fmap concat].
  rewrite omap_app, Hstep, IH. cbn. by destruct (g e).
Qed.

Ltac by_event := intros [[[[[]| |]|]|[[]| |]|] []]; done.

(** ** What a TCP session means

    An event is a message, a failure or the end of the websocket, or a read of the upstream; with it
    comes whether the write it causes succeeds. *)

(** The events a TCP session goes on after: a message that needs no answer, or one whose payload is
    written or whose ping is answered; bytes that are sent on. *)
Definition tcp_goes_on (e : Event * bool) : bool :=
  match e with
  | (WsNext (Some (Ok (Binary _ | Text _ | Ping _))), written) => written
  | (WsNext (Some (Ok (Pong _ | RawFrame _))), _) => true
  | (Received (Ok (_ :: _)), written) => written
  | (IdleTimeout, _) => true                      (* there is no timer *)
  | _ => false
  end.

(** The client has left: a close frame or the end of the websocket. *)
Definition client_left (e : Event * bool) : bool :=
  match e.1 with WsNext (Some (Ok (Close _))) | WsNext None => true | _ => false end.

(** The ends that are no error: the client left and the upstream could be shut down, or the upstream
    ended, whether the client still heard of it or not. *)
Definition ends_well (e : Event * bool) : bool :=
  match e with
  | (WsNext (Some (Ok (Close _))), written) | (WsNext None, written) => written
  | (Received (Ok []), _) => true
  | _ => false
  end.

(** The one message an event makes the router send to the client. *)
Definition answer_of (e : Event * bool) : option Message :=
  match e.1 with
  | WsNext (Some (Ok (Ping b))) => Some (Pong b)
  | Received (Ok []) => Some (Close None)
  | Received (Ok b) => Some (Binary b)
  | _ => None
  end.

Definition ws_sent (actions : list Action) : list Message :=
  omap (fun a => match a with WsSend m => Some m | _ => None end) actions.

Lemma tcp_goes_on_step e : tcp_goes_on e = true <-> (tcp_step e).2 = Continue.
Proof. destruct e as [[[[[]| |]|]|[[]| |]|] []]; done. Qed.

Lemma tcp_ends_step e : tcp_goes_on e = false -> (tcp_step e).2 = if ends_well e then Finished else Failed.
Proof. destruct e as [[[[[]| |]|]|[[]| |]|] []]; done. Qed.

Lemma tcp_goes_on_all l :
  Forall (fun e => (tcp_step e).2 = Continue) l <-> Forall (fun e => tcp_goes_on e = true) l.
Proof. apply Forall_iff. intros e. by rewrite tcp_goes_on_step. Qed.

Lemma tcp_goes_on_shutdowns l :
  Forall (fun e => tcp_goes_on e = true) l -> shutdowns (concat (fst <$> (tcp_step <$> l))) = [].
Proof.
  induction 1 as [|e l He _ IH]; [done|]. cbn [fmap list_fmap concat]. unfold shutdowns in *.
  rewrite omap_app, IH, app_nil_r. by destruct e as [[[[[]| |]|]|[[]| |]|] []].
Qed.

(** C20: [proxy_tcp] forwards everything and nothing else. It goes on over exactly the events that
    neither end the session nor fail to be written, up to the first that does ([tcp_goes_on]), and
    that one decides whether the session ends well or fails ([ends_well]). What it writes to the
    upstream is the payload of every binary and text message met, in order; what it sends to the
    client is a pong for every ping, every piece read from the upstream and a close frame at the end of
    the upstream, in order, and nothing more; and the upstream is shut down exactly when the client
    left, as the last thing done. *)
Theorem proxy_tcp_transparent buffer_size events :
  (buffer_size <= ISIZE_MAX)%Z ->
  let '(actions, next) := proxy_tcp buffer_size events in
  exists used rest, events = used ++ rest /\
    upstream_writes actions = omap ws_payload used /\
    ws_sent actions = omap answer_of used /\
    ((next = Continue /\ rest = [] /\ Forall (fun e => tcp_goes_on e = true) used /\
      shutdowns actions = []) \/
     (exists init e, used = init ++ [e] /\ Forall (fun e => tcp_goes_on e = true) init /\
        tcp_goes_on e = false /\ next = (if ends_well e then Finished else Failed) /\
        if client_left e then shutdowns actions = [tt] /\ last actions = Some ShutdownUpstream
        else shutdowns actions = [])).
Proof.
  intros Hsize. unfold proxy_tcp. destruct (Z.ltb_spec ISIZE_MAX buffer_size); [lia|].
  pose proof (run_loop_spec tcp_step events) as Hrun. destruct (run_loop tcp_step events) as [actions next].
  destruct Hrun as (used & rest & -> & -> & Hend). exists used, rest. split; [done|].
  split; [apply project_actions; by_event|]. split; [apply project_actions; by_event|].
  destruct Hend as [(-> & -> & Hall%tcp_goes_on_all) | (Hne & init & e & -> & Hall%tcp_goes_on_all & Hn)].
  - left. split; [done|]. split; [done|]. split; [done | by apply tcp_goes_on_shutdowns].
  - right. exists init, e. split; [done|]. split; [done|].
    assert (Hgo : tcp_goes_on e = false).
    { apply not_true_iff_false. rewrite tcp_goes_on_step. congruence. }
    split; [done|]. split; [by rewrite <- Hn, tcp_ends_step|].
    pose proof (tcp_goes_on_shutdowns init Hall) as Hquiet. unfold shutdowns in *.
    rewrite !fmap_app, concat_app, omap_app, Hquiet. cbn [fmap list_fmap concat app]. rewrite app_nil_r.
    destruct e as [[[[[]| |]|]|[[]| |]|] []]; try done; (split; [done | cbn [tcp_step fst]; by rewrite last_snoc]).
Qed.

(** The largest UDP payload, over IPv4 and IPv6. *)
Definition MAX_UDP_PAYLOAD : nat := Z.to_nat 65507.

Definition datagram_fits (e : Event * bool) : Prop :=
  length (default [] (upstream_data e)) <= MAX_UDP_PAYLOAD.
#[export] Instance datagram_fits_dec e : Decision (datagram_fits e).
Proof. unfold datagram_fits. apply _. Defined.

Lemma with_timer_Forall (P : Event * bool -> Prop) idle now events :
  P (IdleTimeout, true) -> Forall P events.*2 -> Forall P (with_timer idle now events).
Proof.
  intros Hidle. revert now. induction events as [|[t e] events IH]; intros now; cbn.
  { intros _. by repeat constructor. }
  intros [He Hall]%Forall_cons. destruct (_ <? _)%Z; repeat constructor; auto.
Qed.

(** What fits the buffer is received whole. *)
Lemma recv_fits used :
  Forall datagram_fits used -> omap (fun e => recv <$> upstream_data e) used = omap upstream_data used.
Proof.
  induction 1 as [|e used He _ IH]; [done|]. cbn. rewrite IH. unfold datagram_fits in He.
  destruct (upstream_data e) as [d|]; [|done]. cbn in He |- *. unfold recv. rewrite take_ge; [done|].
  unfold MAX_UDP_PAYLOAD, UDP_DATAGRAM_BUFFER in *. lia.
Qed.

(** C21: [proxy_udp] keeps datagram boundaries: one datagram is sent for every binary or text message,
    with exactly its payload, and one binary message for every datagram received, empty ones
    included and none cut short: the buffer holds every UDP payload. *)
Theorem proxy_udp_boundaries idle start events :
  Forall datagram_fits events.*2 ->
  let '(actions, next) := proxy_udp idle start events in
  exists used rest, with_timer idle start events = used ++ rest /\
    upstream_writes actions = omap ws_payload used /\
    ws_data actions = omap upstream_data used /\
    ws_pongs actions = omap ws_ping used /\
    shutdowns actions = [] /\
    (next <> Continue -> exists init e, used = init ++ [e] /\ (udp_step e).2 = next /\
       Forall (fun e => (udp_step e).2 = Continue) init).
Proof.
  intros Hfit. unfold proxy_udp. pose proof (run_loop_spec udp_step (with_timer idle start events)) as Hrun.
  assert (Hused' : Forall datagram_fits (with_timer idle start events)).
  { apply with_timer_Forall; [|done]. unfold datagram_fits. cbn. lia. }
  destruct (run_loop udp_step _) as [actions next].
  destruct Hrun as (used & rest & Hused & -> & Hend). exists used, rest. split; [done|].
  rewrite Hused in Hused'. apply Forall_app in Hused' as [Hused' _].
  split; [apply project_actions; by_event|]. split.
  { rewrite <- recv_fits by done. apply project_actions. by_event. }
  split; [apply project_actions; by_event|]. split.
  { unfold shutdowns. rewrite (project_actions udp_step _ (fun _ => None)) by by_event.
    clear. by induction used. }
  intros Hne. destruct Hend as [(? & _) | (_ & init & e & -> & Hall & Hn)]; [done|].
  by exists init, e.
Qed.

(** Every gap since [now] is shorter than [idle]. *)
Fixpoint busy (idle now : Z) (events : list (Z * (Event * bool))) : Prop :=
  match events with
  | [] => True
  | (t, _) :: rest => (t - now < idle)%Z /\ busy idle t rest
  end.

(** The time of the last event. *)
Definition end_time (now : Z) (events : list (Z * (Event * bool))) : Z :=
  default now (last (fst <$> events)).

Lemma with_timer_busy idle now events late :
  busy idle now events ->
  with_timer idle now (events ++ late) =
    (snd <$> events) ++ with_timer idle (end_time now events) late.
Proof.
  revert now. induction events as [|[t e] events IH]; intros now Hbusy; [done|].
  destruct Hbusy as [Ht Hbusy]. cbn [app with_timer fmap list_fmap snd].
  rewrite (proj2 (Z.ltb_lt _ _) Ht), IH by done. do 2 f_equal.
  unfold end_time. cbn [fmap list_fmap fst]. destruct events as [|[t' e'] events]; [done|].
  cbn [fmap list_fmap fst]. f_equal. rewrite last_cons_cons.
  by destruct (last _) eqn:El; [|apply last_None in El].
Qed.

Lemma run_loop_continue step l rest :
  Forall (fun e => (step e).2 = Continue) l ->
  run_loop step (l ++ rest) =
    (concat (fst <$> (step <$> l)) ++ (run_loop step rest).1, (run_loop step rest).2).
Proof.
  induction 1 as [|e l He _ IH]; cbn [app run_loop fmap list_fmap concat].
  { by destruct (run_loop step rest). }
  destruct (step e) as [actions next]. cbn in He. subst next. rewrite IH. cbn [fst].
  by rewrite <- app_assoc.
Qed.

(** C22: the idle timeout. While something happens at least every [idle], the session is not cut; when
    nothing has happened in either direction for [idle], it is closed with a close frame then and
    there, and what would have come later is not met. *)
Theorem proxy_udp_idle idle start events late :
  busy idle start events -> Forall (fun e => (udp_step e.2).2 = Continue) events ->
  match late with (t, _) :: _ => (idle <= t - end_time start events)%Z | [] => True end ->
  proxy_udp idle start (events ++ late) =
    (concat (fst <$> (udp_step <$> events.*2)) ++ [WsSend (Close None)], Finished).
Proof.
  intros Hbusy Hcont Hlate. unfold proxy_udp. rewrite with_timer_busy by done.
  assert (Hl : with_timer idle (end_time start events) late = [(IdleTimeout, true)]).
  { destruct late as [|[t e] late]; [done|]. cbn [with_timer].
    by rewrite (proj2 (Z.ltb_ge _ _) Hlate). }
  rewrite Hl, run_loop_continue; [done|]. by apply Forall_fmap.
Qed.

(** ** Witnesses *)

Module ProxyTests.
Import TokenTests AuthTests.

(** A stand-in for the handshake parser: the request of any replayed head that parses. *)
Definition accept (stream : ReplayStream (list read_result)) : option Request :=
  parsed ← httparse_request 124 (replay_prefix stream);
  path ← parsed_path parsed;
  hs ← build_headers (parsed_headers parsed) headers_new;
  uri ← uri_from_str path;
  Some (mkRequest "GET" uri hs).

Definition head_for (path authorization : str) : bytes :=
  "GET " ++ path ++ " HTTP/1.1\r\nHost: x\r\nUpgrade: websocket\r\nAuthorization: " ++ authorization ++ "\r\n\r\n".

Definition peer : SocketAddr := mkSocketAddr localhost_v4 5555 0.
Definition plan (path authorization : str) : outcome Empty_set Plan :=
  (handle_head accept env (Some auth) [] peer (head_for path authorization) []).2.1.
Definition bob : str := basic_authorization "bob:pass:word".

Definition plan_summary (p : outcome Empty_set Plan) : str :=
  match p with
  | Ok (Proxied user target) => user ++ "@" ++ addr target
  | Ok (HealthChecked user) => user
  | Ok (Refused r) => show_uint (status r)
  | Ok (Answered r _) => show_uint (status r)
  | _ => "?"
  end.

Example plans :
  (fun '(p, a) => plan_summary (plan p a)) <$>
    [("/tcp:[::1]:443", bob); ("/", bob); ("/", "nope"); ("/nowhere", bob); ("/tcp:a:1", "nope");
     ("/udp:example.com:53", "nope")]
  = ["bob@[::1]:443"; "bob"; "401"; "400"; "401"; "anonymous@example.com:53"].
Proof. by_eval. Qed.

(** Everything connects; the upstream says hello and closes. *)
Definition net : Network :=
  mkNetwork true (fun _ => true) (fun _ => Some [peer]) (fun _ => true) (fun _ => true)
    [(Received (Ok "hello"), true); (Received (Ok []), true)] [].

Definition connection (path authorization : str) :=
  handle_connection accept env (Some auth) [] peer [Ok (head_for path authorization)] net 1024 60.

Example proxied_connection :
  (connection "/tcp:[::1]:443" bob).1 =
    ([ConnectTcp "[::1]:443"; Forwarding (WsSend (Binary "hello")); Forwarding (WsSend (Close None))],
     Some (Ok tt)) /\
  (connection "/udp:example.com:53" "nope").1.1 =
    [LookupUdp "example.com:53"; ConnectUdp "example.com:53" "0.0.0.0:0" peer; Forwarding (WsSend (Close None))].
Proof. split; by_eval. Qed.

Example upstream_needs_grant_witness :
  exists head rest request user target,
    read_request_head [Ok (head_for "/tcp:[::1]:443" bob)] = HeadDone head rest /\
    accept (replay_new head rest) = Some request /\ granted env request auth user /\
    parse_target (uri_path (req_uri request)) = Ok target /\ wf_target target /\
    Forall (reaches target)
      [ConnectTcp "[::1]:443"; Forwarding (WsSend (Binary "hello")); Forwarding (WsSend (Close None))] /\
    Some auth = Some auth.
Proof.
  apply (upstream_needs_grant accept env auth [] peer [Ok (head_for "/tcp:[::1]:443" bob)] net 1024 60 _
    (Some (Ok tt)) (Some auth)); [apply auth_wf | apply auth_in_order | by_eval | by constructor].
Defined.

Lemma auth_ready : ready env auth.
Proof.
  intros s Hs. split; [by eapply auth_in_order|].
  assert (Ht : tokens auth = Some TokenApiTests.service0) by apply TokenApiTests.service0_tokens.
  rewrite Hs in Ht. injection Ht as ->. apply TokenApiTests.service0_fits. lia.
Qed.

Example connection_never_panics_witness :
  let '((effects, ended), auth') := connection "/auth/token" bob in
  ended <> Some Panicked /\ ended <> Some (Err SlotNotCaptured) /\ option_carries_on (Some auth) auth'.
Proof.
  apply (connection_never_panics accept env (Some auth) [] peer _ net 1024 60).
  - intros a [= <-]. split; [apply auth_wf | apply auth_ready].
  - by apply Z.leb_le.
Defined.

Example oversized_buffer_panics_witness :
  run_plan net (2 ^ 63) 60 0 (Proxied "bob" (mkTarget Tcp "a" 1)) = ([ConnectTcp "a:1"], Some Panicked).
Proof. apply (oversized_buffer_panics net _ _ _ "bob" (mkTarget Tcp "a" 1)); by_eval || by apply Z.ltb_lt. Defined.

(** A path that names nothing, asked for by bob. *)
Example handshake_decides_witness :
  let request := default (AuthTests.request "/" None) (accept (replay_new (head_for "/nowhere" bob) [])) in
  (exists user target, plan "/nowhere" bob = Ok (Proxied user target)) \/
  (exists user, plan "/nowhere" bob = Ok (HealthChecked user)) \/
  (exists response, plan "/nowhere" bob = Ok (Refused response) /\
     ((status response = 401%Z /\ forall user, ~ let_in env request (Some auth) user) \/
      (status response = 400%Z /\ (exists user, let_in env request (Some auth) user) /\
       uri_path (req_uri request) <> HEALTH_CHECK_PATH /\
       forall target, parse_target (uri_path (req_uri request)) <> Ok target))).
Proof.
  pose proof (handshake_decides accept env (Some auth) [] peer (head_for "/nowhere" bob) []) as Hd.
  assert (Hplain : parse_plain_request (head_for "/nowhere" bob) = None) by by_eval.
  assert (Hreq : accept (replay_new (head_for "/nowhere" bob) []) =
    Some (default (AuthTests.request "/" None) (accept (replay_new (head_for "/nowhere" bob) []))))
    by by_eval.
  cbv zeta. unfold plan. destruct (handle_head accept env (Some auth) [] peer (head_for "/nowhere" bob) []).2
    as [decision auth'].
  rewrite Hplain, Hreq in Hd. cbn [fst]. refine (proj2 (proj2 (proj2 (Hd _)))).
  intros a [= <-]. split; [apply auth_wf | apply auth_in_order].
Defined.

Example proxy_tcp_transparent_witness :
  exists used rest,
    [(WsNext (Some (Ok (Text "a"))), true); (Received (Ok "b"), false)] = used ++ rest /\
    upstream_writes [Upstream "a"; WsSend (Binary "b")] = omap ws_payload used /\
    ws_sent [Upstream "a"; WsSend (Binary "b")] = omap answer_of used /\
    ((Failed = Continue /\ rest = [] /\ Forall (fun e => tcp_goes_on e = true) used /\
      shutdowns [Upstream "a"; WsSend (Binary "b")] = []) \/
     (exists init e, used = init ++ [e] /\ Forall (fun e => tcp_goes_on e = true) init /\
        tcp_goes_on e = false /\ Failed = (if ends_well e then Finished else Failed) /\
        if client_left e
        then shutdowns [Upstream "a"; WsSend (Binary "b")] = [tt] /\
             last [Upstream "a"; WsSend (Binary "b")] = Some ShutdownUpstream
        else shutdowns [Upstream "a"; WsSend (Binary "b")] = [])).
Proof.
  apply (proxy_tcp_transparent 1024 [(WsNext (Some (Ok (Text "a"))), true); (Received (Ok "b"), false)]).
  by apply Z.leb_le.
Defined.

Example plain_health_check_witness :
  (answer_plain env (Some auth) (AuthTests.request "/" None)).2 = Some auth /\
  match authorize_request env (AuthTests.request "/" None) (Some auth) with
  | Ok _ => exists r, (answer_plain env (Some auth) (AuthTests.request "/" None)).1 = Ok r /\
              status r = 200%Z /\ body r = Some HEALTH_CHECK_MESSAGE
  | Err response => (answer_plain env (Some auth) (AuthTests.request "/" None)).1 = Ok response
  | Panicked => (answer_plain env (Some auth) (AuthTests.request "/" None)).1 = Panicked
  end.
Proof. apply plain_health_check. reflexivity. Defined.

(** Messages and datagrams, a second apart, then silence. *)
Definition session : list (Z * (Event * bool)) :=
  [(1%Z, (WsNext (Some (Ok (Binary "a"))), true)); (2%Z, (Received (Ok "b"), true));
   (3%Z, (WsNext (Some (Ok (Ping "p"))), true)); (4%Z, (Received (Ok []), true))].

Example proxy_udp_idle_witness :
  proxy_udp 2 0 (session ++ [(9%Z, (Received (Ok "late"), true))]) =
    (concat (fst <$> (udp_step <$> session.*2)) ++ [WsSend (Close None)], Finished).
Proof.
  apply proxy_udp_idle; [cbn; lia | repeat constructor | cbn; lia].
Defined.

Example proxy_udp_boundaries_witness :
  let '(actions, next) := proxy_udp 2 0 session in
  exists used rest, with_timer 2 0 session = used ++ rest /\
    upstream_writes actions = omap ws_payload used /\
    ws_data actions = omap upstream_data used /\
    ws_pongs actions = omap ws_ping used /\
    shutdowns actions = [] /\
    (next <> Continue -> exists init e, used = init ++ [e] /\ (udp_step e).2 = next /\
       Forall (fun e => (udp_step e).2 = Continue) init).
Proof.
  apply proxy_udp_boundaries, (bool_decide_unpack _). vm_cast_no_check I.
Defined.

Example session_actions :
  proxy_udp 2 0 session =
    ([Upstream "a"; WsSend (Binary "b"); WsSend (Pong "p"); WsSend (Binary []); WsSend (Close None)],
     Finished).
Proof. vm_compute. done. Qed.

Example tcp_session :
  proxy_tcp 1024 [(WsNext (Some (Ok (Text "a"))), true); (Received (Ok "b"), true);
             (WsNext (Some (Ok (Close None))), true); (Received (Ok "c"), true)] =
    ([Upstream "a"; WsSend (Binary "b"); ShutdownUpstream], Finished).
Proof. vm_compute. done. Qed.
End ProxyTests.
