(* ===== verification/AuditLog.v ===== *)
(** The log lines of a connection ([auth.rs], [token_api.rs], [proxy.rs], [main.rs]).

    [Auth], [TokenApi] and [Proxy] leave their [tracing] calls out. Here every function that logs
    has a companion that returns the lines it logs, with the branches of the source; the decisions
    are those of the functions themselves. How a line is laid out is in [Logging]; the lines of the
    start and of an accepted connection's task are in [Main], those of the file pollers in [Auth].
    The theorems: nothing reaches an upstream unlogged, refused secrets leave no trace, what a refused
    client calls itself is logged as it stands, and a forwarding loop logs why it ends, when it does,
    and nothing before. *)

From S2P Require Import Prelude RustStd Extern Instances Net Target ClientAddr Args Token.
From S2P Require Import TokenAccess TokenStore Auth AuthSpec HttpProbe TokenApi Proxy.

Inductive LogLine : Type :=
  (* auth.rs *)
  | RejectingCredentials (peer : ClientAddr) (auth_user UA : str)
  (* token_api.rs *)
  | RejectingLogin (peer : ClientAddr) (UA : str)
  | IssuedTokensTo (peer : ClientAddr) (user UA : str)
  | RefreshedTokens (peer : ClientAddr) (user UA : str)
  | RejectingRefresh (peer : ClientAddr) (UA : str)
  | RefreshReused (peer : ClientAddr) (user UA : str)
  | RevokedLogin (peer : ClientAddr) (UA : str)
  | StoreFull
  | IssueFailed (err : TokenError)
  (* proxy.rs *)
  | HttpHealthCheck (peer : ClientAddr) (user UA : str)
  | WsHealthCheck (peer : ClientAddr) (user UA : str)
  | Proxying (protocol : Protocol) (peer : ClientAddr) (user UA upstream : str)
  | RejectingPath (peer : ClientAddr) (user UA path : str) (error : TargetError)
  | WebsocketClosed (frame : option (Z * str))
  | UdpIdleTimeout.

(** What the event of a line holds: its message, and its fields by name, as text. [show_error] formats
    the errors, [show_frame] a close frame ([Debug]). *)
Definition line_message (line : LogLine) : str :=
  match line with
  | RejectingCredentials _ _ _ => "rejecting websocket request with invalid credentials"
  | RejectingLogin _ _ => "rejecting token login with invalid credentials"
  | IssuedTokensTo _ _ _ => "issued tokens"
  | RefreshedTokens _ _ _ => "refreshed tokens"
  | RejectingRefresh _ _ => "rejecting invalid refresh token"
  | RefreshReused _ _ _ => "refresh token reused; the login was revoked"
  | RevokedLogin _ _ => "revoked a login"
  | StoreFull => "token store is full; refusing to issue tokens"
  | IssueFailed _ => "failed to issue tokens"
  | HttpHealthCheck _ _ _ => "http health check"
  | WsHealthCheck _ _ _ => "websocket health check"
  | Proxying Tcp _ _ _ _ => "proxying websocket to tcp"
  | Proxying Udp _ _ _ _ => "proxying websocket to udp"
  | RejectingPath _ _ _ _ _ => "rejecting websocket request"
  | WebsocketClosed _ => "websocket closed"
  | UdpIdleTimeout => "udp session idle timeout reached, closing"
  end.

Definition line_fields (show_error : TokenError + TargetError -> str)
    (show_frame : option (Z * str) -> str) (line : LogLine) : list (str * str) :=
  match line with
  | RejectingCredentials p user ua =>
      [("peer_addr" : str, show_client p); ("auth_user", user); ("user_agent", ua)]
  | RejectingLogin p ua | RejectingRefresh p ua | RevokedLogin p ua =>
      [("peer", show_client p); ("UA", ua)]
  | IssuedTokensTo p user ua | RefreshedTokens p user ua | RefreshReused p user ua
  | HttpHealthCheck p user ua | WsHealthCheck p user ua =>
      [("peer", show_client p); ("user", user); ("UA", ua)]
  | StoreFull => []
  | IssueFailed err => [("error", show_error (inl err))]
  | Proxying _ p user ua upstream =>
      [("peer", show_client p); ("user", user); ("UA", ua); ("upstream", upstream)]
  | RejectingPath p user ua path err =>
      [("peer", show_client p); ("user", user); ("UA", ua); ("path", path);
       ("error", show_error (inr err))]
  | WebsocketClosed frame => [("frame", show_frame frame)]
  | UdpIdleTimeout => []
  end.

(** ** The forwarding loops *)

(** One iteration: the line comes before the write that follows it, whether that succeeds or not. *)
Definition tcp_step_log (event : Event * bool) : list LogLine :=
  match event.1 with
  | WsNext (Some (Ok (Close frame))) => [WebsocketClosed frame]
  | _ => []
  end.

Definition udp_step_log (event : Event * bool) : list LogLine :=
  match event.1 with
  | WsNext (Some (Ok (Close frame))) => [WebsocketClosed frame]
  | IdleTimeout => [UdpIdleTimeout]
  | _ => []
  end.

(** The lines of a loop, up to its end. *)
Fixpoint loop_log (step : Event * bool -> list Action * Next) (step_log : Event * bool -> list LogLine)
    (events : list (Event * bool)) : list LogLine :=
  match events with
  | [] => []
  | e :: rest =>
      step_log e ++
      match (step e).2 with Continue => loop_log step step_log rest | _ => [] end
  end.

(** [proxy_tcp] and [proxy_udp]. *)
Definition proxy_tcp_log (buffer_size : Z) (events : list (Event * bool)) : list LogLine :=
  if (ISIZE_MAX <? buffer_size)%Z then [] else loop_log tcp_step tcp_step_log events.
Definition proxy_udp_log (idle start : Z) (events : list (Z * (Event * bool))) : list LogLine :=
  loop_log udp_step udp_step_log (with_timer idle start events).

Section audit.
Context `{Base64} `{Ring} `{Subtle} `{Http} `{HttParse}.

(** ** authorize_request *)

(** The user a refusal is logged for, and the authorized user. *)
Definition logged_user (env : Env) (auth : AuthConfig) (authorization : option str) :
    outcome Response (str * option str) :=
  match authorization with
  | None => Ok (ANONYMOUS_AUTH_USER, None)
  | Some authorization =>
      match bearer_token authorization with
      | Some token =>
          let? user := verify_access_token env auth token in
          Ok (default INVALID_AUTH_USER user, user)
      | None =>
          Ok (default INVALID_AUTH_USER (basic_auth_username authorization),
              basic_user auth authorization)
      end
  end.

Definition authorize_log (env : Env) (request : Request) (auth : option AuthConfig)
    (peer : ClientAddr) : list LogLine :=
  match auth with
  | None => []
  | Some auth =>
      if allows_anonymous_target auth (uri_path (req_uri request)) then []
      else
        match logged_user env auth (authorization_of request) with
        | Ok (auth_user, None) => [RejectingCredentials peer auth_user (request_user_agent request)]
        | _ => []
        end
  end.

(** ** The token endpoints *)

Definition token_error_log (err : TokenError) : list LogLine :=
  match err with Full => [StoreFull] | err => [IssueFailed err] end.

Definition endpoint_log (env : Env) (endpoint : Endpoint) (authorization : option str)
    (auth : AuthConfig) (service : TokenService) (peer : ClientAddr) (user_agent : str) :
    list LogLine :=
  match endpoint with
  | LoginEndpoint =>
      match authorization ≫= basic_user auth with
      | None => [RejectingLogin peer user_agent]
      | Some user =>
          match (login env user service).1 with
          | Ok _ => [IssuedTokensTo peer user user_agent]
          | Err err => token_error_log err
          | Panicked => []
          end
      end
  | RefreshEndpoint =>
      match authorization ≫= bearer_token with
      | None => []
      | Some token =>
          match (refresh env token (has_user auth) service).1 with
          | Ok (user, _) => [RefreshedTokens peer user user_agent]
          | Err Invalid => [RejectingRefresh peer user_agent]
          | Err (Reused user) => [RefreshReused peer user user_agent]
          | Err err => token_error_log err
          | Panicked => []
          end
      end
  | RevokeEndpoint =>
      match authorization ≫= bearer_token with
      | None => []
      | Some token =>
          match (revoke env token service).1 with
          | Ok true => [RevokedLogin peer user_agent]
          | _ => []
          end
      end
  end.

Definition auth_request_log (env : Env) (request : Request) (auth : option AuthConfig)
    (peer : ClientAddr) : list LogLine :=
  match auth ≫= (fun auth => pair auth <$> tokens auth) with
  | None => []
  | Some (config, service) =>
      match endpoint_of (uri_path (req_uri request)) with
      | None => []
      | Some endpoint =>
          if decide (req_method request <> "POST") then []
          else if has_body request then []
          else endpoint_log env endpoint (authorization_of request) config service peer
                 (request_user_agent request)
      end
  end.

(** ** The connection *)

Definition capture_log (request : Request) (peer : ClientAddr) (auth_user : str) : list LogLine :=
  let path := uri_path (req_uri request) in
  if decide (path = HEALTH_CHECK_PATH) then []
  else
    match parse_target path with
    | Err err => [RejectingPath peer auth_user (request_user_agent request) path err]
    | _ => []
    end.

(** A plain request. *)
Definition plain_log (env : Env) (auth : option AuthConfig) (request : Request)
    (peer : ClientAddr) : list LogLine :=
  if decide (uri_path (req_uri request) = HEALTH_CHECK_PATH) then
    authorize_log env request auth peer ++
    match authorize_request env request auth with
    | Ok auth_user => [HttpHealthCheck peer auth_user (request_user_agent request)]
    | _ => []
    end
  else auth_request_log env request auth peer.

(** The callback of the handshake. *)
Definition callback_log (env : Env) (auth : option AuthConfig) (request : Request)
    (peer : ClientAddr) : list LogLine :=
  authorize_log env request auth peer ++
  match authorize_request env request auth with
  | Ok auth_user => capture_log request peer auth_user
  | _ => []
  end.

(** The forwarding loop of a target, once its upstream is connected. *)
Definition session_log (net : Network) (buffer_size idle start : Z) (target : Target) : list LogLine :=
  match protocol target with
  | Tcp =>
      if tcp_connect net (addr target) then proxy_tcp_log buffer_size (tcp_session net) else []
  | Udp =>
      match connect_udp net (addr target) with
      | Ok _ => proxy_udp_log idle start (udp_session net)
      | _ => []
      end
  end.

(** After the handshake, when its answer could be sent. *)
Definition plan_log (net : Network) (buffer_size idle start : Z) (plan : outcome Empty_set Plan)
    (user_agent : str) (peer : ClientAddr) : list LogLine :=
  if handshake_sent net then
    match plan with
    | Ok (HealthChecked auth_user) => [WsHealthCheck peer auth_user user_agent]
    | Ok (Proxied auth_user target) =>
        Proxying (protocol target) peer auth_user user_agent (addr target) ::
        session_log net buffer_size idle start target
    | _ => []
    end
  else [].

Variable accept_request : ReplayStream (list read_result) -> option Request.

(** [handle_connection]: its lines, from the head to the end of the session; those with a peer are all
    under the address it reports. *)
Definition connection_log (env : Env) (auth : option AuthConfig) (trusted : TrustedProxies)
    (peer : SocketAddr) (reads : list read_result) (net : Network) (buffer_size idle : Z) :
    list LogLine :=
  match read_request_head reads with
  | HeadDone head rest =>
      let peer := client_addr trusted peer head in
      match parse_plain_request head with
      | Some request => plain_log env auth request peer
      | None =>
          match accept_request (replay_new head rest) with
          | None => []
          | Some request =>
              callback_log env auth request peer ++
              plan_log net buffer_size idle (instant_now env)
                (handshake accept_request env auth head rest) (request_user_agent request) peer
          end
      end
  | _ => []
  end.
End audit.

(** ** Theorems *)

Section theorems.
Context `{Base64Laws} `{RingLaws} `{SubtleLaws} `{HttpLaws} `{HttParse}.
Variable accept_request : ReplayStream (list read_result) -> option Request.

(** The decision of [authorize_request] and the user its refusal is logged for are computed alike. *)
Lemma authorize_request_logged env request auth :
  authorize_request env request (Some auth) =
    if allows_anonymous_target auth (uri_path (req_uri request)) then Ok ANONYMOUS_AUTH_USER
    else
      let? '(_, authorized) := logged_user env auth (authorization_of request) in
      match authorized with
      | Some user => Ok user
      | None =>
          let? response := unauthorized_response true
            (if tokens auth then
               Some (if match authorization_of request ≫= bearer_token with
                        Some _ => true | None => false end
                     then BEARER_INVALID_CHALLENGE else BEARER_CHALLENGE)
             else None) in
          Err response
      end.
Proof.
  unfold authorize_request, logged_user, authorization_of.
  destruct (allows_anonymous_target _ _); [done|].
  destruct (headers_get _ _ ≫= header_to_str) as [a|]; cbn [mbind option_bind obind]; [|done].
  destruct (bearer_token a); cbn [obind]; [|done].
  by destruct (verify_access_token _ _ _).
Qed.

(** A granted request is not logged as a refusal. *)
Lemma authorize_log_granted env request auth peer user :
  authorize_request env request auth = Ok user -> authorize_log env request auth peer = [].
Proof.
  destruct auth as [auth|]; [|done]. rewrite authorize_request_logged. unfold authorize_log.
  destruct (allows_anonymous_target _ _); [done|].
  destruct (logged_user _ _ _) as [[auth_user [u|]]| |]; cbn [obind]; try done.
  by destruct (unauthorized_response _ _).
Qed.

Lemma authorize_log_lines env request auth peer line :
  line ∈ authorize_log env request auth peer ->
  exists auth_user, line = RejectingCredentials peer auth_user (request_user_agent request).
Proof.
  unfold authorize_log. destruct auth as [auth|]; [|by intros ?%elem_of_nil].
  destruct (allows_anonymous_target _ _); [by intros ?%elem_of_nil|].
  destruct (logged_user _ _ _) as [[auth_user [u|]]| |]; try (by intros ?%elem_of_nil).
  intros ->%list_elem_of_singleton. by exists auth_user.
Qed.

(** The lines of a connection that goes to an upstream. *)
Lemma proxied_log env auth trusted peer reads net buffer_size idle head rest user target auth' :
  handshake_sent net = true ->
  read_request_head reads = HeadDone head rest ->
  (handle_head accept_request env auth trusted peer head rest).2 =
    (Ok (Proxied user target), auth') ->
  exists request, accept_request (replay_new head rest) = Some request /\
    authorize_request env request auth = Ok user /\
    connection_log accept_request env auth trusted peer reads net buffer_size idle =
      Proxying (protocol target) (client_addr trusted peer head) user (request_user_agent request)
         (addr target) :: session_log net buffer_size idle (instant_now env) target.
Proof.
  intros Hsent Hhead Hh. pose proof Hh as (_ & Hplain & request & Hreq & Hauth & Hpath & Htarget)%handle_head_proxied.
  exists request. split; [done|]. split; [done|]. unfold connection_log. rewrite Hhead, Hplain, Hreq.
  unfold handle_head in Hh. rewrite Hplain in Hh. cbn [snd] in Hh. injection Hh as Hh _. rewrite Hh.
  unfold callback_log, capture_log. rewrite (authorize_log_granted _ _ _ _ user), Hauth by done.
  rewrite decide_False, Htarget by done. cbn [app]. unfold plan_log. by rewrite Hsent.
Qed.

Definition is_proxying (line : LogLine) : bool :=
  match line with Proxying _ _ _ _ _ => true | _ => false end.

Ltac no_such_line :=
  repeat case_match; rewrite ?elem_of_nil, ?list_elem_of_singleton; intros; subst; done.

Lemma plain_log_lines env auth request peer line :
  line ∈ plain_log env auth request peer -> is_proxying line = false.
Proof.
  unfold plain_log. case_decide.
  - intros [[? ->]%authorize_log_lines|Hin]%elem_of_app; [done|]. revert Hin. no_such_line.
  - unfold auth_request_log, endpoint_log, token_error_log. no_such_line.
Qed.

Lemma callback_log_lines env auth request peer line :
  line ∈ callback_log env auth request peer -> is_proxying line = false.
Proof.
  unfold callback_log, capture_log.
  intros [[? ->]%authorize_log_lines|Hin]%elem_of_app; [done|]. revert Hin. no_such_line.
Qed.

(** The line of a session's end. *)
Definition is_ending (line : LogLine) : bool :=
  match line with WebsocketClosed _ | UdpIdleTimeout => true | _ => false end.

(** A loop whose iterations log only when they end it: one line at most, and none while it runs. *)
Lemma loop_log_ends step step_log events :
  (forall e, (step e).2 = Continue -> step_log e = []) ->
  (loop_log step step_log events = [] \/
   exists before e after, events = before ++ e :: after /\
     Forall (fun e => (step e).2 = Continue) before /\ (step e).2 <> Continue /\
     loop_log step step_log events = step_log e) /\
  ((run_loop step events).2 = Continue -> loop_log step step_log events = []).
Proof.
  intros Hquiet. induction events as [|e events [IH IHrun]]; [by split; [left|]|].
  cbn [loop_log run_loop]. specialize (Hquiet e). destruct (step e) as [actions next] eqn:Es.
  cbn [snd] in Hquiet |- *. destruct (decide (next = Continue)) as [->|Hne].
  - rewrite Hquiet by done. cbn [app]. destruct (run_loop step events) as [more next].
    split; [|done]. destruct IH as [->|(before & e' & after & -> & Hb & He & ->)]; [by left|].
    right. exists (e :: before), e', after. split; [done|]. split; [|done].
    constructor; [by rewrite Es | done].
  - replace (match next with Continue => loop_log step step_log events | _ => [] end) with (@nil LogLine)
      by by destruct next.
    rewrite app_nil_r. split; [|by destruct next]. right. exists [], e, events.
    split; [done|]. split; [done|]. by rewrite Es.
Qed.

Lemma tcp_log_quiet e : (tcp_step e).2 = Continue -> tcp_step_log e = [].
Proof. by destruct e as [[[[[]| |]|]|[[]| |]|] []]. Qed.

Lemma udp_log_quiet e : (udp_step e).2 = Continue -> udp_step_log e = [].
Proof. by destruct e as [[[[[]| |]|]|[[]| |]|] []]. Qed.

Lemma loop_log_short step step_log events :
  (forall e, (step e).2 = Continue -> step_log e = []) ->
  (forall e, length (step_log e) <= 1 /\ Forall (fun line => is_ending line = true) (step_log e)) ->
  length (loop_log step step_log events) <= 1 /\
  Forall (fun line => is_ending line = true) (loop_log step step_log events).
Proof.
  intros Hq Hl. destruct (loop_log_ends step step_log events Hq)
    as [[->|(? & e & ? & _ & _ & _ & ->)] _]; [cbn; split; [lia | done] | done].
Qed.

Lemma proxy_tcp_log_short buffer_size events :
  length (proxy_tcp_log buffer_size events) <= 1 /\
  Forall (fun line => is_ending line = true) (proxy_tcp_log buffer_size events).
Proof.
  unfold proxy_tcp_log. destruct (_ <? _)%Z; [cbn; split; [lia | done]|].
  apply loop_log_short; [apply tcp_log_quiet|].
  intros [[[[[]| |]|]|[[]| |]|] []]; cbn; (split; [lia | by repeat constructor]).
Qed.

Lemma proxy_udp_log_short idle start events :
  length (proxy_udp_log idle start events) <= 1 /\
  Forall (fun line => is_ending line = true) (proxy_udp_log idle start events).
Proof.
  apply loop_log_short; [apply udp_log_quiet|].
  intros [[[[[]| |]|]|[[]| |]|] []]; cbn; (split; [lia | by repeat constructor]).
Qed.

Lemma session_log_short net buffer_size idle start target :
  length (session_log net buffer_size idle start target) <= 1 /\
  Forall (fun line => is_ending line = true) (session_log net buffer_size idle start target).
Proof.
  unfold session_log. destruct (protocol target).
  - destruct (tcp_connect net _); [apply proxy_tcp_log_short | cbn; split; [lia | done]].
  - destruct (connect_udp net _); [apply proxy_udp_log_short | cbn; split; [lia | done]..].
Qed.

(** C26: nothing reaches an upstream unlogged. A connection that does anything to an upstream (looking
    it up and trying to connect it included) logs first, and only once, the line that names the
    upstream, the user it was let in for, and the client as the trusted proxies report it; the only
    line [handle_connection] may log after it is the one of the session's end (a connection that fails
    has one more, of the task that ran it: [task_log] in [Main]). And a connection that logs such a
    line is about to connect that upstream for that user. *)
Theorem upstream_is_logged env auth trusted peer reads net buffer_size idle effects ended auth' :
  handle_connection accept_request env auth trusted peer reads net buffer_size idle =
    ((effects, ended), auth') ->
  (Exists touches_upstream effects ->
   exists head rest request user target ending, read_request_head reads = HeadDone head rest /\
     accept_request (replay_new head rest) = Some request /\
     authorize_request env request auth = Ok user /\ Forall (reaches target) effects /\
     connection_log accept_request env auth trusted peer reads net buffer_size idle =
       Proxying (protocol target) (client_addr trusted peer head) user
          (request_user_agent request) (addr target) :: ending /\
     length ending <= 1 /\ Forall (fun line => is_ending line = true) ending) /\
  (forall pr c user ua upstream,
     Proxying pr c user ua upstream ∈
       connection_log accept_request env auth trusted peer reads net buffer_size idle ->
     exists head rest target, read_request_head reads = HeadDone head rest /\
       c = client_addr trusted peer head /\ pr = protocol target /\ upstream = addr target /\
       (effects, ended) = run_plan net buffer_size idle (instant_now env) (Proxied user target)).
Proof.
  intros Hc. unfold handle_connection in Hc. split.
  - intros Htouch. destruct (read_request_head reads) as [head rest| |head] eqn:Hhead;
      [|injection Hc as <- <- <-; inversion Htouch..].
    destruct (handle_head _ _ _ _ _ _ _).2 as [[plan|[]|] a] eqn:Hh;
      [|injection Hc as <- <- <-; inversion Htouch].
    injection Hc as Hrun <-.
    pose proof (run_plan_upstream net buffer_size idle (instant_now env) plan) as Hup.
    rewrite Hrun in Hup. destruct (Hup Htouch) as (user & target & -> & Hall).
    assert (Hsent : handshake_sent net = true).
    { cbn [run_plan] in Hrun. destruct (handshake_sent net); [done|].
      injection Hrun as <- _. inversion Htouch. }
    destruct (proxied_log env auth trusted peer reads net buffer_size idle head rest user target a
      Hsent Hhead Hh) as (request & Hreq & Hauth & Hlog).
    destruct (session_log_short net buffer_size idle (instant_now env) target) as [Hlen Hend].
    by exists head, rest, request, user, target, (session_log net buffer_size idle (instant_now env) target).
  - intros pr c user ua upstream. unfold connection_log.
    destruct (read_request_head reads) as [head rest| |head]; [|by intros ?%elem_of_nil..].
    unfold handle_head in Hc. cbn [snd] in Hc.
    destruct (parse_plain_request head) as [request|]; [by intros ?%plain_log_lines|].
    destruct (accept_request _) as [request|]; [|by intros ?%elem_of_nil].
    intros [Hin|Hin]%elem_of_app; [by apply callback_log_lines in Hin|].
    unfold plan_log in Hin. destruct (handshake_sent net); [|by apply elem_of_nil in Hin].
    destruct (handshake _ _ _ _ _) as [plan|[]|]; [|by apply elem_of_nil in Hin].
    destruct plan as [| | | |u|u target]; rewrite ?elem_of_nil, ?list_elem_of_singleton in Hin; try done.
    apply elem_of_cons in Hin as [Hin|Hin].
    + injection Hin as -> -> -> _ ->. exists head, rest, target.
      destruct (run_plan _ _ _ _ _) as [e o]. by injection Hc as -> -> _.
    + destruct (session_log_short net buffer_size idle (instant_now env) target) as [_ Hend].
      rewrite Forall_forall in Hend. by apply Hend in Hin.
Qed.

(** A user name and a password as Basic credentials, the password possibly empty. *)
Definition credentials (user password : str) : str := basic_authorization (user ++ ":" ++ password).
Definition user_name (user : str) : Prop := user <> [] /\ x3a ∉ user.

Lemma credentials_username user password :
  user_name user -> is_utf8 (user ++ ":" ++ password) = true ->
  basic_auth_username (credentials user password) = Some user.
Proof.
  intros [Hne Hcolon] Hutf8. unfold basic_auth_username, credentials, basic_authorization.
  rewrite strip_prefix_app. cbn [mbind option_bind]. rewrite std_decode_encode.
  cbn [mbind option_bind]. unfold from_utf8. rewrite Hutf8. cbn [mbind option_bind].
  rewrite (proj2 (split_once_char_Some x3a _ user password)) by done. cbn [mbind option_bind].
  by rewrite decide_False.
Qed.

(** What a refused client calls itself is logged as it stands: for credentials that are not
    configured, the line holds the user name the client chose, and nothing of the password. The
    name is any text without a colon, line breaks included: that such a name cannot pass for log lines of
    its own is left to the formatter of the fields. *)
Theorem refused_name_is_logged env request auth peer user password :
  user_name user -> is_utf8 (user ++ ":" ++ password) = true ->
  authorization_of request = Some (credentials user password) ->
  basic_user auth (credentials user password) = None ->
  allows_anonymous_target auth (uri_path (req_uri request)) = false ->
  authorize_log env request (Some auth) peer =
    [RejectingCredentials peer user (request_user_agent request)] /\
  (forall granted, authorize_request env request (Some auth) <> Ok granted).
Proof.
  intros Hname Hutf8 Ha Hno Hclosed.
  assert (Hl : logged_user env auth (Some (credentials user password)) = Ok (user, None)).
  { unfold logged_user. unfold credentials at 1. rewrite basic_not_bearer, Hno.
    by rewrite credentials_username. }
  split.
  - unfold authorize_log. by rewrite Hclosed, Ha, Hl.
  - intros u. rewrite authorize_request_logged, Hclosed, Ha, Hl. cbn [obind].
    by destruct (unauthorized_response _ _).
Qed.

(** Two requests that differ at most in the credential they present. *)
Definition alike (r1 r2 : Request) : Prop :=
  req_method r1 = req_method r2 /\ req_uri r1 = req_uri r2 /\
  request_user_agent r1 = request_user_agent r2 /\ has_body r1 = has_body r2.

(** Two credentials that are refused for the same user name, or two bearer tokens that are good for
    nothing. *)
Definition refused_alike (env : Env) (auth : AuthConfig) (a1 a2 : str) : Prop :=
  (exists user p1 p2, user_name user /\ is_utf8 (user ++ ":" ++ p1) = true /\
     is_utf8 (user ++ ":" ++ p2) = true /\ a1 = credentials user p1 /\ a2 = credentials user p2 /\
     basic_user auth a1 = None /\ basic_user auth a2 = None) \/
  (exists t1 t2, bearer_token a1 = Some t1 /\ bearer_token a2 = Some t2 /\
     verify_access_token (E := Response) env auth t1 = Ok None /\
     verify_access_token (E := Response) env auth t2 = Ok None /\
     (forall service, tokens auth = Some service ->
        (refresh env t1 (has_user auth) service).1 = Err Invalid /\
        (refresh env t2 (has_user auth) service).1 = Err Invalid /\
        (revoke env t1 service).1 = Ok false /\ (revoke env t2 service).1 = Ok false) /\
     basic_user auth a1 = None /\ basic_user auth a2 = None).

Lemma authorize_log_alike env auth r1 r2 a1 a2 peer :
  alike r1 r2 -> authorization_of r1 = Some a1 -> authorization_of r2 = Some a2 ->
  refused_alike env auth a1 a2 ->
  authorize_log env r1 (Some auth) peer = authorize_log env r2 (Some auth) peer.
Proof.
  intros (_ & Huri & Hua & _) Ha1 Ha2 Hr. unfold authorize_log. rewrite Huri, Hua, Ha1, Ha2.
  assert (Hl : logged_user env auth (Some a1) = logged_user env auth (Some a2)); [|by rewrite Hl].
  unfold logged_user.
  destruct Hr as [(u & p1 & p2 & Hu & Hp1 & Hp2 & -> & -> & -> & ->) | (t1 & t2 & -> & -> & -> & -> & _)];
    [|done].
  rewrite !credentials_username by done. unfold credentials. by rewrite !basic_not_bearer.
Qed.

Lemma auth_request_log_alike env auth r1 r2 a1 a2 peer :
  alike r1 r2 -> authorization_of r1 = Some a1 -> authorization_of r2 = Some a2 ->
  refused_alike env auth a1 a2 ->
  auth_request_log env r1 (Some auth) peer = auth_request_log env r2 (Some auth) peer.
Proof.
  intros (Hm & Huri & Hua & Hb) Ha1 Ha2 Hr. unfold auth_request_log. rewrite Hm, Huri, Hua, Hb, Ha1, Ha2.
  cbn [mbind option_bind]. destruct (tokens auth) as [service|] eqn:Ht; [|done]. cbn [fmap option_fmap option_map].
  destruct (endpoint_of _) as [endpoint|]; [|done]. case_decide; [done|]. destruct (has_body r2); [done|].
  unfold endpoint_log. cbn [mbind option_bind].
  destruct Hr as [(u & p1 & p2 & _ & _ & _ & -> & -> & -> & ->)
                 | (t1 & t2 & -> & -> & _ & _ & Hs & -> & ->)].
  - unfold credentials. rewrite !basic_not_bearer. by destruct endpoint.
  - destruct (Hs service Ht) as (Hr1 & Hr2 & Hv1 & Hv2).
    destruct endpoint; [done | by rewrite Hr1, Hr2 | by rewrite Hv1, Hv2].
Qed.

(** C38: refused secrets leave no trace in the log. Two attempts that differ only in a wrong password,
    or only in a worthless token, write the same lines, at the handshake, at the health check and at the
    token endpoints. *)
Theorem log_hides_refused_secrets env auth r1 r2 a1 a2 peer :
  alike r1 r2 -> authorization_of r1 = Some a1 -> authorization_of r2 = Some a2 ->
  refused_alike env auth a1 a2 ->
  callback_log env (Some auth) r1 peer = callback_log env (Some auth) r2 peer /\
  plain_log env (Some auth) r1 peer = plain_log env (Some auth) r2 peer.
Proof.
  intros Hal Ha1 Ha2 Hr.
  pose proof (authorize_log_alike env auth r1 r2 a1 a2 peer Hal Ha1 Ha2 Hr) as Hlog.
  pose proof (auth_request_log_alike env auth r1 r2 a1 a2 peer Hal Ha1 Ha2 Hr) as Hapi.
  destruct Hal as (Hm & Huri & Hua & _).
  assert (Hsame : forall u, authorize_request env r1 (Some auth) = Ok u <->
    authorize_request env r2 (Some auth) = Ok u).
  { intros u. rewrite !authorize_request_logged, Huri, Ha1, Ha2.
    destruct (allows_anonymous_target _ _); [done|]. cbn [mbind option_bind].
    destruct Hr as [(n & p1 & p2 & Hn & Hp1 & Hp2 & -> & -> & E1 & E2) | (t1 & t2 & E1 & E2 & V1 & V2 & _)].
    - unfold logged_user. unfold credentials at 1 2 5 6. rewrite !basic_not_bearer, E1, E2. cbn [obind].
      by destruct (unauthorized_response _ _).
    - unfold logged_user. rewrite E1, E2, V1, V2. cbn [obind].
      by destruct (unauthorized_response _ _). }
  unfold callback_log, plain_log, capture_log. rewrite Hlog, Hapi, Huri, Hua.
  destruct (authorize_request env r1 _) as [u1| |], (authorize_request env r2 _) as [u2| |];
    try done; first [by discriminate (proj1 (Hsame u1) eq_refl) | by discriminate (proj2 (Hsame u2) eq_refl) | idtac].
  by injection (proj1 (Hsame u1) eq_refl) as ->.
Qed.

(** A session logs its end and nothing else: no line while it runs, at most one when it ends; a UDP
    session logs the idle timeout exactly when the timer, and nothing else, ends it. *)
Theorem session_log_ends buffer_size idle start tcp_events udp_events :
  ((proxy_tcp buffer_size tcp_events).2 = Continue -> proxy_tcp_log buffer_size tcp_events = []) /\
  length (proxy_tcp_log buffer_size tcp_events) <= 1 /\
  length (proxy_udp_log idle start udp_events) <= 1 /\
  (UdpIdleTimeout ∈ proxy_udp_log idle start udp_events <->
   exists before ok after, with_timer idle start udp_events = before ++ (IdleTimeout, ok) :: after /\
     Forall (fun e => (udp_step e).2 = Continue) before).
Proof.
  split.
  { unfold proxy_tcp, proxy_tcp_log. destruct (_ <? _)%Z; [done|]. apply loop_log_ends, tcp_log_quiet. }
  split; [apply proxy_tcp_log_short|]. split; [apply proxy_udp_log_short|].
  unfold proxy_udp_log. generalize (with_timer idle start udp_events) as events. intros events.
  destruct (loop_log_ends udp_step udp_step_log events udp_log_quiet) as [Hcase _]. split.
  - intros Hin. destruct Hcase as [E|(before & e & after & -> & Hb & _ & E)]; rewrite E in Hin;
      [by apply elem_of_nil in Hin|].
    destruct e as [[[[[]| |]|]|[[]| |]|] ok]; cbn in Hin; try (by apply elem_of_nil in Hin);
      try (by apply list_elem_of_singleton in Hin). by exists before, ok, after.
  - intros (before & ok & after & -> & Hb). clear Hcase.
    induction Hb as [|e before He _ IH]; cbn [app loop_log].
    + cbn. by left.
    + rewrite He. apply elem_of_app. by right.
Qed.
End theorems.

(** ** Witnesses *)

Module AuditTests.
Import AuthTests ProxyTests.

Definition client : ClientAddr := client_from peer.
Definition log (path authorization : str) : list LogLine :=
  connection_log accept env (Some auth) [] peer [Ok (head_for path authorization)] net 1024 60.

Example logs :
  log "/tcp:[::1]:443" bob = [Proxying Tcp client "bob" "-" "[::1]:443"] /\
  log "/udp:[::1]:443" bob = [Proxying Udp client "bob" "-" "[::1]:443"; UdpIdleTimeout] /\
  log "/" bob = [WsHealthCheck client "bob" "-"] /\
  log "/nowhere" bob = [RejectingPath client "bob" "-" "/nowhere" PathPrefix] /\
  log "/tcp:a:1" "Bearer abc" = [RejectingCredentials client "invalid" "-"].
Proof. by repeat split; by_eval. Qed.

Example upstream_is_logged_witness :
  exists head rest request user target ending,
    read_request_head [Ok (head_for "/udp:[::1]:443" bob)] = HeadDone head rest /\
    accept (replay_new head rest) = Some request /\
    authorize_request env request (Some auth) = Ok user /\
    Forall (reaches target) (connection "/udp:[::1]:443" bob).1.1 /\
    log "/udp:[::1]:443" bob =
      Proxying (protocol target) (client_addr [] peer head) user (request_user_agent request)
         (addr target) :: ending /\
    length ending <= 1 /\ Forall (fun line => is_ending line = true) ending.
Proof.
  refine (proj1 (upstream_is_logged accept env (Some auth) [] peer
    [Ok (head_for "/udp:[::1]:443" bob)] net 1024 60 (connection "/udp:[::1]:443" bob).1.1
    (connection "/udp:[::1]:443" bob).1.2 (connection "/udp:[::1]:443" bob).2 _) _).
  - unfold connection. by destruct (handle_connection _ _ _ _ _ _ _ _ _) as [[? ?] ?].
  - assert (E : (connection "/udp:[::1]:443" bob).1.1 =
      [LookupUdp "[::1]:443"; ConnectUdp "[::1]:443" "0.0.0.0:0" peer; Forwarding (WsSend (Close None))])
      by by_eval.
    rewrite E. by constructor.
Defined.

(** A user name with a line of its own. *)
Definition forged : str := "nobody\n2026-01-01  INFO proxy".

Example refused_name_is_logged_witness :
  authorize_log env (request "/tcp:a:1" (Some (credentials forged "x"))) (Some auth) client =
    [RejectingCredentials client forged "-"].
Proof.
  refine (proj1 (refused_name_is_logged env (request "/tcp:a:1" (Some (credentials forged "x"))) auth
    client forged "x" _ _ _ _ _)); [|by_eval..].
  apply (bool_decide_unpack _). vm_cast_no_check I.
Defined.

Definition guess (password : str) : Request :=
  request "/auth/token" (Some (credentials "alice" password)).

Example log_hides_refused_secrets_witness :
  callback_log env (Some auth) (guess "123456") client = callback_log env (Some auth) (guess "password") client.
Proof.
  refine (proj1 (log_hides_refused_secrets env auth (guess "123456") (guess "password")
    (credentials "alice" "123456") (credentials "alice" "password") client _ _ _ _)); [|by_eval..|].
  - repeat split; by_eval.
  - left. exists "alice", "123456", "password".
    split; [apply (bool_decide_unpack _); vm_cast_no_check I|].
    repeat split; by_eval.
Defined.
End AuditTests.
