(* ===== verification/Tls.v ===== *)
(** [src/tls.rs]: the TLS configuration of the WSS service.

    The certificate libraries are the interface [TlsLibs]; what a call reads from the machine (the
    network interfaces, the clock, a fresh key pair) is a [TlsEnv]. *)

From Stdlib Require Import Sorted.
From S2P Require Import Prelude RustStd Net ClientAddr Args.

Inductive TlsError : Type :=
  | CertUnreadable (path : str)
  | CertUnparsable (path : str)
  | NoCertificates (path : str)
  | KeyUnreadable (path : str)
  | KeyUnparsable (path : str)
  | NoPrivateKey (path : str)
  | NoInterfaces
  | BadCertParams
  | NoKeyPair
  | SelfSignedFailed
  | BadServerConfig.

(** The order of [IpAddr]: IPv4 first, then by number. *)
Definition ip_ltb (a b : IpAddr) : bool :=
  match a, b with
  | V4 x, V4 y => (x <? y)%Z
  | V4 _, V6 _ => true
  | V6 _, V4 _ => false
  | V6 x, V6 y => (x <? y)%Z
  end.

(** A [BTreeSet<IpAddr>] is its increasing list of elements. *)
Fixpoint btree_insert (ip : IpAddr) (set : list IpAddr) : list IpAddr :=
  match set with
  | [] => [ip]
  | x :: rest =>
      if ip_ltb ip x then ip :: set
      else if decide (ip = x) then set
      else x :: btree_insert ip rest
  end.

(** What the router asks of a generated certificate; times in seconds. *)
Record CertParams : Type := mkCertParams {
  subject_alt_names : list str;
  not_before : Z;
  not_after : Z;
  common_name : str;
}.

(** [rustls_pemfile] (certificates, private key), [rcgen] (whether the parameters can be made for
    the given names, the signature, the key in DER form) and [rustls]. *)
Class TlsLibs := {
  Cert : Type;
  PrivKey : Type;
  KeyPair : Type;
  ServerConfig : Type;
  pem_certs : bytes -> option (list Cert);
  pem_key : bytes -> option (option PrivKey);
  params_accepted : list str -> bool;
  self_signed : CertParams -> KeyPair -> option Cert;
  serialize_der : KeyPair -> PrivKey;
  with_single_cert : list Cert -> PrivKey -> option ServerConfig;
}.

(** [list_afinet_netifas], [OffsetDateTime::now_utc] and [KeyPair::generate]. *)
Record TlsEnv `{TlsLibs} : Type := mkTlsEnv {
  interfaces : option (list IpAddr);
  now_utc : Z;
  generate_key_pair : option KeyPair;
}.

Section tls.
Context `{TlsLibs}.
Variable fs : Files.
Variable tls_env : TlsEnv.

(** [server_ip_addresses]. *)
Definition server_ip_addresses : outcome TlsError (list IpAddr) :=
  let? found := ok_or NoInterfaces (interfaces tls_env) in
  let ips := foldl (fun set ip => btree_insert ip set) [] found in
  Ok (btree_insert localhost_v6 (btree_insert localhost_v4 ips)).

(** [generate_self_signed_cert]. *)
Definition generate_self_signed_cert : outcome TlsError (list Cert * PrivKey) :=
  let? ips := server_ip_addresses in
  let names := show_ip <$> ips in
  let? _ := if params_accepted names then Ok tt else Err BadCertParams in
  let now := now_utc tls_env in
  let params :=
    mkCertParams names now (now + 365 * 10 * 86400) "ws2tcp-router self-signed" in
  let? key_pair := ok_or NoKeyPair (generate_key_pair tls_env) in
  let? cert := ok_or SelfSignedFailed (self_signed params key_pair) in
  Ok ([cert], serialize_der key_pair).

(** [load_certs]. *)
Definition load_certs (path : str) : outcome TlsError (list Cert) :=
  let? file := ok_or (CertUnreadable path) (fs path) in
  let? certs := ok_or (CertUnparsable path) (pem_certs file) in
  match certs with [] => Err (NoCertificates path) | _ => Ok certs end.

(** [load_private_key]. *)
Definition load_private_key (path : str) : outcome TlsError PrivKey :=
  let? file := ok_or (KeyUnreadable path) (fs path) in
  let? key := ok_or (KeyUnparsable path) (pem_key file) in
  ok_or (NoPrivateKey path) key.

(** [build_server_config]. *)
Definition build_server_config (certs : list Cert) (key : PrivKey) : outcome TlsError ServerConfig :=
  ok_or BadServerConfig (with_single_cert certs key).

(** [build_tls_config]. *)
Definition build_tls_config (args : Args) : outcome TlsError (option ServerConfig) :=
  if auto_self_signed_cert args then
    let? '(certs, key) := generate_self_signed_cert in
    let? config := build_server_config certs key in
    Ok (Some config)
  else
    match tls_cert args, tls_key args with
    | Some cert_path, Some key_path =>
        let? certs := load_certs cert_path in
        let? key := load_private_key key_path in
        let? config := build_server_config certs key in
        Ok (Some config)
    | _, _ => Ok None
    end.

(** ** Theorems *)

Definition ip_lt (a b : IpAddr) : Prop := ip_ltb a b = true.

#[export] Instance ip_lt_trans : Transitive ip_lt.
Proof.
  intros [x|x] [y|y] [z|z]; unfold ip_lt; cbn; try done; rewrite !Z.ltb_lt; lia.
Qed.

Lemma ip_lt_total a b : ip_ltb a b = false -> a <> b -> ip_lt b a.
Proof.
  destruct a as [x|x], b as [y|y]; unfold ip_lt; cbn; try done;
    rewrite Z.ltb_ge, Z.ltb_lt; intros Hle Hne; assert (x <> y) by congruence; lia.
Qed.

Lemma btree_insert_elem ip x set : x ∈ btree_insert ip set <-> x = ip \/ x ∈ set.
Proof.
  induction set as [|y set IH]; cbn; [rewrite list_elem_of_singleton, elem_of_nil; tauto|].
  destruct (ip_ltb ip y); [by rewrite elem_of_cons|].
  case_decide as E; [subst; rewrite elem_of_cons; tauto|]. rewrite !elem_of_cons, IH. tauto.
Qed.

Lemma btree_insert_sorted ip set :
  StronglySorted ip_lt set -> StronglySorted ip_lt (btree_insert ip set).
Proof.
  induction 1 as [|x set Hset IH Hx]; cbn; [repeat constructor|].
  destruct (ip_ltb ip x) eqn:Hlt.
  - constructor; [by constructor|]. constructor; [done|].
    eapply Forall_impl; [exact Hx|]. intros y Hy. by etrans.
  - case_decide as E; [by constructor|]. constructor; [done|].
    apply Forall_forall. intros y [-> | Hy]%btree_insert_elem; [by apply ip_lt_total|].
    rewrite Forall_forall in Hx. auto.
Qed.

Lemma btree_inserts_spec found set :
  StronglySorted ip_lt set ->
  StronglySorted ip_lt (foldl (fun set ip => btree_insert ip set) set found) /\
  forall x, x ∈ foldl (fun set ip => btree_insert ip set) set found <-> x ∈ found \/ x ∈ set.
Proof.
  revert set. induction found as [|ip found IH]; intros set Hset; cbn.
  { split; [done|]. intros x. rewrite elem_of_nil. tauto. }
  destruct (IH (btree_insert ip set)) as [Hs He]; [by apply btree_insert_sorted|].
  split; [done|]. intros x. rewrite He, btree_insert_elem, elem_of_cons. tauto.
Qed.

(** A generated certificate names every address of the server once, in order, the loopback
    addresses included. *)
Theorem server_addresses_complete found ips :
  interfaces tls_env = Some found -> server_ip_addresses = Ok ips ->
  StronglySorted ip_lt ips /\
  forall ip, ip ∈ ips <-> ip ∈ found \/ ip = localhost_v4 \/ ip = localhost_v6.
Proof.
  intros Hf. unfold server_ip_addresses. rewrite Hf. cbn [ok_or obind]. intros [= <-].
  destruct (btree_inserts_spec found []) as [Hs He]; [constructor|].
  split; [by do 2 apply btree_insert_sorted|]. intros ip.
  rewrite !btree_insert_elem, He, elem_of_nil. tauto.
Qed.

(** With validated options a TLS service never lacks its configuration. *)
Lemma build_tls_config_some args config :
  valid_args args -> includes_wss (service_mode args) = true ->
  build_tls_config args = Ok config -> is_Some config.
Proof.
  intros Hv Hw%(valid_wss _ Hv). unfold build_tls_config, has_tls_config in *.
  destruct (auto_self_signed_cert args).
  - destruct generate_self_signed_cert as [[certs key]| |]; [|done..]. cbn [obind].
    destruct (build_server_config certs key); [|done..]. by intros [= <-].
  - apply andb_true_iff in Hw as [Hc%bool_decide_eq_true Hk%bool_decide_eq_true].
    destruct Hc as [c ->], Hk as [k ->].
    destruct (load_certs c); [|done..]. cbn [obind].
    destruct (load_private_key k); [|done..]. cbn [obind].
    destruct (build_server_config _ _); [|done..]. by intros [= <-].
Qed.
Lemma build_tls_config_no_panic args : is_panic (build_tls_config args) = false.
Proof.
  unfold build_tls_config, generate_self_signed_cert, server_ip_addresses, load_certs,
    load_private_key, build_server_config.
  destruct (auto_self_signed_cert args).
  - destruct (interfaces tls_env); [|done]. cbn [ok_or obind].
    destruct (params_accepted _); [|done]. cbn [ok_or obind].
    destruct (generate_key_pair tls_env) as [pair|]; [|done]. cbn [ok_or obind].
    destruct (self_signed _ pair) as [c|]; [|done]. cbn [ok_or obind].
    by destruct (with_single_cert _ _).
  - destruct (tls_cert args) as [c|], (tls_key args) as [k|]; try done.
    destruct (fs c) as [f|]; [|done]. cbn [ok_or obind].
    destruct (pem_certs f) as [[|x l]|]; [done| |done]. cbn [ok_or obind].
    destruct (fs k) as [g|]; [|done]. cbn [ok_or obind].
    destruct (pem_key g) as [[key|]|]; [|done..]. cbn [ok_or obind].
    by destruct (with_single_cert _ _).
Qed.
End tls.

(** Trivial libraries, on which the definitions can be run. *)
Module TlsTests.
#[export] Instance unit_libs : TlsLibs := {|
  Cert := unit; PrivKey := unit; KeyPair := unit; ServerConfig := unit;
  pem_certs _ := None; pem_key _ := None; params_accepted _ := true;
  self_signed _ _ := Some tt; serialize_der _ := tt; with_single_cert _ _ := Some tt;
|}.
Definition machine (found : list IpAddr) : TlsEnv := mkTlsEnv _ (Some found) 0 (Some tt).
End TlsTests.

Example server_addresses_complete_witness :
  StronglySorted ip_lt [V4 5; localhost_v4; localhost_v6; V6 7] /\
  forall ip, ip ∈ [V4 5; localhost_v4; localhost_v6; V6 7] <->
    ip ∈ [V6 7; V4 5; V6 7] \/ ip = localhost_v4 \/ ip = localhost_v6.
Proof. apply (server_addresses_complete (TlsTests.machine [V6 7; V4 5; V6 7])); by_eval. Defined.
