(* ===== verification/Listener.v ===== *)
(** [src/listener.rs]: binding the sockets. A call to the operating system is a [Syscall]; [ok] says
    which ones succeed. *)

From S2P Require Import Prelude RustStd Net.

Inductive Syscall : Type :=
  | BindTcp (addr : SocketAddr)     (* TcpListener::bind *)
  | NewIpv6Socket
  | SetOnlyV6 (only : bool)
  | BindSocket (addr : SocketAddr)
  | ListenSocket (backlog : Z)
  | SetNonblocking
  | FromStd.

Inductive ListenError : Type :=
  | Unresolved (host : str) (port : Z)
  | NoAddress (host : str) (port : Z)
  | OnlyV6NeedsIpv6
  | SyscallFailed (call : Syscall).

Section listener.
(** Name resolution of a host and a port ([to_socket_addrs]). *)
Variable resolve : str -> Z -> option (list SocketAddr).
Variable ok : Syscall -> bool.

(** [resolve_bind_addr]: the first address. *)
Definition resolve_bind_addr (host : str) (port : Z) : outcome ListenError SocketAddr :=
  let? addrs := ok_or (Unresolved host port) (resolve host port) in
  ok_or (NoAddress host port) (head addrs).

(** The calls in order, up to the first that fails. *)
Fixpoint run_calls (calls : list Syscall) : outcome ListenError unit :=
  match calls with
  | [] => Ok tt
  | c :: rest => if ok c then run_calls rest else Err (SyscallFailed c)
  end.

(** The calls of [bind_listener] for an address. *)
Definition listener_calls (addr : SocketAddr) (ipv6_only : bool) : list Syscall :=
  match sock_ip addr with
  | V4 _ => [BindTcp addr]
  | V6 _ =>
      [NewIpv6Socket; SetOnlyV6 ipv6_only; BindSocket addr; ListenSocket 1024; SetNonblocking; FromStd]
  end.

(** [bind_listener]. *)
Definition bind_listener (addr : SocketAddr) (ipv6_only : bool) : outcome ListenError SocketAddr :=
  if is_ipv4 (sock_ip addr) && ipv6_only then Err OnlyV6NeedsIpv6
  else let? _ := run_calls (listener_calls addr ipv6_only) in Ok addr.
End listener.

(** A bound listener: [--ipv6-only] only with an IPv6 address. *)
Lemma bind_listener_Ok ok addr v6 a :
  bind_listener ok addr v6 = Ok a -> a = addr /\ (v6 = true -> is_ipv4 (sock_ip addr) = false).
Proof.
  unfold bind_listener. destruct (is_ipv4 (sock_ip addr)) eqn:E; cbn [andb].
  - destruct v6; [done|]. destruct (run_calls _ _); [|done..]. by intros [= <-].
  - destruct (run_calls _ _); [|done..]. by intros [= <-].
Qed.
