(* ===== verification/Logging.v ===== *)
(** [src/logging.rs]: the choice of the log filter and of the log file, and the format of a line.
    The filter language ([EnvFilter]), the file system and the rendering of times and fields are
    arguments ([LogEnv]). *)

From S2P Require Import Prelude RustStd Args.

Inductive Level : Type := ERROR | WARN | INFO | DEBUG | TRACE.

Definition ESC : byte := x1b.
Definition CRATE_PREFIX : str := "ws2tcp_router::".

(** [paint]. *)
Definition paint (ansi : bool) (code : str) : str * str :=
  if ansi then (code, ESC :: "[0m") else ([], []).

Definition level_color (level : Level) : str :=
  ESC :: match level with
         | ERROR => "[31m" | WARN => "[33m" | INFO => "[32m" | DEBUG => "[34m" | TRACE => "[35m"
         end.

(** The level in a field of five characters. *)
Definition level_text (level : Level) : str :=
  match level with
  | ERROR => "ERROR" | WARN => " WARN" | INFO => " INFO" | DEBUG => "DEBUG" | TRACE => "TRACE"
  end.

(** [ShortTarget::format_event]: [time] and [fields] as rendered by the library. *)
Definition format_event (with_time ansi : bool) (time : str) (level : Level) (target fields : str) : str :=
  let '(on, off) := paint ansi (level_color level) in
  let short := default target (strip_prefix CRATE_PREFIX target) in
  let '(dim, undim) := paint ansi (ESC :: "[2m") in
  (if with_time then time ++ " " else []) ++
  on ++ level_text level ++ off ++ " " ++
  dim ++ short ++ ":" ++ undim ++ " " ++
  fields ++ "\n".

Inductive LogError : Type :=
  | InvalidFilter (level : str)
  | LogDirectory (path : str)
  | LogOpen (path : str).

(** [Path::parent] of a Unix path: trailing separators and [.] components do not count. *)
Fixpoint trim_path (fuel : nat) (p : str) : str :=
  match fuel with
  | O => p
  | S fuel' =>
      if decide (p = "/") then p
      else
        match strip_suffix "/" p, strip_suffix "/." p with
        | Some r, _ => trim_path fuel' r
        | None, Some [] => "/"
        | None, Some r => trim_path fuel' r
        | None, None => p
        end
  end.

Definition path_parent (path : str) : option str :=
  let p := trim_path (length path) path in
  if decide (p = [] \/ p = "/") then None
  else
    match rsplit_once x2f p with
    | None => Some []
    | Some ([], _) => Some "/"
    | Some (dir, _) => Some (trim_path (length dir) dir)
    end.

Example path_parents :
  path_parent <$> ["router.log"; "logs/router.log"; "/var/log/router.log"; "/router.log"; "/"; "a/./b/"; "."]
  = [Some []; Some "logs"; Some "/var/log"; Some "/"; None; Some "a"; Some []].
Proof. vm_compute. done. Qed.

(** The libraries and the machine as [init_logging] sees them: [EnvFilter::try_new],
    [EnvFilter::from], the filter of [RUST_LOG] ([try_from_default_env]), creating directories,
    opening for appending, and whether [JOURNAL_STREAM] is set. *)
Record LogEnv (Filter : Type) : Type := mkLogEnv {
  try_new : str -> option Filter;
  filter_from : str -> Filter;
  rust_log : option Filter;
  create_dir_all : str -> bool;
  open_append : str -> bool;
  journal_stream : bool;
}.
Arguments mkLogEnv {_} _ _ _ _ _ _.
Arguments try_new {_} _ _.
Arguments filter_from {_} _ _.
Arguments rust_log {_} _.
Arguments create_dir_all {_} _ _.
Arguments open_append {_} _ _.
Arguments journal_stream {_} _.

(** What logging is set up with: the filter, whether lines carry a time, the log file (standard
    error without one, where colors are up to the terminal). *)
Record LogSetup (Filter : Type) : Type := mkLogSetup {
  log_filter : Filter;
  log_with_time : bool;
  log_to : option str;
}.
Arguments mkLogSetup {_} _ _ _.

Section logging.
Context {Filter : Type}.
Variable machine : LogEnv Filter.

(** The filter of [init_logging]. *)
Definition choose_filter (args : Args) : outcome LogError Filter :=
  match log_level args with
  | Some level => ok_or (InvalidFilter level) (try_new machine level)
  | None => Ok (default (filter_from machine "ws2tcp_router=info") (rust_log machine))
  end.

(** [open_log_writer]: the path opened. *)
Definition open_log_writer (path : str) : outcome LogError str :=
  let? _ :=
    match path_parent path with
    | Some dir =>
        if decide (dir = []) then Ok tt
        else if create_dir_all machine dir then Ok tt else Err (LogDirectory dir)
    | None => Ok tt
    end in
  if open_append machine path then Ok path else Err (LogOpen path).

(** [init_logging]. *)
Definition init_logging (args : Args) : outcome LogError (LogSetup Filter) :=
  let? filter := choose_filter args in
  let with_time := negb (journal_stream machine) in
  match log_file args with
  | Some path => let? file := open_log_writer path in Ok (mkLogSetup filter with_time (Some file))
  | None => Ok (mkLogSetup filter with_time None)
  end.

Lemma init_logging_no_panic args : is_panic (init_logging args) = false.
Proof.
  unfold init_logging, choose_filter, open_log_writer.
  assert (Hgo : forall f : Filter, is_panic
    (match log_file args with
     | Some path =>
         let? file :=
           let? _ :=
             match path_parent path with
             | Some dir =>
                 if decide (dir = []) then Ok tt
                 else if create_dir_all machine dir then Ok tt else Err (LogDirectory dir)
             | None => Ok tt
             end in
           if open_append machine path then Ok path else Err (LogOpen path) in
         Ok (mkLogSetup f (negb (journal_stream machine)) (Some file))
     | None => Ok (mkLogSetup f (negb (journal_stream machine)) None)
     end) = false).
  { intros f. destruct (log_file args) as [path|]; [|done].
    destruct (path_parent path) as [dir|]; cbn [obind]; [|by destruct (open_append machine path)].
    case_decide; [cbn [obind]; by destruct (open_append machine path)|].
    destruct (create_dir_all machine dir); [|done]. cbn [obind].
    by destruct (open_append machine path). }
  destruct (log_level args) as [level|]; [destruct (try_new machine level); [|done]|];
    cbn [ok_or obind]; apply Hgo.
Qed.
End logging.

Example formats_a_line :
  format_event false false [] WARN "ws2tcp_router::proxy" "rejecting" = " WARN proxy: rejecting\n".
Proof. reflexivity. Qed.
