(* ===== verification/Main.v ===== *)
(** [src/main.rs]: starting the services and accepting connections.

    [main] is the function of the same name up to the spawned tasks: the options, the logging, the
    file pollers and the services it starts, in order, or why it stops. [serve_listener] is the
    accept loop over the results of [accept], [handle_accepted_stream] the task of a connection.
    [start_log] and [task_log] are the lines they log. The theorems: starting never panics and yields
    the services of the mode, the start-up log announces what is started, and an error of [accept]
    ends a service. *)

From S2P Require Import Prelude RustStd Extern Instances Net ClientAddr Args Token TokenAccess.
From S2P Require Import TokenStore Auth AuthSpec HttpProbe TokenApi Proxy AuditLog Tls Listener Logging.

Inductive MainError : Type :=
  | OptionsFailed (e : ArgsError)
  | LoggingFailed (e : LogError)
  | AuthFailed (e : AuthError)
  | TlsFailed (e : TlsError)
  | ListenFailed (e : ListenError).

(** The machine the router starts on: what [clap] makes of the command line and [toml] of a
    configuration file, the file system, the logging and TLS environments, name resolution and the results of the socket calls. *)
Record Machine `{TlsLibs} (Filter : Type) : Type := mkMachine {
  clap_parse : list str -> option CliArgs;
  toml_from_str : str -> option ConfigArgs;
  files : Files;
  log_env : LogEnv Filter;
  tls_env : TlsEnv;
  resolve : str -> Z -> option (list SocketAddr);
  syscall_ok : Syscall -> bool;
}.
Arguments mkMachine {_ _} _ _ _ _ _ _ _.
Arguments clap_parse {_ _} _ _.
Arguments toml_from_str {_ _} _ _.
Arguments files {_ _} _ _.
Arguments log_env {_ _} _.
Arguments tls_env {_ _} _.
Arguments resolve {_ _} _ _ _.
Arguments syscall_ok {_ _} _ _.

(** A started service: what its [serve_listener] task is given. *)
Record Service `{TlsLibs} : Type := mkService' {
  scheme : str;
  listen_addr : SocketAddr;
  service_buffer_size : Z;
  service_idle_timeout : Duration;
  tls_config : option ServerConfig;
  service_proxies : TrustedProxies;
}.

Section main.
Context `{Base64} `{Ring} `{TlsLibs} {Filter : Type}.
Variable machine : Machine Filter.

(** Resolving, binding and spawning one service. *)
Definition start_service (args : Args) (scheme : str) (port : Z)
    (tls : outcome MainError (option ServerConfig)) : outcome MainError Service :=
  let? addr := omap_err ListenFailed (resolve_bind_addr (resolve machine) (bind_addr args) port) in
  let? addr := omap_err ListenFailed (bind_listener (syscall_ok machine) addr (ipv6_only args)) in
  let? config := tls in
  Ok (mkService' _ scheme addr (buffer_size args) (from_secs (udp_idle_timeout args)) config
        (trusted_proxy args)).

(** [Option::expect]. *)
Definition expect {E A} (o : option A) : outcome E A :=
  match o with Some a => Ok a | None => Panicked end.

(** The services of [main], once the authentication configuration is built. *)
Definition main_services (args : Args) : outcome MainError (list Service) :=
  let? tls :=
    if includes_wss (service_mode args)
    then omap_err TlsFailed (build_tls_config (files machine) (tls_env machine) args)
    else Ok None in
  let? ws :=
    if includes_ws (service_mode args) then
      let? s := start_service args "ws" (ws_port args) (Ok None) in Ok [s]
    else Ok [] in
  let? wss :=
    if includes_wss (service_mode args) then
      let? s := start_service args "wss" (tls_port args)
                  (let? config := expect tls in Ok (Some config)) in
      Ok [s]
    else Ok [] in
  Ok (ws ++ wss).

(** The running router. *)
Record Started : Type := mkStarted {
  started_args : Args;
  log_setup : LogSetup Filter;
  started_auth : option AuthConfig;
  reloaders : list Reloader;
  services : list Service;
}.

(** [main], on the arguments of the process. *)
Definition main (env : Env) (args_os : list str) : outcome MainError Started :=
  let? args := omap_err OptionsFailed
    (parse (toml_from_str machine) (files machine) (clap_parse machine) args_os) in
  let? log := omap_err LoggingFailed (init_logging (log_env machine) args) in
  let? auth := omap_err AuthFailed (build_auth_config env (files machine) args) in
  let reloaders := match auth with Some auth => spawn_auth_file_reloader auth | None => [] end in
  let? services := main_services args in
  Ok (mkStarted args log auth reloaders services).

(** The lines [main] logs once logging is set up. *)
Inductive StartLine : Type :=
  | TokenAuthenticationOn
  | ReadingForwardedFor (trusted : TrustedProxies)
  | ListeningOn (scheme : str) (addr : SocketAddr) (basic_auth : bool).

Definition start_message (line : StartLine) : str :=
  match line with
  | TokenAuthenticationOn =>
      "token authentication is on: Bearer access tokens and Basic Auth are both accepted"
  | ReadingForwardedFor _ => "reading X-Forwarded-For from these proxies only"
  | ListeningOn scheme addr _ => "listening on " ++ scheme ++ "://" ++ show_socket_addr addr
  end.

Definition listening_log (with_auth : bool) (service : outcome MainError Service) : list StartLine :=
  match service with
  | Ok s => [ListeningOn (scheme s) (listen_addr s) with_auth]
  | _ => []
  end.

(** The lines of the services: those before the first failure. *)
Definition services_log (with_auth : bool) (args : Args) : list StartLine :=
  let tls :=
    if includes_wss (service_mode args)
    then omap_err TlsFailed (build_tls_config (files machine) (tls_env machine) args)
    else Ok None in
  match tls with
  | Ok tls =>
      ReadingForwardedFor (proxies_new (trusted_proxy args)) ::
      (let ws := start_service args "ws" (ws_port args) (Ok None) in
       let wss := start_service args "wss" (tls_port args) (let? config := expect tls in Ok (Some config)) in
       (if includes_ws (service_mode args) then listening_log with_auth ws else []) ++
       (if includes_wss (service_mode args) then
          if includes_ws (service_mode args)
          then match ws with Ok _ => listening_log with_auth wss | _ => [] end
          else listening_log with_auth wss
        else []))
  | _ => []
  end.

(** The lines of [main]. *)
Definition start_log (env : Env) (args_os : list str) : list StartLine :=
  match parse (toml_from_str machine) (files machine) (clap_parse machine) args_os with
  | Ok args =>
      match init_logging (log_env machine) args, build_auth_config env (files machine) args with
      | Ok _, Ok auth =>
          (if auth then [TokenAuthenticationOn] else []) ++
          services_log (bool_decide (is_Some auth)) args
      | _, _ => []
      end
  | _ => []
  end.
End main.

(** ** Accepting *)

Section accepting.
Context `{Base64} `{Ring} `{Subtle} `{Http} `{HttParse} `{TlsLibs}.

(** An accepted connection of a service: what [handle_accepted_stream] is given. *)
Record Accepted : Type := mkAccepted {
  accepted_by : Service;
  accepted_peer : SocketAddr;
}.

(** [serve_listener] over the results of [accept]: the tasks it spawns, and whether it still runs.
    An error of [accept] ends it; nobody reads the result of the task. *)
Fixpoint serve_listener (service : Service) (accepts : list (outcome unit SocketAddr)) :
    list Accepted * bool :=
  match accepts with
  | [] => ([], true)
  | Ok peer :: rest =>
      let '(tasks, running) := serve_listener service rest in
      (mkAccepted service peer :: tasks, running)
  | _ :: _ => ([], false)
  end.

(** The error of a connection task, which is logged. *)
Inductive AcceptedError : Type :=
  | TlsHandshakeFailed
  | InConnection (e : ConnectionError).

Variable accept_request : ReplayStream (list read_result) -> option Request.
(** The TLS handshake over the reads of the socket: the reads of the decrypted stream. *)
Variable tls_accept : ServerConfig -> list read_result -> option (list read_result).

(** [handle_accepted_stream]: the TLS handshake when the service has a configuration, then
    [handle_connection] on the stream. *)
Definition handle_accepted_stream (env : Env) (auth : option AuthConfig) (conn : Accepted)
    (reads : list read_result) (net : Network) :
    (list Effect * option (outcome AcceptedError unit)) * option AuthConfig :=
  let service := accepted_by conn in
  let stream :=
    match tls_config service with
    | Some config => tls_accept config reads
    | None => Some reads
    end in
  match stream with
  | None => (([], Some (Err TlsHandshakeFailed)), auth)
  | Some reads =>
      let '((effects, ended), auth) :=
        handle_connection accept_request env auth (service_proxies service) (accepted_peer conn)
          reads net (service_buffer_size service) (service_idle_timeout service) in
      ((effects, omap_err InConnection <$> ended), auth)
  end.

(** The line the task of a connection logs: the peer is the one [accept] returned. *)
Inductive TaskLog : Type := ConnectionClosed (peer : SocketAddr) (error : AcceptedError).
Definition task_log (conn : Accepted) (ended : option (outcome AcceptedError unit)) : list TaskLog :=
  match ended with
  | Some (Err err) => [ConnectionClosed (accepted_peer conn) err]
  | _ => []
  end.
End accepting.

(** ** Theorems *)

Section theorems.
Context `{Base64Laws} `{RingLaws} `{SubtleLaws} `{HttpLaws} `{TlsLibs} {Filter : Type}.
Variable machine : Machine Filter.

(** The services of a mode, each with the port option it listens on. *)
Definition mode_services (args : Args) : list (str * Z) :=
  (if includes_ws (service_mode args) then [("ws" : str, ws_port args)] else []) ++
  (if includes_wss (service_mode args) then [("wss" : str, tls_port args)] else []).

(** A service as its options ask for it: it listens on the first address its host and port resolve to. *)
Definition service_of (args : Args) (name_port : str * Z) (s : Service) : Prop :=
  let '(name, port) := name_port in
  scheme s = name /\
  (exists others, resolve machine (bind_addr args) port = Some (listen_addr s :: others)) /\
  service_proxies s = trusted_proxy args /\
  service_buffer_size s = buffer_size args /\
  service_idle_timeout s = from_secs (udp_idle_timeout args) /\
  (is_Some (tls_config s) <-> name = "wss").

Lemma start_service_run args name port tls :
  (is_Some tls <-> name = "wss") ->
  is_panic (start_service machine args name port (Ok tls)) = false /\
  forall s, start_service machine args name port (Ok tls) = Ok s -> service_of args (name, port) s.
Proof.
  intros Htls. unfold start_service, resolve_bind_addr, bind_listener.
  destruct (resolve machine (bind_addr args) port) as [[|a others]|] eqn:Haddr; [done| |done].
  cbn [ok_or obind omap_err head].
  destruct (_ && _); [done|].
  assert (Hcalls : forall calls, is_panic (run_calls (syscall_ok machine) calls) = false).
  { induction calls as [|c calls IH]; cbn; [done|]. by destruct (syscall_ok machine c). }
  specialize (Hcalls (listener_calls a (ipv6_only args))).
  destruct (run_calls _ _); [|done..]. cbn [obind omap_err].
  split; [done|]. intros s [= <-]. split; [done|]. split; [by exists others | done].
Qed.

Lemma main_services_run args :
  valid_args args ->
  is_panic (main_services machine args) = false /\
  forall l, main_services machine args = Ok l ->
    Forall2 (service_of args) (mode_services args) l.
Proof.
  intros Hv. unfold main_services, mode_services.
  pose proof (fun config => build_tls_config_some (files machine) (tls_env machine) args config Hv) as Htls.
  pose proof (build_tls_config_no_panic (files machine) (tls_env machine) args) as Hnp.
  destruct (start_service_run args "ws" (ws_port args) None) as [Hws Hws'];
    [split; [by intros [? ?] | done]|].
  destruct (service_mode args); cbn [includes_ws includes_wss obind app] in *.
  - destruct (start_service machine args "ws" _ _) as [s| |]; [|by split|done]. cbn [obind].
    split; [done|]. intros l [= <-]. constructor; [by apply Hws' | done].
  - destruct (build_tls_config _ _ args) as [config| |]; [|by split|done]. cbn [omap_err obind].
    destruct (Htls config) as [c ->]; [done..|]. cbn [expect obind].
    destruct (start_service_run args "wss" (tls_port args) (Some c)) as [Hwss Hwss']; [done|].
    destruct (start_service machine args "wss" _ _) as [s| |]; [|by split|done]. cbn [obind].
    split; [done|]. intros l [= <-]. constructor; [by apply Hwss' | done].
  - destruct (build_tls_config _ _ args) as [config| |]; [|by split|done]. cbn [omap_err obind].
    destruct (Htls config) as [c ->]; [done..|]. cbn [expect obind].
    destruct (start_service machine args "ws" _ _) as [s| |]; [|by split|done]. cbn [obind].
    destruct (start_service_run args "wss" (tls_port args) (Some c)) as [Hwss Hwss']; [done|].
    destruct (start_service machine args "wss" _ _) as [s'| |]; [|by split|done]. cbn [obind].
    split; [done|]. intros l [= <-]. constructor; [by apply Hws'|].
    constructor; [by apply Hwss' | done].
Qed.

(** C35: starting. Whatever the command line, the files and the machine, as long as the clock has room for
    the first sweep, starting ends with a running
    router or with an error, never in a panic: in particular the [expect] on the TLS configuration
    cannot fail. A running router has exactly the services of its mode, as its options ask for them:
    WS on the first address of its host and port and without TLS, WSS on the first address of its host and TLS
    port and with TLS; it has valid options; and when it asks for credentials it has some,
    and polls exactly the configured files. *)
Theorem services_of_mode env argv :
  (instant_now env + SWEEP_INTERVAL < INSTANT_MAX)%Z ->
  is_panic (main machine env argv) = false /\
  forall started, main machine env argv = Ok started ->
    let args := started_args started in
    valid_args args /\
    Forall2 (service_of args) (mode_services args) (services started) /\
    match started_auth started with
    | Some auth => wf_auth auth /\ reloaders started =
        option_list (AuthFileReloader <$> basic_auth_file args) ++
        option_list (AnonymousFileReloader <$> anonymous_target_file args)
    | None => basic_auth args = [] /\ basic_auth_file args = None /\ reloaders started = []
    end.
Proof.
  intros Hfit. unfold main.
  pose proof (try_parse_no_panic (toml_from_str machine) (files machine) (clap_parse machine) argv)
    as Hcli.
  unfold parse. destruct (try_parse_from _ _ _ argv) as [args| |] eqn:Eargs; [|by split|done].
  cbn [omap_err obind]. apply try_parse_valid in Eargs as Hv.
  pose proof (init_logging_no_panic (log_env machine) args) as Hlog.
  destruct (init_logging _ args) as [log| |]; [|by split|done]. cbn [omap_err obind].
  pose proof (build_auth_config_no_panic env (files machine) args Hfit) as Hauth.
  destruct (build_auth_config _ _ args) as [auth| |] eqn:Eauth; [|by split|done]. cbn [omap_err obind].
  destruct (main_services_run args Hv) as [Hs Hs'].
  destruct (main_services machine args) as [l| |]; [|by split|done]. cbn [obind].
  split; [done|]. intros started [= <-]. cbn [started_args services started_auth reloaders].
  split; [done|]. split; [by apply Hs'|]. apply build_auth_config_files in Eauth.
  by destruct auth; [|destruct Eauth].
Qed.

(** The services a line announces. *)
Definition announced (line : StartLine) : option (str * SocketAddr * bool) :=
  match line with ListeningOn scheme addr with_auth => Some (scheme, addr, with_auth) | _ => None end.

Lemma services_log_run args with_auth l :
  main_services machine args = Ok l ->
  omap announced (services_log machine with_auth args) =
    (fun s => (scheme s, listen_addr s, with_auth)) <$> l /\
  ReadingForwardedFor (trusted_proxy args) ∈ services_log machine with_auth args.
Proof.
  unfold main_services, services_log. set (tls := if includes_wss _ then _ else _).
  destruct tls as [config| |]; cbn [obind]; [|done..].
  intros Hm. split; [|by left]. cbn [omap list_omap announced]. revert Hm.
  destruct (includes_ws _); cbn [obind].
  - destruct (start_service machine args "ws" _ _) as [s| |]; cbn [obind]; [|done..].
    destruct (includes_wss _); cbn [obind]; [|by intros [= <-]].
    destruct (start_service machine args "wss" _ _) as [s'| |]; cbn [obind]; [|done..].
    by intros [= <-].
  - destruct (includes_wss _); cbn [obind]; [|by intros [= <-]].
    destruct (start_service machine args "wss" _ _) as [s'| |]; cbn [obind]; [|done..].
    by intros [= <-].
Qed.

(** The start-up log is true: a router that starts has announced exactly the services it runs, each
    with its scheme, its address and whether it asks for credentials, has logged which proxies it
    trusts, and has logged that tokens are on exactly when it asks for credentials. *)
Theorem start_is_announced env argv started :
  main machine env argv = Ok started ->
  omap announced (start_log machine env argv) =
    (fun s => (scheme s, listen_addr s, bool_decide (is_Some (started_auth started)))) <$> services started /\
  ReadingForwardedFor (trusted_proxy (started_args started)) ∈ start_log machine env argv /\
  (TokenAuthenticationOn ∈ start_log machine env argv <-> is_Some (started_auth started)).
Proof.
  unfold main, start_log. destruct (parse _ _ _ _) as [args| |]; cbn [omap_err obind]; [|done..].
  destruct (init_logging _ _) as [log| |]; cbn [omap_err obind]; [|done..].
  destruct (build_auth_config _ _ _) as [auth| |]; cbn [omap_err obind]; [|done..].
  destruct (main_services machine args) as [l| |] eqn:El; cbn [obind]; [|done..].
  intros [= <-]. cbn [started_args started_auth services].
  destruct (services_log_run args (bool_decide (is_Some auth)) l El) as [Ha Hr].
  assert (Hno : TokenAuthenticationOn ∉ services_log machine (bool_decide (is_Some auth)) args).
  { unfold services_log, listening_log. intros Hin. revert Hin.
    repeat case_match; cbn; rewrite ?app_nil_r, ?elem_of_cons, ?elem_of_nil; naive_solver. }
  rewrite omap_app, elem_of_app, Ha.
  destruct auth as [auth|]; cbn [omap list_omap announced app].
  - split; [done|]. split; [by right|]. split; [by eexists | by left; left].
  - split; [done|]. split; [by right|]. split; [by intros Hin | by intros [? ?]].
Qed.

(** Every connection accepted before the first failing [accept] is served, in order; the first
    failure, however transient, ends the service, and no later connection is accepted. *)
Theorem accept_error_ends_service (service : Service) peers rest :
  serve_listener service ((Ok <$> peers) ++ Err tt :: rest) =
    (mkAccepted service <$> peers, false).
Proof. induction peers as [|p peers IH]; cbn; [done|]. by rewrite IH. Qed.
End theorems.

(** ** Witness: both services with a generated certificate *)

Module MainTests.
Import TlsTests.

(** A machine with a configuration file, on which every call succeeds. *)
Definition machine : Machine unit :=
  mkMachine ArgsTests.clap ArgsTests.toml ArgsTests.config_file
    (mkLogEnv (fun _ => Some tt) (fun _ => tt) None (fun _ => true) (fun _ => true) false)
    (TlsTests.machine [V4 5]) (fun _ port => Some [mkSocketAddr (V6 0) port 0]) (fun _ => true).

Definition start : outcome MainError (Started (Filter := unit)) :=
  main machine (TokenTests.env_at 1 65) ["ws2tcp-router"].

Example services_of_mode_witness :
  is_panic start = false /\
  forall started, start = Ok started ->
    let args := started_args started in
    valid_args args /\
    Forall2 (service_of machine args) (mode_services args) (services started) /\
    match started_auth started with
    | Some auth => wf_auth auth /\ reloaders started =
        option_list (AuthFileReloader <$> basic_auth_file args) ++
        option_list (AnonymousFileReloader <$> anonymous_target_file args)
    | None => basic_auth args = [] /\ basic_auth_file args = None /\ reloaders started = []
    end.
Proof. apply services_of_mode. by apply Z.ltb_lt. Defined.

Example both_services :
  match start with
  | Ok started =>
      (fun s => (scheme s, sock_port (listen_addr s), tls_config s)) <$> services started
  | _ => []
  end = [("ws" : str, 80%Z, None); ("wss" : str, 443%Z, Some tt)].
Proof. by_eval. Qed.

Example start_lines :
  start_message <$> start_log machine (TokenTests.env_at 1 65) ["ws2tcp-router"] =
    ["reading X-Forwarded-For from these proxies only";
     "listening on ws://[::]:80"; "listening on wss://[::]:443"].
Proof. by_eval. Qed.

(** An upstream that cannot be connected, asked for through a trusted proxy: the request was read and
    logged under the client's address, the error is logged under the proxy's. *)
Definition proxy_peer : SocketAddr := mkSocketAddr localhost_v4 5555 0.
Definition forwarded_head : bytes :=
  "GET /tcp:a:1 HTTP/1.1\r\nHost: x\r\nUpgrade: websocket\r\nX-Forwarded-For: 203.0.113.7\r\n\r\n".
Definition behind_proxy : Accepted :=
  mkAccepted (mkService' _ "ws" proxy_peer 1024 60 None [ClientAddrTests.range "127.0.0.0/8"]) proxy_peer.
Definition unreachable : Network :=
  mkNetwork true (fun _ => false) (fun _ => None) (fun _ => false) (fun _ => false) [] [].

Example error_logged_under_the_proxy :
  let reads := [Ok forwarded_head] in
  show_client <$> omap (fun line => match line with Proxying _ c _ _ _ => Some c | _ => None end)
    (connection_log ProxyTests.accept AuthTests.env None [ClientAddrTests.range "127.0.0.0/8"]
       proxy_peer reads unreachable 1024 (from_secs 60)) = ["203.0.113.7"] /\
  task_log behind_proxy
    (handle_accepted_stream ProxyTests.accept (fun _ reads => Some reads) AuthTests.env None
       behind_proxy reads unreachable).1.2 =
    [ConnectionClosed proxy_peer (InConnection (UpstreamFailed "a:1"))].
Proof. split; by_eval. Qed.
End MainTests.
