(* ===== verification/Router.v ===== *)
(** The running router: connections and file polls, interleaved in any order.

    The tasks share one [AuthConfig]: a poll of [spawn_auth_file_reloader] replaces a part of it, a
    connection reads it and moves its token service on. A [Step] is one of them; [runs] closes the
    started configuration over the steps that can happen. The theorems: after any history the
    configuration holds the credentials of the options and those of the last good file, and only
    they (and the open targets) get a connection through. *)

From S2P Require Import Prelude RustStd Extern Instances Net Target ClientAddr Args Token.
From S2P Require Import TokenAccess TokenStore Auth AuthSpec HttpProbe TokenApi Proxy.

Section router.
Context `{Base64Laws} `{RingLaws} `{SubtleLaws} `{HttpLaws} `{HttParse}.
Variable accept_request : ReplayStream (list read_result) -> option Request.

(** ** Steps *)

Inductive Step : Type :=
  | Poll (fs : Files) (task : Reloader)
  | Connect (env : Env) (trusted : TrustedProxies) (peer : SocketAddr) (reads : list read_result)
      (net : Network) (buffer_size idle : Z).

(** The configuration after a step. *)
Definition step (auth : AuthConfig) (e : Step) : AuthConfig :=
  match e with
  | Poll fs task => (reload fs task auth).2
  | Connect env trusted peer reads net buffer_size idle =>
      default auth
        (handle_connection accept_request env (Some auth) trusted peer reads net buffer_size idle).2
  end.

(** The router polls the files it was started with; clock readings leave room for the lifetimes. *)
Definition allowed (auth : AuthConfig) (e : Step) : Prop :=
  match e with
  | Poll _ task => task ∈ spawn_auth_file_reloader auth
  | Connect env _ _ _ _ _ _ => forall s, tokens auth = Some s -> fits s (instant_now env)
  end.

(** The histories of a router started with [auth0], and the configuration after them. *)
Inductive runs (auth0 : AuthConfig) : list Step -> AuthConfig -> Prop :=
  | runs_start : runs auth0 [] auth0
  | runs_step history auth e :
      runs auth0 history auth -> allowed auth e -> runs auth0 (history ++ [e]) (step auth e).

(** ** What the files last said *)

(** The credentials of a file, when all its entries are credentials. *)
Definition file_credentials (fs : Files) (path : str) : option (list str) :=
  file ← read_to_string fs path;
  if is_ok (load_auth_file fs path) then Some (file_entries file).*2 else None.

(** The targets of a file, in normal form, when all its entries are targets. *)
Definition file_targets (fs : Files) (path : str) : option (list str) :=
  match load_anonymous_target_file fs path with Ok l => Some l | _ => None end.

(** The file credentials in force after a step: a file that cannot be used changes nothing, and
    neither does one that would leave no credentials at all. *)
Definition credentials_after (args : Args) (current : list str) (e : Step) : list str :=
  match e with
  | Poll fs (AuthFileReloader path) =>
      match file_credentials fs path with
      | Some cs => if decide (basic_auth args ++ cs = []) then current else cs
      | None => current
      end
  | _ => current
  end.

Definition targets_after (current : list str) (e : Step) : list str :=
  match e with
  | Poll fs (AnonymousFileReloader path) => default current (file_targets fs path)
  | _ => current
  end.

(** What the files of the last good polls hold, or those read at the start. *)
Definition current_credentials (args : Args) (fs0 : Files) : list Step -> list str :=
  foldl (credentials_after args) (default [] (basic_auth_file args ≫= file_credentials fs0)).
Definition current_targets (args : Args) (fs0 : Files) : list Step -> list str :=
  foldl targets_after (default [] (anonymous_target_file args ≫= file_targets fs0)).

(** ** The invariant *)

(** The configuration a history leads to. *)
Record tracks (args : Args) (fs0 : Files) (fixed_targets : list str) (history : list Step)
    (auth : AuthConfig) : Prop := mkTracks {
  tracks_wf : wf_auth auth;
  tracks_service : service_in_order auth;
  tracks_fixed : fixed_authorizations auth = basic_authorization <$> basic_auth args;
  tracks_expected : expected_authorizations auth =
    basic_authorization <$> (basic_auth args ++ current_credentials args fs0 history);
  tracks_fixed_targets : fixed_anonymous_targets auth = fixed_targets;
  tracks_targets : anonymous_targets auth = fixed_targets ++ current_targets args fs0 history;
}.

Lemma load_file_credentials fs path :
  match file_credentials fs path with
  | Some cs => load_auth_file fs path = Ok (basic_authorization <$> cs)
  | None => is_ok (load_auth_file fs path) = false
  end.
Proof.
  unfold file_credentials. destruct (read_to_string fs path) as [file|] eqn:Hread; cbn [mbind option_bind].
  - destruct (load_auth_file fs path) as [l| |] eqn:El; cbn [is_ok]; [|done..].
    by apply (load_auth_file_Ok _ _ _ _ Hread) in El as [-> _].
  - by rewrite load_auth_file_run, Hread.
Qed.

Lemma tracks_start env fs args auth :
  build_auth_config env fs args = Ok (Some auth) ->
  tracks args fs (fixed_anonymous_targets auth) [] auth.
Proof.
  intros Hb. pose proof (build_auth_config_wf _ _ _ _ Hb) as Hwf.
  apply build_auth_config_inv in Hb
    as (fixed & file & ft & l & service & Ef & El & Hne & Et & Ea & Hs & ->).
  apply encode_credentials_Ok in Ef as [-> _]. split; try done.
  - intros s [= <-]. revert Hs. unfold from_args.
    assert (Hnew : forall secret a r s', omap_err (fun _ => NoRandom) (new env secret a r) = Ok s' ->
      poisoned (state s') = false).
    { intros secret a r s'. unfold new. destruct (instant_add _ _); [|done..]. by intros [= <-]. }
    destruct (match token_secret_file args with Some _ => _ | None => _ end); [|done..].
    apply Hnew.
  - cbn. rewrite fmap_app. f_equal. destruct (basic_auth_file args) as [path|]; cbn in *.
    + pose proof (load_file_credentials fs path) as Hl.
      destruct (file_credentials fs path) as [cs|]; cbn; [congruence | by rewrite El in Hl].
    + by injection El as <-.
  - cbn. f_equal. destruct (anonymous_target_file args) as [path|]; cbn in *.
    + unfold file_targets. by rewrite Ea.
    + by injection Ea as <-.
Qed.

Lemma tracks_poll args fs0 ft history auth fs task :
  tracks args fs0 ft history auth ->
  tracks args fs0 ft (history ++ [Poll fs task]) (step auth (Poll fs task)).
Proof.
  intros [Hwf Hs Hf He Hft Ht]. unfold current_credentials, current_targets in *.
  destruct task as [path|path]; cbn [step reload].
  - pose proof (reload_auth_file_wf fs path auth Hwf) as Hwf'.
    rewrite reload_auth_file_run in *. pose proof (load_file_credentials fs path) as Hl.
    assert (Hold : file_credentials fs path = None ->
      tracks args fs0 ft (history ++ [Poll fs (AuthFileReloader path)]) auth).
    { intros Hn. split; try done; unfold current_credentials, current_targets; rewrite foldl_app; cbn;
        by rewrite ?Hn. }
    destruct (file_credentials fs path) as [cs|] eqn:Ecs;
      [|by destruct (load_auth_file fs path); [done|apply Hold..]].
    rewrite Hl in *. cbv zeta in *. rewrite Hf, <- fmap_app in *. clear Hold.
    assert (Hnil : basic_authorization <$> (basic_auth args ++ cs) = [] <-> basic_auth args ++ cs = []).
    { by destruct (basic_auth args ++ cs). }
    repeat case_decide; split; try done; unfold current_credentials, current_targets;
      rewrite ?foldl_app; cbn [foldl credentials_after targets_after]; rewrite ?Ecs; try done.
    + rewrite decide_True by tauto. done.
    + rewrite decide_False by tauto. done.
    + cbn. rewrite decide_False by tauto. done.
  - pose proof (reload_anonymous_wf fs path auth Hwf) as Hwf'.
    rewrite reload_anonymous_run in *.
    assert (Htargets : file_targets fs path =
      match load_anonymous_target_file fs path with Ok l => Some l | _ => None end) by done.
    destruct (load_anonymous_target_file fs path) as [l| |]; cbv zeta in *; [case_decide|..];
      split; try done; unfold current_credentials, current_targets;
      rewrite ?foldl_app; cbn [foldl credentials_after targets_after]; rewrite ?Htargets; cbn; try done.
    + congruence.
    + by rewrite Hft.
Qed.

Lemma tracks_connect args fs0 ft history auth env trusted peer reads net buffer_size idle :
  tracks args fs0 ft history auth -> allowed auth (Connect env trusted peer reads net buffer_size idle) ->
  tracks args fs0 ft (history ++ [Connect env trusted peer reads net buffer_size idle])
    (step auth (Connect env trusted peer reads net buffer_size idle)).
Proof.
  intros [Hwf Hs Hf He Hft Ht] Hfit. cbn [step].
  destruct (handle_connection_carries_on accept_request env auth trusted peer reads net buffer_size idle)
    as (auth' & -> & Hc); [done | by intros s Hts; split; [apply Hs | apply Hfit]|]. cbn [default].
  assert (Hsame : current_credentials args fs0 (history ++ [Connect env trusted peer reads net buffer_size idle]) =
      current_credentials args fs0 history /\
    current_targets args fs0 (history ++ [Connect env trusted peer reads net buffer_size idle]) =
      current_targets args fs0 history).
  { unfold current_credentials, current_targets. by rewrite !foldl_app. }
  destruct Hsame as [Hcred Htarg].
  destruct Hc as [-> | (s & s' & Hts & (Hp & _) & ->)]; split; rewrite ?Hcred, ?Htarg; try done.
  by intros ? [= <-].
Qed.

Lemma tracks_runs env fs args auth0 history auth :
  build_auth_config env fs args = Ok (Some auth0) -> runs auth0 history auth ->
  tracks args fs (fixed_anonymous_targets auth0) history auth.
Proof.
  intros Hb. induction 1 as [|history auth e _ IH He]; [by eapply tracks_start|].
  destruct e; [by apply tracks_poll | by apply tracks_connect].
Qed.

(** No step changes which files are polled. *)
Lemma step_reloaders args fs0 ft history auth e :
  tracks args fs0 ft history auth -> allowed auth e ->
  spawn_auth_file_reloader (step auth e) = spawn_auth_file_reloader auth.
Proof.
  intros [Hwf Hs _ _ _ _] He. destruct e as [fs [path|path]|env trusted peer reads net buffer_size idle]; cbn [step reload].
  - rewrite reload_auth_file_run. destruct (load_auth_file fs path); [|done..].
    cbv zeta. by repeat case_decide.
  - rewrite reload_anonymous_run. destruct (load_anonymous_target_file fs path); [|done..].
    cbv zeta. by case_decide.
  - destruct (handle_connection_carries_on accept_request env auth trusted peer reads net buffer_size idle)
      as (auth' & -> & Hc); [done | by intros s Hts; split; [apply Hs | apply He]|]. cbn [default].
    by destruct Hc as [-> | (s & s' & _ & _ & ->)].
Qed.

(** ** Who gets through *)

(** After a history, who an upstream is touched for. *)
Lemma touched_for_current env0 fs args auth0 history auth env trusted peer reads net buffer_size idle effects
    ended auth' :
  build_auth_config env0 fs args = Ok (Some auth0) -> runs auth0 history auth ->
  handle_connection accept_request env (Some auth) trusted peer reads net buffer_size idle =
    ((effects, ended), auth') ->
  Exists touches_upstream effects ->
  exists target, Forall (reaches target) effects /\
    (addr target ∈ fixed_anonymous_targets auth0 ++ current_targets args fs history \/
     exists user p c, c ∈ basic_auth args ++ current_credentials args fs history /\
       credential_of c user p /\
       exists head rest request, read_request_head reads = HeadDone head rest /\
         accept_request (replay_new head rest) = Some request /\
         authorize_request env request (Some auth) = Ok user).
Proof.
  intros Hb Hruns Hc Htouch. destruct (tracks_runs _ _ _ _ _ _ Hb Hruns) as [Hwf Hs _ He _ Ht].
  destruct (upstream_mediated accept_request env auth trusted peer reads net buffer_size idle effects ended auth'
    Hwf Hs Hc Htouch) as (head & rest & request & user & target & Hhead & Hreq & Hg & Hauth & Htarget & Hall & _).
  exists target. split; [done|].
  assert (Hconf : forall c, configured auth c user ->
    exists p, c ∈ basic_auth args ++ current_credentials args fs history /\ credential_of c user p).
  { intros c (Hin & _ & p & Hcr). exists p. split; [|done]. rewrite He in Hin.
    apply list_elem_of_fmap in Hin as (c' & E & Hin). by apply basic_authorization_inj in E as ->. }
  destruct Hg as [[(t & t0 & Hpt & _ & Hin & Hh & Hp) _] | [_ [(a & token & _ & _ & s & _ & _ & c & Hcf) | (c & _ & Hcf)]]].
  - left. rewrite <- Ht. replace (addr target) with (addr t0); [done|].
    rewrite Htarget in Hpt. injection Hpt as <-. unfold addr. by rewrite Hh, Hp.
  - right. destruct (Hconf c Hcf) as (p & Hin & Hcr). exists user, p, c.
    split; [done|]. split; [done|]. by exists head, rest, request.
  - right. destruct (Hconf c Hcf) as (p & Hin & Hcr). exists user, p, c.
    split; [done|]. split; [done|]. by exists head, rest, request.
Qed.

End router.

(** ** Witness: a user added to the file, another one removed *)

Module RouterTests.
Import AuthTests ProxyTests.

(** [bob] is replaced by [carol]; then the file breaks. *)
Definition next_users : Files := fun path =>
  if decide (path = "users") then Some "carol:pw\n" else None.
Definition history : list Step :=
  [Poll next_users (AuthFileReloader "users"); Poll broken_users (AuthFileReloader "users")].
Definition auth2 : AuthConfig := foldl (step accept) auth history.

Lemma polled1 : spawn_auth_file_reloader auth = [AuthFileReloader "users"].
Proof. by_eval. Qed.
Lemma polled2 :
  spawn_auth_file_reloader (step accept auth (Poll next_users (AuthFileReloader "users"))) =
    [AuthFileReloader "users"].
Proof. by_eval. Qed.

Lemma runs2 : runs accept auth history auth2.
Proof.
  apply (runs_step accept auth [Poll next_users (AuthFileReloader "users")]
    (step accept auth (Poll next_users (AuthFileReloader "users")))
    (Poll broken_users (AuthFileReloader "users"))).
  - apply (runs_step accept auth [] auth); [apply runs_start|].
    cbn [allowed]. rewrite polled1. by constructor.
  - cbn [allowed]. rewrite polled2. by constructor.
Qed.

Definition connect (path authorization : str) :=
  handle_connection accept env (Some auth2) [] peer [Ok (head_for path authorization)] net 1024 60.
Definition carol : str := basic_authorization "carol:pw".

(** Bob is out, carol and alice are in. *)
Example users_change :
  (fun a => length (connect "/tcp:a:1" a).1.1) <$> [bob; carol; basic_authorization "alice:secret"]
  = [1; 3; 3].
Proof. by_eval. Qed.

End RouterTests.
