(* ===== verification/RouterTime.v ===== *)
(** The running router on a clock: how long a change of a file takes to be in force.

    The histories of [Router] carry times here. Every poller has an interval of one second: its
    first tick is at once and is not a poll, each later tick is due one second after the one before
    was due, and is taken up at most [lateness] after it is due (the runtime may be busy). [disk] is
    the file system over time; a poll reads it at its time. The theorem: a user removed from the
    credentials file is out one second and the lateness later. *)

From S2P Require Import Prelude RustStd Extern Instances Net Target ClientAddr Args Token.
From S2P Require Import TokenAccess TokenStore Auth AuthSpec HttpProbe TokenApi Proxy Router.

(** The interval of [poll_file_reload]. *)
Definition POLL_INTERVAL : Duration := from_secs 1.

(** When the next tick of every poller is due. *)
Abbreviation schedule := (list (Reloader * Z)).

Section timed.
Context `{Base64Laws} `{RingLaws} `{SubtleLaws} `{HttpLaws} `{HttParse}.
Variable accept_request : ReplayStream (list read_result) -> option Request.
Variable disk : Z -> Files.
Variable lateness : Z.

(** What happens at a time when nothing else did since [now]: no tick may be more than [lateness]
    overdue. *)
Definition can_happen (now t : Z) (due : schedule) : Prop :=
  (now <= t)%Z /\ Forall (fun tick => t <= tick.2 + lateness)%Z due.

(** The pollers of a router started at a time: the first tick of an interval is immediate. *)
Definition first_ticks (start : Z) (auth : AuthConfig) : schedule :=
  (fun task => (task, start + POLL_INTERVAL)%Z) <$> spawn_auth_file_reloader auth.

(** The timed histories of a router started at [start] with [auth0], the configuration after them,
    the time of the last step, and the ticks that are due next. *)
Inductive timed_runs (start : Z) (auth0 : AuthConfig) :
    list (Z * Step) -> AuthConfig -> Z -> schedule -> Prop :=
  | timed_start : timed_runs start auth0 [] auth0 start (first_ticks start auth0)
  | timed_connect history auth now due t env trusted peer reads net buffer_size idle :
      timed_runs start auth0 history auth now due -> can_happen now t due ->
      allowed auth (Connect env trusted peer reads net buffer_size idle) ->
      timed_runs start auth0 (history ++ [(t, Connect env trusted peer reads net buffer_size idle)])
        (step accept_request auth (Connect env trusted peer reads net buffer_size idle)) t due
  | timed_poll history auth now before task tick after t :
      timed_runs start auth0 history auth now (before ++ (task, tick) :: after) ->
      can_happen now t (before ++ (task, tick) :: after) -> (tick <= t)%Z ->
      timed_runs start auth0 (history ++ [(t, Poll (disk t) task)])
        (step accept_request auth (Poll (disk t) task)) t
        (before ++ (task, tick + POLL_INTERVAL)%Z :: after).

(** ** Timed histories are histories *)

Lemma timed_runs_due start auth0 history auth now due env0 fs args :
  build_auth_config env0 fs args = Ok (Some auth0) ->
  timed_runs start auth0 history auth now due ->
  runs accept_request auth0 history.*2 auth /\ due.*1 = spawn_auth_file_reloader auth0 /\
  spawn_auth_file_reloader auth = spawn_auth_file_reloader auth0.
Proof.
  intros Hb. induction 1 as [| history auth now due t env trusted peer reads net buffer_size idle _ (IH & Hdue & Hsame) _ Hal
    | history auth now before task tick after t _ (IH & Hdue & Hsame) _ _].
  - split; [constructor|]. split; [|done]. unfold first_ticks. rewrite <- list_fmap_compose.
    by rewrite list_fmap_id.
  - rewrite fmap_app. cbn [fmap list_fmap snd]. split; [by constructor|]. split; [done|].
    rewrite <- Hsame. eapply step_reloaders; [by eapply tracks_runs | done].
  - assert (Hal : allowed auth (Poll (disk t) task)).
    { cbn [allowed]. rewrite Hsame, <- Hdue, fmap_app. apply elem_of_app. right. by left. }
    rewrite fmap_app. cbn [fmap list_fmap snd]. split; [by constructor|]. split.
    + by rewrite <- Hdue, !fmap_app.
    + rewrite <- Hsame. eapply step_reloaders; [by eapply tracks_runs | done].
Qed.

(** ** The file in force *)

(** The credentials file has one poller. *)
Lemma credentials_poller env0 fs args auth0 path (due : schedule) :
  build_auth_config env0 fs args = Ok (Some auth0) -> basic_auth_file args = Some path ->
  due.*1 = spawn_auth_file_reloader auth0 ->
  exists tick rest, due = (AuthFileReloader path, tick) :: rest /\
    Forall (fun entry => exists p, entry.1 = AnonymousFileReloader p) rest.
Proof.
  intros [_ Hsp]%build_auth_config_files Hpath Hdue. rewrite Hsp, Hpath in Hdue. cbn in Hdue.
  destruct due as [|[task tick] rest]; [done|]. cbn in Hdue. injection Hdue as -> Hrest.
  exists tick, rest. split; [done|]. apply Forall_forall. intros entry Hin.
  assert (Hin' : entry.1 ∈ rest.*1) by by apply list_elem_of_fmap_2.
  rewrite Hrest in Hin'. destruct (anonymous_target_file args) as [p|]; cbn in Hin'; [|by apply elem_of_nil in Hin'].
  apply list_elem_of_singleton in Hin'. by exists p.
Qed.

(** Once the tick due next is more than an interval later than [T], a poll has read the file as it
    is since [T]. *)
Lemma file_in_force env0 fs args auth0 start history auth now due path cs T tick rest :
  build_auth_config env0 fs args = Ok (Some auth0) -> basic_auth_file args = Some path ->
  timed_runs start auth0 history auth now due -> (start <= T)%Z ->
  (forall t, (T < t)%Z -> file_credentials (disk t) path = Some cs) ->
  basic_auth args ++ cs <> [] ->
  due = (AuthFileReloader path, tick) :: rest -> (T + POLL_INTERVAL < tick)%Z ->
  current_credentials args fs history.*2 = cs.
Proof.
  intros Hb Hpath Hruns Hstart Hdisk Hne. revert tick rest.
  assert (Hfile : forall cs0 t, (T < t)%Z ->
    credentials_after args cs0 (Poll (disk t) (AuthFileReloader path)) = cs).
  { intros cs0 t Ht. cbn [credentials_after]. by rewrite Hdisk, decide_False. }
  induction Hruns as [| history auth now due t env trusted peer reads net buffer_size idle Hruns IH _ _
    | history auth now before task tick0 after t Hruns IH Hcan Htick]; intros tick rest Edue Hlate.
  - pose proof (build_auth_config_files _ _ _ _ Hb) as [_ Hsp]. unfold first_ticks in Edue.
    rewrite Hsp, Hpath in Edue. cbn in Edue. injection Edue as <- _. lia.
  - unfold current_credentials. rewrite fmap_app, foldl_app. cbn [fmap list_fmap foldl snd credentials_after].
    by apply (IH tick rest).
  - unfold current_credentials. rewrite fmap_app, foldl_app. cbn [fmap list_fmap foldl snd].
    destruct (timed_runs_due _ _ _ _ _ _ _ _ _ Hb Hruns) as (_ & Hdue & _).
    destruct (credentials_poller _ _ _ _ path _ Hb Hpath Hdue) as (tick1 & rest1 & E1 & Hrest).
    destruct before as [|[task' tick'] before]; cbn [app] in *.
    + injection Edue as -> <- <-. apply Hfile. lia.
    + injection Edue as -> -> <-. injection E1 as <- <-.
      apply Forall_app in Hrest as [_ [[p Ep] _]%Forall_cons]. cbn in Ep. subst task.
      cbn [credentials_after]. by apply (IH tick (before ++ (AnonymousFileReloader p, tick0) :: after)).
Qed.

(** C4: a change of the credentials file is in force within a second. When the file holds the
    credentials [cs] from the time [T] on, then at any time more than one second and the lateness of
    the runtime after [T], whatever happened until then, the configuration holds exactly the
    credentials of the options and [cs], and a connection that touches an upstream does so for a user
    with one of these, or for an open target: removed users are out, whatever tokens they hold. *)
Theorem file_change_in_force_in_time env0 fs args auth0 path cs T start history auth now due t env
    trusted peer reads net buffer_size idle effects ended auth' :
  build_auth_config env0 fs args = Ok (Some auth0) -> basic_auth_file args = Some path ->
  timed_runs start auth0 history auth now due -> (start <= T)%Z ->
  (forall t, (T < t)%Z -> file_credentials (disk t) path = Some cs) ->
  basic_auth args ++ cs <> [] ->
  can_happen now t due -> (T + from_secs 1 + lateness < t)%Z ->
  expected_authorizations auth = basic_authorization <$> (basic_auth args ++ cs) /\
  (handle_connection accept_request env (Some auth) trusted peer reads net buffer_size idle =
     ((effects, ended), auth') ->
   Exists touches_upstream effects ->
   exists target, Forall (reaches target) effects /\
     (addr target ∈ fixed_anonymous_targets auth0 ++ current_targets args fs history.*2 \/
      exists user p c, c ∈ basic_auth args ++ cs /\ credential_of c user p /\
        exists head rest request, read_request_head reads = HeadDone head rest /\
          accept_request (replay_new head rest) = Some request /\
          authorize_request env request (Some auth) = Ok user)).
Proof.
  intros Hb Hpath Hruns Hstart Hdisk Hne [Hnow Hdue] Hlate. change (from_secs 1) with POLL_INTERVAL in Hlate.
  destruct (timed_runs_due _ _ _ _ _ _ _ _ _ Hb Hruns) as (Hr & Hd & _).
  destruct (credentials_poller _ _ _ _ path _ Hb Hpath Hd) as (tick & rest & E & _).
  pose proof Hdue as Hd0. rewrite E in Hd0. apply Forall_cons in Hd0 as [Htick _]. cbn in Htick.
  assert (Hcur : current_credentials args fs history.*2 = cs).
  { eapply file_in_force; [exact Hb | exact Hpath | exact Hruns | exact Hstart | exact Hdisk
      | exact Hne | exact E | lia]. }
  split.
  - destruct (tracks_runs _ _ _ _ _ _ _ Hb Hr) as [_ _ _ He _ _]. by rewrite He, Hcur.
  - intros Hc Htouch. rewrite <- Hcur. by eapply touched_for_current.
Qed.
End timed.

(** ** Witness: bob leaves the file half a second after the start *)

Module RouterTimeTests.
Import AuthTests ProxyTests RouterTests.

Definition half : Z := 500000000.
Definition disk (t : Z) : Files := if (t <=? half)%Z then users else next_users.
Definition poller : Reloader := AuthFileReloader "users".
Definition history : list (Z * Step) := [(NANOS, Poll (disk NANOS) poller)].
Definition auth1 : AuthConfig := step accept auth (Poll (disk NANOS) poller).
Definition due : schedule := [(poller, 2 * NANOS)%Z].

Lemma polled : timed_runs accept disk 0 0 auth history auth1 NANOS due.
Proof.
  apply (timed_poll accept disk 0 0 auth [] auth 0 [] poller NANOS [] NANOS).
  - assert (E : [(poller, NANOS)] = first_ticks 0 auth) by by_eval.
    cbn [app]. rewrite E. apply timed_start.
  - split; [done|]. by constructor.
  - done.
Qed.

Definition connect (authorization : str) :=
  handle_connection accept env (Some auth1) [] peer [Ok (head_for "/tcp:a:1" authorization)] net 1024 60.

Lemma late_disk t : (half < t)%Z -> file_credentials (disk t) "users" = Some ["carol:pw" : str].
Proof. intros Ht. unfold disk. destruct (Z.leb_spec t half); [lia|]. by_eval. Qed.

Example file_change_in_force_in_time_witness :
  expected_authorizations auth1 = basic_authorization <$> (basic_auth args ++ ["carol:pw" : str]).
Proof.
  refine (proj1 (file_change_in_force_in_time accept disk 0 env users args auth "users" ["carol:pw" : str]
    half 0 history auth1 NANOS due (NANOS + half + 1) env [] peer
    [Ok (head_for "/tcp:a:1" carol)] net 1024 60 (connect carol).1.1 (connect carol).1.2 (connect carol).2
    auth_built _ polled _ late_disk _ _ _)).
  - by_eval.
  - done.
  - by intros E.
  - split; [done|]. by constructor.
  - done.
Defined.

Example bob_is_out : (fun a => length (connect a).1.1) <$> [bob; carol] = [1; 3].
Proof. by_eval. Qed.
End RouterTimeTests.
