(* ===== verification/Testing.v ===== *)
(** The unit tests of the sources run on the model: what a test function is, and the assertions.

    A test is a computation that panics when an assertion fails, on a [Bench]: the clock, the files
    it writes, and the value under test ([subject]), which its calls change. Every call reads the
    clock one millisecond later than the one before it and draws its own random bytes. Third-party
    code is replaced by the executable instances of [Instances]. *)

From S2P Require Import Prelude RustStd Extern Instances Args Token.

Record Bench (S : Type) : Type := mkBench {
  tick : Z;
  disk : gmap str bytes;
  subject : S;
}.
Arguments mkBench {S} _ _ _.
Arguments tick {S} _.
Arguments disk {S} _.
Arguments subject {S} _.

Abbreviation test S A := (M (Bench S) Empty_set A).

(** ** Assertions *)

Definition assert_true {S} (b : bool) : test S unit := lift (if b then Ok tt else Panicked).
Definition assert_eq {S A} `{EqDecision A} (x y : A) : test S unit :=
  assert_true (bool_decide (x = y)).
Definition assert_ne {S A} `{EqDecision A} (x y : A) : test S unit :=
  assert_true (bool_decide (x <> y)).

Definition is_err {E A} (r : outcome E A) : bool := match r with Err _ => true | _ => false end.

(** [Result::unwrap], [Result::unwrap_err], [Option::unwrap]. *)
Definition unwrap {S E A} (r : outcome E A) : test S A :=
  lift (match r with Ok a => Ok a | _ => Panicked end).
Definition unwrap_err {S E A} (r : outcome E A) : test S E :=
  lift (match r with Err e => Ok e | _ => Panicked end).
Definition unwrap_some {S A} (o : option A) : test S A :=
  lift (match o with Some a => Ok a | None => Panicked end).

(** [for x in l { body }]. *)
Fixpoint for_each {S A} (l : list A) (body : A -> test S unit) : test S unit :=
  match l with
  | [] => ret tt
  | x :: rest => run! body x in for_each rest body
  end.

(** ** Calls *)

(** The readings of the next call. *)
Definition readings (tick : Z) : Env :=
  let now := (from_secs 1000 + tick * 1000000)%Z in
  mkEnv now now (fun n => Some (replicate n (zb (tick + 1)))).

Definition take_readings {S} : test S Env := fun b =>
  (Ok (readings (tick b)), mkBench (tick b + 1) (disk b) (subject b)).

(** A call of a method of the subject; its panics are the test's. *)
Definition call {S E A} (method : Env -> M S E A) : test S (outcome E A) :=
  do! env := take_readings in
  fun b =>
    let '(r, s) := method env (subject b) in
    (match r with Panicked => Panicked | r => Ok r end, mkBench (tick b) (disk b) s).

(** A part of a test about a subject of its own. *)
Definition with_subject {S S' A} (s : S') (t : test S' A) : test S A := fun b =>
  let '(r, b') := t (mkBench (tick b) (disk b) s) in
  (r, mkBench (tick b') (disk b') (subject b)).

Definition read_subject {S} : test S S := fun b => (Ok (subject b), b).

(** ** Files *)

Definition fs_write {S} (path : str) (contents : bytes) : test S unit :=
  modify (fun b => mkBench (tick b) (<[path := contents]> (disk b)) (subject b)).
Definition fs_remove_file {S} (path : str) : test S unit :=
  modify (fun b => mkBench (tick b) (delete path (disk b)) (subject b)).
Definition read_disk {S} : test S Files := fun b => (Ok (fun path => disk b !! path), b).

(** ** Strings *)

Definition contains (part s : str) : bool := bool_decide (is_Some (split_once part s)).
Definition ends_with (suffix s : str) : bool := bool_decide (is_Some (strip_suffix suffix s)).

(** ** Running *)

(** A test passes when it does not panic. *)
Definition passes (t : test unit unit) : bool := is_ok (t (mkBench 0 ∅ tt)).1.

(** A computed assertion is one that can fail. *)
Example failing_test : passes (assert_eq (1 + 1) 3) = false.
Proof. reflexivity. Qed.
