(* ===== verification/TestTarget.v ===== *)
(** The unit tests of [src/target.rs], run on [Target]. *)

From S2P Require Import Prelude RustStd Target Testing.

Definition parse_target_from_path : test unit unit :=
  do! target := unwrap (parse_target "/tcp:116.63.8.64:12345") in
  run! assert_eq (protocol target) Tcp in
  run! assert_eq (host target) "116.63.8.64" in
  assert_eq (port target) 12345%Z.

Definition parse_udp_target_from_path : test unit unit :=
  do! target := unwrap (parse_target "/udp:116.63.8.64:12345") in
  run! assert_eq (protocol target) Udp in
  run! assert_eq (host target) "116.63.8.64" in
  run! assert_eq (port target) 12345%Z in
  assert_eq (addr target) "116.63.8.64:12345".

Definition parse_target_from_addr : test unit unit :=
  do! target := unwrap (parse_target_addr "ocs.wangguofang.net:8443") in
  run! assert_eq (host target) "ocs.wangguofang.net" in
  run! assert_eq (port target) 8443%Z in
  assert_eq (addr target) "ocs.wangguofang.net:8443".

Definition parse_bracketed_ipv6_target_from_path : test unit unit :=
  do! target := unwrap (parse_target "/tcp:[2001:db8::1]:443") in
  run! assert_eq (host target) "[2001:db8::1]" in
  run! assert_eq (port target) 443%Z in
  assert_eq (addr target) "[2001:db8::1]:443".

Definition parse_bracketed_ipv6_udp_target_from_path : test unit unit :=
  do! target := unwrap (parse_target "/udp:[2001:db8::1]:443") in
  run! assert_eq (protocol target) Udp in
  assert_eq (addr target) "[2001:db8::1]:443".

Definition rejects_invalid_path : test unit unit :=
  run! assert_true (is_err (parse_target "/http:116.63.8.64:12345")) in
  run! assert_true (is_err (parse_target "/tcp:116.63.8.64")) in
  run! assert_true (is_err (parse_target "/tcp::12345")) in
  run! assert_true (is_err (parse_target "/tcp:2001:db8::1:443")) in
  run! assert_true (is_err (parse_target "/tcp:[]:443")) in
  run! assert_true (is_err (parse_target "/tcp:[2001:db8::1]443")) in
  run! assert_true (is_err (parse_target "/tcp:116.63.8.64:not-a-port")) in
  run! assert_true (is_err (parse_target "/udp:116.63.8.64")) in
  assert_true (is_err (parse_target "/udp::12345")).

Definition target_tests : list (test unit unit) :=
  [parse_target_from_path; parse_udp_target_from_path; parse_target_from_addr;
   parse_bracketed_ipv6_target_from_path; parse_bracketed_ipv6_udp_target_from_path;
   rejects_invalid_path].

Example target_tests_pass : forallb passes target_tests = true.
Proof. vm_compute. reflexivity. Qed.
