(* ===== verification/TestToken.v ===== *)
(** The unit tests of [src/token.rs], run on [Token]. *)

From S2P Require Import Prelude RustStd Extern Instances Args Token Testing.

(** A service of the test's. *)
Definition service {S} (access_ttl refresh_ttl : Z) : test S TokenService :=
  do! env := take_readings in
  unwrap (new env "0123456789abcdef0123456789abcdef" (from_secs access_ttl) (from_secs refresh_ttl)).

Definition everyone (_ : str) : bool := true.

Definition verify (token : str) : test TokenService (option str) :=
  do! user := call (fun env => verify_access env token) in unwrap user.

Definition tokens_are_url_safe_and_unique : test unit unit :=
  do! env := take_readings in
  do! first := unwrap_some (generate_token env) in
  do! env := take_readings in
  do! second := unwrap_some (generate_token env) in
  run! assert_eq (length first) 43 in
  run! assert_true (forallb (fun byte => in_range 48 57 byte || in_range 65 90 byte
    || in_range 97 122 byte || bool_decide (byte = x2d) || bool_decide (byte = x5f)) first) in
  assert_ne first second.

Definition login_issues_a_verifiable_access_token : test unit unit :=
  do! tokens := service 600 3600 in
  with_subject tokens
    (do! issued := call (fun env => login env "alice") in
     do! issued := unwrap issued in
     run! assert_eq (access_expires_in issued) 600%Z in
     run! assert_eq (refresh_expires_in issued) 3600%Z in
     do! user := verify (access_token issued) in
     assert_eq user (Some ("alice" : str))).

(** A user name of two Chinese characters, in UTF-8. *)
Definition chinese_user : str := [xe7; x94; xa8; xe6; x88; xb7].

Definition user_names_with_dots_and_unicode_survive_the_round_trip : test unit unit :=
  do! tokens := service 600 3600 in
  with_subject tokens
    (for_each ["a.b.c"; chinese_user; "with space"] (fun user =>
       do! issued := call (fun env => login env user) in
       do! issued := unwrap issued in
       do! verified := verify (access_token issued) in
       assert_eq verified (Some user))).

Definition rejects_tampered_foreign_and_malformed_access_tokens : test unit unit :=
  do! tokens := service 600 3600 in
  with_subject tokens
    (do! issued := call (fun env => login env "alice") in
     do! issued := unwrap issued in
     do! '(payload, tag) := unwrap_some (split_once "." (access_token issued)) in
     do! tenth := unwrap_some (payload !! 10) in
     let forged := <[10 := if decide (tenth = x41) then x42 else x41]> payload in
     do! forged := unwrap_some (from_utf8 forged) in
     do! verified := verify (forged ++ "." ++ tag) in
     run! assert_eq verified None in
     do! env := take_readings in
     do! other :=
       unwrap (new env "another-secret-another-secret-00" (from_secs 600) (from_secs 3600)) in
     run! with_subject other
       (do! verified := verify (access_token issued) in assert_eq verified None) in
     do! verified := verify (refresh_token issued) in
     run! assert_eq verified None in
     for_each ([[]; "."; "a.b"; "not a token"] : list str) (fun junk =>
       do! verified := verify junk in assert_eq verified None)).

Definition expired_access_tokens_are_rejected : test unit unit :=
  do! tokens := service 0 3600 in
  with_subject tokens
    (do! issued := call (fun env => login env "alice") in
     do! issued := unwrap issued in
     do! verified := verify (access_token issued) in
     assert_eq verified None).

Definition refresh_rotates_the_refresh_token : test unit unit :=
  do! tokens := service 600 3600 in
  with_subject tokens
    (do! first := call (fun env => login env "alice") in
     do! first := unwrap first in
     do! r := call (fun env => refresh env (refresh_token first) everyone) in
     do! '(user, second) := unwrap r in
     run! assert_eq user "alice" in
     run! assert_ne (refresh_token second) (refresh_token first) in
     do! verified := verify (access_token second) in
     run! assert_eq verified (Some ("alice" : str)) in
     do! r := call (fun env => refresh env (refresh_token second) everyone) in
     run! unwrap r in ret tt).

Definition reusing_a_rotated_refresh_token_revokes_the_whole_family : test unit unit :=
  do! tokens := service 600 3600 in
  with_subject tokens
    (do! first := call (fun env => login env "alice") in
     do! first := unwrap first in
     do! r := call (fun env => refresh env (refresh_token first) everyone) in
     do! '(_, second) := unwrap r in
     do! r := call (fun env => refresh env (refresh_token first) everyone) in
     run! assert_eq r (Err (Reused "alice")) in
     do! r := call (fun env => refresh env (refresh_token second) everyone) in
     run! assert_eq r (Err Invalid) in
     do! verified := verify (access_token second) in
     run! assert_eq verified None in
     do! verified := verify (access_token first) in
     assert_eq verified None).

Definition families_are_independent : test unit unit :=
  do! tokens := service 600 3600 in
  with_subject tokens
    (do! laptop := call (fun env => login env "alice") in
     do! laptop := unwrap laptop in
     do! phone := call (fun env => login env "alice") in
     do! phone := unwrap phone in
     do! known := call (fun env => revoke env (refresh_token laptop)) in
     run! assert_eq known (Ok true) in
     do! verified := verify (access_token laptop) in
     run! assert_eq verified None in
     do! verified := verify (access_token phone) in
     run! assert_eq verified (Some ("alice" : str)) in
     do! r := call (fun env => refresh env (refresh_token phone) everyone) in
     run! unwrap r in ret tt).

Definition revoke_kills_refresh_and_access_tokens : test unit unit :=
  do! tokens := service 600 3600 in
  with_subject tokens
    (do! issued := call (fun env => login env "alice") in
     do! issued := unwrap issued in
     do! known := call (fun env => revoke env (refresh_token issued)) in
     run! assert_eq known (Ok true) in
     do! r := call (fun env => refresh env (refresh_token issued) everyone) in
     run! assert_eq r (Err Invalid) in
     do! verified := verify (access_token issued) in
     run! assert_eq verified None in
     do! known := call (fun env => revoke env "never-issued") in
     assert_eq known (Ok false)).

Definition expired_refresh_tokens_are_rejected : test unit unit :=
  do! tokens := service 600 0 in
  with_subject tokens
    (do! issued := call (fun env => login env "alice") in
     do! issued := unwrap issued in
     do! r := call (fun env => refresh env (refresh_token issued) everyone) in
     assert_eq r (Err Invalid)).

Definition refresh_fails_for_a_removed_user : test unit unit :=
  do! tokens := service 600 3600 in
  with_subject tokens
    (do! issued := call (fun env => login env "alice") in
     do! issued := unwrap issued in
     do! r := call (fun env =>
       refresh env (refresh_token issued) (fun user => bool_decide (user <> "alice"))) in
     assert_eq r (Err Invalid)).

Definition refresh_rejects_unknown_tokens_and_access_tokens : test unit unit :=
  do! tokens := service 600 3600 in
  with_subject tokens
    (do! issued := call (fun env => login env "alice") in
     do! issued := unwrap issued in
     do! r := call (fun env => refresh env "never-issued" everyone) in
     run! assert_eq r (Err Invalid) in
     do! r := call (fun env => refresh env (access_token issued) everyone) in
     assert_eq r (Err Invalid)).

Definition refresh_tokens_are_stored_hashed : test unit unit :=
  do! tokens := service 600 3600 in
  with_subject tokens
    (do! issued := call (fun env => login env "alice") in
     do! issued := unwrap issued in
     do! tokens := read_subject in
     let s := inner (state tokens) in
     run! assert_true (bool_decide (refreshes s !! hash_token "x" = None)) in
     assert_true (bool_decide (is_Some (refreshes s !! hash_token (refresh_token issued))))).

(** The secret file, in the temporary directory. *)
Definition secret_path : str := "/tmp/ws2tcp-router-secret-1.key".

Definition secret_file_must_be_long_enough : test unit unit :=
  run! fs_write secret_path "short\n" in
  do! fs := read_disk in
  run! assert_true (is_err (load_secret (fs secret_path))) in
  run! fs_write secret_path "0123456789abcdef0123456789abcdef\n" in
  do! fs := read_disk in
  do! secret := unwrap (load_secret (fs secret_path)) in
  run! assert_eq (length secret) 32 in
  fs_remove_file secret_path.

Definition token_tests : list (test unit unit) :=
  [tokens_are_url_safe_and_unique; login_issues_a_verifiable_access_token;
   user_names_with_dots_and_unicode_survive_the_round_trip;
   rejects_tampered_foreign_and_malformed_access_tokens; expired_access_tokens_are_rejected;
   refresh_rotates_the_refresh_token; reusing_a_rotated_refresh_token_revokes_the_whole_family;
   families_are_independent; revoke_kills_refresh_and_access_tokens;
   expired_refresh_tokens_are_rejected; refresh_fails_for_a_removed_user;
   refresh_rejects_unknown_tokens_and_access_tokens; refresh_tokens_are_stored_hashed;
   secret_file_must_be_long_enough].

Example token_tests_pass : forallb passes token_tests = true.
Proof. vm_compute. reflexivity. Qed.
