(* ===== verification/TestClientAddr.v ===== *)
(** The unit tests of [src/client_addr.rs], run on [ClientAddr] with the stand-in HTTP parser. *)

From S2P Require Import Prelude RustStd Extern Instances Net ClientAddr Testing.

(** Unparsable texts never reach the assertions: [unwrap] panics first. *)
Definition ip {S} (input : str) : test S IpAddr := unwrap_some (parse_ip input).
Definition range {S} (input : str) : test S IpRange := unwrap (range_from_str input).
Definition proxies {S} (ranges : list str) : test S TrustedProxies :=
  do! ranges := unwrap (collect (range_from_str <$> ranges)) in ret (proxies_new ranges).
Definition socket {S} (input : str) : test S SocketAddr := unwrap_some (parse_socket_addr input).

Definition head_with (headers : str) : bytes := "GET / HTTP/1.1\r\nHost: x\r\n" ++ headers ++ "\r\n".

(** [range(r).contains(ip(a))]. *)
Definition range_has {S} (r a : str) : test S bool :=
  do! r := range r in do! a := ip a in ret (range_contains r a).

Definition parses_addresses_and_cidr_ranges : test unit unit :=
  do! b := range_has "10.0.0.0/8" "10.255.0.1" in run! assert_true b in
  do! b := range_has "10.0.0.0/8" "11.0.0.1" in run! assert_true (negb b) in
  do! b := range_has "192.0.2.7" "192.0.2.7" in run! assert_true b in
  do! b := range_has "192.0.2.7" "192.0.2.8" in run! assert_true (negb b) in
  do! b := range_has "10.1.2.3/8" "10.9.9.9" in run! assert_true b in
  do! b := range_has "0.0.0.0/0" "203.0.113.9" in run! assert_true b in
  do! b := range_has "2001:db8::/32" "2001:db8:1::1" in run! assert_true b in
  do! b := range_has "2001:db8::/32" "2001:db9::1" in run! assert_true (negb b) in
  do! b := range_has "::1/128" "::1" in run! assert_true b in
  do! b := range_has "10.0.0.0/8" "2001:db8::1" in assert_true (negb b).

Definition ipv4_peers_of_a_dual_stack_listener_match_ipv4_ranges : test unit unit :=
  do! b := range_has "127.0.0.0/8" "::ffff:127.0.0.1" in run! assert_true b in
  do! b := range_has "10.0.0.0/8" "::ffff:10.1.2.3" in run! assert_true b in
  do! b := range_has "10.0.0.0/8" "::ffff:11.1.2.3" in assert_true (negb b).

Definition rejects_bad_ranges : test unit unit :=
  for_each
    ([[]; "nope"; "10.0.0.0/33"; "::1/129"; "10.0.0.0/"; "10.0.0.0/x"; "::ffff:10.0.0.1"] : list str)
    (fun bad => assert_true (is_err (range_from_str bad))).

Definition displays_ranges_and_lists : test unit unit :=
  do! r := range "10.0.0.0/8" in
  run! assert_eq (show_range r) "10.0.0.0/8" in
  do! r := range "2001:db8::1" in
  run! assert_eq (show_range r) "2001:db8::1/128" in
  do! none := proxies [] in
  run! assert_eq (show_proxies none) "none" in
  do! ranges := unwrap (loopback (E := Empty_set)) in
  assert_eq (show_proxies (proxies_new ranges)) "127.0.0.0/8, ::1/128".

(** What a connection from [peer] is reported as, with the given ranges trusted. *)
Definition reported {S} (ranges : list str) (peer : str) (head : bytes) : test S str :=
  do! trusted := proxies ranges in
  do! peer := socket peer in
  ret (show_client (client_addr trusted peer head)).

Definition reads_the_client_behind_a_trusted_proxy : test unit unit :=
  do! client := reported ["127.0.0.0/8"] "127.0.0.1:5555"
                  (head_with "X-Forwarded-For: 203.0.113.7\r\n") in
  assert_eq client "203.0.113.7".

Definition ignores_the_header_from_anyone_else : test unit unit :=
  do! client := reported ["127.0.0.0/8"] "198.51.100.4:5555"
                  (head_with "X-Forwarded-For: 203.0.113.7\r\n") in
  run! assert_eq client "198.51.100.4:5555" in
  do! client := reported [] "127.0.0.1:5555" (head_with "X-Forwarded-For: 203.0.113.7\r\n") in
  assert_eq client "127.0.0.1:5555".

Definition without_the_header_the_peer_is_reported : test unit unit :=
  do! client := reported ["127.0.0.0/8"] "127.0.0.1:5555" (head_with []) in
  run! assert_eq client "127.0.0.1:5555" in
  do! client := reported ["127.0.0.0/8"] "127.0.0.1:5555"
                  "GET / HTTP/1.1\r\nX-Forwarded-For: 203.0.113.7\r\n" in
  run! assert_eq client "127.0.0.1:5555" in
  do! client := reported ["127.0.0.0/8"] "127.0.0.1:5555" [x16; x03; x01] in
  assert_eq client "127.0.0.1:5555".

Definition a_client_cannot_forge_the_address_by_prepending_entries : test unit unit :=
  do! client := reported ["127.0.0.0/8"] "127.0.0.1:5555"
                  (head_with "X-Forwarded-For: 10.0.0.1, 203.0.113.7\r\n") in
  assert_eq client "203.0.113.7".

Definition skips_the_trusted_proxies_in_a_chain : test unit unit :=
  do! client := reported ["127.0.0.0/8"; "10.0.0.0/8"] "127.0.0.1:5555"
                  (head_with "X-Forwarded-For: 203.0.113.7, 10.0.0.5\r\n") in
  assert_eq client "203.0.113.7".

Definition uses_the_leftmost_entry_when_every_entry_is_a_trusted_proxy : test unit unit :=
  do! trusted := proxies ["127.0.0.0/8"; "10.0.0.0/8"] in
  do! leftmost := ip "10.0.0.9" in
  assert_eq (select_client trusted ["10.0.0.9"; "10.0.0.5"; "127.0.0.2"]) (Some leftmost).

Definition several_header_lines_are_one_list : test unit unit :=
  do! client := reported ["127.0.0.0/8"] "127.0.0.1:5555"
                  (head_with "x-forwarded-for: 10.0.0.1\r\nX-FORWARDED-FOR: 203.0.113.7\r\n") in
  assert_eq client "203.0.113.7".

Definition an_entry_that_is_not_an_address_makes_the_header_unusable : test unit unit :=
  do! trusted := proxies ["127.0.0.0/8"] in
  do! client := ip "203.0.113.7" in
  run! assert_eq (select_client trusted ["203.0.113.7"; "unknown"]) None in
  run! assert_eq (select_client trusted ["unknown"]) None in
  run! assert_eq (select_client trusted ["garbage"; "203.0.113.7"]) (Some client) in
  assert_eq (select_client trusted []) None.

Definition understands_ports_brackets_and_mapped_addresses : test unit unit :=
  do! v4 := ip "203.0.113.7" in
  do! v6 := ip "2001:db8::1" in
  run! assert_eq (parse_forwarded_address "203.0.113.7") (Some v4) in
  run! assert_eq (parse_forwarded_address "203.0.113.7:4711") (Some v4) in
  run! assert_eq (parse_forwarded_address "2001:db8::1") (Some v6) in
  run! assert_eq (parse_forwarded_address "[2001:db8::1]") (Some v6) in
  run! assert_eq (parse_forwarded_address "[2001:db8::1]:443") (Some v6) in
  run! assert_eq (parse_forwarded_address "::ffff:203.0.113.7") (Some v4) in
  run! assert_eq (parse_forwarded_address "_hidden") None in
  assert_eq (parse_forwarded_address "203.0.113.7, 1.1.1.1") None.

Definition a_dual_stack_proxy_peer_is_recognised : test unit unit :=
  do! client := reported ["127.0.0.0/8"] "[::ffff:127.0.0.1]:5555"
                  (head_with "X-Forwarded-For: 203.0.113.7\r\n") in
  assert_eq client "203.0.113.7".

Definition a_direct_client_is_displayed_as_before : test unit unit :=
  do! peer := socket "192.0.2.1:40000" in
  assert_eq (show_client (client_from peer)) "192.0.2.1:40000".

Definition client_addr_tests : list (test unit unit) :=
  [parses_addresses_and_cidr_ranges; ipv4_peers_of_a_dual_stack_listener_match_ipv4_ranges;
   rejects_bad_ranges; displays_ranges_and_lists; reads_the_client_behind_a_trusted_proxy;
   ignores_the_header_from_anyone_else; without_the_header_the_peer_is_reported;
   a_client_cannot_forge_the_address_by_prepending_entries; skips_the_trusted_proxies_in_a_chain;
   uses_the_leftmost_entry_when_every_entry_is_a_trusted_proxy; several_header_lines_are_one_list;
   an_entry_that_is_not_an_address_makes_the_header_unusable;
   understands_ports_brackets_and_mapped_addresses; a_dual_stack_proxy_peer_is_recognised;
   a_direct_client_is_displayed_as_before].

Example client_addr_tests_pass : forallb passes client_addr_tests = true.
Proof. vm_compute. reflexivity. Qed.
