(* ===== verification/TestArgs.v ===== *)
(** The unit tests of [src/args.rs], run on [Args].

    The parsers that [clap] and [toml] generate from the declarations of [CliArgs] and [ConfigArgs]
    are third-party code. [Clap] and [Toml] are executable stand-ins for the command lines and files
    of the tests: [--name value] and [--flag] arguments; [key = value] lines of strings, integers,
    booleans and lists of strings. Both keep to the declarations. *)

From S2P Require Import Prelude RustStd Net ClientAddr Target Args Extern Instances Token Testing.

(** ** The stand-ins *)

(** The values of the occurrences of a name. *)
Definition values {A} (name : str) (occurrences : list (str * A)) : list A :=
  snd <$> filter (fun o => o.1 = name) occurrences.

(** At most one occurrence, read by [f]. *)
Definition single {A B} (f : A -> option B) (name : str) (occurrences : list (str * A)) :
    option (option B) :=
  match values name occurrences with
  | [] => Some None
  | [v] => b ← f v; Some (Some b)
  | _ => None
  end.

Definition mode_of (s : str) : option ServiceMode :=
  if decide (s = "ws-only") then Some WsOnly
  else if decide (s = "wss-only") then Some WssOnly
  else if decide (s = "both") then Some Both else None.

Definition ok {E A} (r : outcome E A) : option A := match r with Ok a => Some a | _ => None end.

Module Clap.
Definition flags : list str :=
  ["--ipv6-only"; "--no-ipv6-only"; "--auto-self-signed-cert"; "--no-auto-self-signed-cert"].
Definition options : list str :=
  ["--config"; "--bind"; "--service-mode"; "--port"; "--tls-port"; "--buffer-size";
   "--udp-idle-timeout"; "--basic-auth"; "--basic-auth-file"; "--anonymous-target";
   "--anonymous-target-file"; "--trusted-proxy"; "--token-secret-file"; "--access-token-ttl";
   "--refresh-token-ttl"; "--tls-cert"; "--tls-key"; "--log-file"; "--log-level"].

Fixpoint occurrences (argv : list str) : option (list (str * str)) :=
  match argv with
  | [] => Some []
  | name :: rest =>
      if bool_decide (name ∈ flags) then o ← occurrences rest; Some ((name, []) :: o)
      else if bool_decide (name ∈ options) then
        match rest with
        | value :: rest => o ← occurrences rest; Some ((name, value) :: o)
        | [] => None
        end
      else None
  end.

Definition parse_from (argv : list str) : option CliArgs :=
  o ← occurrences (tail argv);
  let flag name := bool_decide (values name o <> []) in
  let text name := single Some name o in
  let number max name := single (parse_uint max) name o in
  config ← text "--config"; bind ← text "--bind"; mode ← single mode_of "--service-mode" o;
  port ← number U16_MAX "--port"; tls_port ← number U16_MAX "--tls-port";
  buffer ← number U64_MAX "--buffer-size"; idle ← number U64_MAX "--udp-idle-timeout";
  auth_file ← text "--basic-auth-file"; target_file ← text "--anonymous-target-file";
  proxies ← ok (collect (range_from_str <$> values "--trusted-proxy" o));
  secret ← text "--token-secret-file";
  access ← number U64_MAX "--access-token-ttl"; refresh ← number U64_MAX "--refresh-token-ttl";
  cert ← text "--tls-cert"; key ← text "--tls-key"; file ← text "--log-file";
  level ← text "--log-level";
  let cli := mkCli config bind mode port tls_port (flag "--ipv6-only") (flag "--no-ipv6-only")
    buffer idle (values "--basic-auth" o) auth_file (values "--anonymous-target" o) target_file
    proxies secret access refresh cert key (flag "--auto-self-signed-cert")
    (flag "--no-auto-self-signed-cert") file level in
  if cli_declared cli then Some cli else None.

Lemma parse_from_keeps : clap_keeps parse_from.
Proof.
  intros argv cli. unfold parse_from.
  repeat match goal with
  | |- (?o ≫= _) = Some _ -> _ => destruct o; cbn [mbind option_bind]; [|done]
  end.
  cbv zeta. destruct (cli_declared _) eqn:E; [|done]. by intros [= <-].
Qed.
End Clap.

Module Toml.
Inductive Value : Type :=
  | VStr (s : str)
  | VInt (n : Z)
  | VBool (b : bool)
  | VList (l : list str).

Definition quoted (s : str) : option str := s ← strip_prefix "\q" s; strip_suffix "\q" s.

Definition value (s : str) : option Value :=
  if decide (s = "true") then Some (VBool true)
  else if decide (s = "false") then Some (VBool false)
  else match strip_prefix "[" s with
  | Some inside =>
      inside ← strip_suffix "]" inside;
      if decide (inside = []) then Some (VList [])
      else l ← mapM (fun item => quoted (trim item)) (split_on (fun c => bool_decide (c = x2c)) inside);
           Some (VList l)
  | None =>
      match quoted s with
      | Some s => Some (VStr s)
      | None => VInt <$> parse_uint U64_MAX s
      end
  end.

Definition table (contents : str) : option (list (str * Value)) :=
  mapM (fun line => '(k, v) ← split_once "=" line; v ← value (trim v); Some (trim k, v))
    (filter (fun line => line <> []) (lines contents)).

Definition as_str v := match v with VStr s => Some s | _ => None end.
Definition as_bool v := match v with VBool b => Some b | _ => None end.
Definition as_list v := match v with VList l => Some l | _ => None end.
Definition as_number (max : Z) v :=
  match v with VInt n => if (n <=? max)%Z then Some n else None | _ => None end.

Definition keys : list str :=
  ["bind"; "service-mode"; "port"; "tls-port"; "ipv6-only"; "buffer-size"; "udp-idle-timeout";
   "basic-auth"; "basic-auth-file"; "anonymous-target"; "anonymous-target-file"; "trusted-proxy";
   "token-secret-file"; "access-token-ttl"; "refresh-token-ttl"; "tls-cert"; "tls-key";
   "auto-self-signed-cert"; "log-file"; "log-level"].

Definition from_str (contents : str) : option ConfigArgs :=
  o ← table contents;
  if forallb (fun kv => bool_decide (kv.1 ∈ keys)) o then
    let text name := single as_str name o in
    let number max name := single (as_number max) name o in
    let flag name := single as_bool name o in
    bind ← text "bind"; mode ← single (fun v => as_str v ≫= mode_of) "service-mode" o;
    port ← number U16_MAX "port"; tls_port ← number U16_MAX "tls-port"; ipv6 ← flag "ipv6-only";
    buffer ← number U64_MAX "buffer-size"; idle ← number U64_MAX "udp-idle-timeout";
    auth ← single as_list "basic-auth" o; auth_file ← text "basic-auth-file";
    target ← single as_list "anonymous-target" o; target_file ← text "anonymous-target-file";
    proxies ← single (fun v => l ← as_list v; ok (collect (range_try_from <$> l))) "trusted-proxy" o;
    secret ← text "token-secret-file";
    access ← number U64_MAX "access-token-ttl"; refresh ← number U64_MAX "refresh-token-ttl";
    cert ← text "tls-cert"; key ← text "tls-key"; auto ← flag "auto-self-signed-cert";
    file ← text "log-file"; level ← text "log-level";
    let config := mkConfig bind mode port tls_port ipv6 buffer idle auth auth_file target target_file
      proxies secret access refresh cert key auto file level in
    if config_declared config then Some config else None
  else None.

Lemma from_str_keeps : toml_keeps from_str.
Proof.
  intros s config. unfold from_str. destruct (table s) as [o|]; cbn [mbind option_bind]; [|done].
  destruct (forallb _ o); [|done]. cbv zeta.
  repeat match goal with
  | |- (?o ≫= _) = Some _ -> _ => destruct o; cbn [mbind option_bind]; [|done]
  end.
  destruct (config_declared _) eqn:E; [|done]. by intros [= <-].
Qed.
End Toml.

(** ** The tests *)

(** [try_parse] and [parse], with the files of the test. *)
Definition try_parse {S} (args : list str) : test S (outcome ArgsError Args) :=
  do! fs := read_disk in
  ret (try_parse_from Toml.from_str fs Clap.parse_from (("ws2tcp-router" : str) :: args)).
Definition parse {S} (args : list str) : test S Args :=
  do! args := try_parse args in unwrap args.

(** The options are refused. *)
Definition rejects {S} (args : list str) : test S unit :=
  do! result := try_parse args in assert_true (is_err result).

Definition temp_path (name : str) : str := "/tmp/ws2tcp-router-" ++ name ++ "-1-test.toml".

Definition uses_defaults_without_config_or_cli_values : test unit unit :=
  do! args := parse [] in
  run! assert_eq (bind_addr args) DEFAULT_BIND in
  run! assert_eq (service_mode args) WsOnly in
  run! assert_eq (ws_port args) DEFAULT_PORT in
  run! assert_eq (tls_port args) DEFAULT_TLS_PORT in
  run! assert_true (negb (ipv6_only args)) in
  run! assert_eq (buffer_size args) DEFAULT_BUFFER_SIZE in
  run! assert_eq (udp_idle_timeout args) DEFAULT_UDP_IDLE_TIMEOUT in
  run! assert_eq (basic_auth args) [] in
  run! assert_eq (anonymous_target args) [] in
  run! assert_eq (anonymous_target_file args) None in
  run! assert_eq (tls_cert args) None in
  run! assert_eq (tls_key args) None in
  assert_true (negb (auto_self_signed_cert args)).

Definition full_config : str :=
  "\nbind = \q127.0.0.1\q\nservice-mode = \qwss-only\q\nport = 8080\ntls-port = 8443\n" ++
  "ipv6-only = true\nbuffer-size = 4096\nudp-idle-timeout = 30\nbasic-auth = [\qalice:secret\q]\n" ++
  "basic-auth-file = \q./users.txt\q\nanonymous-target = [\qocs.wangguofang.net:8443\q]\n" ++
  "anonymous-target-file = \q./anonymous-targets.txt\q\ntls-cert = \q./cert.pem\q\n" ++
  "tls-key = \q./key.pem\q\nauto-self-signed-cert = false\nlog-file = \q./router.log\q\n" ++
  "log-level = \qws2tcp_router=debug\q\n".

Definition reads_values_from_config_file : test unit unit :=
  let path := temp_path "config" in
  run! fs_write path full_config in
  do! args := parse ["--config"; path] in
  run! fs_remove_file path in
  run! assert_eq (bind_addr args) "127.0.0.1" in
  run! assert_eq (service_mode args) WssOnly in
  run! assert_eq (ws_port args) 8080%Z in
  run! assert_eq (tls_port args) 8443%Z in
  run! assert_true (ipv6_only args) in
  run! assert_eq (buffer_size args) 4096%Z in
  run! assert_eq (udp_idle_timeout args) 30%Z in
  run! assert_eq (basic_auth args) ["alice:secret"] in
  run! assert_eq (basic_auth_file args) (Some ("./users.txt" : str)) in
  run! assert_eq (anonymous_target args) ["ocs.wangguofang.net:8443"] in
  run! assert_eq (anonymous_target_file args) (Some ("./anonymous-targets.txt" : str)) in
  run! assert_eq (tls_cert args) (Some ("./cert.pem" : str)) in
  run! assert_eq (tls_key args) (Some ("./key.pem" : str)) in
  run! assert_true (negb (auto_self_signed_cert args)) in
  run! assert_eq (log_file args) (Some ("./router.log" : str)) in
  assert_eq (log_level args) (Some ("ws2tcp_router=debug" : str)).

Definition overridden_config : str :=
  "\nbind = \q127.0.0.1\q\nport = 8001\nservice-mode = \qws-only\q\nipv6-only = true\n" ++
  "buffer-size = 4096\nudp-idle-timeout = 30\nbasic-auth = [\qalice:secret\q]\n" ++
  "anonymous-target = [\qconfig.example:443\q]\n" ++
  "anonymous-target-file = \q./config-anonymous-targets.txt\q\n" ++
  "tls-cert = \q./config-cert.pem\q\ntls-key = \q./config-key.pem\q\n".

Definition cli_values_override_config_file_values : test unit unit :=
  let path := temp_path "override" in
  run! fs_write path overridden_config in
  do! args := parse
    ["--config"; path; "--bind"; "0.0.0.0"; "--service-mode"; "wss-only"; "--port"; "9000";
     "--tls-port"; "9443"; "--no-ipv6-only"; "--buffer-size"; "8192"; "--udp-idle-timeout"; "120";
     "--basic-auth"; "bob:secret"; "--anonymous-target"; "cli.example:443";
     "--anonymous-target-file"; "./cli-anonymous-targets.txt"; "--tls-cert"; "./cli-cert.pem";
     "--tls-key"; "./cli-key.pem"] in
  run! fs_remove_file path in
  run! assert_eq (bind_addr args) "0.0.0.0" in
  run! assert_eq (service_mode args) WssOnly in
  run! assert_eq (ws_port args) 9000%Z in
  run! assert_eq (tls_port args) 9443%Z in
  run! assert_true (negb (ipv6_only args)) in
  run! assert_eq (buffer_size args) 8192%Z in
  run! assert_eq (udp_idle_timeout args) 120%Z in
  run! assert_eq (basic_auth args) ["bob:secret"] in
  run! assert_eq (anonymous_target args) ["cli.example:443"] in
  run! assert_eq (anonymous_target_file args) (Some ("./cli-anonymous-targets.txt" : str)) in
  run! assert_eq (tls_cert args) (Some ("./cli-cert.pem" : str)) in
  assert_eq (tls_key args) (Some ("./cli-key.pem" : str)).

Definition rejects_partial_tls_config_after_merge : test unit unit :=
  let path := temp_path "partial-tls" in
  run! fs_write path "tls-cert = \q./cert.pem\q" in
  run! rejects ["--config"; path] in
  fs_remove_file path.

Definition enables_auto_self_signed_cert_from_cli : test unit unit :=
  do! args := parse ["--auto-self-signed-cert"] in
  run! assert_true (auto_self_signed_cert args) in
  run! assert_eq (tls_cert args) None in
  assert_eq (tls_key args) None.

Definition rejects_auto_self_signed_cert_with_file_tls : test unit unit :=
  rejects ["--auto-self-signed-cert"; "--tls-cert"; "./cert.pem"; "--tls-key"; "./key.pem"].

Definition cli_auto_self_signed_cert_overrides_config_file_tls : test unit unit :=
  let path := temp_path "auto-overrides-file-tls" in
  run! fs_write path "\ntls-cert = \q./config-cert.pem\q\ntls-key = \q./config-key.pem\q\n" in
  do! args := parse ["--config"; path; "--auto-self-signed-cert"] in
  run! fs_remove_file path in
  run! assert_true (auto_self_signed_cert args) in
  run! assert_eq (tls_cert args) None in
  assert_eq (tls_key args) None.

Definition cli_file_tls_overrides_config_auto_self_signed_cert : test unit unit :=
  let path := temp_path "file-tls-overrides-auto" in
  run! fs_write path "auto-self-signed-cert = true" in
  do! args :=
    parse ["--config"; path; "--tls-cert"; "./cli-cert.pem"; "--tls-key"; "./cli-key.pem"] in
  run! fs_remove_file path in
  run! assert_true (negb (auto_self_signed_cert args)) in
  run! assert_eq (tls_cert args) (Some ("./cli-cert.pem" : str)) in
  assert_eq (tls_key args) (Some ("./cli-key.pem" : str)).

Definition cli_no_auto_self_signed_cert_overrides_config_auto_self_signed_cert : test unit unit :=
  let path := temp_path "no-auto" in
  run! fs_write path "auto-self-signed-cert = true" in
  do! args := parse ["--config"; path; "--no-auto-self-signed-cert"] in
  run! fs_remove_file path in
  run! assert_true (negb (auto_self_signed_cert args)) in
  run! assert_eq (tls_cert args) None in
  assert_eq (tls_key args) None.

Definition port_sets_ws_port : test unit unit :=
  do! args := parse ["--port"; "8080"] in
  run! assert_eq (ws_port args) 8080%Z in
  assert_eq (tls_port args) DEFAULT_TLS_PORT.

Definition rejects_wss_mode_without_tls_config : test unit unit :=
  rejects ["--service-mode"; "wss-only"].

Definition accepts_both_mode_with_auto_self_signed_cert : test unit unit :=
  do! args := parse ["--service-mode"; "both"; "--auto-self-signed-cert"] in
  run! assert_eq (service_mode args) Both in
  run! assert_eq (ws_port args) DEFAULT_PORT in
  assert_eq (tls_port args) DEFAULT_TLS_PORT.

Definition rejects_both_mode_with_same_ports : test unit unit :=
  rejects ["--service-mode"; "both"; "--auto-self-signed-cert"; "--port"; "8443"; "--tls-port";
           "8443"].

Definition token_options_have_defaults : test unit unit :=
  do! args := parse [] in
  run! assert_eq (access_token_ttl args) DEFAULT_ACCESS_TOKEN_TTL in
  run! assert_eq (refresh_token_ttl args) DEFAULT_REFRESH_TOKEN_TTL in
  assert_eq (token_secret_file args) None.

Definition parses_token_options : test unit unit :=
  do! args := parse
    ["--basic-auth"; "alice:secret"; "--token-secret-file"; "./token.key"; "--access-token-ttl"; "60";
     "--refresh-token-ttl"; "3600"] in
  run! assert_eq (token_secret_file args) (Some ("./token.key" : str)) in
  run! assert_eq (access_token_ttl args) 60%Z in
  assert_eq (refresh_token_ttl args) 3600%Z.

Definition there_is_no_switch_for_token_authentication : test unit unit :=
  run! rejects ["--basic-auth"; "alice:secret"; "--token-auth"; "optional"] in
  rejects ["--token-auth"; "required"].

Definition rejects_zero_token_lifetimes : test unit unit :=
  run! rejects ["--access-token-ttl"; "0"] in
  rejects ["--refresh-token-ttl"; "0"].

Definition trusts_only_loopback_proxies_by_default : test unit unit :=
  do! args := parse [] in
  do! ranges := unwrap (loopback (E := Empty_set)) in
  assert_eq (trusted_proxy args) ranges.

Definition parses_trusted_proxies_from_the_command_line : test unit unit :=
  do! args := parse ["--trusted-proxy"; "10.0.0.0/8"; "--trusted-proxy"; "2001:db8::1"] in
  do! r1 := unwrap (range_from_str "10.0.0.0/8") in
  do! r2 := unwrap (range_from_str "2001:db8::1") in
  assert_eq (trusted_proxy args) [r1; r2].

Definition rejects_an_invalid_trusted_proxy : test unit unit :=
  run! rejects ["--trusted-proxy"; "nope"] in
  rejects ["--trusted-proxy"; "10.0.0.0/40"].

Definition trusted_proxies_come_from_the_config_file_unless_given_on_the_command_line :
    test unit unit :=
  let config := temp_path "trusted-proxy" in
  run! fs_write config "trusted-proxy = [\q172.16.0.0/12\q]\n" in
  do! args := parse ["--config"; config] in
  do! r := unwrap (range_from_str "172.16.0.0/12") in
  run! assert_eq (trusted_proxy args) [r] in
  do! args := parse ["--config"; config; "--trusted-proxy"; "192.0.2.1"] in
  do! r := unwrap (range_from_str "192.0.2.1") in
  run! assert_eq (trusted_proxy args) [r] in
  run! fs_write config "trusted-proxy = []\n" in
  do! args := parse ["--config"; config] in
  run! assert_eq (trusted_proxy args) [] in
  run! fs_write config "trusted-proxy = [\qnope\q]\n" in
  run! rejects ["--config"; config] in
  fs_remove_file config.

Definition args_tests : list (test unit unit) :=
  [uses_defaults_without_config_or_cli_values; reads_values_from_config_file;
   cli_values_override_config_file_values; rejects_partial_tls_config_after_merge;
   enables_auto_self_signed_cert_from_cli; rejects_auto_self_signed_cert_with_file_tls;
   cli_auto_self_signed_cert_overrides_config_file_tls;
   cli_file_tls_overrides_config_auto_self_signed_cert;
   cli_no_auto_self_signed_cert_overrides_config_auto_self_signed_cert; port_sets_ws_port;
   rejects_wss_mode_without_tls_config; accepts_both_mode_with_auto_self_signed_cert;
   rejects_both_mode_with_same_ports; token_options_have_defaults; parses_token_options;
   there_is_no_switch_for_token_authentication; rejects_zero_token_lifetimes;
   trusts_only_loopback_proxies_by_default; parses_trusted_proxies_from_the_command_line;
   rejects_an_invalid_trusted_proxy;
   trusted_proxies_come_from_the_config_file_unless_given_on_the_command_line].

Example args_tests_pass : forallb passes args_tests = true.
Proof. vm_compute. reflexivity. Qed.
