(* ===== verification/TestAuth.v ===== *)
(** The unit tests of [src/auth.rs], run on [Auth]. *)

From S2P Require Import Prelude RustStd Extern Instances Net ClientAddr Args Token Auth Testing.
From S2P Require Import TestToken.

Definition request_to (uri : str) : Request := mkRequest "GET" (uri : str) headers_new.
Definition request_with_authorization (authorization : option str) : Request :=
  let request := request_to "/tcp:127.0.0.1:80" in
  match authorization with
  | Some value =>
      mkRequest (req_method request) (req_uri request)
        (headers_insert AUTHORIZATION value (req_headers request))
  | None => request
  end.

Definition default_args : Args := {|
  bind_addr := "::"; service_mode := WsOnly; ws_port := 80; tls_port := 443; ipv6_only := false;
  buffer_size := 16 * 1024; udp_idle_timeout := 60; basic_auth := []; basic_auth_file := None;
  anonymous_target := []; anonymous_target_file := None; trusted_proxy := [];
  token_secret_file := None; access_token_ttl := 600; refresh_token_ttl := 604800;
  tls_cert := None; tls_key := None; auto_self_signed_cert := false; log_file := None;
  log_level := None |}.

(** [default_args] with the credentials, the file, the targets and the target file of a test. *)
Definition args_with (auth : list str) (auth_file : option str) (targets : list str)
    (target_file : option str) : Args := {|
  bind_addr := "::"; service_mode := WsOnly; ws_port := 80; tls_port := 443; ipv6_only := false;
  buffer_size := 16 * 1024; udp_idle_timeout := 60; basic_auth := auth; basic_auth_file := auth_file;
  anonymous_target := targets; anonymous_target_file := target_file; trusted_proxy := [];
  token_secret_file := None; access_token_ttl := 600; refresh_token_ttl := 604800;
  tls_cert := None; tls_key := None; auto_self_signed_cert := false; log_file := None;
  log_level := None |}.

Example args_with_nothing : args_with [] None [] None = default_args.
Proof. reflexivity. Qed.

Definition build {S} (args : Args) : test S (outcome AuthError (option AuthConfig)) :=
  do! env := take_readings in
  do! fs := read_disk in
  ret (build_auth_config env fs args).

(** [build_auth_config(&args).unwrap().unwrap()]. *)
Definition built {S} (args : Args) : test S AuthConfig :=
  do! auth := build args in do! auth := unwrap auth in unwrap_some auth.

(** [authorize_request(..)], with the configuration under test. *)
Definition authorized (request : Request) : test AuthConfig (outcome Response str) :=
  do! env := take_readings in
  do! auth := read_subject in
  ret (authorize_request env request (Some auth)).

Definition validates_basic_auth_credentials : test unit unit :=
  run! assert_true (is_ok (validate_basic_auth_credential "alice:secret")) in
  run! assert_true (is_ok (validate_basic_auth_credential "alice:sec:ret")) in
  run! assert_true (is_err (validate_basic_auth_credential "alice")) in
  run! assert_true (is_err (validate_basic_auth_credential ":secret")) in
  assert_true (is_err (validate_basic_auth_credential "alice:")).

Definition extracts_basic_auth_username : test unit unit :=
  run! assert_eq (basic_auth_username "Basic YWxpY2U6c2VjcmV0") (Some ("alice" : str)) in
  run! assert_eq (basic_auth_username "Bearer token") None in
  run! assert_eq (basic_auth_username "Basic not-base64") None in
  assert_eq (basic_auth_username "Basic OnNlY3JldA==") None.

Definition disables_basic_auth_when_no_auth_options_are_set : test unit unit :=
  do! auth := build default_args in
  do! auth := unwrap auth in
  assert_true (match auth with None => true | Some _ => false end).

Definition builds_basic_auth_config_from_repeated_credentials : test unit unit :=
  do! auth := built (args_with ["alice:secret"; "bob:secret2"] None [] None) in
  assert_eq (expected_authorizations auth) ["Basic YWxpY2U6c2VjcmV0"; "Basic Ym9iOnNlY3JldDI="].

Definition builds_basic_auth_config_with_anonymous_targets : test unit unit :=
  do! auth := built (args_with ["alice:secret"] None
    ["ocs.wangguofang.net:8443"; "[2001:db8::1]:443"] None) in
  assert_eq (anonymous_targets auth) ["ocs.wangguofang.net:8443"; "[2001:db8::1]:443"].

(** [auth.reload_..(&path)] on the configuration under test. *)
Definition reload_with (reload : Files -> str -> M AuthConfig AuthError bool) (path : str) :
    test AuthConfig (outcome AuthError bool) :=
  do! fs := read_disk in call (fun _ => reload fs path).

Definition targets_path : str := "/tmp/ws2tcp-router-anonymous-targets-1.txt".

Definition loads_and_reloads_anonymous_target_file : test unit unit :=
  let path := targets_path in
  run! fs_write path "# public targets\nfile.example:443\n\n[2001:db8::1]:8443\n" in
  do! auth := built (args_with ["alice:secret"] None ["fixed.example:80"] (Some path)) in
  run! with_subject auth
    (do! auth := read_subject in
     run! assert_eq (anonymous_targets auth)
       ["fixed.example:80"; "file.example:443"; "[2001:db8::1]:8443"] in
     run! fs_write path "updated.example:9443\n" in
     do! changed := reload_with reload_anonymous_target_file path in
     do! changed := unwrap changed in
     run! assert_true changed in
     do! auth := read_subject in
     run! assert_eq (anonymous_targets auth) ["fixed.example:80"; "updated.example:9443"] in
     run! fs_write path "invalid\n" in
     do! changed := reload_with reload_anonymous_target_file path in
     run! assert_true (is_err changed) in
     do! auth := read_subject in
     assert_eq (anonymous_targets auth) ["fixed.example:80"; "updated.example:9443"]) in
  fs_remove_file path.

Definition rejects_invalid_anonymous_target : test unit unit :=
  do! result := build (args_with ["alice:secret"] None ["2001:db8::1:443"] None) in
  assert_true (is_err result).

Definition empty_auth_path : str := "/tmp/ws2tcp-router-empty-auth-1.txt".

Definition rejects_empty_basic_auth_file_when_auth_is_enabled : test unit unit :=
  let path := empty_auth_path in
  run! fs_write path "\n# no credentials\n" in
  do! result := build (args_with [] (Some path) [] None) in
  run! fs_remove_file path in
  assert_true (is_err result).

Definition auth_path : str := "/tmp/ws2tcp-router-reload-auth-1.txt".

Definition reloads_basic_auth_file_and_retains_last_valid_credentials : test unit unit :=
  let path := auth_path in
  run! fs_write path "alice:secret\n" in
  do! auth := built (args_with [] (Some path) [] None) in
  let alice := request_with_authorization (Some ("Basic YWxpY2U6c2VjcmV0" : str)) in
  let bob := request_with_authorization (Some ("Basic Ym9iOnNlY3JldDI=" : str)) in
  run! with_subject auth
    (do! r := authorized alice in run! assert_true (is_ok r) in
     run! fs_write path "bob:secret2\n" in
     do! changed := reload_with reload_auth_file path in
     do! changed := unwrap changed in
     run! assert_true changed in
     do! r := authorized alice in run! assert_true (is_err r) in
     do! r := authorized bob in run! assert_true (is_ok r) in
     run! fs_write path "invalid\n" in
     do! changed := reload_with reload_auth_file path in
     run! assert_true (is_err changed) in
     do! r := authorized bob in assert_true (is_ok r)) in
  fs_remove_file path.

Definition allows_request_when_basic_auth_is_disabled : test unit unit :=
  do! env := take_readings in
  do! user := unwrap (authorize_request env (request_with_authorization None) None) in
  assert_eq user ANONYMOUS_AUTH_USER.

(** The configurations the tests write down. *)
Definition config_with (expected targets : list str) : AuthConfig :=
  mkAuth expected [] None targets [] None None.

Definition rejects_request_without_basic_auth_header_when_enabled : test unit unit :=
  with_subject (config_with ["Basic YWxpY2U6c2VjcmV0"] [])
    (do! r := authorized (request_with_authorization None) in
     do! response := unwrap_err r in
     run! assert_eq (status response) 401%Z in
     do! challenge := unwrap_some (headers_get (headers response) WWW_AUTHENTICATE) in
     assert_eq challenge "Basic realm=\qws2tcp-router\q, charset=\qUTF-8\q").

Definition rejects_request_with_invalid_basic_auth_header : test unit unit :=
  with_subject (config_with ["Basic YWxpY2U6c2VjcmV0"] [])
    (do! r := authorized (request_with_authorization (Some ("Basic Ym9iOnNlY3JldA==" : str))) in
     assert_true (is_err r)).

Definition allows_request_with_matching_basic_auth_header : test unit unit :=
  with_subject (config_with ["Basic YWxpY2U6c2VjcmV0"; "Basic Ym9iOnNlY3JldDI="] [])
    (do! r := authorized (request_with_authorization (Some ("Basic Ym9iOnNlY3JldDI=" : str))) in
     do! user := unwrap r in
     assert_eq user "bob").

Definition allows_request_without_basic_auth_header_for_anonymous_target : test unit unit :=
  with_subject (config_with ["Basic YWxpY2U6c2VjcmV0"] ["ocs.wangguofang.net:8443"])
    (do! r := authorized (request_to "/tcp:ocs.wangguofang.net:8443") in
     do! user := unwrap r in
     assert_eq user ANONYMOUS_AUTH_USER).

Definition rejects_request_without_basic_auth_header_for_non_anonymous_target : test unit unit :=
  with_subject (config_with ["Basic YWxpY2U6c2VjcmV0"] ["ocs.wangguofang.net:8443"])
    (do! r := authorized (request_to "/tcp:other.example:8443") in
     assert_true (is_err r)).

Definition access_tokens_of_a_removed_user_are_rejected : test unit unit :=
  do! tokens := service 600 3600 in
  do! '(alice, bob, tokens) := with_subject tokens
    (do! r := call (fun env => login env "alice") in
     do! alice := unwrap r in
     do! r := call (fun env => login env "bob") in
     do! bob := unwrap r in
     do! tokens := read_subject in
     ret (access_token alice, access_token bob, tokens)) in
  with_subject (with_tokens_for_test "alice:secret" tokens)
    (do! r := authorized (request_with_authorization (Some ("Bearer " ++ alice))) in
     do! user := unwrap r in
     run! assert_eq user "alice" in
     do! r := authorized (request_with_authorization (Some ("Bearer " ++ bob))) in
     assert_true (is_err r)).

Definition bearer_scheme_is_case_insensitive_and_needs_a_token : test unit unit :=
  run! assert_eq (bearer_token "Bearer abc") (Some ("abc" : str)) in
  run! assert_eq (bearer_token "bearer abc") (Some ("abc" : str)) in
  run! assert_eq (bearer_token "BEARER  abc ") (Some ("abc" : str)) in
  run! assert_eq (bearer_token "Bearer ") None in
  run! assert_eq (bearer_token "Bearer") None in
  assert_eq (bearer_token "Basic abc") None.

Definition token_authentication_is_on_whenever_basic_auth_is_configured : test unit unit :=
  do! auth := built (args_with ["alice:secret"] None [] None) in
  run! assert_true (match tokens auth with Some _ => true | None => false end) in
  do! auth := build default_args in
  do! auth := unwrap auth in
  assert_true (match auth with None => true | Some _ => false end).

Definition auth_tests : list (test unit unit) :=
  [validates_basic_auth_credentials; extracts_basic_auth_username;
   disables_basic_auth_when_no_auth_options_are_set;
   builds_basic_auth_config_from_repeated_credentials;
   builds_basic_auth_config_with_anonymous_targets; loads_and_reloads_anonymous_target_file;
   rejects_invalid_anonymous_target; rejects_empty_basic_auth_file_when_auth_is_enabled;
   reloads_basic_auth_file_and_retains_last_valid_credentials;
   allows_request_when_basic_auth_is_disabled;
   rejects_request_without_basic_auth_header_when_enabled;
   rejects_request_with_invalid_basic_auth_header; allows_request_with_matching_basic_auth_header;
   allows_request_without_basic_auth_header_for_anonymous_target;
   rejects_request_without_basic_auth_header_for_non_anonymous_target;
   access_tokens_of_a_removed_user_are_rejected;
   bearer_scheme_is_case_insensitive_and_needs_a_token;
   token_authentication_is_on_whenever_basic_auth_is_configured].

Example auth_tests_pass : forallb passes auth_tests = true.
Proof. vm_compute. reflexivity. Qed.
