(* ===== verification/TestHttpProbe.v ===== *)
(** The unit tests of [src/http_probe.rs], run on [HttpProbe] with the stand-in HTTP parser. *)

From S2P Require Import Prelude RustStd Extern Instances Net Args Token HttpProbe Testing.

Definition detects_plain_root_request : test unit unit :=
  let head := "GET / HTTP/1.1\r\nHost: x\r\nUser-Agent: probe/1.0\r\n\r\n" in
  do! request := unwrap_some (parse_plain_request head) in
  run! assert_eq (req_method request) "GET" in
  do! agent := unwrap_some (headers_get (req_headers request) "user-agent") in
  run! assert_eq agent "probe/1.0" in
  run! unwrap_some (parse_plain_request "HEAD /?x=1 HTTP/1.1\r\nHost: x\r\n\r\n") in
  ret tt.

Definition is_plain (head : bytes) : bool := bool_decide (is_Some (parse_plain_request head)).

Definition detects_token_endpoint_requests_of_any_method : test unit unit :=
  run! for_each (["POST"; "GET"; "DELETE"] : list str) (fun method =>
    let head := method ++ " /auth/token HTTP/1.1\r\nHost: x\r\n\r\n" in
    do! request := unwrap_some (parse_plain_request head) in
    run! assert_eq (req_method request) method in
    assert_eq (uri_path (req_uri request)) "/auth/token") in
  let upgrade :=
    "GET /auth/x HTTP/1.1\r\nHost: x\r\nUpgrade: websocket\r\nConnection: Upgrade\r\n\r\n" in
  assert_true (negb (is_plain upgrade)).

Definition leaves_other_requests_to_the_websocket_handshake : test unit unit :=
  let upgrade :=
    "GET / HTTP/1.1\r\nHost: x\r\nUpgrade: WebSocket\r\nConnection: Upgrade\r\n\r\n" in
  run! assert_true (negb (is_plain upgrade)) in
  run! assert_true (negb (is_plain "GET /tcp:h:1 HTTP/1.1\r\nHost: x\r\n\r\n")) in
  run! assert_true (negb (is_plain "POST / HTTP/1.1\r\nHost: x\r\n\r\n")) in
  run! assert_true (negb (is_plain "POST /author HTTP/1.1\r\nHost: x\r\n\r\n")) in
  run! assert_true (negb (is_plain "GET / HTTP/1.1\r\nHost: x\r\n")) in
  assert_true (negb (is_plain ([x16; x03; x01] ++ "garbage"))).

(** One end of a duplex stream whose other end was dropped: what was written, then the end. *)
Definition duplex_read : reader bytes := fun capacity written =>
  (Ready (Ok (take capacity written)), drop capacity written).

(** [read_to_string] with a buffer of 32 bytes: reads until one returns nothing. *)
Fixpoint read_to_string {S} (read : reader S) (fuel : nat) (stream : S) (out : bytes) : option bytes :=
  match fuel with
  | O => None
  | Datatypes.S fuel =>
      match read 32 stream with
      | (Ready (Ok []), _) => Some out
      | (Ready (Ok chunk), stream) => read_to_string read fuel stream (out ++ chunk)
      | _ => None
      end
  end.

Definition replay_stream_yields_prefix_then_inner : test unit unit :=
  let stream := replay_new "hello " ("world" : bytes) in
  do! out := unwrap_some (read_to_string (replay_poll_read duplex_read) 4 stream []) in
  assert_eq out "hello world".

Definition http_probe_tests : list (test unit unit) :=
  [detects_plain_root_request; detects_token_endpoint_requests_of_any_method;
   leaves_other_requests_to_the_websocket_handshake; replay_stream_yields_prefix_then_inner].

Example http_probe_tests_pass : forallb passes http_probe_tests = true.
Proof. vm_compute. reflexivity. Qed.
