(* ===== verification/TestProxy.v ===== *)
(** The unit tests of [src/proxy.rs], run on [Proxy] and [AuditLog].

    A client is what it sends and what it gets back: the model answers for the server. The websocket
    client and the server's handshake of [tokio_tungstenite] are stand-ins ([client_head],
    [ProxyTests.accept]). Not tested here: that the 101 response of a handshake has no extra
    header (the callback returns the response it is given). *)

From S2P Require Import Prelude RustStd Extern Instances Net Target ClientAddr Args Token Auth AuthSpec.
From S2P Require Import HttpProbe TokenApi Proxy AuditLog Testing.

(** ** Servers and clients *)

(** What a client has of a connection: what the server did, and how it ended. *)
Definition served : Type := list Effect * option (outcome ConnectionError unit).

(** A network whose upstreams all connect and then meet these events. *)
Definition upstream (session : list (Event * bool)) : Network :=
  mkNetwork true (fun _ => true) (fun _ => None) (fun _ => false) (fun _ => false) session [].

(** Serves a connection that arrives from 127.0.0.1, with the given proxies trusted; the configuration
    under test is shared by all connections. *)
Definition spawn_server_behind (trusted_proxies : TrustedProxies) (net : Network) (request : bytes) :
    test (option AuthConfig) served :=
  do! env := take_readings in
  do! peer_addr := unwrap_some (parse_socket_addr "127.0.0.1:1") in
  fun b =>
    let '(result, auth) :=
      handle_connection ProxyTests.accept env (subject b) trusted_proxies peer_addr [Ok request] net
        1024 (from_secs 1) in
    (Ok result, mkBench (tick b) (disk b) auth).

Definition spawn_server_with_auth (net : Network) (request : bytes) : test (option AuthConfig) served :=
  do! trusted := unwrap (loopback (E := Empty_set)) in
  spawn_server_behind (proxies_new trusted) net request.

(** Without authentication. *)
Definition spawn_server {S} (net : Network) (request : bytes) : test S served :=
  with_subject None (spawn_server_with_auth net request).

(** Everything the server writes before it closes. *)
Definition written (effects : list Effect) : str :=
  concat (omap (fun e => match e with Respond answer => Some answer | _ => None end) effects).

Definition raw_exchange (request : str) :
    test (option AuthConfig) (str * option (outcome ConnectionError unit)) :=
  do! '(effects, ended) := spawn_server_with_auth (upstream []) request in
  ret (written effects, ended).

(** [result.expect(..)]. *)
Definition expect_ok {S} (ended : option (outcome ConnectionError unit)) : test S unit :=
  assert_true (match ended with Some (Ok _) => true | _ => false end).

(** The handshake a websocket client sends. *)
Definition client_head (path : str) (headers : list (str * str)) : bytes :=
  "GET " ++ path ++ " HTTP/1.1\r\nHost: localhost\r\nConnection: Upgrade\r\nUpgrade: websocket\r\n" ++
  "Sec-WebSocket-Version: 13\r\nSec-WebSocket-Key: AAAAAAAAAAAAAAAAAAAAAA==\r\n" ++
  concat ((fun nv => nv.1 ++ ": " ++ nv.2 ++ "\r\n") <$> headers) ++ "\r\n".

(** [client_async]: the response of a refused handshake, or the messages of the connection. *)
Definition client_async {S} (result : served) : test S (outcome Response (list Message)) :=
  let '(effects, ended) := result in
  match effects, ended with
  | RefuseHandshake response :: _, _ => ret (Err response)
  | _, Some (Err HandshakeError) | _, Some (Err HeadUnreadable) | _, Some Panicked => lift Panicked
  | _, _ =>
      ret (Ok (omap (fun e => match e with
                              | SendMessage m | Forwarding (WsSend m) => Some m
                              | _ => None
                              end) effects))
  end.

(** ** Health checks and refusals *)

Definition root_path_health_check_completes_handshake_and_closes : test unit unit :=
  do! result := spawn_server (upstream []) (client_head "/" []) in
  do! r := client_async result in
  do! messages := unwrap r in
  run! match messages with
       | [Text text; Close (Some (code, reason))] =>
           run! assert_eq text HEALTH_CHECK_MESSAGE in
           run! assert_eq code 1000%Z in
           assert_eq reason HEALTH_CHECK_CLOSE_REASON
       | _ => assert_true false
       end in
  expect_ok result.2.

Definition invalid_path_is_rejected_with_bad_request : test unit unit :=
  do! result := spawn_server (upstream []) (client_head "/other" []) in
  do! r := client_async result in
  do! response := unwrap_err r in
  run! assert_eq (status response) 400%Z in
  run! assert_true (contains "path must be /tcp:<host>:<port>" (default [] (body response))) in
  assert_true (match result.2 with Some (Err _) => true | _ => false end).

Definition plain_http_get_root_returns_health_check_message : test unit unit :=
  with_subject None
    (do! '(response, result) :=
       raw_exchange "GET / HTTP/1.1\r\nHost: x\r\nUser-Agent: probe/1.0\r\n\r\n" in
     run! assert_true (starts_with "HTTP/1.1 200 OK\r\n" response) in
     run! assert_true (contains "content-type: text/plain; charset=utf-8\r\n" response) in
     run! assert_true (contains ("content-length: " ++
       show_uint (Z.of_nat (length HEALTH_CHECK_MESSAGE)) ++ "\r\n") response) in
     run! assert_true (ends_with HEALTH_CHECK_MESSAGE response) in
     run! assert_true (negb (contains "x-ws2tcp-token" response)) in
     expect_ok result).

Definition plain_http_head_root_omits_body : test unit unit :=
  with_subject None
    (do! '(response, result) := raw_exchange "HEAD / HTTP/1.1\r\nHost: x\r\n\r\n" in
     run! assert_true (starts_with "HTTP/1.1 200 OK\r\n" response) in
     run! assert_true (ends_with "\r\n\r\n" response) in
     expect_ok result).

Definition plain_http_health_check_requires_auth_when_enabled : test unit unit :=
  with_subject (Some (with_basic_auth_for_test "alice:secret"))
    (do! '(response, _) := raw_exchange "GET / HTTP/1.1\r\nHost: x\r\n\r\n" in
     run! assert_true (starts_with "HTTP/1.1 401 Unauthorized\r\n" response) in
     run! assert_true (contains "www-authenticate: Basic realm=\qws2tcp-router\q" response) in
     run! assert_true (ends_with "authentication required" response) in
     do! '(response, result) := raw_exchange
       "GET / HTTP/1.1\r\nHost: x\r\nAuthorization: Basic YWxpY2U6c2VjcmV0\r\n\r\n" in
     run! assert_true (starts_with "HTTP/1.1 200 OK\r\n" response) in
     expect_ok result).

(** ** The token endpoints *)

Definition ALICE : str := "Basic YWxpY2U6c2VjcmV0".
Definition WRONG : str := "Basic YWxpY2U6d3Jvbmc=".

Definition token_auth {S} : test S (option AuthConfig) :=
  do! env := take_readings in
  do! tokens := unwrap (new env "0123456789abcdef0123456789abcdef" (from_secs 600) (from_secs 3600)) in
  ret (Some (with_tokens_for_test "alice:secret" tokens)).

Definition post (path : str) (authorization : option str) : str :=
  let authorization :=
    match authorization with Some value => "Authorization: " ++ value ++ "\r\n" | None => [] end in
  "POST " ++ path ++ " HTTP/1.1\r\nHost: x\r\n" ++ authorization ++ "Content-Length: 0\r\n\r\n".

Definition json_field {S} (response name : str) : test S str :=
  let marker := "\q" ++ name ++ "\q:\q" in
  do! '(_, rest) := unwrap_some (split_once marker response) in
  unwrap_some (head (split_on (fun c => bool_decide (c = x22)) rest)).

(** Logs in with Basic credentials: the access token and the refresh token. *)
Definition login : test (option AuthConfig) (str * str) :=
  do! '(response, result) := raw_exchange (post "/auth/token" (Some ALICE)) in
  run! expect_ok result in
  run! assert_true (starts_with "HTTP/1.1 200 OK\r\n" response) in
  do! access := json_field response "access_token" in
  do! refresh := json_field response "refresh_token" in
  ret (access, refresh).

(** Tries a websocket handshake: the rejection, or the messages of the connection. *)
Definition ws_handshake (net : Network) (target : str) (authorization : option str) :
    test (option AuthConfig) (outcome Response (list Message)) :=
  let headers := match authorization with Some a => [("Authorization" : str, a)] | None => [] end in
  do! result := spawn_server_with_auth net (client_head target headers) in
  client_async result.

(** No upstream listens. *)
Definition closed : Network :=
  mkNetwork true (fun _ => false) (fun _ => None) (fun _ => false) (fun _ => false) [] [].

Definition rejection {A} (r : outcome Response A) : option Z :=
  match r with Err response => Some (status response) | _ => None end.

(** The response starts with the status line. *)
Definition answers (status_line response : str) : bool :=
  starts_with ("HTTP/1.1 " ++ status_line ++ "\r\n") response.

Definition token_endpoints_do_not_exist_without_a_token_service : test unit unit :=
  for_each [None; Some (with_basic_auth_for_test "alice:secret")] (fun auth =>
    with_subject auth
      (do! '(response, _) := raw_exchange (post "/auth/token" (Some ALICE)) in
       assert_true (answers "404 Not Found" response))).

Definition login_needs_valid_basic_credentials : test unit unit :=
  do! auth := token_auth in
  with_subject auth
    (run! for_each [None; Some WRONG] (fun authorization =>
       do! '(response, _) := raw_exchange (post "/auth/token" authorization) in
       run! assert_true (answers "401 Unauthorized" response) in
       run! assert_true (contains "www-authenticate: Basic realm=\qws2tcp-router\q" response) in
       assert_true (negb (contains "access_token" response))) in
     do! '(response, _) := raw_exchange (post "/auth/token" (Some ALICE)) in
     run! assert_true (answers "200 OK" response) in
     run! assert_true (contains "content-type: application/json\r\n" response) in
     run! assert_true (contains "cache-control: no-store\r\n" response) in
     run! assert_true (contains "\qtoken_type\q:\qBearer\q" response) in
     run! assert_true (contains "\qexpires_in\q:600" response) in
     assert_true (contains "\qrefresh_expires_in\q:3600" response)).

Definition token_endpoints_accept_only_post_without_a_body : test unit unit :=
  do! auth := token_auth in
  with_subject auth
    (do! '(response, _) := raw_exchange
       ("GET /auth/token HTTP/1.1\r\nHost: x\r\nAuthorization: " ++ ALICE ++ "\r\n\r\n") in
     run! assert_true (answers "405 Method Not Allowed" response) in
     run! assert_true (contains "allow: POST\r\n" response) in
     do! '(response, _) := raw_exchange
       ("POST /auth/token HTTP/1.1\r\nHost: x\r\nAuthorization: " ++ ALICE ++
        "\r\nContent-Length: 5\r\n\r\nhello") in
     run! assert_true (answers "400 Bad Request" response) in
     do! '(response, _) := raw_exchange (post "/auth/nope" (Some ALICE)) in
     assert_true (answers "404 Not Found" response)).

(** An upstream that echoes a message: the client sends it, the upstream sends it back. *)
Definition echo (message : bytes) : Network :=
  upstream [(WsNext (Some (Ok (Binary message))), true); (Received (Ok message), true)].

Definition access_token_authorizes_a_proxy_request : test unit unit :=
  do! auth := token_auth in
  with_subject auth
    (do! '(access, _) := login in
     do! r := ws_handshake (echo "ping") "/tcp:127.0.0.1:40000" (Some ("Bearer " ++ access)) in
     do! messages := unwrap r in
     match messages with
     | [Binary bytes] => assert_eq bytes "ping"
     | _ => assert_true false
     end).

Definition invalid_access_tokens_are_rejected_with_a_bearer_challenge : test unit unit :=
  do! auth := token_auth in
  with_subject auth
    (do! '(_, refresh) := login in
     for_each ["Bearer " ++ refresh; "Bearer garbage"; "Bearer "] (fun authorization =>
       do! r := ws_handshake closed "/tcp:127.0.0.1:9" (Some authorization) in
       do! response := unwrap_err r in
       run! assert_eq (status response) 401%Z in
       let challenges := headers_get_all (headers response) WWW_AUTHENTICATE in
       run! assert_true (existsb (starts_with "Basic ") challenges) in
       assert_true (existsb (starts_with "Bearer ") challenges))).

Definition bearer (token : str) : option str := Some ("Bearer " ++ token).

Definition refresh_rotates_tokens_and_detects_reuse : test unit unit :=
  do! auth := token_auth in
  with_subject auth
    (do! '(access1, refresh1) := login in
     do! '(response, _) := raw_exchange (post "/auth/refresh" (bearer refresh1)) in
     run! assert_true (answers "200 OK" response) in
     do! access2 := json_field response "access_token" in
     do! refresh2 := json_field response "refresh_token" in
     run! assert_ne refresh1 refresh2 in
     do! r := ws_handshake closed "/" (bearer access2) in
     run! assert_true (is_ok r) in
     do! '(response, _) := raw_exchange (post "/auth/refresh" (bearer refresh1)) in
     run! assert_true (answers "401 Unauthorized" response) in
     run! assert_true (contains "error=\qinvalid_token\q" response) in
     do! '(response, _) := raw_exchange (post "/auth/refresh" (bearer refresh2)) in
     run! assert_true (answers "401 Unauthorized" response) in
     for_each [access1; access2] (fun access =>
       do! r := ws_handshake closed "/" (bearer access) in
       assert_eq (rejection r) (Some 401%Z))).

Definition refresh_and_revoke_need_a_bearer_credential : test unit unit :=
  do! auth := token_auth in
  with_subject auth
    (do! '(access, _) := login in
     for_each (["/auth/refresh"; "/auth/revoke"] : list str) (fun path =>
       for_each [None; Some ALICE; bearer access] (fun authorization =>
         do! '(response, _) := raw_exchange (post path authorization) in
         if bool_decide (path = "/auth/revoke")
            && match authorization with Some a => starts_with "Bearer" a | None => false end
         then
           run! assert_true (answers "204 No Content" response) in
           assert_true (negb (contains "content-length" response))
         else assert_true (answers "401 Unauthorized" response)))).

Definition revoke_logs_the_client_out : test unit unit :=
  do! auth := token_auth in
  with_subject auth
    (do! '(access, refresh) := login in
     do! r := ws_handshake closed "/" (bearer access) in
     run! assert_true (is_ok r) in
     do! '(response, _) := raw_exchange (post "/auth/revoke" (bearer refresh)) in
     run! assert_true (answers "204 No Content" response) in
     do! r := ws_handshake closed "/" (bearer access) in
     run! assert_eq (rejection r) (Some 401%Z) in
     do! '(response, _) := raw_exchange (post "/auth/refresh" (bearer refresh)) in
     assert_true (answers "401 Unauthorized" response)).

Definition basic_auth_is_still_accepted_next_to_tokens : test unit unit :=
  do! auth := token_auth in
  with_subject auth
    (do! r := ws_handshake closed "/tcp:127.0.0.1:9" (Some ALICE) in
     run! assert_true (is_ok r) in
     do! r := ws_handshake closed "/tcp:127.0.0.1:9" (Some WRONG) in
     assert_eq (rejection r) (Some 401%Z)).

(** ** The logs *)

(** How the test's [tracing_subscriber] lays a line out: the message, then the fields. *)
Definition line_text (line : LogLine) : str :=
  line_message line ++
  concat ((fun nv => " " ++ nv.1 ++ "=" ++ nv.2) <$> line_fields (fun _ => "error") (fun _ => "frame") line) ++ "\n".

(** What [LogCapture] holds after a connection from 127.0.0.1. *)
Definition captured (net : Network) (request : bytes) (trusted_proxies : TrustedProxies) :
    test unit str :=
  do! env := take_readings in
  do! peer := unwrap_some (parse_socket_addr "127.0.0.1:1") in
  ret (concat (line_text <$>
    connection_log ProxyTests.accept env None trusted_proxies peer [Ok request] net 1024
      (from_secs 1))).

(** Sends the request from 127.0.0.1 and returns the logs it produced. *)
Definition logs_of (request : str) (trusted_proxies : TrustedProxies) : test unit str :=
  do! result := with_subject None (spawn_server_behind trusted_proxies (upstream []) request) in
  run! expect_ok result.2 in
  captured (upstream []) request trusted_proxies.

Definition logs_the_client_address_from_a_trusted_proxy : test unit unit :=
  let request := "GET / HTTP/1.1\r\nHost: x\r\nX-Forwarded-For: 10.9.9.9, 203.0.113.7\r\n\r\n" in
  do! ranges := unwrap (loopback (E := Empty_set)) in
  do! logs := logs_of request (proxies_new ranges) in
  run! assert_true (contains "peer=203.0.113.7" logs) in
  run! assert_true (negb (contains "10.9.9.9" logs)) in
  assert_true (negb (contains "127.0.0.1" logs)).

Definition logs_the_peer_address_when_the_proxy_is_not_trusted : test unit unit :=
  let request := "GET / HTTP/1.1\r\nHost: x\r\nX-Forwarded-For: 203.0.113.7\r\n\r\n" in
  do! logs := logs_of request [] in
  run! assert_true (contains "peer=127.0.0.1:1" logs) in
  run! assert_true (negb (contains "203.0.113.7" logs)) in
  do! range := unwrap (range_from_str "10.0.0.0/8") in
  do! logs := logs_of request (proxies_new [range]) in
  assert_true (contains "peer=127.0.0.1:1" logs).

Definition logs_a_websocket_handshake_under_the_forwarded_address_too : test unit unit :=
  let request := client_head "/" [("x-forwarded-for" : str, "203.0.113.7" : str)] in
  do! ranges := unwrap (loopback (E := Empty_set)) in
  do! result := with_subject None (spawn_server_with_auth (upstream []) request) in
  do! r := client_async result in
  run! unwrap r in
  run! expect_ok result.2 in
  do! logs := captured (upstream []) request (proxies_new ranges) in
  run! assert_true (contains "websocket health check" logs) in
  assert_true (contains "peer=203.0.113.7" logs).

Definition proxy_tests : list (test unit unit) :=
  [root_path_health_check_completes_handshake_and_closes;
   invalid_path_is_rejected_with_bad_request; plain_http_get_root_returns_health_check_message;
   plain_http_head_root_omits_body; plain_http_health_check_requires_auth_when_enabled;
   token_endpoints_do_not_exist_without_a_token_service; login_needs_valid_basic_credentials;
   token_endpoints_accept_only_post_without_a_body; access_token_authorizes_a_proxy_request;
   invalid_access_tokens_are_rejected_with_a_bearer_challenge;
   refresh_rotates_tokens_and_detects_reuse; refresh_and_revoke_need_a_bearer_credential;
   revoke_logs_the_client_out; basic_auth_is_still_accepted_next_to_tokens;
   logs_the_client_address_from_a_trusted_proxy;
   logs_the_peer_address_when_the_proxy_is_not_trusted;
   logs_a_websocket_handshake_under_the_forwarded_address_too].

Example proxy_tests_pass : forallb passes proxy_tests = true.
Proof. vm_compute. reflexivity. Qed.
